(** * build-tracer: compiler-call reconstruction, verified model

    A shallow embedding of [build-tracer-rpmbuild.py]: the compiler matcher
    (version comparison, default-standard tables, source metadata, the
    preprocessor command rewrite), the compiler-call prefilter, the strace
    line parser, the trace store and the process walker.

    Python [str] values are modelled as [string], i.e. sequences of
    characters with code points below 256 (what the tracer's latin-1
    decoding produces).  Python exceptions are modelled by the [result]
    type: [Raise e] records which exception ended the call. *)

From Stdlib Require Import ZArith String Ascii List Bool Lia Sorted.
From Stdlib Require QArith.
From stdpp Require Import base option list strings gmap.

Open Scope string_scope.
Open Scope list_scope.
Open Scope Z_scope.

(* ===================================================================== *)
(** ** Exceptions *)
(* ===================================================================== *)

Inductive exn : Set :=
| IndexError
| KeyError
| ValueError
| AssertionError
| AttributeError
| TypeError
| NotImplementedError
| RecursionError.

Inductive result (A : Type) : Type :=
| Ok (a : A)
| Raise (e : exn).

Arguments Ok {A} a.
Arguments Raise {A} e.

#[global] Instance result_ret : MRet result := fun _ a => Ok a.
#[global] Instance result_bind : MBind result := fun _ _ f m =>
  match m with
  | Ok a => f a
  | Raise e => Raise e
  end.
#[global] Instance result_fmap : FMap result := fun _ _ f m =>
  match m with
  | Ok a => Ok (f a)
  | Raise e => Raise e
  end.

(** [o or_raise e]: the value of a lookup, or the exception it raises. *)
Definition or_raise {A} (o : option A) (e : exn) : result A :=
  match o with
  | Some a => Ok a
  | None => Raise e
  end.

(** [mapM] over a list, stopping at the first exception (a Python
    [map]/comprehension whose body may raise). *)
Fixpoint result_mapM {A B} (f : A -> result B) (l : list A) : result (list B) :=
  match l with
  | [] => Ok []
  | x :: l' => y ← f x; ys ← result_mapM f l'; Ok (y :: ys)
  end.

(* ===================================================================== *)
(** ** Python string primitives *)
(* ===================================================================== *)

Module PyStr.

Definition code (c : ascii) : nat := nat_of_ascii c.

(** [str.isspace] on code points below 256. *)
Definition is_space (c : ascii) : bool :=
  let n := code c in
  ((9 <=? n) && (n <=? 13) || (28 <=? n) && (n <=? 32)
   || (n =? 133) || (n =? 160))%nat.

Definition is_digit (c : ascii) : bool :=
  let n := code c in ((48 <=? n) && (n <=? 57))%nat.

Definition digit_val (c : ascii) : Z := Z.of_nat (code c) - 48.

(** [s.lstrip(chars)], [s.rstrip(chars)], [s.strip(chars)] with the set
    of characters given as a predicate. *)
Fixpoint lstrip_by (p : ascii -> bool) (s : string) : string :=
  match s with
  | EmptyString => EmptyString
  | String c s' => if p c then lstrip_by p s' else s
  end.

Fixpoint rstrip_by (p : ascii -> bool) (s : string) : string :=
  match s with
  | EmptyString => EmptyString
  | String c s' =>
      let r := rstrip_by p s' in
      if String.eqb r "" && p c then "" else String c r
  end.

Definition strip_by (p : ascii -> bool) (s : string) : string :=
  rstrip_by p (lstrip_by p s).

Definition rstrip : string -> string := rstrip_by is_space.
Definition strip : string -> string := strip_by is_space.

(** [s.split(sep)] for a one-character separator: never empty. *)
Fixpoint split (sep : ascii) (s : string) : list string :=
  match s with
  | EmptyString => [EmptyString]
  | String c s' =>
      if Ascii.eqb c sep then EmptyString :: split sep s'
      else match split sep s' with
           | [] => [String c EmptyString]
           | h :: t => String c h :: t
           end
  end.

(** [s.split(sep)] for a separator of one or more characters: [skip]
    counts the characters of a separator occurrence still to pass. *)
Fixpoint split_str_from (sep : string) (s : string) (skip : nat) : list string :=
  match s with
  | EmptyString => [EmptyString]
  | String c s' =>
      match skip with
      | S k =>
          split_str_from sep s' k
      | O =>
          if String.prefix sep s
          then EmptyString :: split_str_from sep s' (String.length sep - 1)
          else match split_str_from sep s' O with
               | [] => [String c EmptyString]
               | h :: t => String c h :: t
               end
      end
  end.

Definition split_str (sep : string) (s : string) : list string :=
  split_str_from sep s O.

(** [s.split(sep, 1)] for a one-character separator. *)
Fixpoint split1 (sep : ascii) (s : string) : list string :=
  match s with
  | EmptyString => [EmptyString]
  | String c s' =>
      if Ascii.eqb c sep then [EmptyString; s']
      else match split1 sep s' with
           | h :: t => String c h :: t
           | [] => [String c EmptyString]
           end
  end.

(** [needle in hay] for strings. *)
Fixpoint contains (needle hay : string) : bool :=
  String.prefix needle hay ||
  match hay with
  | EmptyString => false
  | String _ hay' => contains needle hay'
  end.

(** The digit part of an [int()] literal: decimal digits, single
    underscores allowed between digits. *)
Fixpoint int_digits (s : string) (acc : Z) (after_digit : bool) : option Z :=
  match s with
  | EmptyString => if after_digit then Some acc else None
  | String c s' =>
      if is_digit c then int_digits s' (10 * acc + digit_val c) true
      else if Ascii.eqb c "_" then
             if after_digit then int_digits s' acc false else None
      else None
  end.

(** The whitespace [int()] skips around its literal: unlike [str.strip]
    it does not skip the separators 28 to 31. *)
Definition is_int_space (c : ascii) : bool :=
  let n := code c in
  ((9 <=? n) && (n <=? 13) || (n =? 32) || (n =? 133) || (n =? 160))%nat.

(** [int(s)] in base 10: surrounding whitespace, an optional sign, the
    digits.  Anything else is a [ValueError].  (The interpreter's
    configurable cap on the number of digits is not part of the model.) *)
Definition int (s : string) : result Z :=
  match strip_by is_int_space s with
  | String "+" r => or_raise (int_digits r 0 false) ValueError
  | String "-" r => or_raise (Z.opp <$> int_digits r 0 false) ValueError
  | t => or_raise (int_digits t 0 false) ValueError
  end.

End PyStr.

(** Lookup in a dict literal written as a list of key/value pairs. *)
Fixpoint dict_get {K V} `{EqDecision K} (k : K) (d : list (K * V)) : option V :=
  match d with
  | [] => None
  | (k', v) :: d' => if decide (k = k') then Some v else dict_get k d'
  end.

(** [d[k] = v]: a key already present keeps its place in the order. *)
Fixpoint dict_set {K V} `{EqDecision K} (k : K) (v : V) (d : list (K * V)) : list (K * V) :=
  match d with
  | [] => [(k, v)]
  | (k', v') :: d' =>
      if decide (k = k') then (k', v) :: d' else (k', v') :: dict_set k v d'
  end.

(** The dynamically typed values found in [SysCallEntity.args]. *)
#[local] Unset Elimination Schemes.
Inductive pyval : Type :=
| PyNone
| PyStr (s : string)
| PyInt (z : Z)
| PyList (l : list pyval)
| PyTuple (l : list pyval)
| PyDict (d : list (string * pyval)).
#[local] Set Elimination Schemes.

Definition of_opt_str (o : option string) : pyval :=
  match o with
  | Some s => PyStr s
  | None => PyNone
  end.

(** Reading a value where the program needs a string, a list of strings,
    an element of a tuple or list, an entry of a dict. *)
Definition as_str (v : pyval) : result string :=
  match v with
  | PyStr s => Ok s
  | _ => Raise TypeError
  end.

Definition as_str_list (v : pyval) : result (list string) :=
  match v with
  | PyList l => result_mapM as_str l
  | _ => Raise TypeError
  end.

Definition item (v : pyval) (i : nat) : result pyval :=
  match v with
  | PyList l | PyTuple l => or_raise (l !! i) IndexError
  | _ => Raise TypeError
  end.

Definition entry (v : pyval) (k : string) : result pyval :=
  match v with
  | PyDict d => or_raise (dict_get k d) KeyError
  | _ => Raise TypeError
  end.

(* ===================================================================== *)
(** ** Interpreter primitives left abstract *)
(* ===================================================================== *)

(** [float], its [<], the conversion [float(s)] of a decimal literal, and
    the [unicode-escape] codec are the interpreter's.  The tracer only
    compares, takes minima and maxima of, and sorts by the floats it reads
    from timestamps of the shape digits, dot, digits. *)
Class PyRuntime : Type := {
  float : Type;
  float_of_str : string -> float;
  float_lt : float -> float -> bool;
  unicode_escape_decode : string -> result string
}.

(** Floats read from such literals are never NaN, so [<] is a strict weak
    order on them. *)
Class PyRuntimeLaws (R : PyRuntime) : Prop := {
  float_lt_irrefl : forall a : float, float_lt a a = false;
  float_lt_trans : forall a b c : float,
      float_lt a b = true -> float_lt b c = true -> float_lt a c = true;
  float_le_trans : forall a b c : float,
      float_lt b a = false -> float_lt c b = false -> float_lt c a = false
}.

(** [min(a, b)] and [max(a, b)] return the first argument unless the second
    is strictly better. *)
Definition float_min `{PyRuntime} (a b : float) : float :=
  if float_lt b a then b else a.
Definition float_max `{PyRuntime} (a b : float) : float :=
  if float_lt a b then b else a.

(** [l.sort(key=key)]: the sort is stable, so its result is that of the
    stable insertion sort. *)
Section Sort.
Context {A K : Type} (key : A -> K) (lt : K -> K -> bool).

Fixpoint sort_insert (x : A) (l : list A) : list A :=
  match l with
  | [] => [x]
  | y :: l' => if lt (key y) (key x) then y :: sort_insert x l' else x :: y :: l'
  end.

Fixpoint list_sort (l : list A) : list A :=
  match l with
  | [] => []
  | x :: l' => sort_insert x (list_sort l')
  end.

(** [a] may come before [b]: the key of [b] is not below that of [a]. *)
Definition key_le (a b : A) : Prop := lt (key b) (key a) = false.
End Sort.

(* ===================================================================== *)
(** ** Regular expressions (the subset of [re] the tracer uses) *)
(* ===================================================================== *)

Module Re.

(** Pattern syntax.  [RStar true r] is the greedy [r*], [RStar false r]
    the lazy [r*?]; [RGroup n r] is [(?P<n>r)]; [REol] is [$].  Groups
    without a name are never read by the program and are written as
    plain sub-patterns. *)
Inductive regex : Type :=
| RChar (p : ascii -> bool)
| REps
| RSeq (r1 r2 : regex)
| RAlt (r1 r2 : regex)
| RStar (greedy : bool) (r : regex)
| RGroup (name : string) (r : regex)
| REol.

(** Named groups that took part in the match, latest binding first. *)
Definition groups := list (string * string).

Definition chr (c : ascii) : regex := RChar (Ascii.eqb c).
Definition any : regex := RChar (fun c => negb (Ascii.eqb c "010")).
Definition digit : regex := RChar PyStr.is_digit.
Definition space : regex := RChar PyStr.is_space.
Definition range (lo hi : ascii) : regex :=
  RChar (fun c => (PyStr.code lo <=? PyStr.code c)%nat
                  && (PyStr.code c <=? PyStr.code hi)%nat).
Definition upper : regex := range "A" "Z".
Definition hex : regex :=
  RChar (fun c => PyStr.is_digit c
                  || (65 <=? PyStr.code c)%nat && (PyStr.code c <=? 70)%nat
                  || (97 <=? PyStr.code c)%nat && (PyStr.code c <=? 102)%nat).
Definition not_chr (c : ascii) : regex := RChar (fun d => negb (Ascii.eqb c d)).

Fixpoint lit (s : string) : regex :=
  match s with
  | EmptyString => REps
  | String c s' => RSeq (chr c) (lit s')
  end.

Definition star (r : regex) : regex := RStar true r.
Definition plus (r : regex) : regex := RSeq r (RStar true r).
Definition opt (r : regex) : regex := RAlt r REps.

Fixpoint seq (rs : list regex) : regex :=
  match rs with
  | [] => REps
  | [r] => r
  | r :: rs' => RSeq r (seq rs')
  end.

Fixpoint alt (rs : list regex) : regex :=
  match rs with
  | [] => RChar (fun _ => false)
  | [r] => r
  | r :: rs' => RAlt r (alt rs')
  end.

(** Backtracking matcher in continuation-passing style: alternatives are
    tried left to right, a greedy star tries one more iteration before
    giving up the loop, a lazy star the other way round.  An iteration
    of a star must consume input. *)
Fixpoint run (r : regex) (s : string) (g : groups)
         (k : string -> groups -> option groups) {struct r} : option groups :=
  match r with
  | RChar p =>
      match s with
      | String c s' => if p c then k s' g else None
      | EmptyString => None
      end
  | REps => k s g
  | RSeq r1 r2 => run r1 s g (fun s' g' => run r2 s' g' k)
  | RAlt r1 r2 =>
      match run r1 s g k with
      | Some g' => Some g'
      | None => run r2 s g k
      end
  | RStar greedy r1 =>
      (fix loop (n : nat) (s : string) (g : groups) {struct n} : option groups :=
         match n with
         | O => k s g
         | S n' =>
             let more :=
               run r1 s g (fun s' g' =>
                 if (String.length s' <? String.length s)%nat
                 then loop n' s' g' else None) in
             if greedy then
               match more with Some g' => Some g' | None => k s g end
             else
               match k s g with Some g' => Some g' | None => more end
         end) (S (String.length s)) s g
  | RGroup name r1 =>
      run r1 s g (fun s' g' =>
        k s' ((name, String.substring 0 (String.length s - String.length s') s) :: g'))
  | REol =>
      if String.eqb s "" || String.eqb s (String "010" "") then k s g else None
  end.

(** [re.match(r, s)]: the pattern must match at the start of [s]. *)
Definition match_ (r : regex) (s : string) : option groups :=
  run r s [] (fun _ g => Some g).

(** [m.group(name)]: [None] when the group took no part in the match. *)
Definition group (g : groups) (name : string) : option string :=
  dict_get name g.

End Re.

(* ===================================================================== *)
(** ** Languages *)
(* ===================================================================== *)

Module Language.

Inductive FileType : Set := SOURCE | HEADER | MODULE.

Inductive ID : Set := C | CXX.

#[global] Instance FileType_eq_dec : EqDecision FileType.
Proof. solve_decision. Defined.
#[global] Instance ID_eq_dec : EqDecision ID.
Proof. solve_decision. Defined.

(** The enum's string value, as it is written to the manifest. *)
Definition value (l : ID) : string :=
  match l with C => "c" | CXX => "c++" end.

Definition source_exts : list (string * (FileType * list ID)) :=
  [ (".c",    (SOURCE, [C]));
    (".h",    (HEADER, [C; CXX]));
    (".C",    (SOURCE, [CXX]));
    (".c++",  (SOURCE, [CXX]));
    (".cc",   (SOURCE, [CXX]));
    (".cpp",  (SOURCE, [CXX]));
    (".cxx",  (SOURCE, [CXX]));
    (".H",    (HEADER, [CXX]));
    (".h++",  (HEADER, [CXX]));
    (".hh",   (HEADER, [CXX]));
    (".hpp",  (HEADER, [CXX]));
    (".hxx",  (HEADER, [CXX]));
    (".ipp",  (HEADER, [CXX]));
    (".cppm", (MODULE, [CXX]));
    (".ixx",  (MODULE, [CXX])) ].

End Language.

(* ===================================================================== *)
(** ** Paths: [os.path.splitext] and [pathlib.PurePosixPath] *)
(* ===================================================================== *)

Module PosixPath.

(** [s.rfind(c)]: the last index of [c], or -1. *)
Fixpoint rfind_from (c : ascii) (s : string) (i : Z) (last : Z) : Z :=
  match s with
  | EmptyString => last
  | String d s' => rfind_from c s' (i + 1) (if Ascii.eqb d c then i else last)
  end.

Definition rfind (c : ascii) (s : string) : Z := rfind_from c s 0 (-1).

(** The [while filenameIndex < dotIndex] loop of [genericpath._splitext]:
    [true] when a character other than the dot is met before [dotIndex]. *)
Fixpoint skip_leading_dots (p : string) (filenameIndex : nat) (steps : nat) : bool :=
  match steps with
  | O => false
  | S steps' =>
      match String.get filenameIndex p with
      | Some "."%char => skip_leading_dots p (S filenameIndex) steps'
      | _ => true
      end
  end.

Definition splitext (p : string) : string * string :=
  let sepIndex := rfind "/" p in
  let dotIndex := rfind "." p in
  if (sepIndex <? dotIndex)
     && skip_leading_dots p (Z.to_nat (sepIndex + 1))
                          (Z.to_nat (dotIndex - (sepIndex + 1)))
  then (String.substring 0 (Z.to_nat dotIndex) p,
        String.substring (Z.to_nat dotIndex)
                         (String.length p - Z.to_nat dotIndex) p)
  else (p, "").

End PosixPath.

(** A pure POSIX path, kept the way [pathlib] keeps it: the root (empty,
    one slash or two slashes) and the components, none of which is empty
    or a single dot.  A component of two dots is kept as it is. *)
Record Path : Type := mkPath {
  root : string;
  parts : list string
}.

#[global] Instance Path_eq_dec : EqDecision Path.
Proof. solve_decision. Defined.

Module PurePath.

(** [posixpath.splitroot] *)
Definition splitroot (p : string) : string * string :=
  match p with
  | String "/" (String "/" (String "/" _)) => ("/", String.substring 1 (String.length p - 1) p)
  | String "/" (String "/" rel) => ("//", rel)
  | String "/" rel => ("/", rel)
  | _ => ("", p)
  end.

Definition keep_part (x : string) : bool :=
  negb (String.eqb x "") && negb (String.eqb x ".").

(** [Path(s)] *)
Definition of_str (s : string) : Path :=
  let '(r, rel) := splitroot s in
  mkPath r (List.filter keep_part (PyStr.split "/" rel)).

(** [a / b]: an absolute right operand replaces the left one. *)
Definition join (a b : Path) : Path :=
  if String.eqb (root b) "" then mkPath (root a) (parts a ++ parts b)
  else b.

Fixpoint join_parts (l : list string) : string :=
  match l with
  | [] => ""
  | [x] => x
  | x :: l' => x +:+ "/" +:+ join_parts l'
  end.

(** [str(p)] *)
Definition to_str (p : Path) : string :=
  match root p, parts p with
  | EmptyString, [] => "."
  | r, l => r +:+ join_parts l
  end.

End PurePath.

(* ===================================================================== *)
(** ** Compilers *)
(* ===================================================================== *)

Record CompilerId : Type := mkCompilerId {
  cid_id : string;
  cid_like : option string;
  cid_version : string
}.

#[global] Instance CompilerId_eq_dec : EqDecision CompilerId.
Proof. solve_decision. Defined.

(** [CompilerId.ids] *)
Definition ids (c : CompilerId) : list string :=
  match cid_like c with
  | None => [cid_id c]
  | Some l => [cid_id c; l]
  end.

Record CompilerCommand : Type := mkCommand {
  cwd : Path;
  compiler : CompilerId;
  executable : string;
  args : list string
}.

#[global] Instance CompilerCommand_eq_dec : EqDecision CompilerCommand.
Proof. solve_decision. Defined.

(** [CompilerCommand.as_tuple] *)
Definition as_tuple (c : CompilerCommand) : Path * CompilerId * string * list string :=
  (cwd c, compiler c, executable c, args c).

Record SourceFileCompilerMetadata : Type := mkMeta {
  lang : Language.ID;
  standard : string
}.

(* ===================================================================== *)
(** ** Mutable objects *)
(* ===================================================================== *)

(** [CompilerCommand] is a mutable dataclass whose [args] is a mutable
    list: where a command is copied and rewritten, commands and lists live
    in a store and are named by references.  The record [CompilerCommand]
    above is the value of such an object at one moment. *)
Module Heap.

Abbreviation loc := nat.

Inductive obj : Type :=
| OList (l : list string)
| OCommand (cwd : Path) (compiler : CompilerId) (executable : string) (args : loc).

Abbreviation heap := (gmap nat obj).

(** Computations that read and write the store and may raise. *)
Definition M (A : Type) : Type := heap -> result A * heap.

Definition ret {A} (a : A) : M A := fun h => (Ok a, h).
Definition raise {A} (e : exn) : M A := fun h => (Raise e, h).
Definition bind {A B} (m : M A) (f : A -> M B) : M B :=
  fun h => match m h with
           | (Ok a, h') => f a h'
           | (Raise e, h') => (Raise e, h')
           end.

Definition alloc (o : obj) : M loc :=
  fun h => let l := fresh (dom h) in (Ok l, <[l := o]> h).

Definition read_list (l : loc) : M (list string) :=
  fun h => match h !! l with
           | Some (OList xs) => (Ok xs, h)
           | _ => (Raise TypeError, h)
           end.

Definition write_list (l : loc) (xs : list string) : M unit :=
  fun h => match h !! l with
           | Some (OList _) => (Ok tt, <[l := OList xs]> h)
           | _ => (Raise TypeError, h)
           end.

Definition read_command (c : loc) : M (Path * CompilerId * string * loc) :=
  fun h => match h !! c with
           | Some (OCommand w i e a) => (Ok (w, i, e, a), h)
           | _ => (Raise TypeError, h)
           end.

(** [c.args = a]: the attribute is bound to another list object. *)
Definition set_args (c : loc) (a : loc) : M unit :=
  fun h => match h !! c with
           | Some (OCommand w i e _) => (Ok tt, <[c := OCommand w i e a]> h)
           | _ => (Raise TypeError, h)
           end.

(** The value of the command object at [c]. *)
Definition load (h : heap) (c : loc) : option CompilerCommand :=
  match h !! c with
  | Some (OCommand w i e a) =>
      match h !! a with
      | Some (OList xs) => Some (mkCommand w i e xs)
      | _ => None
      end
  | _ => None
  end.

(** [copy.deepcopy(c)]: a new command object with a new list. *)
Definition deepcopy (c : loc) : M loc :=
  bind (read_command c) (fun '(w, i, e, a) =>
  bind (read_list a) (fun xs =>
  bind (alloc (OList xs)) (fun a' =>
  alloc (OCommand w i e a')))).

End Heap.

Module CompilerMatcher.
Import Language.

(** *** version_compare *)

Definition versiontuple (v : string) : result (list Z) :=
  result_mapM PyStr.int (PyStr.split "." v).

(** Python's [==] and [<] on tuples of integers. *)
Fixpoint tuple_eqb (x y : list Z) : bool :=
  match x, y with
  | [], [] => true
  | a :: x', b :: y' => (a =? b) && tuple_eqb x' y'
  | _, _ => false
  end.

Fixpoint tuple_ltb (x y : list Z) : bool :=
  match x, y with
  | [], [] => false
  | [], _ :: _ => true
  | _ :: _, [] => false
  | a :: x', b :: y' => if a =? b then tuple_ltb x' y' else a <? b
  end.

Definition version_compare_tuples (at_ bt : list Z) : Z :=
  let at_l := length at_ in
  let bt_l := length bt in
  let m_l := Nat.max at_l bt_l in
  let at' := at_ ++ repeat 0 (m_l - at_l)%nat in
  let bt' := bt ++ repeat 0 (m_l - bt_l)%nat in
  if tuple_eqb at' bt' then 0
  else if tuple_ltb at' bt' then -1
  else 1.

Definition version_compare (a b : string) : result Z :=
  at_ ← versiontuple a;
  bt ← versiontuple b;
  Ok (version_compare_tuples at_ bt).

(** *** Standards tables *)

(** A row: the least version it applies to ([None] for the first row)
    and the standard of each language. *)
Abbreviation std_row := (option string * list (ID * string))%type.

Definition std_default : list (string * list std_row) :=
  [ ("lcc",
     [ (None,          [(C, "gnu18"); (CXX, "gnu++14")]);
       (Some "1.28.0", [(C, "gnu18"); (CXX, "gnu++17")]) ]);
    ("gcc",
     [ (None,          [(C, "gnu90"); (CXX, "gnu++98")]);
       (Some "5.0.0",  [(C, "gnu11"); (CXX, "gnu++98")]);
       (Some "6.0.0",  [(C, "gnu11"); (CXX, "gnu++14")]);
       (Some "11.0.0", [(C, "gnu17"); (CXX, "gnu++17")]);
       (Some "15.0.0", [(C, "gnu23"); (CXX, "gnu++17")]) ]);
    ("clang",
     [ (None,          [(C, "gnu99"); (CXX, "gnu++98")]);
       (Some "3.6.0",  [(C, "gnu11"); (CXX, "gnu++98")]);
       (Some "6.0.0",  [(C, "gnu11"); (CXX, "gnu++14")]);
       (Some "11.0.0", [(C, "gnu17"); (CXX, "gnu++14")]);
       (Some "16.0.0", [(C, "gnu17"); (CXX, "gnu++17")]) ]) ].

Definition std_ansi : list (string * list (ID * string)) :=
  [ ("lcc",   [(C, "c89"); (CXX, "c++98")]);
    ("gcc",   [(C, "c90"); (CXX, "c++98")]);
    ("clang", [(C, "c89")]) ].

(** Truth value of [data[i][0]]: [None] and the empty string are false. *)
Definition min_version (r : std_row) : option string :=
  match fst r with
  | Some EmptyString => None
  | o => o
  end.

(** The [while data[i][0]] loop, entered at index [i].  When the row at
    index 0 is versioned and does not qualify, [i] becomes negative: the
    negative indices read the same rows again, which again do not
    qualify, until [data[-len-1]] raises [IndexError]. *)
Fixpoint default_std_loop (data : list std_row) (version : string) (lang : ID)
         (i : nat) : result string :=
  row ← or_raise (data !! i) IndexError;
  match min_version row with
  | Some v =>
      c ← version_compare v version;
      if c <=? 0 then or_raise (dict_get lang (snd row)) KeyError
      else match i with
           | S i' => default_std_loop data version lang i'
           | O => Raise IndexError
           end
  | None =>
      row0 ← or_raise (data !! 0%nat) IndexError;
      or_raise (dict_get lang (snd row0)) KeyError
  end.

Definition get_default_std (compiler : CompilerId) (lang : ID) : result string :=
  data ← or_raise (dict_get (cid_id compiler) std_default) KeyError;
  default_std_loop data (cid_version compiler) lang (length data - 1).

Definition get_ansi_std (compiler : CompilerId) (lang : ID) : result (option string) :=
  d ← or_raise (dict_get (cid_id compiler) std_ansi) KeyError;
  Ok (dict_get lang d).

(** *** Sources and their metadata *)

Definition is_source_arg (arg : string) : bool :=
  match dict_get (snd (PosixPath.splitext arg)) source_exts with
  | Some (SOURCE, _) => true
  | _ => false
  end.

Definition get_sources_from_args (cc_command : CompilerCommand) : list string :=
  List.filter is_source_arg (args cc_command).

(** The pattern [^-?-std=(?P<std> .* )$] (read without the blanks). *)
Definition re_std : Re.regex :=
  Re.seq [ Re.opt (Re.chr "-"); Re.lit "-std=";
           Re.RGroup "std" (Re.star Re.any); Re.REol ].

(** The [for i, arg in enumerate(args)] loop that looks for the standard:
    [todo] is what is left of [args] from index [i] on. *)
Fixpoint find_std (args : list string) (i : nat) (todo : list string)
  : result (option string) :=
  match todo with
  | [] => Ok None
  | arg :: todo' =>
      match Re.match_ re_std arg with
      | Some m => Ok (Re.group m "std")
      | None =>
          if String.eqb arg "--std"
          then x ← or_raise (args !! (i + 1)%nat) IndexError; Ok (Some x)
          else find_std args (S i) todo'
      end
  end.

Definition lang_of_std (std : string) : ID :=
  if PyStr.contains "++" std then CXX else C.

Definition get_source_metadata (cc_command : CompilerCommand) (source : string)
  : result SourceFileCompilerMetadata :=
  std ← find_std (args cc_command) 0 (args cc_command);
  let std_lang := lang_of_std <$> std in
  arg0 ← or_raise (args cc_command !! 0%nat) IndexError;
  let frontend_lang := if PyStr.contains "++" arg0 then CXX else C in
  ext_meta ← or_raise (dict_get (snd (PosixPath.splitext source)) source_exts) KeyError;
  file_lang ← or_raise (snd ext_meta !! 0%nat) IndexError;
  if negb (bool_decide (fst ext_meta = SOURCE)) then Raise AssertionError else
  let ret_lang := if bool_decide (frontend_lang = CXX) then CXX else file_lang in
  let ret_std :=
    match std_lang with
    | Some l => if bool_decide (l = ret_lang) then std else None
    | None => std
    end in
  ret_std ←
    (if bool_decide (ret_std = None) && bool_decide (std = None)
        && bool_decide ("-ansi" ∈ args cc_command)
     then get_ansi_std (compiler cc_command) ret_lang
     else Ok ret_std);
  ret_std ←
    match ret_std with
    | None => get_default_std (compiler cc_command) ret_lang
    | Some s => Ok s
    end;
  Ok (mkMeta ret_lang ret_std).

(** *** The preprocessor command *)

(** [l.index(x)] *)
Fixpoint list_index (x : string) (l : list string) : option nat :=
  match l with
  | [] => None
  | y :: l' => if String.eqb y x then Some O else S <$> list_index x l'
  end.

(** [l[i:j] = e] for [i <= j]; the bounds are clipped to the length. *)
Definition slice_assign (l : list string) (i j : nat) (e : list string) : list string :=
  take i l ++ e ++ drop j l.

Definition known_preprocessors : list string := ["lcc"; "gcc"; "clang"].

(** The body of [for id in preprocessed_command.compiler.ids()]; the
    result tells whether the loop was left by [break]. *)
Fixpoint rewrite_loop (ids : list string) (pargs : Heap.loc) (o_idx : option nat)
         (preprocessed_result_file : Path) (source_idx : nat)
         (sources_in_args : list string) : Heap.M bool :=
  match ids with
  | [] => Heap.ret false
  | id :: ids' =>
      if bool_decide (id ∈ known_preprocessors) then
        Heap.bind (Heap.read_list pargs) (fun xs =>
        if bool_decide ("-E" ∈ xs) then Heap.raise ValueError else
        let e_args := ["-E"; "-o"; PurePath.to_str preprocessed_result_file] in
        Heap.bind (Heap.write_list pargs
                     match o_idx with
                     | Some o => slice_assign xs o (o + 2) e_args
                     | None => slice_assign xs 1 1 e_args
                     end) (fun _ =>
        match sources_in_args !! source_idx with
        | None => Heap.raise IndexError
        | Some src =>
            Heap.bind (Heap.read_list pargs) (fun ys =>
            Heap.bind (Heap.write_list pargs (ys ++ [src])) (fun _ =>
            Heap.ret true))
        end))
      else rewrite_loop ids' pargs o_idx preprocessed_result_file source_idx
                        sources_in_args
  end.

Definition make_preprocessor_command (cc_command : Heap.loc)
           (preprocessed_result_file : Path) (source_idx : nat)
           (sources_in_args : list string) : Heap.M Heap.loc :=
  Heap.bind (Heap.deepcopy cc_command) (fun preprocessed_command =>
  Heap.bind (Heap.read_command preprocessed_command) (fun '(_, cid, _, a) =>
  Heap.bind (Heap.read_list a) (fun xs =>
  Heap.bind (Heap.alloc
               (Heap.OList (List.filter
                  (fun arg => negb (bool_decide (arg ∈ sources_in_args))) xs)))
            (fun pargs =>
  Heap.bind (Heap.set_args preprocessed_command pargs) (fun _ =>
  Heap.bind (Heap.read_list pargs) (fun ys =>
  let o_idx := list_index "-o" ys in
  Heap.bind (rewrite_loop (ids cid) pargs o_idx preprocessed_result_file
                          source_idx sources_in_args) (fun known =>
  if known then Heap.ret preprocessed_command
  else Heap.raise AssertionError))))))).

End CompilerMatcher.

(* ===================================================================== *)
(** ** The strace parser *)
(* ===================================================================== *)

Module SysCallEntity.
Record t `{PyRuntime} : Type := mk {
  ts : float;
  name : string;
  returnvalue : Z;
  returnfile : option string;
  error : option (string * string);
  args_raw : option string;
  args : list pyval
}.
End SysCallEntity.

Module ProcTrace.
Record t `{PyRuntime} : Type := mk {
  pid : Z;
  cwd : option Path;
  ts_start : option float;
  ts_end : option float;
  exitcode : option Z;
  killedby : option string;
  syscall : list SysCallEntity.t
}.
End ProcTrace.

Module SysCallFilter.
(** Failed system calls are not kept. *)
Definition allow `{PyRuntime} (syscall : SysCallEntity.t) : bool :=
  if SysCallEntity.returnvalue syscall <? 0 then false else true.
End SysCallFilter.

Module StraceParser.
Import Re.

Definition dq : ascii := "034".
Definition bs : ascii := "092".

(** A run of escaped bytes: backslash, x, two hexadecimal digits. *)
Definition xstr : regex := star (seq [chr bs; chr "x"; hex; hex]).
(** An escaped string between double quotes, and a comma-separated
    sequence of them. *)
Definition qxstr : regex := seq [chr dq; xstr; chr dq].
Definition qxstr_list : regex := seq [qxstr; star (seq [lit ", "; qxstr])].
Definition int_lit : regex := seq [opt (chr "-"); plus digit].
Definition oflag : regex :=
  seq [lit "O_"; plus upper; star (seq [lit "|O_"; plus upper])].
Definition cwdfd : regex := alt [plus digit; lit "AT_FDCWD"].

Definition syscall_names : list string :=
  [ "chdir"; "fork"; "vfork"; "clone"; "clone2"; "clone3"; "execve";
    "execveat"; "fchdir"; "open"; "openat"; "openat2" ].

(** A line of the trace: timestamp, then a kill notice, an exit notice, or
    a system call with its arguments and result. *)
Definition regex_line : regex :=
  seq [ RGroup "timestamp" (seq [plus digit; chr "."; plus digit]); space;
        alt [ seq [ lit "+++ killed by "; RGroup "killedby" (plus upper); chr " ";
                    opt (lit "(core dumped) "); lit "+++" ];
              seq [ lit "+++ exited with "; RGroup "exitcode" int_lit; lit " +++" ];
              seq [ RGroup "syscall" (alt (List.map lit syscall_names));
                    chr "("; RGroup "args" (star any); chr ")";
                    plus space; chr "="; plus space;
                    RGroup "returnvalue" int_lit;
                    opt (alt [ seq [ chr "<"; RGroup "returnfile" (star any); chr ">" ];
                               seq [ chr " "; RGroup "errno" (plus upper); lit " (";
                                     RGroup "errstr" (star any); chr ")" ] ]) ] ];
        REol ].

Definition regex_syscall_execve_args : regex :=
  seq [ chr dq; RGroup "path" xstr; chr dq; lit ", [";
        RGroup "argv" qxstr_list; opt (lit "..."); lit "], ";
        alt [ seq [ chr "["; RGroup "env" qxstr_list; opt (lit "..."); chr "]" ];
              RGroup "envph" (seq [ lit "0x"; plus hex; lit " /* "; plus digit;
                                    lit " vars */" ]) ];
        REol ].

Definition regex_syscall_chdir_args : regex :=
  seq [ chr dq; RGroup "path" xstr; chr dq; REol ].

Definition regex_syscall_fchdir_args : regex :=
  seq [ RGroup "fd" (plus digit); chr "<"; RGroup "path" xstr; chr ">"; REol ].

Definition regex_syscall_open_args : regex :=
  seq [ chr dq; RGroup "path" xstr; chr dq; lit ", "; RGroup "oflag" oflag;
        opt (seq [lit ", "; RGroup "mode" (plus digit)]); REol ].

Definition regex_syscall_openat_args : regex :=
  seq [ RGroup "cwdfd" cwdfd; opt (seq [chr "<"; RGroup "cwd" (star any); chr ">"]);
        lit ", "; chr dq; RGroup "path" xstr; chr dq; lit ", ";
        RGroup "oflag" oflag;
        opt (seq [lit ", "; RGroup "mode" (plus digit)]); REol ].

Definition regex_syscall_openat2_args : regex :=
  seq [ RGroup "cwdfd" cwdfd; opt (seq [chr "<"; RGroup "cwd" (star any); chr ">"]);
        lit ", "; chr dq; RGroup "path" xstr; chr dq; lit ", {";
        RGroup "how" (RStar false (not_chr "}")); lit "}, ";
        RGroup "size" (plus digit); REol ].

Section Parser.
Context `{PyRuntime}.

(** [raw.encode('latin1', 'backslashreplace').decode('unicode-escape')]:
    every character of the model is a latin-1 character, so the
    encoding step changes nothing. *)
Definition decode_xstr (raw : option string) : result (option string) :=
  match raw with
  | None => Ok None
  | Some r => s ← unicode_escape_decode r; Ok (Some s)
  end.

Definition decode_argv_env (raw : option string) : result (option (list string)) :=
  match raw with
  | None => Ok None
  | Some r =>
      l ← result_mapM
            (fun x => s ← unicode_escape_decode
                           (PyStr.strip_by (Ascii.eqb dq) (PyStr.strip x));
                      Ok s)
            (PyStr.split "," r);
      Ok (Some l)
  end.

(** [am.group(name)] where [am] is the result of a match that may have
    failed: reading a group of [None] raises [AttributeError]. *)
Definition group_of (am : option groups) (name : string) : result (option string) :=
  match am with
  | Some g => Ok (group g name)
  | None => Raise AttributeError
  end.

(** [int(x)] of a group's value. *)
Definition int_of (x : option string) : result Z :=
  match x with
  | Some s => PyStr.int s
  | None => Raise TypeError
  end.

(** The entries of the [how] dict of [openat2]. *)
Fixpoint how_dict (l : list string) (how : list (string * pyval))
  : result (list (string * pyval)) :=
  match l with
  | [] => Ok how
  | a :: l' =>
      let kv := PyStr.split "=" a in
      k ← or_raise (kv !! 0%nat) IndexError;
      v ← or_raise (kv !! 1%nat) IndexError;
      how_dict l' (dict_set k (PyStr v) how)
  end.

(** The decoding of the arguments by system call: the new [args_raw]
    and [args] of the record. *)
Definition parse_args (name : string) (raw : string)
  : result (option string * list pyval) :=
  if String.eqb name "fork" then Ok (None, [])
  else if String.eqb name "vfork" then Ok (None, [])
  else if String.eqb name "clone" then Ok (Some raw, [])
  else if String.eqb name "clone2" then Ok (Some raw, [])
  else if String.eqb name "clone3" then Ok (Some raw, [])
  else if String.eqb name "execve" then
    let am := match_ regex_syscall_execve_args raw in
    g_path ← group_of am "path";
    av_path ← decode_xstr g_path;
    g_argv ← group_of am "argv";
    av_argv ← decode_argv_env g_argv;
    g_env ← group_of am "env";
    av_env ← decode_argv_env g_env;
    av_envph ← group_of am "envph";
    Ok (None,
        [ of_opt_str av_path;
          match av_argv with Some l => PyList (PyStr <$> l) | None => PyNone end;
          match av_env with
          | Some l => PyList (PyStr <$> l)
          | None => of_opt_str av_envph
          end ])
  else if String.eqb name "execveat" then Raise NotImplementedError
  else if String.eqb name "chdir" then
    let am := match_ regex_syscall_chdir_args raw in
    g_path ← group_of am "path";
    av_path ← decode_xstr g_path;
    Ok (None, [of_opt_str av_path])
  else if String.eqb name "fchdir" then
    let am := match_ regex_syscall_fchdir_args raw in
    g_fd ← group_of am "fd";
    av_fd ← int_of g_fd;
    g_path ← group_of am "path";
    av_path ← decode_xstr g_path;
    Ok (None, [PyTuple [PyInt av_fd; of_opt_str av_path]])
  else if String.eqb name "open" then
    let am := match_ regex_syscall_open_args raw in
    g_path ← group_of am "path";
    av_path ← decode_xstr g_path;
    av_oflag ← group_of am "oflag";
    av_mode ← group_of am "mode";
    Ok (None,
        [of_opt_str av_path; of_opt_str av_oflag]
          ++ match av_mode with Some m => [PyStr m] | None => [] end)
  else if String.eqb name "openat" then
    let am := match_ regex_syscall_openat_args raw in
    av_cwdfd ← group_of am "cwdfd";
    g_cwd ← group_of am "cwd";
    av_cwd ← decode_xstr g_cwd;
    g_path ← group_of am "path";
    av_path ← decode_xstr g_path;
    av_oflag ← group_of am "oflag";
    av_mode ← group_of am "mode";
    Ok (None,
        [PyTuple [of_opt_str av_cwdfd; of_opt_str av_cwd];
         of_opt_str av_path; of_opt_str av_oflag]
          ++ match av_mode with Some m => [PyStr m] | None => [] end)
  else if String.eqb name "openat2" then
    let am := match_ regex_syscall_openat2_args raw in
    av_cwdfd ← group_of am "cwdfd";
    g_cwd ← group_of am "cwd";
    av_cwd ← decode_xstr g_cwd;
    g_path ← group_of am "path";
    av_path ← decode_xstr g_path;
    av_how ← group_of am "how";
    av_size ← group_of am "size";
    how ← match av_how with
          | Some h => how_dict (PyStr.split_str ", " h) []
          | None => Ok []
          end;
    Ok (None,
        [PyTuple [of_opt_str av_cwdfd; of_opt_str av_cwd];
         of_opt_str av_path; PyDict how; of_opt_str av_size])
  else Ok (Some raw, []).

(** The body of [for line in fd]. *)
Definition parse_line (proc : ProcTrace.t) (line : string) : result ProcTrace.t :=
  let line := PyStr.rstrip line in
  match match_ regex_line line with
  | None => Ok proc
  | Some m =>
      match group m "timestamp" with
      | None => Raise TypeError
      | Some t =>
          let v_timestamp := float_of_str t in
          let ts_start :=
            match ProcTrace.ts_start proc with
            | None => v_timestamp
            | Some s => float_min s v_timestamp
            end in
          let ts_end :=
            match ProcTrace.ts_end proc with
            | None => v_timestamp
            | Some e => float_max e v_timestamp
            end in
          let proc :=
            ProcTrace.mk _ (ProcTrace.pid proc) (ProcTrace.cwd proc)
              (Some ts_start) (Some ts_end) (ProcTrace.exitcode proc)
              (ProcTrace.killedby proc) (ProcTrace.syscall proc) in
          match group m "killedby" with
          | Some v_killedby =>
              Ok (ProcTrace.mk _ (ProcTrace.pid proc) (ProcTrace.cwd proc)
                    (ProcTrace.ts_start proc) (ProcTrace.ts_end proc)
                    (ProcTrace.exitcode proc) (Some v_killedby)
                    (ProcTrace.syscall proc))
          | None =>
              match group m "exitcode" with
              | Some v_exitcode =>
                  code ← PyStr.int v_exitcode;
                  Ok (ProcTrace.mk _ (ProcTrace.pid proc) (ProcTrace.cwd proc)
                        (ProcTrace.ts_start proc) (ProcTrace.ts_end proc)
                        (Some code) (ProcTrace.killedby proc)
                        (ProcTrace.syscall proc))
              | None =>
                  match group m "syscall" with
                  | None => Ok proc
                  | Some v_syscall =>
                      rv ← int_of (group m "returnvalue");
                      rf ← decode_xstr (group m "returnfile");
                      let err :=
                        match group m "errno" with
                        | Some v_errno =>
                            Some (v_errno, default "" (group m "errstr"))
                        | None => None
                        end in
                      '(raw, args) ←
                        match group m "args" with
                        | Some v_args => parse_args v_syscall (PyStr.strip v_args)
                        | None => Ok (None, [])
                        end;
                      let syscall :=
                        SysCallEntity.mk _ v_timestamp v_syscall rv rf err raw args in
                      if SysCallFilter.allow syscall
                      then Ok (ProcTrace.mk _ (ProcTrace.pid proc) (ProcTrace.cwd proc)
                                 (ProcTrace.ts_start proc) (ProcTrace.ts_end proc)
                                 (ProcTrace.exitcode proc) (ProcTrace.killedby proc)
                                 (ProcTrace.syscall proc ++ [syscall]))
                      else Ok proc
                  end
              end
          end
      end
  end.

Fixpoint parse_lines (proc : ProcTrace.t) (fd : list string) : result ProcTrace.t :=
  match fd with
  | [] => Ok proc
  | line :: fd' => proc' ← parse_line proc line; parse_lines proc' fd'
  end.

(** [parse_fd]: the file is its list of lines. *)
Definition parse_fd (pid : Z) (fd : list string) : result ProcTrace.t :=
  proc ← parse_lines (ProcTrace.mk _ pid None None None None None []) fd;
  Ok (ProcTrace.mk _ (ProcTrace.pid proc) (ProcTrace.cwd proc)
        (ProcTrace.ts_start proc) (ProcTrace.ts_end proc)
        (ProcTrace.exitcode proc) (ProcTrace.killedby proc)
        (list_sort SysCallEntity.ts float_lt (ProcTrace.syscall proc))).

End Parser.
End StraceParser.

(* ===================================================================== *)
(** ** The trace store *)
(* ===================================================================== *)

Module StraceData.

(** A trace file: the name of the file ([path.name]) and its lines. *)
Record TraceFile : Type := mkFile {
  file_name : string;
  file_lines : list string
}.

Record t `{PyRuntime} : Type := mk {
  root_cwd : Path;
  proc_map : list (Z * ProcTrace.t);
  root_pid : Z
}.

Section Store.
Context `{PyRuntime}.

Definition pid_from_path (name : string) : result Z :=
  x ← or_raise (PyStr.split1 "." name !! 1%nat) IndexError;
  PyStr.int x.

Definition do_file (f : TraceFile) : result ProcTrace.t :=
  pid ← pid_from_path (file_name f);
  StraceParser.parse_fd pid (file_lines f).

(** [for path in files: self.proc_map[trace.pid] = trace] *)
Fixpoint load (files : list TraceFile) (proc_map : list (Z * ProcTrace.t))
  : result (list (Z * ProcTrace.t)) :=
  match files with
  | [] => Ok proc_map
  | f :: files' =>
      trace ← do_file f;
      load files' (dict_set (ProcTrace.pid trace) trace proc_map)
  end.

(** [a < b] on values that are floats or [None]. *)
Definition key_lt (a b : option float) : result bool :=
  match a, b with
  | Some x, Some y => Ok (float_lt x y)
  | _, _ => Raise TypeError
  end.

(** [min(values, key=lambda v: v.ts_start)] once the first value is
    taken: a later value replaces the current one only when its key is
    strictly smaller. *)
Fixpoint min_by_ts_start (cur : ProcTrace.t) (rest : list ProcTrace.t)
  : result ProcTrace.t :=
  match rest with
  | [] => Ok cur
  | v :: rest' =>
      b ← key_lt (ProcTrace.ts_start v) (ProcTrace.ts_start cur);
      min_by_ts_start (if (b : bool) then v else cur) rest'
  end.

Definition select_root (proc_map : list (Z * ProcTrace.t)) : result Z :=
  match snd <$> proc_map with
  | [] => Raise ValueError
  | v :: rest => r ← min_by_ts_start v rest; Ok (ProcTrace.pid r)
  end.

(** [StraceData.__init__] with [__run]. *)
Definition run (root_cwd : Path) (files : list TraceFile) : result t :=
  proc_map ← load files [];
  if (length proc_map =? 0)%nat then Raise ValueError else
  root ← select_root proc_map;
  Ok (mk _ root_cwd proc_map root).

End Store.
End StraceData.

(* ===================================================================== *)
(** ** The process walker *)
(* ===================================================================== *)

Module CompilerCall.
Record t : Type := mk {
  pid : Z;
  exitcode : option Z;
  command : CompilerCommand;
  open_files : list (Path * list pyval)
}.
End CompilerCall.

Module CompilerExtractor.

Definition fork_syscall_set : list string :=
  ["fork"; "vfork"; "clone"; "clone2"; "clone3"].

(** The local variables of [__walk_proc] that its loop updates, and the
    list [self.__compiler_calls]. *)
Record walk_state : Type := mkState {
  w_cwd : Path;
  is_compiler_internals : bool;
  compiler_call : option CompilerCall.t;
  w_open_files : list (Path * list pyval);
  compiler_calls : list CompilerCall.t
}.

Section Walker.
Context `{PyRuntime}.
(** [CompilerMatcher.match]: it asks the executable for its version, so
    its answer is taken as given. *)
Variable compiler_match : string -> list string -> result (option CompilerId).
Variable proc_map : list (Z * ProcTrace.t).

(** [walk] is the recursive call; it receives and returns the list
    [self.__compiler_calls]. *)
Definition walk_step
           (walk : Z -> Path -> bool -> list CompilerCall.t ->
                   result (list (Path * list pyval) * list CompilerCall.t))
           (proc : ProcTrace.t) (st : walk_state) (sc : SysCallEntity.t)
  : result walk_state :=
  let name := SysCallEntity.name sc in
  let args := SysCallEntity.args sc in
  if bool_decide (name ∈ fork_syscall_set) then
    let next_pid := SysCallEntity.returnvalue sc in
    match dict_get next_pid proc_map with
    | Some _ =>
        '(files, calls) ← walk next_pid (w_cwd st) (is_compiler_internals st)
                               (compiler_calls st);
        Ok (mkState (w_cwd st) (is_compiler_internals st) (compiler_call st)
                    (w_open_files st ++ files) calls)
    | None => Ok st
    end
  else if String.eqb name "fchdir" then
    a0 ← or_raise (args !! 0%nat) IndexError;
    a01 ← item a0 1;
    p ← as_str a01;
    Ok (mkState (PurePath.join (w_cwd st) (PurePath.of_str p))
                (is_compiler_internals st) (compiler_call st)
                (w_open_files st) (compiler_calls st))
  else if String.eqb name "chdir" then
    a0 ← or_raise (args !! 0%nat) IndexError;
    p ← as_str a0;
    Ok (mkState (PurePath.join (w_cwd st) (PurePath.of_str p))
                (is_compiler_internals st) (compiler_call st)
                (w_open_files st) (compiler_calls st))
  else if String.eqb name "execve" then
    if is_compiler_internals st then Ok st else
    a0 ← or_raise (args !! 0%nat) IndexError;
    a1 ← or_raise (args !! 1%nat) IndexError;
    executable ← as_str a0;
    argv ← as_str_list a1;
    compiler_id ← compiler_match executable argv;
    match compiler_id with
    | Some cid =>
        Ok (mkState (w_cwd st) true
                    (Some (CompilerCall.mk (ProcTrace.pid proc)
                             (ProcTrace.exitcode proc)
                             (mkCommand (w_cwd st) cid executable argv) []))
                    (w_open_files st) (compiler_calls st))
    | None => Ok st
    end
  else if String.eqb name "execveat" then Raise NotImplementedError
  else if String.eqb name "open" then
    if is_compiler_internals st && (0 <=? SysCallEntity.returnvalue sc)
    then Ok (mkState (w_cwd st) (is_compiler_internals st) (compiler_call st)
                     (w_open_files st ++ [(w_cwd st, args)]) (compiler_calls st))
    else Ok st
  else if String.eqb name "openat" then
    if is_compiler_internals st && (0 <=? SysCallEntity.returnvalue sc)
    then
      a0 ← or_raise (args !! 0%nat) IndexError;
      sc_cwd ← item a0 1;
      dir ← match sc_cwd with
            | PyNone => Ok (w_cwd st)
            | v => PurePath.of_str <$> as_str v
            end;
      Ok (mkState (w_cwd st) (is_compiler_internals st) (compiler_call st)
                  (w_open_files st ++ [(dir, drop 1 args)]) (compiler_calls st))
    else Ok st
  else if String.eqb name "openat2" then
    if is_compiler_internals st && (0 <=? SysCallEntity.returnvalue sc)
    then
      a0 ← or_raise (args !! 0%nat) IndexError;
      sc_cwd ← item a0 1;
      dir ← match sc_cwd with
            | PyNone => Ok (w_cwd st)
            | v => PurePath.of_str <$> as_str v
            end;
      a1 ← or_raise (args !! 1%nat) IndexError;
      a2 ← or_raise (args !! 2%nat) IndexError;
      flags ← entry a2 "flags";
      mode ← entry a2 "mode";
      Ok (mkState (w_cwd st) (is_compiler_internals st) (compiler_call st)
                  (w_open_files st ++ [(dir, [a1; flags; mode])])
                  (compiler_calls st))
    else Ok st
  else Ok st.

(** [for sc in proc.syscall] *)
Fixpoint walk_loop
         (walk : Z -> Path -> bool -> list CompilerCall.t ->
                 result (list (Path * list pyval) * list CompilerCall.t))
         (proc : ProcTrace.t) (st : walk_state) (scs : list SysCallEntity.t)
  : result walk_state :=
  match scs with
  | [] => Ok st
  | sc :: scs' => st' ← walk_step walk proc st sc; walk_loop walk proc st' scs'
  end.

(** [__walk_proc]; [depth] bounds the nesting of the recursive calls
    the way the interpreter's recursion limit does. *)
Fixpoint walk_proc (depth : nat) (pid : Z) (cwd : Path)
         (is_compiler_internals : bool) (calls : list CompilerCall.t)
  : result (list (Path * list pyval) * list CompilerCall.t) :=
  match depth with
  | O => Raise RecursionError
  | S depth' =>
      proc ← or_raise (dict_get pid proc_map) KeyError;
      st ← walk_loop (walk_proc depth') proc
             (mkState cwd is_compiler_internals None [] calls)
             (ProcTrace.syscall proc);
      match compiler_call st with
      | Some cc =>
          Ok ([], compiler_calls st ++
                  [CompilerCall.mk (CompilerCall.pid cc) (CompilerCall.exitcode cc)
                     (CompilerCall.command cc) (w_open_files st)])
      | None => Ok (w_open_files st, compiler_calls st)
      end
  end.

End Walker.

(** [CompilerExtractor.__init__] followed by [compiler_calls()]. *)
Definition extract `{PyRuntime}
           (compiler_match : string -> list string -> result (option CompilerId))
           (depth : nat) (strace_data : StraceData.t) : result (list CompilerCall.t) :=
  r ← walk_proc compiler_match (StraceData.proc_map strace_data) depth
        (StraceData.root_pid strace_data) (StraceData.root_cwd strace_data) false [];
  Ok (snd r).

End CompilerExtractor.

(* ===================================================================== *)
(** ** The prefilter of compiler calls *)
(* ===================================================================== *)

Module RpmbuildTracer.

Definition call_key : Type := Path * CompilerId * string * list string.

(** [counters[k] += 1] and [counters[k]] of a [Counter]. *)
Fixpoint counter_incr (k : call_key) (c : list (call_key * nat)) : list (call_key * nat) :=
  match c with
  | [] => [(k, 1%nat)]
  | (k', n) :: c' =>
      if decide (k = k') then (k', S n) :: c' else (k', n) :: counter_incr k c'
  end.

Definition counter_get (k : call_key) (c : list (call_key * nat)) : nat :=
  default 0%nat (dict_get k c).

Fixpoint count_calls (compiler_calls : list CompilerCall.t) (counters : list (call_key * nat))
  : list (call_key * nat) :=
  match compiler_calls with
  | [] => counters
  | cc :: rest =>
      count_calls rest (counter_incr (as_tuple (CompilerCall.command cc)) counters)
  end.

(** The second loop: the calls it yields, in order. *)
Fixpoint prefilter_loop (counters : list (call_key * nat))
         (compiler_calls : list CompilerCall.t) : list CompilerCall.t :=
  match compiler_calls with
  | [] => []
  | cc :: rest =>
      if negb (bool_decide (CompilerCall.exitcode cc = Some 0)) then
        prefilter_loop counters rest
      else if (length (CompilerCall.open_files cc) =? 0)%nat then
        prefilter_loop counters rest
      else if (1 <? counter_get (as_tuple (CompilerCall.command cc)) counters)%nat then
        prefilter_loop counters rest
      else cc :: prefilter_loop counters rest
  end.

Definition compiler_calls_prefilter (compiler_calls : list CompilerCall.t)
  : list CompilerCall.t :=
  prefilter_loop (count_calls compiler_calls []) compiler_calls.

End RpmbuildTracer.

(* ===================================================================== *)
(** ** Invariants *)
(* ===================================================================== *)

Module Invariant.

Section Runtime.
Context `{R : PyRuntime}.

(** Both timestamps of a trace are set together, the start not after the
    end. *)
Definition ts_ordered (proc : ProcTrace.t) : Prop :=
  match ProcTrace.ts_start proc, ProcTrace.ts_end proc with
  | Some s, Some e => float_lt e s = false
  | None, None => True
  | _, _ => False
  end.

(** The store keeps one trace per PID, under its own PID. *)
Definition keyed (m : list (Z * ProcTrace.t)) : Prop :=
  NoDup (fst <$> m) /\ Forall (fun kv => fst kv = ProcTrace.pid (snd kv)) m.

(** [cur], at index [ic] of the values seen so far, is strictly below the
    values before it and not above the values after it. *)
Definition first_min (seen : list ProcTrace.t) (ic : nat) (cur : ProcTrace.t) : Prop :=
  seen !! ic = Some cur /\
  forall j v, seen !! j = Some v ->
    ((j < ic)%nat ->
     StraceData.key_lt (ProcTrace.ts_start cur) (ProcTrace.ts_start v) = Ok true) /\
    ((ic < j)%nat ->
     StraceData.key_lt (ProcTrace.ts_start v) (ProcTrace.ts_start cur) = Ok false).

End Runtime.

End Invariant.

(* ===================================================================== *)
(** ** A runtime for the examples *)
(* ===================================================================== *)

(** Timestamps are kept as exact decimal fractions and the escape codec
    decodes the two-digit hexadecimal escapes the tracer writes with its
    [-xx] option. *)
Module ExactRuntime.

Definition decimal_of_str (s : string) : QArith_base.Q :=
  match PyStr.split1 "." s with
  | [i; f] =>
      QArith_base.Qmake
        (default 0 (PyStr.int_digits (i +:+ f) 0 false))
        (Z.to_pos (10 ^ Z.of_nat (String.length f)))
  | _ => QArith_base.Qmake (default 0 (PyStr.int_digits s 0 false)) 1
  end.

Definition decimal_lt (a b : QArith_base.Q) : bool :=
  negb (QArith_base.Qle_bool b a).

Definition hex_val (c : ascii) : option nat :=
  let n := PyStr.code c in
  if PyStr.is_digit c then Some (n - 48)%nat
  else if ((65 <=? n) && (n <=? 70))%nat then Some (n - 55)%nat
  else if ((97 <=? n) && (n <=? 102))%nat then Some (n - 87)%nat
  else None.

Fixpoint xx_decode (s : string) : result string :=
  match s with
  | EmptyString => Ok EmptyString
  | String "\" (String "x" (String h1 (String h2 rest))) =>
      match hex_val h1, hex_val h2 with
      | Some a, Some b =>
          String (ascii_of_nat (16 * a + b)) <$> xx_decode rest
      | _, _ => Raise ValueError
      end
  | String "\" _ => Raise ValueError
  | String c rest => String c <$> xx_decode rest
  end.

#[global] Instance runtime : PyRuntime := {|
  float := QArith_base.Q;
  float_of_str := decimal_of_str;
  float_lt := decimal_lt;
  unicode_escape_decode := xx_decode
|}.

End ExactRuntime.

(* ===================================================================== *)
(** ** The specification's notions *)
(* ===================================================================== *)

Module Spec.
Import Language.

(** A version string made of dotted integers: one or more runs of
    decimal digits separated by single dots. *)
Fixpoint all_digits_from (s : string) : bool :=
  match s with
  | EmptyString => true
  | String c s' => PyStr.is_digit c && all_digits_from s'
  end.

Definition is_integer (s : string) : bool :=
  negb (String.eqb s "") && all_digits_from s.

Definition is_dotted_integers (v : string) : bool :=
  forallb is_integer (PyStr.split "." v).

(** The integer that a run of decimal digits writes, and the integer
    tuple of a version string: the integers between its dots. *)
Fixpoint decimal_from (acc : Z) (s : string) : Z :=
  match s with
  | EmptyString => acc
  | String c s' => decimal_from (10 * acc + (Z.of_nat (nat_of_ascii c) - 48)) s'
  end.

Definition decimal (s : string) : Z := decimal_from 0 s.

Definition integer_tuple (v : string) : list Z :=
  decimal <$> PyStr.split "." v.

(** Lexicographic comparison of tuples of integers. *)
Fixpoint lex_compare (x y : list Z) : comparison :=
  match x, y with
  | [], [] => Eq
  | [], _ :: _ => Lt
  | _ :: _, [] => Gt
  | a :: x', b :: y' =>
      match a ?= b with
      | Eq => lex_compare x' y'
      | c => c
      end
  end.

Definition pad_to (n : nat) (t : list Z) : list Z :=
  t ++ repeat 0 (n - length t)%nat.

Definition sign_of (c : comparison) : Z :=
  match c with Eq => 0 | Lt => -1 | Gt => 1 end.

(** "Tuple-lexicographic over dotted integers, zero-padded to the longer
    operand's length." *)
Definition version_order (ta tb : list Z) : Z :=
  let n := Nat.max (length ta) (length tb) in
  sign_of (lex_compare (pad_to n ta) (pad_to n tb)).

(** A row of a default-standard table applies to the version [tv] when
    it has a least version and that version is at most [tv]. *)
Definition qualifies (tv : list Z) (r : (option string * list (ID * string))) : Prop :=
  exists mv t, CompilerMatcher.min_version r = Some mv /\
               CompilerMatcher.versiontuple mv = Ok t /\
               version_order t tv <= 0.

(** The least version of [r1] is at most that of [r2]. *)
Definition row_le (r1 r2 : (option string * list (ID * string))) : Prop :=
  exists mv1 t1 mv2 t2,
    CompilerMatcher.min_version r1 = Some mv1 /\
    CompilerMatcher.versiontuple mv1 = Ok t1 /\
    CompilerMatcher.min_version r2 = Some mv2 /\
    CompilerMatcher.versiontuple mv2 = Ok t2 /\
    version_order t1 t2 <= 0.

(** "Select the row with the greatest min-version at most the version",
    the first row when no versioned row applies. *)
Definition selected (data : list (option string * list (ID * string))) (tv : list Z)
           (row : (option string * list (ID * string))) : Prop :=
  (In row data /\ qualifies tv row /\
   forall r', In r' data -> qualifies tv r' -> row_le r' row)
  \/ (data !! 0%nat = Some row /\ forall r', In r' data -> ~ qualifies tv r').



(** The rewritten argument list of a preprocessor command, in the words
    of the specification: the window that starts at the first [-o] is
    replaced by [e], or [e] is inserted after the first argument when
    there is no [-o]; the source comes last. *)
Fixpoint replace_output (l e : list string) : option (list string) :=
  match l with
  | [] => None
  | x :: l' =>
      if String.eqb x "-o" then Some (e ++ drop 1 l')
      else cons x <$> replace_output l' e
  end.

Definition preprocessor_args (kept : list string) (path src : string) : list string :=
  let e := ["-E"; "-o"; path] in
  match replace_output kept e with
  | Some r => r
  | None => take 1 kept ++ e ++ drop 1 kept
  end ++ [src].

(** "A canonical tuple (cwd, id, executable, argv)": the directory, the
    compiler, the executable and the arguments of a command. *)
Definition canonical_tuple (c : CompilerCommand)
  : Path * CompilerId * string * list string :=
  (cwd c, compiler c, executable c, args c).

(** How many calls of the list have the canonical tuple [k]. *)
Definition multiplicity (k : Path * CompilerId * string * list string)
           (calls : list CompilerCall.t) : nat :=
  length (List.filter
            (fun cc => bool_decide (canonical_tuple (CompilerCall.command cc) = k))
            calls).

(** A call the prefilter is to keep: it exited with 0, it has attributed
    open files, and its canonical tuple occurs once in the whole list. *)
Definition keeps (calls : list CompilerCall.t) (cc : CompilerCall.t) : bool :=
  bool_decide (CompilerCall.exitcode cc = Some 0)
  && negb (length (CompilerCall.open_files cc) =? 0)%nat
  && (multiplicity (canonical_tuple (CompilerCall.command cc)) calls =? 1)%nat.

(** The PIDs of a list in the order of their first occurrence. *)
Fixpoint first_occurrences (pids : list Z) : list Z :=
  match pids with
  | [] => []
  | p :: rest => p :: List.filter (fun q => negb (q =? p)) (first_occurrences rest)
  end.




(** An argument that the standard search stops at. *)
Definition is_std_option (arg : string) : bool :=
  match Re.match_ CompilerMatcher.re_std arg with
  | Some _ => true
  | None => String.eqb arg "--std"
  end.

End Spec.

(* ===================================================================== *)
(** ** Example inputs *)
(* ===================================================================== *)

Module Examples.

Definition gcc_11_5 : CompilerId := mkCompilerId "gcc" None "11.5.0".
Definition clang_16 : CompilerId := mkCompilerId "clang" None "16.0.0".
Definition lcc_1_27 : CompilerId := mkCompilerId "lcc" (Some "gcc") "1.27.14".

Definition dir_b : Path := PurePath.of_str "/b".



(** [gcc -ansi x.c] *)
Definition gcc_ansi : CompilerCommand :=
  mkCommand dir_b gcc_11_5 "/usr/bin/gcc" ["gcc"; "-ansi"; "x.c"].

(** [gcc -O2 -o a.out a.c] *)
Definition gcc_o2 : CompilerCommand :=
  mkCommand dir_b gcc_11_5 "/usr/bin/gcc" ["gcc"; "-O2"; "-o"; "a.out"; "a.c"].

(** [clang x.c --std]: the option that announces a standard comes last. *)
Definition clang_trailing_std : CompilerCommand :=
  mkCommand dir_b clang_16 "/usr/bin/clang" ["clang"; "x.c"; "--std"].

(** A store that holds the command [gcc_o2] at reference 1 and its
    argument list at reference 0. *)
Definition store_o2 : gmap nat Heap.obj :=
  <[1%nat := Heap.OCommand dir_b gcc_11_5 "/usr/bin/gcc" 0%nat]>
    (<[0%nat := Heap.OList ["gcc"; "-O2"; "-o"; "a.out"; "a.c"]]> ∅).

(** The trace file of a process: two forks out of order, a failed one,
    a line that is no trace line, and the exit notice. *)
Definition trace_lines : list string :=
  [ "1700000000.500000000 clone(child_stack=NULL, flags=CLONE_CHILD_CLEARTID|SIGCHLD) = 101";
    "1700000000.250000000 fork() = 102";
    "1700000000.750000000 vfork() = -1 EAGAIN (Resource temporarily unavailable)";
    "not a trace line";
    "1700000001.000000000 +++ exited with 0 +++" ].

Definition parsed_trace : @ProcTrace.t ExactRuntime.runtime :=
  Eval vm_compute in
    match StraceParser.parse_fd 100 trace_lines with
    | Ok p => p
    | Raise _ => ProcTrace.mk _ 100 None None None None None []
    end.

(** Two trace files whose first lines carry the same timestamp; the file
    of PID 7 is listed before the file of PID 3. *)
Definition tie_files : list StraceData.TraceFile :=
  [ StraceData.mkFile "trace-rpmbuild.7"
      [ "1700000000.000000000 fork() = 3";
        "1700000002.000000000 +++ exited with 0 +++" ];
    StraceData.mkFile "trace-rpmbuild.3"
      [ "1700000000.000000000 vfork() = 9";
        "1700000001.000000000 +++ exited with 0 +++" ] ].

Definition tie_store : @StraceData.t ExactRuntime.runtime :=
  Eval vm_compute in
    match StraceData.run dir_b tie_files with
    | Ok s => s
    | Raise _ => StraceData.mk _ dir_b [] 0
    end.

(** A process that changes to the parent directory, runs gcc and opens
    the source. *)
Definition at_time (n : Z) : @float ExactRuntime.runtime := QArith_base.Qmake n 1.

Definition chdir_up : @SysCallEntity.t ExactRuntime.runtime :=
  SysCallEntity.mk _ (at_time 1) "chdir" 0 None None None [PyStr ".."].

Definition exec_gcc : @SysCallEntity.t ExactRuntime.runtime :=
  SysCallEntity.mk _ (at_time 2) "execve" 0 None None None
    [PyStr "/usr/bin/gcc"; PyList [PyStr "gcc"; PyStr "a.c"]; PyStr "0x7ffd /* 3 vars */"].

Definition open_source : @SysCallEntity.t ExactRuntime.runtime :=
  SysCallEntity.mk _ (at_time 3) "open" 3 (Some "/b/a.c") None None
    [PyStr "a.c"; PyStr "O_RDONLY"].

Definition walked_procs : list (Z * @ProcTrace.t ExactRuntime.runtime) :=
  [ (100, ProcTrace.mk _ 100 None (Some (at_time 1)) (Some (at_time 3)) (Some 0) None
            [chdir_up; exec_gcc; open_source]) ].

Definition match_gcc (path : string) (argv : list string) : result (option CompilerId) :=
  Ok (if String.eqb path "/usr/bin/gcc" then Some gcc_11_5 else None).

Definition dir_b_sub : Path := PurePath.of_str "/b/sub".

Definition state_in_sub : CompilerExtractor.walk_state :=
  CompilerExtractor.mkState dir_b_sub false None [] [].

End Examples.

(* ===================================================================== *)
(** ** Searching with a pattern *)
(* ===================================================================== *)

Module ReSearch.
Import Re.

(** [r.search(s)]: the pattern is tried at each position of [s], from the
    left.  (For a pattern that does not begin with a circumflex.) *)
Fixpoint search (r : regex) (s : string) : option groups :=
  match match_ r s with
  | Some g => Some g
  | None =>
      match s with
      | EmptyString => None
      | String _ s' => search r s'
      end
  end.

(** A pattern with the kind of its start: [true] for a pattern that
    begins with a circumflex, which [search] only tries at the start of
    the string. *)
Definition search_with (anchored : bool) (r : regex) (s : string) : option groups :=
  if anchored then match_ r s else search r s.

End ReSearch.

(* ===================================================================== *)
(** ** What a pattern matches *)
(* ===================================================================== *)

Module ReSem.
Import Re.

(** [matches r v rest gs]: the pattern [r] matches the string [v] when
    [rest] is what follows it, and binds the groups [gs], latest first. *)
Inductive matches : regex -> string -> string -> groups -> Prop :=
| MChar p c rest : p c = true -> matches (RChar p) (String c "") rest []
| MEps rest : matches REps "" rest []
| MSeq r1 r2 v1 v2 rest g1 g2 :
    matches r1 v1 (v2 +:+ rest) g1 -> matches r2 v2 rest g2 ->
    matches (RSeq r1 r2) (v1 +:+ v2) rest (g2 ++ g1)
| MAltL r1 r2 v rest g : matches r1 v rest g -> matches (RAlt r1 r2) v rest g
| MAltR r1 r2 v rest g : matches r2 v rest g -> matches (RAlt r1 r2) v rest g
| MStarO b r rest : matches (RStar b r) "" rest []
| MStarS b r v1 v2 rest g1 g2 :
    matches r v1 (v2 +:+ rest) g1 -> v1 <> "" ->
    matches (RStar b r) v2 rest g2 ->
    matches (RStar b r) (v1 +:+ v2) rest (g2 ++ g1)
| MGroup n r v rest g :
    matches r v rest g -> matches (RGroup n r) v rest ((n, v) :: g)
| MEol rest : rest = "" \/ rest = String "010" "" -> matches REol "" rest [].

(** The loop of a star, by its name: [step] runs the pattern under the
    star. *)
Definition star_loop
           (step : string -> groups -> (string -> groups -> option groups) -> option groups)
           (greedy : bool) (k : string -> groups -> option groups)
  : nat -> string -> groups -> option groups :=
  fix loop (n : nat) (s : string) (g : groups) {struct n} : option groups :=
    match n with
    | O => k s g
    | S n' =>
        let more :=
          step s g (fun s' g' =>
            if (String.length s' <? String.length s)%nat
            then loop n' s' g' else None) in
        if greedy then
          match more with Some g' => Some g' | None => k s g end
        else
          match k s g with Some g' => Some g' | None => more end
    end.

(** The patterns of the groups named [n] in [r]. *)
Fixpoint group_bodies (n : string) (r : regex) : list regex :=
  match r with
  | RSeq r1 r2 | RAlt r1 r2 => group_bodies n r1 ++ group_bodies n r2
  | RStar _ r1 => group_bodies n r1
  | RGroup m r1 => (if String.eqb m n then [r1] else []) ++ group_bodies n r1
  | _ => []
  end.

(** The group [n] is bound by every match of [r]. *)
Fixpoint always_binds (n : string) (r : regex) : bool :=
  match r with
  | RSeq r1 r2 => always_binds n r1 || always_binds n r2
  | RAlt r1 r2 => always_binds n r1 && always_binds n r2
  | RGroup m r1 => String.eqb m n || always_binds n r1
  | _ => false
  end.

End ReSem.

(* ===================================================================== *)
(** ** The filter of files to copy *)
(* ===================================================================== *)

Module OpenFilesFilter.
Import Re.

(** Shared libraries with a version: the pattern [\.so(?:\.\d+)+$]. *)
Definition ignore_ext_regex : list regex :=
  [ seq [lit ".so"; plus (seq [chr "."; plus digit]); REol] ].

Definition ignore_ext_list : list string := [".a"; ".o"; ".s"; ".so"].

Definition ignore_file_list : list string :=
  ["/etc/localtime"; "/etc/ld.so.cache"].

Definition ignore_dir_list : list string :=
  [ "/dev"; "/etc"; "/proc"; "/run"; "/sys"; "/usr/lib/rpm"; "/usr/lib64/gconv";
    "/usr/lib/locale"; "/usr/share/locale"; "/usr/share/zoneinfo" ].

(** [__ignore_regex] is the alternation of the patterns above: those of
    the extensions, which may match at any position, and those of the
    directories, which begin with a circumflex and so only match at the
    start of the string.  An extension [e] gives the pattern made of [e]
    escaped and a dollar, a directory [d] the pattern made of [d] escaped
    and the group of a dollar or a slash. *)
Definition floating : list regex :=
  ignore_ext_regex ++ ((fun e => seq [lit e; REol]) <$> ignore_ext_list).

Definition anchored : list regex :=
  (fun d => seq [lit d; alt [REol; chr "/"]]) <$> ignore_dir_list.

(** The truth value of [self.__ignore_regex.search(path_str)]. *)
Definition ignore_regex_search (path_str : string) : bool :=
  match ReSearch.search (alt floating) path_str, match_ (alt anchored) path_str with
  | None, None => false
  | _, _ => true
  end.

Definition allow (path : Path) : bool :=
  let path_str := PurePath.to_str path in
  if bool_decide (path_str ∈ ignore_file_list) then false
  else if ignore_regex_search path_str then false
  else true.

End OpenFilesFilter.

(* ===================================================================== *)
(** ** Recognising a compiler *)
(* ===================================================================== *)

(** [CompilerMatcher.match], with the patterns it uses. *)
Module CompilerMatch.
Import Re ReSearch.

(** [(?:[^/]+\-)?] *)
Definition name_prefix : regex := opt (seq [plus (not_chr "/"); chr "-"]).

(** The optional version after the name.  Its pattern has two groups
    that begin with an optional colon, and in the second one the dot is
    not escaped: it stands for any character but a newline. *)
Definition version_suffix : regex :=
  opt (seq [ seq [opt (chr ":"); chr "-"; plus digit];
             star (seq [opt (chr ":"); any; plus digit]) ]).

Definition prefilter_by_path_regex : list regex :=
  [ seq [chr "/"; name_prefix; alt [lit "lcc"; lit "l++"]; REol];
    seq [chr "/"; name_prefix; alt [lit "clang"; lit "clang++"]; version_suffix; REol];
    seq [chr "/"; name_prefix; alt [lit "cc"; lit "gcc"; lit "c++"; lit "g++"];
         version_suffix; REol] ].

(** Three numbers with dots between them. *)
Definition version3 : regex :=
  seq [plus digit; chr "."; plus digit; chr "."; plus digit].

(** The patterns of the first line a compiler prints for [--version],
    each with the kind of its start and the compiler it stands for. *)
Definition id_version_regex : list (bool * regex * (string -> CompilerId)) :=
  [ (true,
     seq [alt [lit "lcc"; lit "l++"]; chr ":"; RGroup "version" version3],
     fun ver => mkCompilerId "lcc" (Some "gcc") ver);
    (false,
     seq [alt [lit "clang"; lit "clang++"]; lit " version "; RGroup "version" version3],
     fun ver => mkCompilerId "clang" None ver);
    (true,
     seq [alt [lit "gcc"; lit "g++"]; RStar false any; lit " ("; plus (not_chr ")");
          lit ") "; RGroup "version" version3],
     fun ver => mkCompilerId "gcc" None ver) ].

(** [s.splitlines()[0]]: [None] stands for the [IndexError] of an empty
    string. *)
Definition is_line_break (c : ascii) : bool :=
  let n := PyStr.code c in
  ((10 <=? n) && (n <=? 13) || (28 <=? n) && (n <=? 30) || (n =? 133))%nat.

Fixpoint take_line (s : string) : string :=
  match s with
  | EmptyString => EmptyString
  | String c s' => if is_line_break c then EmptyString else String c (take_line s')
  end.

Definition first_line (s : string) : option string :=
  match s with
  | EmptyString => None
  | _ => Some (take_line s)
  end.

(** The loop over [__id_version_regex].  In each of its patterns the group
    [version] is bound by every match, so that [m['version']] is a
    string. *)
Fixpoint id_version (l : list (bool * regex * (string -> CompilerId)))
         (line : string) : option CompilerId :=
  match l with
  | [] => None
  | (anchored, r, make) :: l' =>
      match search_with anchored r line with
      | Some m => Some (make (default "" (group m "version")))
      | None => id_version l' line
      end
  end.

(** The two caches of the class. *)
Record caches : Type := mkCaches {
  id_version_ncache : gset (string * string);
  id_version_cache : gmap (string * string) CompilerId
}.

(** [match(path, args)].  The program asks the executable for its
    version; [answer] is what comes back, should it be asked: [None] when
    running it raises, else the return code and the output. *)
Definition match_ (answer : option (Z * string)) (path : string) (args : list string)
           (c : caches) : result (option CompilerId) * caches :=
  match args !! 0%nat with
  | None => (Raise IndexError, c)
  | Some arg0 =>
      let id_tuple := (path, arg0) in
      let negative :=
        (Ok None, mkCaches ({[ id_tuple ]} ∪ id_version_ncache c) (id_version_cache c)) in
      if bool_decide (id_tuple ∈ id_version_ncache c) then (Ok None, c)
      else match id_version_cache c !! id_tuple with
      | Some cid => (Ok (Some cid), c)
      | None =>
          if negb (existsb (fun r => bool_decide (is_Some (search r path)))
                           prefilter_by_path_regex)
          then negative
          else match answer with
          | None => negative
          | Some (returncode, stdout) =>
              if negb (returncode =? 0) then negative
              else match first_line stdout with
              | None => (Raise IndexError, c)
              | Some line =>
                  match id_version id_version_regex line with
                  | Some cid =>
                      (Ok (Some cid),
                       mkCaches (id_version_ncache c)
                                (<[ id_tuple := cid ]> (id_version_cache c)))
                  | None => negative
                  end
              end
          end
      end
  end.

(** The caches after a sequence of calls of [match], each given with what
    its executable answers. *)
Fixpoint match_all (calls : list (option (Z * string) * string * list string))
         (c : caches) : caches :=
  match calls with
  | [] => c
  | (answer, path, args) :: rest => match_all rest (snd (match_ answer path args c))
  end.

End CompilerMatch.

(* ===================================================================== *)
(** ** Running rpmbuild under the tracer *)
(* ===================================================================== *)

(** The parts of [RpmbuildTracer.main] and [__do_rpmbuild] that make the
    command lines. *)
Module Rpmbuild.

(** The options with which rpmbuild builds binary packages: without one
    of them [main] runs rpmbuild as it is, untraced. *)
Definition binary_build_options : list string :=
  ["-ba"; "-bb"; "-ra"; "-rb"; "-ta"; "-tb"; "--rebuild"; "--recompile"].

(** [set(rpmbuild_args).intersection(...)] is not empty. *)
Definition builds_binaries (rpmbuild_args : list string) : bool :=
  existsb (fun a => bool_decide (a ∈ binary_build_options)) rpmbuild_args.

(** [__make_rpmbuild_cmd_orig] *)
Definition make_rpmbuild_cmd_orig (rpmbuild_command : string)
           (rpmbuild_args : list string) : list string :=
  rpmbuild_command :: rpmbuild_args.

(** ['--noclean' if '--clean' == x else x] *)
Definition noclean (x : string) : string :=
  if String.eqb "--clean" x then "--noclean" else x.

(** The arguments given to rpmbuild under the tracer. *)
Definition rpmbuild_args_strace (rpmbuild_args : list string) : list string :=
  let l1 :=
    if bool_decide ("--clean" ∈ rpmbuild_args)
    then noclean <$> rpmbuild_args
    else rpmbuild_args in
  if bool_decide ("--noclean" ∈ l1) then l1 else "--noclean" :: l1.

(** [run_command] *)
Definition run_command (strace_command rpmbuild_command : string)
           (strace_args rpmbuild_args : list string) : list string :=
  [strace_command] ++ strace_args ++ [rpmbuild_command]
    ++ rpmbuild_args_strace rpmbuild_args.

End Rpmbuild.

(* ===================================================================== *)
(** ** Preprocessing a compiler call *)
(* ===================================================================== *)

(** The parts of [do_preprocess_compiler_call] and of
    [__do_preprocess_compiler_call_processing_source] that name files. *)
Module Preprocess.

(** [s.encode()]: the UTF-8 bytes of a string of code points below 256. *)
Definition encode_char (c : ascii) : string :=
  let n := PyStr.code c in
  if (n <? 128)%nat then String c ""
  else String (ascii_of_nat (192 + n / 64))
         (String (ascii_of_nat (128 + n mod 64)) "").

Fixpoint encode (s : string) : string :=
  match s with
  | EmptyString => EmptyString
  | String c s' => encode_char c +:+ encode s'
  end.

(** The byte [b'\x00']. *)
Definition nul : string := String "000" "".

(** [for a in cc.command.args: h.update(a.encode()); h.update(nul)] *)
Fixpoint hash_args (l : list string) : string :=
  match l with
  | [] => ""
  | a :: l' => encode a +:+ nul +:+ hash_args l'
  end.

(** The bytes the hash is fed with, one [h.update] after the other. *)
Definition hash_input (command : CompilerCommand) (source : string) : string :=
  encode (PurePath.to_str (cwd command)) +:+ nul
  +:+ encode (cid_id (compiler command)) +:+ nul
  +:+ match cid_like (compiler command) with
      | Some like => if String.eqb like "" then "" else encode like
      | None => ""
      end +:+ nul
  +:+ encode (executable command) +:+ nul
  +:+ hash_args (args command)
  +:+ nul +:+ nul
  +:+ encode source
  +:+ nul +:+ nul.

(** [Path('preprocessed') / Path(cc_hash[0:2]) / Path(cc_hash[2:4])
    / Path(cc_hash + '.i')] *)
Definition preprocessed_result_file (cc_hash : string) : Path :=
  PurePath.join
    (PurePath.join
       (PurePath.join (PurePath.of_str "preprocessed")
                      (PurePath.of_str (String.substring 0 2 cc_hash)))
       (PurePath.of_str (String.substring 2 2 cc_hash)))
    (PurePath.of_str (cc_hash +:+ ".i")).

(** [p.parts]: the root, if there is one, comes first. *)
Definition path_parts (p : Path) : list string :=
  if String.eqb (root p) "" then parts p else root p :: parts p.

(** [Path] applied to the segments of a list, unpacked as its arguments. *)
Definition of_segments (segments : list string) : Path :=
  fold_left PurePath.join (PurePath.of_str <$> segments) (PurePath.of_str "").

(** [copy_src]: the directory of an opened file joined with its path,
    the first of the recorded arguments. *)
Definition copy_src (opened : Path * list pyval) : result Path :=
  a0 ← or_raise (snd opened !! 0%nat) IndexError;
  p ← as_str a0;
  Ok (PurePath.join (fst opened) (PurePath.of_str p)).

(** [copy_dst]: [self.output_dir / 'root'], joined with the path made of
    [copy_src.parts[1:]]. *)
Definition copy_dst (output_dir : Path) (copy_src : Path) : Path :=
  PurePath.join (PurePath.join output_dir (PurePath.of_str "root"))
                (of_segments (drop 1 (path_parts copy_src))).

End Preprocess.

(* ===================================================================== *)
(** ** Shapes of strings and paths *)
(* ===================================================================== *)

Module Shape.

(** The character [c] occurs in [s]. *)
Fixpoint occurs (c : ascii) (s : string) : bool :=
  match s with
  | EmptyString => false
  | String d s' => Ascii.eqb d c || occurs c s'
  end.

(** The string [s] begins with a slash. *)
Definition starts_slash (s : string) : Prop := exists r, s = String "/" r.

(** Every character of [s] is in the class [p]. *)
Fixpoint all_chars (p : ascii -> bool) (s : string) : bool :=
  match s with
  | EmptyString => true
  | String c s' => p c && all_chars p s'
  end.

(** A digit of a hexadecimal digest. *)
Definition is_hex_digit (c : ascii) : bool :=
  PyStr.is_digit c || (97 <=? PyStr.code c)%nat && (PyStr.code c <=? 102)%nat.

(** What a dollar accepts after it: the end of the string, or a last
    newline. *)
Definition line_end (nl : string) : Prop := nl = "" \/ nl = String "010" "".

(** The string [s] names the directory [d] or something below it. *)
Definition under (d s : string) : Prop :=
  (exists nl, line_end nl /\ s = d +:+ nl) \/ (exists rest, s = d +:+ String "/" rest).

(** The string [s] ends with [e]. *)
Definition ends_with (e s : string) : Prop :=
  exists stem nl, line_end nl /\ s = stem +:+ e +:+ nl.

(** Numbers, each after a dot. *)
Fixpoint dotted (ds : list string) : string :=
  match ds with
  | [] => ""
  | d :: ds' => String "." d +:+ dotted ds'
  end.

Definition number (d : string) : Prop := d <> "" /\ all_chars PyStr.is_digit d = true.

(** A version made of three numbers. *)
Definition version_of_three (v : string) : Prop :=
  exists a b c, number a /\ number b /\ number c /\
                v = a +:+ String "." (b +:+ String "." c).

(** A compiler as the matcher names it: lcc of the gcc family, clang or
    gcc, with a version of three numbers. *)
Definition recognised (cid : CompilerId) : Prop :=
  version_of_three (cid_version cid) /\
  ((cid_id cid = "lcc" /\ cid_like cid = Some "gcc")
   \/ (cid_id cid = "clang" /\ cid_like cid = None)
   \/ (cid_id cid = "gcc" /\ cid_like cid = None)).

(** The string [s] ends like a shared library with a version. *)
Definition versioned_so (s : string) : Prop :=
  exists stem ds nl,
    ds <> [] /\ Forall number ds /\ line_end nl /\
    s = stem +:+ ".so" +:+ dotted ds +:+ nl.

(** A component as [pathlib] keeps it: not empty, not a single dot, no
    slash inside. *)
Definition clean_part (x : string) : bool :=
  PurePath.keep_part x && negb (occurs "/" x).

(** A path as [pathlib] keeps it. *)
Definition normal (p : Path) : bool :=
  bool_decide (root p ∈ [""; "/"; "//"]) && forallb clean_part (parts p).

(** Caches that only hold compilers as the matcher names them. *)
Definition sound_caches (c : CompilerMatch.caches) : Prop :=
  map_Forall (fun _ cid => recognised cid) (CompilerMatch.id_version_cache c).

(** The caches hold the answer [r] for the executable and first argument
    [k]. *)
Definition answered (c : CompilerMatch.caches) (k : string * string)
           (r : option CompilerId) : Prop :=
  ((k ∈ CompilerMatch.id_version_ncache c) /\ r = None)
  \/ ((k ∉ CompilerMatch.id_version_ncache c) /\
      exists cid, CompilerMatch.id_version_cache c !! k = Some cid /\ r = Some cid).

(** Strings, each followed by a zero byte. *)
Fixpoint fields (l : list string) : string :=
  match l with
  | [] => ""
  | a :: l' => a +:+ Preprocess.nul +:+ fields l'
  end.

(** A command and a source without a zero character, as the kernel
    passes them, the directory being in normal form. *)
Definition nul_free (s : string) : Prop := occurs "000" s = false.

Definition hashable (command : CompilerCommand) (source : string) : Prop :=
  normal (cwd command) = true /\
  nul_free (PurePath.to_str (cwd command)) /\
  nul_free (cid_id (compiler command)) /\
  nul_free (default "" (cid_like (compiler command))) /\
  nul_free (executable command) /\
  Forall nul_free (args command) /\
  nul_free source.

End Shape.

(* ===================================================================== *)
(** ** More invariants of traces *)
(* ===================================================================== *)

Module TraceInv.

Section Runtime.
Context `{R : PyRuntime}.

(** The record [sc] lies between the two timestamps of the trace. *)
Definition within (proc : ProcTrace.t) (sc : SysCallEntity.t) : Prop :=
  exists s e, ProcTrace.ts_start proc = Some s /\
              ProcTrace.ts_end proc = Some e /\
              float_lt (SysCallEntity.ts sc) s = false /\
              float_lt e (SysCallEntity.ts sc) = false.

(** The arguments of a record, by the name of its system call, as the
    walker reads them. *)
Definition shaped (name : string) (args : list pyval) : Prop :=
  name ∈ CompilerExtractor.fork_syscall_set
  \/ (name = "chdir" /\ exists p, args = [PyStr p])
  \/ (name = "fchdir" /\ exists fd p, args = [PyTuple [PyInt fd; PyStr p]])
  \/ (name = "execve" /\
      exists path argv env,
        argv <> [] /\ args = [PyStr path; PyList (PyStr <$> argv); env])
  \/ (name = "open" /\ exists p flags rest, args = PyStr p :: PyStr flags :: rest)
  \/ (name = "openat" /\
      exists fd dir p flags rest,
        args = PyTuple [PyStr fd; of_opt_str dir] :: PyStr p :: PyStr flags :: rest)
  \/ (name = "openat2" /\
      exists fd dir p how size,
        args = [PyTuple [PyStr fd; of_opt_str dir]; PyStr p; PyDict how; PyStr size]).

Definition readable (sc : SysCallEntity.t) : Prop :=
  shaped (SysCallEntity.name sc) (SysCallEntity.args sc).

(** An [openat2] record whose third argument lacks the flags or the
    mode. *)
Definition incomplete (sc : SysCallEntity.t) : Prop :=
  SysCallEntity.name sc = "openat2" /\
  exists how, SysCallEntity.args sc !! 2%nat = Some (PyDict how) /\
              (dict_get "flags" how = None \/ dict_get "mode" how = None).

End Runtime.

End TraceInv.

(* ===================================================================== *)
(** ** What stands behind a compiler call *)
(* ===================================================================== *)

Module WalkInv.
Import CompilerExtractor.

(** Either no compiler has been met and no opened file is held, or the
    process has become a compiler. *)
Definition no_leak (st : walk_state) : Prop :=
  (is_compiler_internals st = false /\ compiler_call st = None /\ w_open_files st = [])
  \/ (is_compiler_internals st = true /\ compiler_call st <> None).

Section Runtime.
Context `{R : PyRuntime}.
Variable compiler_match : string -> list string -> result (option CompilerId).
Variable proc_map : list (Z * ProcTrace.t).

(** The command of [cmd] was read from an [execve] record of the trace
    [tr], and the matcher took its executable for a compiler. *)
Definition executed (tr : ProcTrace.t) (cmd : CompilerCommand) : Prop :=
  exists sc rest,
    In sc (ProcTrace.syscall tr) /\
    SysCallEntity.name sc = "execve" /\
    SysCallEntity.args sc
    = PyStr (executable cmd) :: PyList (PyStr <$> args cmd) :: rest /\
    compiler_match (executable cmd) (args cmd) = Ok (Some (compiler cmd)).

(** The compiler call [c] belongs to a process of the store: it carries
    the PID and the exit code of its trace, and its command was executed
    there. *)
Definition backed (c : CompilerCall.t) : Prop :=
  exists key tr,
    dict_get key proc_map = Some tr /\
    CompilerCall.pid c = ProcTrace.pid tr /\
    CompilerCall.exitcode c = ProcTrace.exitcode tr /\
    executed tr (CompilerCall.command c).

(** The call that the walk of the process [proc] holds until its end. *)
Definition pending (proc : ProcTrace.t) (cc : CompilerCall.t) : Prop :=
  CompilerCall.pid cc = ProcTrace.pid proc /\
  CompilerCall.exitcode cc = ProcTrace.exitcode proc /\
  executed proc (CompilerCall.command cc).

(** The list [calls'] is [calls] followed by backed calls. *)
Definition grows (calls calls' : list CompilerCall.t) : Prop :=
  exists new, calls' = calls ++ new /\ Forall backed new.

(** What the walk of readable traces can raise: the recursion limit, the
    missing entry of an incomplete [openat2] record of the store, or what
    the matcher raised on a command line. *)
Definition foreseen (e : exn) : Prop :=
  e = RecursionError
  \/ (e = KeyError /\
      exists key tr sc,
        dict_get key proc_map = Some tr /\ In sc (ProcTrace.syscall tr) /\
        TraceInv.incomplete sc)
  \/ (exists exe argv, argv <> [] /\ compiler_match exe argv = Raise e).

End Runtime.

End WalkInv.

(* ===================================================================== *)
(** ** More example inputs *)
(* ===================================================================== *)

Module MoreExamples.

(** A compiler the preprocessor rewrite does not know. *)
Definition tcc_0_9 : CompilerId := mkCompilerId "tcc" None "0.9.27".

Definition tcc_command : CompilerCommand :=
  mkCommand Examples.dir_b tcc_0_9 "/usr/bin/tcc" ["tcc"; "-c"; "a.c"].

(** A store that holds [tcc_command] at reference 1 and its argument
    list at reference 0. *)
Definition store_tcc : gmap nat Heap.obj :=
  <[1%nat := Heap.OCommand Examples.dir_b tcc_0_9 "/usr/bin/tcc" 0%nat]>
    (<[0%nat := Heap.OList ["tcc"; "-c"; "a.c"]]> ∅).

(** The matcher before its first call, and what gcc 11.5 answers. *)
Definition no_caches : CompilerMatch.caches := CompilerMatch.mkCaches ∅ ∅.

Definition gcc_answer : option (Z * string) :=
  Some (0, "gcc (GCC) 11.5.0 20240719 (Red Hat 11.5.0-5)"
             +:+ String "010" "Copyright (C) 2021 Free Software Foundation, Inc.").

(** The trace file of a process that runs gcc and opens a file with
    [openat2]; strace printed no mode. *)
Definition quoted (s : string) : string := String "034" (s +:+ String "034" "").

Definition openat2_files : list StraceData.TraceFile :=
  [ StraceData.mkFile "trace-rpmbuild.7"
      [ "1700000000.000000000 execve("
          +:+ quoted "\x2f\x75\x73\x72\x2f\x62\x69\x6e\x2f\x67\x63\x63"
          +:+ ", [" +:+ quoted "\x67\x63\x63" +:+ "], 0x7ffd /* 3 vars */) = 0";
        "1700000001.000000000 openat2(AT_FDCWD</b>, " +:+ quoted "\x61"
          +:+ ", {flags=O_RDONLY, resolve=0}, 24) = 3</b/a>";
        "1700000002.000000000 +++ exited with 0 +++" ] ].

Definition openat2_store : @StraceData.t ExactRuntime.runtime :=
  Eval vm_compute in
    match StraceData.run Examples.dir_b openat2_files with
    | Ok s => s
    | Raise _ => StraceData.mk _ Examples.dir_b [] 0
    end.

End MoreExamples.

(* ===================================================================== *)
(** * Properties *)
(* ===================================================================== *)

(** ** Checks of the primitives *)

(** The string, path and tuple primitives on inputs where the interpreter's
    answers are known. *)
Example primitives_agree :
  PyStr.int " 5 " = Ok 5 /\ PyStr.int (String "028" "5") = Raise ValueError /\
  PyStr.int "1_0" = Ok 10 /\ PyStr.int "_1" = Raise ValueError /\ PyStr.int "1_" = Raise ValueError /\
  PyStr.int "1__0" = Raise ValueError /\ PyStr.int "+5" = Ok 5 /\ PyStr.int "-5" = Ok (-5) /\
  PyStr.int "+ 5" = Raise ValueError /\ PyStr.int "" = Raise ValueError /\ PyStr.int "007" = Ok 7 /\
  PyStr.int "--5" = Raise ValueError /\ PyStr.int "-0" = Ok 0 /\
  PosixPath.splitext "a." = ("a", ".") /\ PosixPath.splitext ".." = ("..", "") /\
  PosixPath.splitext "a..c" = ("a.", ".c") /\ PosixPath.splitext "/.x.c" = ("/.x", ".c") /\
  PosixPath.splitext "/x.y/..c" = ("/x.y/..c", "") /\
  PurePath.to_str (PurePath.join (PurePath.of_str "/b") (PurePath.of_str "c/./d//e/")) = "/b/c/d/e" /\
  PurePath.to_str (PurePath.join (PurePath.of_str "//b") (PurePath.of_str "c")) = "//b/c" /\
  PurePath.to_str (PurePath.join (PurePath.of_str "/b") (PurePath.of_str "//c")) = "//c" /\
  PurePath.to_str (PurePath.join (PurePath.of_str "/b") (PurePath.of_str "///c")) = "/c" /\
  PurePath.to_str (PurePath.join (PurePath.of_str "") (PurePath.of_str "")) = "." /\
  PurePath.to_str (PurePath.join (PurePath.of_str "b") (PurePath.of_str "")) = "b" /\
  PurePath.to_str (PurePath.join (PurePath.of_str "/") (PurePath.of_str "..")) = "/.." /\
  PyStr.split_str ", " "a, b,c" = ["a"; "b,c"] /\ PyStr.split "=" "" = [""] /\
  PyStr.split "=" "a=b=c" = ["a"; "b"; "c"] /\ PyStr.split1 "." "x.1.2" = ["x"; "1.2"] /\
  PyStr.split1 "." "x" = ["x"] /\
  CompilerMatcher.tuple_ltb [1;2] [1;2;0] = true /\ CompilerMatcher.tuple_eqb [1;2;0] [1;2] = false /\
  PyStr.rstrip (" a" +:+ String "028" " ") = " a" /\
  CompilerMatcher.slice_assign ["gcc"; "-o"] 1 3 ["-E"; "-o"; "p"] = ["gcc"; "-E"; "-o"; "p"] /\
  CompilerMatcher.slice_assign [] 1 1 ["-E"] = ["-E"] /\
  Re.match_ CompilerMatcher.re_std "---std=x" = None /\
  Re.match_ CompilerMatcher.re_std "--std=" = Some [("std", "")] /\
  Re.match_ CompilerMatcher.re_std ("-std=a" +:+ String "010" "") = Some [("std", "a")] /\
  Re.match_ CompilerMatcher.re_std ("-std=a" +:+ String "010" "b") = None /\
  Re.match_ CompilerMatcher.re_std ("-std=a" +:+ String "010" (String "010" "")) = None.
Proof. vm_compute. repeat split; reflexivity. Qed.

(** The transcribed patterns agree with the interpreter's matcher on sample
    inputs: for each input, the value of every named group. *)
Example patterns_agree :
  ((fun g => Re.group g <$> ["timestamp"; "killedby"; "exitcode"; "syscall"; "args"; "returnvalue"; "returnfile"; "errno"; "errstr"]) <$> Re.match_ StraceParser.regex_line ("1700000000.123456789 chdir(" +:+ (String "034" ("\x2f\x62" +:+ (String "034" ") = 0")))))
  = Some [Some "1700000000.123456789"; None; None; Some "chdir"; Some (String "034" ("\x2f\x62" +:+ (String "034" ""))); Some "0"; None; None; None] /\
  ((fun g => Re.group g <$> ["timestamp"; "killedby"; "exitcode"; "syscall"; "args"; "returnvalue"; "returnfile"; "errno"; "errstr"]) <$> Re.match_ StraceParser.regex_line ("1700000000.1 execve(" +:+ (String "034" ("\x2f\x62" +:+ (String "034" (", [" +:+ (String "034" ("\x67\x63\x63" +:+ (String "034" (", " +:+ (String "034" ("\x61\x2e\x63" +:+ (String "034" "], 0x7ffd /* 23 vars */) = 0")))))))))))))
  = Some [Some "1700000000.1"; None; None; Some "execve"; Some (String "034" ("\x2f\x62" +:+ (String "034" (", [" +:+ (String "034" ("\x67\x63\x63" +:+ (String "034" (", " +:+ (String "034" ("\x61\x2e\x63" +:+ (String "034" "], 0x7ffd /* 23 vars */"))))))))))); Some "0"; None; None; None] /\
  ((fun g => Re.group g <$> ["timestamp"; "killedby"; "exitcode"; "syscall"; "args"; "returnvalue"; "returnfile"; "errno"; "errstr"]) <$> Re.match_ StraceParser.regex_line ("1.5 openat(AT_FDCWD</b>, " +:+ (String "034" ("\x61\x2e\x63" +:+ (String "034" ", O_RDONLY|O_CLOEXEC) = 3</b/a.c>")))))
  = Some [Some "1.5"; None; None; Some "openat"; Some ("AT_FDCWD</b>, " +:+ (String "034" ("\x61\x2e\x63" +:+ (String "034" ", O_RDONLY|O_CLOEXEC")))); Some "3"; Some "/b/a.c"; None; None] /\
  ((fun g => Re.group g <$> ["timestamp"; "killedby"; "exitcode"; "syscall"; "args"; "returnvalue"; "returnfile"; "errno"; "errstr"]) <$> Re.match_ StraceParser.regex_line ("1.5 openat(AT_FDCWD</b>, " +:+ (String "034" ("\x61" +:+ (String "034" ", O_RDONLY) = -1 ENOENT (No such file or directory)")))))
  = Some [Some "1.5"; None; None; Some "openat"; Some ("AT_FDCWD</b>, " +:+ (String "034" ("\x61" +:+ (String "034" ", O_RDONLY")))); Some "-1"; None; Some "ENOENT"; Some "No such file or directory"] /\
  ((fun g => Re.group g <$> ["timestamp"; "killedby"; "exitcode"; "syscall"; "args"; "returnvalue"; "returnfile"; "errno"; "errstr"]) <$> Re.match_ StraceParser.regex_line "1.5 +++ exited with 0 +++")
  = Some [Some "1.5"; None; Some "0"; None; None; None; None; None; None] /\
  ((fun g => Re.group g <$> ["timestamp"; "killedby"; "exitcode"; "syscall"; "args"; "returnvalue"; "returnfile"; "errno"; "errstr"]) <$> Re.match_ StraceParser.regex_line "1.5 +++ exited with -1 +++")
  = Some [Some "1.5"; None; Some "-1"; None; None; None; None; None; None] /\
  ((fun g => Re.group g <$> ["timestamp"; "killedby"; "exitcode"; "syscall"; "args"; "returnvalue"; "returnfile"; "errno"; "errstr"]) <$> Re.match_ StraceParser.regex_line "1.5 +++ killed by SIGSEGV (core dumped) +++")
  = Some [Some "1.5"; Some "SIGSEGV"; None; None; None; None; None; None; None] /\
  ((fun g => Re.group g <$> ["timestamp"; "killedby"; "exitcode"; "syscall"; "args"; "returnvalue"; "returnfile"; "errno"; "errstr"]) <$> Re.match_ StraceParser.regex_line "1.5 +++ killed by SIGKILL +++")
  = Some [Some "1.5"; Some "SIGKILL"; None; None; None; None; None; None; None] /\
  ((fun g => Re.group g <$> ["timestamp"; "killedby"; "exitcode"; "syscall"; "args"; "returnvalue"; "returnfile"; "errno"; "errstr"]) <$> Re.match_ StraceParser.regex_line "1.5 clone2(a) = 7")
  = Some [Some "1.5"; None; None; Some "clone2"; Some "a"; Some "7"; None; None; None] /\
  ((fun g => Re.group g <$> ["timestamp"; "killedby"; "exitcode"; "syscall"; "args"; "returnvalue"; "returnfile"; "errno"; "errstr"]) <$> Re.match_ StraceParser.regex_line "1.5 clone(child_stack=NULL, flags=CLONE_CHILD_CLEARTID|SIGCHLD) = 101")
  = Some [Some "1.5"; None; None; Some "clone"; Some "child_stack=NULL, flags=CLONE_CHILD_CLEARTID|SIGCHLD"; Some "101"; None; None; None] /\
  ((fun g => Re.group g <$> ["timestamp"; "killedby"; "exitcode"; "syscall"; "args"; "returnvalue"; "returnfile"; "errno"; "errstr"]) <$> Re.match_ StraceParser.regex_line "1.5 fork() = 1) = 2")
  = Some [Some "1.5"; None; None; Some "fork"; Some ") = 1"; Some "2"; None; None; None] /\
  ((fun g => Re.group g <$> ["timestamp"; "killedby"; "exitcode"; "syscall"; "args"; "returnvalue"; "returnfile"; "errno"; "errstr"]) <$> Re.match_ StraceParser.regex_line ("1.5 open(" +:+ (String "034" (")" +:+ (String "034" ") = 3<a>b>")))))
  = Some [Some "1.5"; None; None; Some "open"; Some (String "034" (")" +:+ (String "034" ""))); Some "3"; Some "a>b"; None; None] /\
  Re.match_ StraceParser.regex_line "1.5 read(3) = 0" = None /\
  Re.match_ StraceParser.regex_line "1.5  fork() = 1" = None /\
  Re.match_ StraceParser.regex_line "15 fork() = 1" = None /\
  ((fun g => Re.group g <$> ["timestamp"; "killedby"; "exitcode"; "syscall"; "args"; "returnvalue"; "returnfile"; "errno"; "errstr"]) <$> Re.match_ StraceParser.regex_line ("1.5 fork()  =" +:+ (String "009" "1")))
  = Some [Some "1.5"; None; None; Some "fork"; Some ""; Some "1"; None; None; None] /\
  Re.match_ StraceParser.regex_line "1.5 fork() = 1 " = None /\
  Re.match_ StraceParser.regex_line "1.5 fork() = 1<x> (y)" = None /\
  ((fun g => Re.group g <$> ["timestamp"; "killedby"; "exitcode"; "syscall"; "args"; "returnvalue"; "returnfile"; "errno"; "errstr"]) <$> Re.match_ StraceParser.regex_line "1.5 vfork() = 1 E (y) (z)")
  = Some [Some "1.5"; None; None; Some "vfork"; Some ""; Some "1"; None; Some "E"; Some "y) (z"] /\
  Re.match_ StraceParser.regex_line "x 1.5 fork() = 1" = None /\
  ((fun g => Re.group g <$> ["timestamp"; "killedby"; "exitcode"; "syscall"; "args"; "returnvalue"; "returnfile"; "errno"; "errstr"]) <$> Re.match_ StraceParser.regex_line ("1.5 execveat(3, " +:+ (String "034" ("a" +:+ (String "034" ") = 0")))))
  = Some [Some "1.5"; None; None; Some "execveat"; Some ("3, " +:+ (String "034" ("a" +:+ (String "034" "")))); Some "0"; None; None; None] /\
  ((fun g => Re.group g <$> ["timestamp"; "killedby"; "exitcode"; "syscall"; "args"; "returnvalue"; "returnfile"; "errno"; "errstr"]) <$> Re.match_ StraceParser.regex_line ("1.5 openat2(3</b>, " +:+ (String "034" ("\x61" +:+ (String "034" ", {flags=O_RDONLY, mode=0, resolve=0}, 24) = 4")))))
  = Some [Some "1.5"; None; None; Some "openat2"; Some ("3</b>, " +:+ (String "034" ("\x61" +:+ (String "034" ", {flags=O_RDONLY, mode=0, resolve=0}, 24")))); Some "4"; None; None; None] /\
  ((fun g => Re.group g <$> ["path"; "argv"; "env"; "envph"]) <$> Re.match_ StraceParser.regex_syscall_execve_args (String "034" ("\x2f\x62" +:+ (String "034" (", [" +:+ (String "034" ("\x67\x63\x63" +:+ (String "034" (", " +:+ (String "034" ("\x61\x2e\x63" +:+ (String "034" "], 0x7ffd /* 23 vars */"))))))))))))
  = Some [Some "\x2f\x62"; Some (String "034" ("\x67\x63\x63" +:+ (String "034" (", " +:+ (String "034" ("\x61\x2e\x63" +:+ (String "034" ""))))))); None; Some "0x7ffd /* 23 vars */"] /\
  ((fun g => Re.group g <$> ["path"; "argv"; "env"; "envph"]) <$> Re.match_ StraceParser.regex_syscall_execve_args (String "034" ("\x2f\x62" +:+ (String "034" (", [" +:+ (String "034" ("\x67" +:+ (String "034" ("], [" +:+ (String "034" ("\x41\x3d\x31" +:+ (String "034" (", " +:+ (String "034" ("\x42" +:+ (String "034" "]"))))))))))))))))
  = Some [Some "\x2f\x62"; Some (String "034" ("\x67" +:+ (String "034" ""))); Some (String "034" ("\x41\x3d\x31" +:+ (String "034" (", " +:+ (String "034" ("\x42" +:+ (String "034" ""))))))); None] /\
  ((fun g => Re.group g <$> ["path"; "argv"; "env"; "envph"]) <$> Re.match_ StraceParser.regex_syscall_execve_args (String "034" ("\x2f\x62" +:+ (String "034" (", [" +:+ (String "034" ("\x67" +:+ (String "034" ("...], [" +:+ (String "034" ("\x41" +:+ (String "034" "...]"))))))))))))
  = Some [Some "\x2f\x62"; Some (String "034" ("\x67" +:+ (String "034" ""))); Some (String "034" ("\x41" +:+ (String "034" ""))); None] /\
  Re.match_ StraceParser.regex_syscall_execve_args (String "034" ("\x2f\x62" +:+ (String "034" ", [], 0x7ffd /* 23 vars */"))) = None /\
  Re.match_ StraceParser.regex_syscall_execve_args (String "034" ("\x2f\x6" +:+ (String "034" (", [" +:+ (String "034" ("\x67" +:+ (String "034" "], 0x7ffd /* 23 vars */"))))))) = None /\
  ((fun g => Re.group g <$> ["path"; "argv"; "env"; "envph"]) <$> Re.match_ StraceParser.regex_syscall_execve_args (String "034" (String "034" (", [" +:+ (String "034" (String "034" "], 0xAb /* 0 vars */"))))))
  = Some [Some ""; Some (String "034" (String "034" "")); None; Some "0xAb /* 0 vars */"] /\
  ((fun g => Re.group g <$> ["path"]) <$> Re.match_ StraceParser.regex_syscall_chdir_args (String "034" ("\x2f\x62" +:+ (String "034" ""))))
  = Some [Some "\x2f\x62"] /\
  ((fun g => Re.group g <$> ["path"]) <$> Re.match_ StraceParser.regex_syscall_chdir_args (String "034" (String "034" "")))
  = Some [Some ""] /\
  Re.match_ StraceParser.regex_syscall_chdir_args (String "034" ("/b" +:+ (String "034" ""))) = None /\
  Re.match_ StraceParser.regex_syscall_chdir_args (String "034" ("\x2f" +:+ (String "034" " "))) = None /\
  ((fun g => Re.group g <$> ["fd"; "path"]) <$> Re.match_ StraceParser.regex_syscall_fchdir_args "3<\x2f\x62>")
  = Some [Some "3"; Some "\x2f\x62"] /\
  Re.match_ StraceParser.regex_syscall_fchdir_args "3</b>" = None /\
  Re.match_ StraceParser.regex_syscall_fchdir_args "AT<\x2f>" = None /\
  ((fun g => Re.group g <$> ["fd"; "path"]) <$> Re.match_ StraceParser.regex_syscall_fchdir_args "12<>")
  = Some [Some "12"; Some ""] /\
  ((fun g => Re.group g <$> ["path"; "oflag"; "mode"]) <$> Re.match_ StraceParser.regex_syscall_open_args (String "034" ("\x61" +:+ (String "034" ", O_RDONLY"))))
  = Some [Some "\x61"; Some "O_RDONLY"; None] /\
  ((fun g => Re.group g <$> ["path"; "oflag"; "mode"]) <$> Re.match_ StraceParser.regex_syscall_open_args (String "034" ("\x61" +:+ (String "034" ", O_WRONLY|O_CREAT|O_TRUNC, 0666"))))
  = Some [Some "\x61"; Some "O_WRONLY|O_CREAT|O_TRUNC"; Some "0666"] /\
  Re.match_ StraceParser.regex_syscall_open_args (String "034" ("\x61" +:+ (String "034" ", O_RDONLY|"))) = None /\
  Re.match_ StraceParser.regex_syscall_open_args (String "034" ("\x61" +:+ (String "034" ", 0"))) = None /\
  ((fun g => Re.group g <$> ["cwdfd"; "cwd"; "path"; "oflag"; "mode"]) <$> Re.match_ StraceParser.regex_syscall_openat_args ("AT_FDCWD</b>, " +:+ (String "034" ("\x61" +:+ (String "034" ", O_RDONLY|O_CLOEXEC")))))
  = Some [Some "AT_FDCWD"; Some "/b"; Some "\x61"; Some "O_RDONLY|O_CLOEXEC"; None] /\
  ((fun g => Re.group g <$> ["cwdfd"; "cwd"; "path"; "oflag"; "mode"]) <$> Re.match_ StraceParser.regex_syscall_openat_args ("3, " +:+ (String "034" ("\x61" +:+ (String "034" ", O_RDONLY, 0644")))))
  = Some [Some "3"; None; Some "\x61"; Some "O_RDONLY"; Some "0644"] /\
  ((fun g => Re.group g <$> ["cwdfd"; "cwd"; "path"; "oflag"; "mode"]) <$> Re.match_ StraceParser.regex_syscall_openat_args ("AT_FDCWD<a>, <b>, " +:+ (String "034" ("\x61" +:+ (String "034" ", O_RDONLY")))))
  = Some [Some "AT_FDCWD"; Some "a>, <b"; Some "\x61"; Some "O_RDONLY"; None] /\
  Re.match_ StraceParser.regex_syscall_openat_args ("-1, " +:+ (String "034" ("\x61" +:+ (String "034" ", O_RDONLY")))) = None /\
  ((fun g => Re.group g <$> ["cwdfd"; "cwd"; "path"; "how"; "size"]) <$> Re.match_ StraceParser.regex_syscall_openat2_args ("3</b>, " +:+ (String "034" ("\x61" +:+ (String "034" ", {flags=O_RDONLY, mode=0, resolve=0}, 24")))))
  = Some [Some "3"; Some "/b"; Some "\x61"; Some "flags=O_RDONLY, mode=0, resolve=0"; Some "24"] /\
  ((fun g => Re.group g <$> ["cwdfd"; "cwd"; "path"; "how"; "size"]) <$> Re.match_ StraceParser.regex_syscall_openat2_args ("AT_FDCWD, " +:+ (String "034" ("\x61" +:+ (String "034" ", {}, 24")))))
  = Some [Some "AT_FDCWD"; None; Some "\x61"; Some ""; Some "24"] /\
  Re.match_ StraceParser.regex_syscall_openat2_args ("3, " +:+ (String "034" ("\x61" +:+ (String "034" ", {a}, {b}, 24")))) = None.
Proof. vm_compute. repeat split; reflexivity. Qed.

(** ** Results *)

Lemma result_mapM_app {A B} (f : A -> result B) (l1 l2 : list A) (r1 r2 : list B) :
  result_mapM f l1 = Ok r1 -> result_mapM f l2 = Ok r2 ->
  result_mapM f (l1 ++ l2) = Ok (r1 ++ r2).
Proof.
  revert r1. induction l1 as [|x l1 IH]; intros r1 H1 H2; simpl in *.
  - injection H1 as <-. exact H2.
  - destruct (f x) as [y|e]; simpl in *; [|discriminate].
    destruct (result_mapM f l1) as [ys|e]; simpl in *; [|discriminate].
    injection H1 as <-. rewrite (IH ys eq_refl H2). reflexivity.
Qed.

Lemma result_mapM_ok {A B} (f : A -> result B) (l : list A) :
  (forall x, In x l -> exists y, f x = Ok y) ->
  exists r, result_mapM f l = Ok r /\ length r = length l.
Proof.
  induction l as [|x l IH]; intros Hf; simpl.
  - exists []. split; reflexivity.
  - destruct (Hf x (or_introl eq_refl)) as [y Hy].
    destruct IH as [r [Hr Hl]]; [intros z Hz; apply Hf; right; exact Hz|].
    exists (y :: r). rewrite Hy, Hr. simpl. split; [reflexivity|congruence].
Qed.

(** ** Version strings *)

Module VersionFacts.
Import CompilerMatcher Spec.

Lemma digit_not_space c : PyStr.is_digit c = true -> PyStr.is_int_space c = false.
Proof.
  unfold PyStr.is_digit, PyStr.is_int_space, PyStr.code.
  generalize (nat_of_ascii c). intros n Hn.
  apply andb_true_iff in Hn as [H1 H2].
  apply Nat.leb_le in H1. apply Nat.leb_le in H2.
  repeat (apply orb_false_iff; split); try (apply Nat.eqb_neq; lia).
  apply andb_false_iff. right. apply Nat.leb_gt. lia.
Qed.

Lemma rstrip_digits s :
  all_digits_from s = true -> PyStr.rstrip_by PyStr.is_int_space s = s.
Proof.
  induction s as [|c s IH]; simpl; [reflexivity|].
  intros H. apply andb_true_iff in H as [Hc Hs].
  rewrite (IH Hs), (digit_not_space c Hc), andb_false_r. reflexivity.
Qed.

Lemma strip_integer s :
  is_integer s = true -> PyStr.strip_by PyStr.is_int_space s = s.
Proof.
  unfold is_integer, PyStr.strip_by. intros H.
  apply andb_true_iff in H as [_ H].
  destruct s as [|c s]; [reflexivity|].
  simpl in H. apply andb_true_iff in H as [Hc Hs].
  simpl PyStr.lstrip_by. rewrite (digit_not_space c Hc).
  apply rstrip_digits. simpl. rewrite Hc, Hs. reflexivity.
Qed.

Lemma int_digits_ok s : forall acc b,
  all_digits_from s = true -> (s <> "" \/ b = true) ->
  exists z, PyStr.int_digits s acc b = Some z.
Proof.
  induction s as [|c s IH]; intros acc b Hs Hne; simpl.
  - destruct Hne as [Hne | ->]; [congruence|]. eauto.
  - simpl in Hs. apply andb_true_iff in Hs as [Hc Hs]. rewrite Hc.
    apply IH; [exact Hs|]. right. reflexivity.
Qed.

Lemma digit_not_sign c : PyStr.is_digit c = true -> c <> "+"%char /\ c <> "-"%char.
Proof.
  intros H. split; intros ->; vm_compute in H; discriminate.
Qed.

Lemma int_unsigned c s :
  c <> "+"%char -> c <> "-"%char ->
  PyStr.strip_by PyStr.is_int_space (String c s) = String c s ->
  PyStr.int (String c s) = or_raise (PyStr.int_digits (String c s) 0 false) ValueError.
Proof.
  intros Hp Hm Hs. unfold PyStr.int. rewrite Hs.
  destruct c as [[] [] [] [] [] [] [] []]; try reflexivity; exfalso;
    (apply Hp; reflexivity) || (apply Hm; reflexivity).
Qed.

Lemma int_integer s : is_integer s = true -> exists z, PyStr.int s = Ok z.
Proof.
  intros H. pose proof (strip_integer s H) as Hstrip.
  unfold is_integer in H. apply andb_true_iff in H as [Hne Hd].
  destruct s as [|c s]; [discriminate|].
  assert (Hc : PyStr.is_digit c = true) by (simpl in Hd; apply andb_true_iff in Hd; tauto).
  destruct (digit_not_sign c Hc) as [Hp Hm].
  assert (Hs : String c s <> "") by discriminate.
  destruct (int_digits_ok (String c s) 0 false Hd (or_introl Hs)) as [z Hz].
  exists z. rewrite (int_unsigned c s Hp Hm Hstrip), Hz. reflexivity.
Qed.

(** Every dotted-integer string has a version tuple. *)
(** On a run of digits [int] returns the integer it writes. *)
Lemma int_digits_decimal s : forall acc b,
  all_digits_from s = true -> (s <> "" \/ b = true) ->
  PyStr.int_digits s acc b = Some (decimal_from acc s).
Proof.
  induction s as [|c s IH]; intros acc b Hs Hne; simpl.
  - destruct Hne as [Hne | ->]; [congruence|]. reflexivity.
  - simpl in Hs. apply andb_true_iff in Hs as [Hc Hs]. rewrite Hc.
    apply IH; [exact Hs|right; reflexivity].
Qed.

Lemma int_decimal s : is_integer s = true -> PyStr.int s = Ok (decimal s).
Proof.
  intros H. pose proof (strip_integer s H) as Hstrip.
  unfold is_integer in H. apply andb_true_iff in H as [Hne Hd].
  destruct s as [|c s]; [discriminate|].
  assert (Hc : PyStr.is_digit c = true) by (simpl in Hd; apply andb_true_iff in Hd; tauto).
  destruct (digit_not_sign c Hc) as [Hp Hm].
  rewrite (int_unsigned c s Hp Hm Hstrip).
  rewrite (int_digits_decimal (String c s) 0 false Hd) by (left; discriminate).
  reflexivity.
Qed.

Lemma result_mapM_fmap {A B} (f : A -> result B) (g : A -> B) (l : list A) :
  (forall x, In x l -> f x = Ok (g x)) -> result_mapM f l = Ok (g <$> l).
Proof.
  induction l as [|x l IH]; intros Hf; simpl; [reflexivity|].
  rewrite (Hf x (or_introl eq_refl)). simpl.
  rewrite IH by (intros y Hy; apply Hf; right; exact Hy). reflexivity.
Qed.

(** The tuple the code computes is the integer tuple of the string. *)
Lemma versiontuple_integer_tuple v :
  is_dotted_integers v = true -> versiontuple v = Ok (integer_tuple v).
Proof.
  unfold is_dotted_integers, versiontuple, integer_tuple. intros H.
  apply result_mapM_fmap. intros x Hx. apply int_decimal.
  rewrite forallb_forall in H. apply H, Hx.
Qed.

Lemma versiontuple_ok v :
  is_dotted_integers v = true -> exists t, versiontuple v = Ok t.
Proof.
  unfold is_dotted_integers, versiontuple. intros H.
  destruct (result_mapM_ok PyStr.int (PyStr.split "." v)) as [r [Hr _]].
  - intros x Hx. apply int_integer.
    rewrite forallb_forall in H. apply H, Hx.
  - eauto.
Qed.

(** *** Tuples *)

Lemma tuple_eqb_lex x : forall y,
  tuple_eqb x y = match lex_compare x y with Eq => true | _ => false end.
Proof.
  induction x as [|a x IH]; intros [|b y]; simpl; try reflexivity.
  rewrite IH. destruct (Z.compare_spec a b) as [->|Hlt|Hgt].
  - rewrite Z.eqb_refl. reflexivity.
  - replace (a =? b) with false by (symmetry; apply Z.eqb_neq; lia). reflexivity.
  - replace (a =? b) with false by (symmetry; apply Z.eqb_neq; lia). reflexivity.
Qed.

Lemma tuple_ltb_lex x : forall y,
  tuple_ltb x y = match lex_compare x y with Lt => true | _ => false end.
Proof.
  induction x as [|a x IH]; intros [|b y]; simpl; try reflexivity.
  rewrite IH. destruct (Z.compare_spec a b) as [->|Hlt|Hgt].
  - rewrite Z.eqb_refl. reflexivity.
  - replace (a =? b) with false by (symmetry; apply Z.eqb_neq; lia).
    apply Z.ltb_lt. exact Hlt.
  - replace (a =? b) with false by (symmetry; apply Z.eqb_neq; lia).
    apply Z.ltb_ge. lia.
Qed.

(** The code computes the specification's order. *)
Lemma version_compare_tuples_spec ta tb :
  version_compare_tuples ta tb = version_order ta tb.
Proof.
  unfold version_compare_tuples, version_order, pad_to.
  rewrite tuple_eqb_lex, tuple_ltb_lex.
  destruct (lex_compare _ _); reflexivity.
Qed.

Lemma lex_compare_refl x : lex_compare x x = Eq.
Proof. induction x as [|a x IH]; simpl; [reflexivity|]. rewrite Z.compare_refl. exact IH. Qed.

Lemma lex_compare_eq x : forall y, lex_compare x y = Eq -> x = y.
Proof.
  induction x as [|a x IH]; intros [|b y]; simpl; try discriminate; [reflexivity|].
  destruct (Z.compare_spec a b) as [->|Hlt|Hgt]; try discriminate.
  intros H. f_equal. apply IH, H.
Qed.

Lemma lex_compare_antisym x : forall y, lex_compare y x = CompOpp (lex_compare x y).
Proof.
  induction x as [|a x IH]; intros [|b y]; simpl; try reflexivity.
  rewrite (Z.compare_antisym a b). destruct (a ?= b); simpl; auto.
Qed.

Lemma lex_compare_lt_trans x : forall y z,
  lex_compare x y = Lt -> lex_compare y z = Lt -> lex_compare x z = Lt.
Proof.
  induction x as [|a x IH]; intros [|b y] [|c z]; simpl; try discriminate; try reflexivity.
  destruct (Z.compare_spec a b) as [->|Hab|Hab]; try discriminate.
  - destruct (Z.compare_spec b c) as [->|Hbc|Hbc]; try discriminate; [apply IH|reflexivity].
  - intros _. destruct (Z.compare_spec b c) as [->|Hbc|Hbc]; try discriminate.
    + intros _. destruct (Z.compare_spec a c); try lia. reflexivity.
    + intros _. destruct (Z.compare_spec a c); try lia. reflexivity.
Qed.

(** Padding both operands with the same number of zeros changes nothing. *)
Lemma lex_compare_app x : forall y z,
  length x = length y -> lex_compare (x ++ z) (y ++ z) = lex_compare x y.
Proof.
  induction x as [|a x IH]; intros [|b y] z; simpl; try discriminate.
  - intros _. apply lex_compare_refl.
  - intros H. destruct (a ?= b); try reflexivity. apply IH. lia.
Qed.

Lemma pad_to_length n t : (length t <= n)%nat -> length (pad_to n t) = n.
Proof. intros H. unfold pad_to. rewrite length_app, repeat_length. lia. Qed.

Lemma pad_to_more n m t :
  (length t <= n)%nat -> (n <= m)%nat -> pad_to m t = pad_to n t ++ repeat 0 (m - n)%nat.
Proof.
  intros H1 H2. unfold pad_to. rewrite <- app_assoc. f_equal.
  rewrite <- repeat_app. f_equal. lia.
Qed.

(** The order may be computed at any common length. *)
Lemma version_order_at n ta tb :
  (length ta <= n)%nat -> (length tb <= n)%nat ->
  version_order ta tb = sign_of (lex_compare (pad_to n ta) (pad_to n tb)).
Proof.
  intros Ha Hb. unfold version_order.
  set (m := Nat.max (length ta) (length tb)).
  rewrite (pad_to_more m n ta), (pad_to_more m n tb) by lia.
  rewrite lex_compare_app; [reflexivity|].
  rewrite !pad_to_length by lia. reflexivity.
Qed.

Lemma sign_of_opp c : sign_of (CompOpp c) = - sign_of c.
Proof. destruct c; reflexivity. Qed.

Lemma version_order_values ta tb :
  version_order ta tb = 0 \/ version_order ta tb = -1 \/ version_order ta tb = 1.
Proof. unfold version_order. destruct (lex_compare _ _); simpl; auto. Qed.

Lemma version_order_antisym ta tb : version_order tb ta = - version_order ta tb.
Proof.
  unfold version_order. rewrite (Nat.max_comm (length tb)).
  rewrite lex_compare_antisym. apply sign_of_opp.
Qed.

Lemma version_order_refl ta : version_order ta ta = 0.
Proof. unfold version_order. rewrite lex_compare_refl. reflexivity. Qed.

(** Transitivity, with the strict and the equal cases told apart. *)
Lemma version_order_trans ta tb tc :
  version_order ta tb <= 0 -> version_order tb tc <= 0 ->
  version_order ta tc <= 0 /\
  (version_order ta tc = 0 -> version_order ta tb = 0 /\ version_order tb tc = 0).
Proof.
  set (n := Nat.max (length ta) (Nat.max (length tb) (length tc))).
  rewrite (version_order_at n ta tb), (version_order_at n tb tc),
          (version_order_at n ta tc) by lia.
  destruct (lex_compare (pad_to n ta) (pad_to n tb)) eqn:Hab;
    destruct (lex_compare (pad_to n tb) (pad_to n tc)) eqn:Hbc;
    simpl; try lia; intros _ _.
  - apply lex_compare_eq in Hab. rewrite Hab, Hbc. simpl. split; [lia|auto].
  - apply lex_compare_eq in Hab. rewrite Hab, Hbc. simpl. split; lia.
  - apply lex_compare_eq in Hbc. rewrite <- Hbc, Hab. simpl. split; lia.
  - rewrite (lex_compare_lt_trans _ _ _ Hab Hbc). simpl. split; lia.
Qed.

(** A trailing zero component is absorbed by the padding. *)
Lemma version_order_snoc_l ta tb : version_order (ta ++ [0]) tb = version_order ta tb.
Proof.
  set (n := Nat.max (S (length ta)) (length tb)).
  rewrite (version_order_at n (ta ++ [0]) tb), (version_order_at n ta tb)
    by (rewrite ?length_app; simpl; lia).
  f_equal. f_equal. unfold pad_to. rewrite <- app_assoc. f_equal.
  rewrite length_app. simpl.
  replace (n - length ta)%nat with (S (n - (length ta + 1)))%nat by lia.
  reflexivity.
Qed.

Lemma version_order_snoc_r ta tb : version_order ta (tb ++ [0]) = version_order ta tb.
Proof.
  rewrite (version_order_antisym (tb ++ [0]) ta), version_order_snoc_l.
  rewrite <- version_order_antisym. reflexivity.
Qed.

(** *** Strings *)

Lemma split_nonempty sep s : PyStr.split sep s <> [].
Proof.
  destruct s as [|c s]; simpl; [discriminate|].
  destruct (Ascii.eqb c sep); [discriminate|].
  destruct (PyStr.split sep s); discriminate.
Qed.

Lemma split_app_dot a s :
  PyStr.split "." (a +:+ String "." s) = PyStr.split "." a ++ PyStr.split "." s.
Proof.
  induction a as [|c a IH]; simpl; [reflexivity|].
  rewrite IH. destruct (Ascii.eqb c "."); [reflexivity|].
  pose proof (split_nonempty "." a) as Hne.
  destruct (PyStr.split "." a); [congruence|reflexivity].
Qed.

Lemma versiontuple_dot_zero v t :
  versiontuple v = Ok t -> versiontuple (v +:+ ".0") = Ok (t ++ [0]).
Proof.
  unfold versiontuple. intros H. rewrite split_app_dot.
  apply result_mapM_app; [exact H|reflexivity].
Qed.

Lemma version_compare_ok a b ta tb :
  versiontuple a = Ok ta -> versiontuple b = Ok tb ->
  version_compare a b = Ok (version_order ta tb).
Proof.
  intros Ha Hb. unfold version_compare. rewrite Ha, Hb. simpl.
  rewrite version_compare_tuples_spec. reflexivity.
Qed.

End VersionFacts.

(** C6.  On dotted-integer strings [version_compare] returns the
    lexicographic comparison of their integer tuples (the integers written
    between the dots) padded with zeros to the longer length, as 0, -1 or
    1; swapping the operands negates the result; the comparison is
    transitive (a chain of two results that are not positive gives a result
    that is not positive, and it is 0 only when both are); appending [.0]
    to either operand changes no result. *)
Theorem version_compare_total_order (a b c : string) :
  Spec.is_dotted_integers a = true ->
  Spec.is_dotted_integers b = true ->
  Spec.is_dotted_integers c = true ->
  exists ab bc ac,
    CompilerMatcher.version_compare a b = Ok ab /\
    CompilerMatcher.version_compare b c = Ok bc /\
    CompilerMatcher.version_compare a c = Ok ac /\
    ab = Spec.version_order (Spec.integer_tuple a) (Spec.integer_tuple b) /\
    bc = Spec.version_order (Spec.integer_tuple b) (Spec.integer_tuple c) /\
    ac = Spec.version_order (Spec.integer_tuple a) (Spec.integer_tuple c) /\
    (ab = 0 \/ ab = -1 \/ ab = 1) /\
    CompilerMatcher.version_compare b a = Ok (- ab) /\
    (ab <= 0 -> bc <= 0 -> ac <= 0 /\ (ac = 0 -> ab = 0 /\ bc = 0)) /\
    CompilerMatcher.version_compare (a +:+ ".0") b = Ok ab /\
    CompilerMatcher.version_compare a (b +:+ ".0") = Ok ab.
Proof.
  intros Ha Hb Hc.
  pose proof (VersionFacts.versiontuple_integer_tuple a Ha) as Hta.
  pose proof (VersionFacts.versiontuple_integer_tuple b Hb) as Htb.
  pose proof (VersionFacts.versiontuple_integer_tuple c Hc) as Htc.
  set (ta := Spec.integer_tuple a) in *.
  set (tb := Spec.integer_tuple b) in *.
  set (tc := Spec.integer_tuple c) in *.
  exists (Spec.version_order ta tb), (Spec.version_order tb tc),
         (Spec.version_order ta tc).
  pose proof (VersionFacts.version_order_trans ta tb tc) as Htrans.
  split; [apply VersionFacts.version_compare_ok; assumption|].
  split; [apply VersionFacts.version_compare_ok; assumption|].
  split; [apply VersionFacts.version_compare_ok; assumption|].
  split; [reflexivity|]. split; [reflexivity|]. split; [reflexivity|].
  split; [apply VersionFacts.version_order_values|].
  split.
  { rewrite <- VersionFacts.version_order_antisym.
    apply VersionFacts.version_compare_ok; assumption. }
  split; [exact Htrans|].
  split.
  - rewrite <- (VersionFacts.version_order_snoc_l ta tb).
    apply VersionFacts.version_compare_ok;
      [apply VersionFacts.versiontuple_dot_zero|]; assumption.
  - rewrite <- (VersionFacts.version_order_snoc_r ta tb).
    apply VersionFacts.version_compare_ok;
      [|apply VersionFacts.versiontuple_dot_zero]; assumption.
Qed.

Lemma version_compare_total_order_witness :
  exists ab bc ac,
    CompilerMatcher.version_compare "1.2" "1.10" = Ok ab /\
    CompilerMatcher.version_compare "1.10" "2" = Ok bc /\
    CompilerMatcher.version_compare "1.2" "2" = Ok ac /\
    ab = Spec.version_order (Spec.integer_tuple "1.2") (Spec.integer_tuple "1.10") /\
    bc = Spec.version_order (Spec.integer_tuple "1.10") (Spec.integer_tuple "2") /\
    ac = Spec.version_order (Spec.integer_tuple "1.2") (Spec.integer_tuple "2") /\
    (ab = 0 \/ ab = -1 \/ ab = 1) /\
    CompilerMatcher.version_compare "1.10" "1.2" = Ok (- ab) /\
    (ab <= 0 -> bc <= 0 -> ac <= 0 /\ (ac = 0 -> ab = 0 /\ bc = 0)) /\
    CompilerMatcher.version_compare ("1.2" +:+ ".0") "1.10" = Ok ab /\
    CompilerMatcher.version_compare "1.2" ("1.10" +:+ ".0") = Ok ab.
Proof.
  apply (version_compare_total_order "1.2" "1.10" "2"); reflexivity.
Defined.

(** [1.2] is below [1.10]: the components are compared as integers, 2
    against 10, and [1.2.0] equals [1.2]. *)
Example version_compare_examples :
  Spec.integer_tuple "1.2" = [1; 2] /\
  Spec.integer_tuple "1.10" = [1; 10] /\
  CompilerMatcher.version_compare "1.2" "1.10" = Ok (-1) /\
  CompilerMatcher.version_compare "1.10" "1.2" = Ok 1 /\
  CompilerMatcher.version_compare "1.2.0" "1.2" = Ok 0 /\
  CompilerMatcher.version_compare "11.5.0" "11.0.0" = Ok 1.
Proof. vm_compute. repeat split; reflexivity. Qed.

(** ** Default standards *)

Module DefaultStdFacts.
Import Language CompilerMatcher Spec.

Section Loop.
Variables (data : list std_row) (version : string) (tv : list Z) (lang : ID).
Hypothesis Hv : versiontuple version = Ok tv.
(** The shape of the tables: the first row has no version, the others
    have one and come in ascending order; every row knows [lang]. *)
Hypothesis Hfirst : exists row0, data !! 0%nat = Some row0 /\ min_version row0 = None.
Hypothesis Hrest : forall j r, data !! S j = Some r ->
  exists mv t, min_version r = Some mv /\ versiontuple mv = Ok t.
Hypothesis Hlang : forall j r, data !! j = Some r ->
  exists s, dict_get lang (snd r) = Some s.
Hypothesis Hsorted : forall j1 j2 r1 r2, (j1 <= j2)%nat ->
  data !! S j1 = Some r1 -> data !! S j2 = Some r2 -> row_le r1 r2.

Lemma first_not_qualifies row0 :
  data !! 0%nat = Some row0 -> ~ qualifies tv row0.
Proof.
  intros H0 [mv [t [Hm _]]]. destruct Hfirst as [r [Hr Hn]].
  rewrite H0 in Hr. injection Hr as <-. congruence.
Qed.

Lemma loop_unfold i row :
  data !! i = Some row ->
  default_std_loop data version lang i =
  match min_version row with
  | Some v =>
      c ← version_compare v version;
      if c <=? 0 then or_raise (dict_get lang (snd row)) KeyError
      else match i with
           | S i' => default_std_loop data version lang i'
           | O => Raise IndexError
           end
  | None =>
      row0 ← or_raise (data !! 0%nat) IndexError;
      or_raise (dict_get lang (snd row0)) KeyError
  end.
Proof.
  intros H.
  transitivity
    (r ← or_raise (data !! i) IndexError;
     match min_version r with
     | Some v =>
         c ← version_compare v version;
         if c <=? 0 then or_raise (dict_get lang (snd r)) KeyError
         else match i with
              | S i' => default_std_loop data version lang i'
              | O => Raise IndexError
              end
     | None =>
         row0 ← or_raise (data !! 0%nat) IndexError;
         or_raise (dict_get lang (snd row0)) KeyError
     end); [destruct i; reflexivity|].
  rewrite H. reflexivity.
Qed.

Lemma loop_selects i :
  (i < length data)%nat ->
  (forall j r, (i < j)%nat -> data !! j = Some r -> ~ qualifies tv r) ->
  exists row s,
    default_std_loop data version lang i = Ok s /\
    dict_get lang (snd row) = Some s /\ selected data tv row.
Proof.
  induction i as [|i IH]; intros Hi Habove.
  - destruct Hfirst as [row0 [H0 Hn]].
    destruct (Hlang _ _ H0) as [s Hs].
    exists row0, s. rewrite (loop_unfold _ _ H0), Hn, H0. cbn.
    rewrite Hs. split; [reflexivity|]. split; [reflexivity|].
    right. split; [exact H0|].
    intros r' Hin. apply list_elem_of_In, list_elem_of_lookup in Hin as [j Hj].
    destruct j as [|j]; [apply first_not_qualifies; exact Hj|].
    apply (Habove (S j)); [lia|exact Hj].
  - destruct (lookup_lt_is_Some_2 data (S i) Hi) as [row Hrow].
    destruct (Hrest _ _ Hrow) as [mv [t [Hmv Ht]]].
    destruct (Hlang _ _ Hrow) as [s Hs].
    rewrite (loop_unfold _ _ Hrow), Hmv.
    rewrite (VersionFacts.version_compare_ok mv version t tv Ht Hv). cbn.
    destruct (Z.leb_spec (version_order t tv) 0) as [Hle|Hgt].
    + exists row, s. rewrite Hs. split; [reflexivity|]. split; [reflexivity|].
      left. split; [apply list_elem_of_In, list_elem_of_lookup; eauto|].
      split; [exists mv, t; auto|].
      intros r' Hin Hq.
      apply list_elem_of_In, list_elem_of_lookup in Hin as [j Hj].
      destruct j as [|j]; [exfalso; exact (first_not_qualifies _ Hj Hq)|].
      destruct (Nat.le_gt_cases j i) as [Hji|Hji].
      * exact (Hsorted j i r' row Hji Hj Hrow).
      * exfalso. apply (Habove (S j) r'); [lia|exact Hj|exact Hq].
    + apply IH; [lia|].
      intros j r Hj Hr. destruct (Nat.eq_dec j (S i)) as [->|Hne].
      * rewrite Hrow in Hr. injection Hr as <-.
        intros [mv' [t' [Hmv' [Ht' Hle']]]].
        rewrite Hmv in Hmv'. injection Hmv' as <-.
        rewrite Ht in Ht'. injection Ht' as <-. lia.
      * apply (Habove j r); [lia|exact Hr].
Qed.

Lemma loop_from_last :
  exists row s,
    default_std_loop data version lang (length data - 1) = Ok s /\
    dict_get lang (snd row) = Some s /\ selected data tv row.
Proof.
  destruct Hfirst as [row0 [H0 _]].
  pose proof (lookup_lt_Some _ _ _ H0) as Hlen.
  apply loop_selects; [lia|].
  intros j r Hj Hr. apply lookup_lt_Some in Hr. lia.
Qed.
End Loop.

(** The three tables have the shape the loop relies on. *)
Lemma tables_shape id data lang :
  dict_get id std_default = Some data ->
  (exists row0, data !! 0%nat = Some row0 /\ min_version row0 = None) /\
  (forall j r, data !! S j = Some r ->
     exists mv t, min_version r = Some mv /\ versiontuple mv = Ok t) /\
  (forall j r, data !! j = Some r -> exists s, dict_get lang (snd r) = Some s) /\
  (forall j1 j2 r1 r2, (j1 <= j2)%nat ->
     data !! S j1 = Some r1 -> data !! S j2 = Some r2 -> row_le r1 r2).
Proof.
  intros Hd. unfold std_default in Hd. simpl in Hd.
  repeat case_decide; try discriminate; injection Hd as <-.
  all: split; [eexists; split; reflexivity|].
  all: split;
    [intros j r Hj; do 5 (try destruct j as [|j]); try discriminate;
     injection Hj as <-; do 2 eexists; split; reflexivity|].
  all: split;
    [intros j r Hj; do 6 (try destruct j as [|j]); try discriminate;
     injection Hj as <-; destruct lang; eexists; reflexivity|].
  all: intros j1 j2 r1 r2 Hle Hr1 Hr2;
    do 5 (try destruct j1 as [|j1]); try discriminate;
    do 5 (try destruct j2 as [|j2]); try discriminate; try lia;
    injection Hr1 as <-; injection Hr2 as <-;
    do 4 eexists; repeat (split; [reflexivity|]); vm_compute; discriminate.
Qed.

Lemma get_default_std_ok compiler lang data tv :
  dict_get (cid_id compiler) std_default = Some data ->
  versiontuple (cid_version compiler) = Ok tv ->
  exists row s,
    get_default_std compiler lang = Ok s /\
    dict_get lang (snd row) = Some s /\ selected data tv row.
Proof.
  intros Hd Htv.
  destruct (tables_shape _ _ lang Hd) as [H1 [H2 [H3 H4]]].
  destruct (loop_from_last data (cid_version compiler) tv lang Htv H1 H2 H3 H4)
    as [row [s [Hs [Hl Hsel]]]].
  exists row, s. unfold get_default_std. rewrite Hd. auto.
Qed.




End DefaultStdFacts.



(** The rows of the tables at some versions. *)
Example default_std_examples :
  CompilerMatcher.get_default_std (mkCompilerId "gcc" None "4.9.3") Language.C = Ok "gnu90" /\
  CompilerMatcher.get_default_std (mkCompilerId "gcc" None "5.0.0") Language.C = Ok "gnu11" /\
  CompilerMatcher.get_default_std (mkCompilerId "gcc" None "10.2.1") Language.CXX = Ok "gnu++14" /\
  CompilerMatcher.get_default_std (mkCompilerId "gcc" None "15.0.1") Language.C = Ok "gnu23" /\
  CompilerMatcher.get_default_std Examples.clang_16 Language.CXX = Ok "gnu++17" /\
  CompilerMatcher.get_default_std Examples.lcc_1_27 Language.CXX = Ok "gnu++14" /\
  CompilerMatcher.get_default_std (mkCompilerId "icc" None "1.0.0") Language.C = Raise KeyError /\
  CompilerMatcher.get_default_std (mkCompilerId "gcc" None "11.x") Language.C = Raise ValueError.
Proof. vm_compute. repeat split; reflexivity. Qed.

(** ** Source metadata *)

Module MetadataFacts.
Import Language CompilerMatcher Spec.

(** What [get_source_metadata] computes once its lookups succeed. *)
Lemma get_source_metadata_eq cc source std arg0 langs fl :
  find_std (args cc) 0 (args cc) = Ok std ->
  args cc !! 0%nat = Some arg0 ->
  dict_get (snd (PosixPath.splitext source)) source_exts = Some (SOURCE, langs) ->
  langs !! 0%nat = Some fl ->
  get_source_metadata cc source =
  let ret_lang := if PyStr.contains "++" arg0 then CXX else fl in
  let ret_std :=
    match std with
    | Some v => if bool_decide (lang_of_std v = ret_lang) then std else None
    | None => None
    end in
  r1 ← (if bool_decide (ret_std = None) && bool_decide (std = None)
           && bool_decide ("-ansi" ∈ args cc)
        then get_ansi_std (compiler cc) ret_lang
        else Ok ret_std);
  r2 ← match r1 with
       | None => get_default_std (compiler cc) ret_lang
       | Some s => Ok s
       end;
  Ok (mkMeta ret_lang r2).
Proof.
  intros Hstd H0 Hext Hfl. unfold get_source_metadata.
  rewrite Hstd. cbn [mbind result_bind]. rewrite H0. cbn [or_raise mbind result_bind].
  rewrite Hext. cbn [or_raise mbind result_bind snd fst]. rewrite Hfl.
  cbn [or_raise mbind result_bind].
  rewrite bool_decide_eq_true_2 by reflexivity. cbn [negb].
  destruct (PyStr.contains "++" arg0); destruct std as [v|]; reflexivity.
Qed.

Lemma ansi_table_known id data :
  dict_get id std_default = Some data -> exists d, dict_get id std_ansi = Some d.
Proof.
  unfold std_default, std_ansi. simpl.
  repeat case_decide; try discriminate; intros _; eauto.
Qed.

Lemma get_ansi_std_ok compiler lang data :
  dict_get (cid_id compiler) std_default = Some data ->
  exists o, get_ansi_std compiler lang = Ok o.
Proof.
  intros Hd. destruct (ansi_table_known _ _ Hd) as [d Hdd].
  unfold get_ansi_std. rewrite Hdd. simpl. eauto.
Qed.

(** The search for the standard returns when each [--std] has a successor. *)
Lemma find_std_ok args :
  (forall i, args !! i = Some "--std" -> is_Some (args !! (i + 1)%nat)) ->
  forall todo i, drop i args = todo -> exists r, find_std args i todo = Ok r.
Proof.
  intros Hpre. induction todo as [|arg todo IH]; intros i Hdrop; simpl; [eauto|].
  assert (Hi : args !! i = Some arg).
  { pose proof (lookup_drop args i 0) as E. rewrite Hdrop in E. simpl in E.
    rewrite Nat.add_0_r in E. congruence. }
  destruct (Re.match_ re_std arg); [eauto|].
  destruct (String.eqb_spec arg "--std") as [->|Hne].
  - destruct (Hpre i Hi) as [x Hx]. rewrite Hx. simpl. eauto.
  - apply IH. replace (S i) with (i + 1)%nat by lia.
    rewrite <- drop_drop, Hdrop. reflexivity.
Qed.

(** A trailing [--std] that the search reaches is read out of bounds. *)
Lemma find_std_trailing pre : forall pre0,
  Forall (fun a => is_std_option a = false) pre ->
  find_std (pre0 ++ pre ++ ["--std"]) (length pre0) (pre ++ ["--std"])
  = Raise IndexError.
Proof.
  induction pre as [|a pre IH]; intros pre0 Hall.
  - cbn [app find_std].
    replace (Re.match_ re_std "--std") with (@None Re.groups) by (vm_compute; reflexivity).
    cbn [String.eqb Ascii.eqb Bool.eqb].
    rewrite lookup_ge_None_2; [reflexivity|]. rewrite length_app. simpl. lia.
  - apply Forall_cons in Hall as [Ha Hall]. unfold is_std_option in Ha.
    cbn [app find_std].
    destruct (Re.match_ re_std a); [discriminate|]. rewrite Ha.
    specialize (IH (pre0 ++ [a]) Hall).
    rewrite <- app_assoc in IH. cbn [app] in IH.
    rewrite length_app in IH. cbn [length] in IH.
    replace (length pre0 + 1)%nat with (S (length pre0)) in IH by lia.
    exact IH.
Qed.

Lemma source_ext_lang ext langs :
  dict_get ext source_exts = Some (SOURCE, langs) -> exists fl, langs !! 0%nat = Some fl.
Proof.
  unfold source_exts. simpl.
  repeat case_decide; intros Hs; try discriminate; injection Hs as <-; eauto.
Qed.

Lemma is_source_arg_ext source :
  is_source_arg source = true ->
  exists langs fl,
    dict_get (snd (PosixPath.splitext source)) source_exts = Some (SOURCE, langs) /\
    langs !! 0%nat = Some fl.
Proof.
  unfold is_source_arg. intros H.
  destruct (dict_get _ source_exts) as [[[] langs]|] eqn:E; try discriminate.
  destruct (source_ext_lang _ _ E) as [fl Hfl]. eauto.
Qed.

End MetadataFacts.






(** [-ansi] alone under gcc for a [.c] source gives c90; under clang 16, c89. *)
Example ansi_gcc_c90 :
  CompilerMatcher.get_source_metadata Examples.gcc_ansi "x.c"
  = Ok (mkMeta Language.C "c90").
Proof. vm_compute. reflexivity. Qed.


(** ** The list indices of [get_source_metadata] *)

Module IndexFacts.
Import Language CompilerMatcher.

Lemma or_raise_raises {A} (o : option A) (e e' : exn) (x : result A) :
  x = or_raise o e -> x = Raise e' -> e' = e.
Proof. intros -> H. destruct o; [discriminate|]. injection H as <-. reflexivity. Qed.

(** [int] raises nothing but [ValueError]. *)
Lemma int_raises s e : PyStr.int s = Raise e -> e = ValueError.
Proof.
  unfold PyStr.int. destruct (PyStr.strip_by PyStr.is_int_space s) as [|c r].
  - intros H. exact (or_raise_raises _ _ _ _ eq_refl H).
  - destruct c as [[] [] [] [] [] [] [] []];
      intros H; exact (or_raise_raises _ _ _ _ eq_refl H).
Qed.

Lemma result_mapM_raises {A B} (f : A -> result B) (e0 : exn) (l : list A) :
  (forall x e, f x = Raise e -> e = e0) ->
  forall e, result_mapM f l = Raise e -> e = e0.
Proof.
  intros Hf. induction l as [|x l IH]; intros e; simpl; [discriminate|].
  destruct (f x) as [y|e1] eqn:E; simpl.
  - destruct (result_mapM f l) as [r|e2]; simpl; [discriminate|].
    intros [= <-]. apply IH. reflexivity.
  - intros [= <-]. exact (Hf _ _ E).
Qed.

Lemma version_compare_raises a b e : version_compare a b = Raise e -> e = ValueError.
Proof.
  unfold version_compare, versiontuple.
  destruct (result_mapM PyStr.int (PyStr.split "." a)) as [ta|ea] eqn:Ea; simpl.
  - destruct (result_mapM PyStr.int (PyStr.split "." b)) as [tb|eb] eqn:Eb; simpl;
      [discriminate|].
    intros [= <-]. exact (result_mapM_raises _ _ _ int_raises _ Eb).
  - intros [= <-]. exact (result_mapM_raises _ _ _ int_raises _ Ea).
Qed.

(** The search for the default standard leaves no list when the first row
    carries no version. *)
Lemma default_std_loop_in_bounds data version lang row0 :
  data !! 0%nat = Some row0 -> min_version row0 = None ->
  forall i, (i < length data)%nat ->
    default_std_loop data version lang i <> Raise IndexError.
Proof.
  intros H0 Hmin. induction i as [|i IH]; intros Hi.
  - cbn [default_std_loop]. rewrite H0. cbn [or_raise mbind result_bind].
    rewrite Hmin. destruct (dict_get lang (snd row0)); discriminate.
  - cbn [default_std_loop].
    destruct (data !! S i) as [row|] eqn:Hrow;
      [|apply lookup_ge_None_1 in Hrow; lia].
    cbn [or_raise mbind result_bind].
    destruct (min_version row) as [v|].
    + destruct (version_compare v version) as [c|e] eqn:E; cbn [mbind result_bind].
      * destruct (c <=? 0); [destruct (dict_get lang (snd row)); discriminate|].
        apply IH. lia.
      * apply version_compare_raises in E. subst e. discriminate.
    + rewrite H0. cbn [or_raise mbind result_bind].
      destruct (dict_get lang (snd row0)); discriminate.
Qed.

Lemma get_default_std_in_bounds compiler lang :
  get_default_std compiler lang <> Raise IndexError.
Proof.
  unfold get_default_std.
  destruct (dict_get (cid_id compiler) std_default) as [data|] eqn:Hd;
    [|discriminate]. cbn [or_raise mbind result_bind].
  destruct (DefaultStdFacts.tables_shape _ _ lang Hd) as [[row0 [H0 Hmin]] _].
  apply (default_std_loop_in_bounds _ _ _ row0 H0 Hmin).
  destruct data; [discriminate|]. simpl. lia.
Qed.

(** Every extension of the table comes with a language. *)
Lemma ext_meta_lang ext meta :
  dict_get ext source_exts = Some meta -> exists fl, snd meta !! 0%nat = Some fl.
Proof.
  unfold source_exts. simpl.
  repeat case_decide; intros Hs; try discriminate; injection Hs as <-; eauto.
Qed.

Lemma get_source_metadata_in_bounds cc source :
  args cc <> [] ->
  (forall i, args cc !! i = Some "--std" -> is_Some (args cc !! (i + 1)%nat)) ->
  get_source_metadata cc source <> Raise IndexError.
Proof.
  intros Hne Hpre. unfold get_source_metadata.
  destruct (MetadataFacts.find_std_ok (args cc) Hpre (args cc) 0%nat eq_refl)
    as [std ->].
  cbn [mbind result_bind].
  destruct (args cc) as [|arg0 rest] eqn:Hargs; [congruence|].
  cbn [lookup list_lookup or_raise mbind result_bind].
  destruct (dict_get (snd (PosixPath.splitext source)) source_exts) as [meta|] eqn:Hext;
    [|discriminate].
  cbn [or_raise mbind result_bind].
  destruct (ext_meta_lang _ _ Hext) as [fl ->]. cbn [or_raise mbind result_bind].
  destruct (negb _); [discriminate|]. cbv zeta.
  match goal with
  | |- (x ← (if ?b then _ else _); _) <> _ => destruct b
  end.
  - unfold get_ansi_std.
    destruct (dict_get (cid_id (compiler cc)) std_ansi) as [d|]; [|discriminate].
    cbn [or_raise mbind result_bind].
    destruct (dict_get _ d); cbn [mbind result_bind]; [discriminate|].
    destruct (get_default_std _ _) as [s|e] eqn:E; [discriminate|].
    cbn [mbind result_bind]. intros [= ->].
    exact (get_default_std_in_bounds _ _ E).
  - cbn [mbind result_bind].
    match goal with
    | |- (x ← match ?o with Some _ => _ | None => _ end; _) <> _ => destruct o
    end; cbn [mbind result_bind]; [discriminate|].
    destruct (get_default_std _ _) as [s|e] eqn:E; [discriminate|].
    cbn [mbind result_bind]. intros [= ->].
    exact (get_default_std_in_bounds _ _ E).
Qed.

End IndexFacts.

(** C10 (as amended).  A list index of [get_source_metadata] can fall
    outside its list in two places: after an argument [--std], and at the
    first argument.  When the argument list is not empty and every [--std]
    in it is followed by a further argument, the call never ends in
    [IndexError], whatever the source and the compiler; when moreover the
    source has a SOURCE extension and the compiler is one of the tables
    with a dotted-integer version, the call returns.  The condition on
    [--std] cannot be dropped: in a list that ends with [--std] the index
    after it is outside the list, and when the search reaches that argument
    the call ends in [IndexError]. *)
Theorem get_source_metadata_index_safety (cc : CompilerCommand) (source : string) :
  (args cc <> [] ->
   (forall i, args cc !! i = Some "--std" -> is_Some (args cc !! (i + 1)%nat)) ->
   CompilerMatcher.get_source_metadata cc source <> Raise IndexError /\
   (CompilerMatcher.is_source_arg source = true ->
    is_Some (dict_get (cid_id (compiler cc)) CompilerMatcher.std_default) ->
    Spec.is_dotted_integers (cid_version (compiler cc)) = true ->
    exists m, CompilerMatcher.get_source_metadata cc source = Ok m))
  /\
  (forall pre,
     args cc = pre ++ ["--std"] ->
     args cc !! (length pre + 1)%nat = None /\
     (Forall (fun a => Spec.is_std_option a = false) pre ->
      CompilerMatcher.get_source_metadata cc source = Raise IndexError)).
Proof.
  split.
  - intros Hne Hpre. split; [exact (IndexFacts.get_source_metadata_in_bounds _ _ Hne Hpre)|].
    intros Hsrc [data Hd] Hver.
    destruct (args cc) as [|arg0 rest] eqn:Hargs; [congruence|].
    destruct (MetadataFacts.find_std_ok (args cc)) with (todo := args cc) (i := 0%nat)
      as [std Hstd]; [rewrite Hargs; exact Hpre|reflexivity|].
    destruct (MetadataFacts.is_source_arg_ext source Hsrc) as [langs [fl [Hext Hfl]]].
    destruct (VersionFacts.versiontuple_ok _ Hver) as [tv Htv].
    assert (H0 : args cc !! 0%nat = Some arg0) by (rewrite Hargs; reflexivity).
    rewrite (MetadataFacts.get_source_metadata_eq cc source std arg0 langs fl
               Hstd H0 Hext Hfl).
    set (eff := if PyStr.contains "++" arg0 then Language.CXX else fl).
    destruct (DefaultStdFacts.get_default_std_ok (compiler cc) eff data tv Hd Htv)
      as [row [d [Hdef _]]].
    destruct (MetadataFacts.get_ansi_std_ok (compiler cc) eff data Hd) as [o Ho].
    cbv zeta.
    destruct (_ && _ && _).
    + rewrite Ho. cbn. destruct o; [|rewrite Hdef]; cbn; eauto.
    + cbn. destruct (match std with Some _ => _ | None => _ end);
        [|rewrite Hdef]; cbn; eauto.
  - intros pre Hargs. split.
    + rewrite Hargs. apply lookup_ge_None_2. rewrite length_app. simpl. lia.
    + intros Hall. unfold CompilerMatcher.get_source_metadata. rewrite Hargs.
      pose proof (MetadataFacts.find_std_trailing pre [] Hall) as E.
      cbn [app length] in E. rewrite E. reflexivity.
Qed.

Lemma get_source_metadata_index_safety_witness :
  CompilerMatcher.get_source_metadata Examples.gcc_o2 "a.c" <> Raise IndexError /\
  exists m, CompilerMatcher.get_source_metadata Examples.gcc_o2 "a.c" = Ok m.
Proof.
  assert (Hne : args Examples.gcc_o2 <> []) by discriminate.
  assert (Hpre : forall i, args Examples.gcc_o2 !! i = Some "--std" ->
                           is_Some (args Examples.gcc_o2 !! (i + 1)%nat)).
  { intros i Hi. exfalso. do 5 (destruct i as [|i]; [discriminate|]). discriminate. }
  destruct (proj1 (get_source_metadata_index_safety Examples.gcc_o2 "a.c") Hne Hpre)
    as [Hsafe Htotal].
  split; [exact Hsafe|]. apply Htotal.
  - reflexivity.
  - eexists. reflexivity.
  - reflexivity.
Defined.

(** C10 as stated fails: in an empty argument list every [--std] has its
    follower, there being none, and the call ends in [IndexError] at the
    first argument. *)
Lemma get_source_metadata_empty_argv_counterexample :
  let cc := mkCommand Examples.dir_b Examples.gcc_11_5 "/usr/bin/gcc" [] in
  (forall i, args cc !! i = Some "--std" -> is_Some (args cc !! (i + 1)%nat)) /\
  CompilerMatcher.is_source_arg "a.c" = true /\
  CompilerMatcher.get_source_metadata cc "a.c" = Raise IndexError.
Proof.
  cbv zeta. split; [intros i Hi; discriminate Hi|].
  split; vm_compute; reflexivity.
Qed.

(** The other conditions are needed for the call to return: a header, a
    compiler outside the tables and a version that is no dotted integer
    end in [AssertionError], [KeyError] and [ValueError]. *)
Example get_source_metadata_other_errors :
  CompilerMatcher.get_source_metadata Examples.gcc_o2 "a.h" = Raise AssertionError /\
  CompilerMatcher.get_source_metadata
    (mkCommand Examples.dir_b (mkCompilerId "tcc" None "0.9.27") "/usr/bin/tcc"
               ["tcc"; "a.c"]) "a.c" = Raise KeyError /\
  CompilerMatcher.get_source_metadata
    (mkCommand Examples.dir_b (mkCompilerId "gcc" None "11.x") "/usr/bin/gcc"
               ["gcc"; "a.c"]) "a.c" = Raise ValueError.
Proof. vm_compute. repeat split; reflexivity. Qed.

(** [clang x.c --std] ends in [IndexError]. *)
Example trailing_std_raises :
  CompilerMatcher.get_source_metadata Examples.clang_trailing_std "x.c"
  = Raise IndexError.
Proof. vm_compute. reflexivity. Qed.

(** [g++ -std=c11 x.cpp] with gcc 11.5.0 is C++ with gnu++17; [clang -ansi
    x.c] with clang 16 is C with c89; [clang++ -ansi x.cpp] has no entry in
    the [-ansi] table and gets the default. *)
Example metadata_examples :
  CompilerMatcher.get_source_metadata
    (mkCommand Examples.dir_b Examples.gcc_11_5 "/usr/bin/g++" ["g++"; "-std=c11"; "x.cpp"])
    "x.cpp" = Ok (mkMeta Language.CXX "gnu++17") /\
  CompilerMatcher.get_source_metadata
    (mkCommand Examples.dir_b Examples.clang_16 "/usr/bin/clang" ["clang"; "-ansi"; "x.c"])
    "x.c" = Ok (mkMeta Language.C "c89") /\
  CompilerMatcher.get_source_metadata
    (mkCommand Examples.dir_b Examples.clang_16 "/usr/bin/clang++"
               ["clang++"; "-ansi"; "x.cpp"])
    "x.cpp" = Ok (mkMeta Language.CXX "gnu++17") /\
  CompilerMatcher.get_source_metadata
    (mkCommand Examples.dir_b Examples.gcc_11_5 "/usr/bin/gcc" ["gcc"; "--std"; "c99"; "x.c"])
    "x.c" = Ok (mkMeta Language.C "c99") /\
  CompilerMatcher.get_source_metadata
    (mkCommand Examples.dir_b Examples.gcc_11_5 "/usr/bin/gcc" ["gcc"; "x.h"])
    "x.h" = Raise AssertionError.
Proof. vm_compute. repeat split; reflexivity. Qed.

(** ** The preprocessor command *)

Module PreprocessorFacts.
Import Language CompilerMatcher Spec Heap.

Lemma slice_assign_spec l e : forall o,
  list_index "-o" l = Some o ->
  replace_output l e = Some (slice_assign l o (o + 2) e).
Proof.
  induction l as [|x l IH]; intros o; simpl; [discriminate|].
  destruct (String.eqb x "-o").
  - intros [= <-]. reflexivity.
  - destruct (list_index "-o" l) as [o'|]; simpl; [|discriminate].
    intros [= <-]. rewrite (IH o' eq_refl). reflexivity.
Qed.

Lemma list_index_none l e :
  list_index "-o" l = None -> replace_output l e = None.
Proof.
  induction l as [|x l IH]; simpl; [reflexivity|].
  destruct (String.eqb x "-o"); [discriminate|].
  destruct (list_index "-o" l); simpl; [discriminate|].
  intros _. rewrite IH; reflexivity.
Qed.

(** The list the code writes is the one the specification describes. *)
Lemma rewritten_args kept path src :
  match list_index "-o" kept with
  | Some o => slice_assign kept o (o + 2) ["-E"; "-o"; path]
  | None => slice_assign kept 1 1 ["-E"; "-o"; path]
  end ++ [src] = preprocessor_args kept path src.
Proof.
  unfold preprocessor_args.
  destruct (list_index "-o" kept) as [o|] eqn:E.
  - rewrite (slice_assign_spec _ _ _ E). reflexivity.
  - rewrite (list_index_none _ _ E). reflexivity.
Qed.

(** [-E] is never a discovered source, so removing the sources keeps it. *)
Lemma dash_E_kept cc :
  "-E" ∈ List.filter
           (fun arg => negb (bool_decide (arg ∈ get_sources_from_args cc)))
           (args cc)
  <-> "-E" ∈ args cc.
Proof.
  rewrite !list_elem_of_In, filter_In. split; [tauto|].
  intros H. split; [exact H|].
  apply negb_true_iff, bool_decide_eq_false.
  unfold get_sources_from_args. rewrite list_elem_of_In, filter_In.
  intros [_ Hs]. vm_compute in Hs. discriminate.
Qed.

Lemma fresh_none (h : heap) : h !! fresh (dom h) = None.
Proof. apply not_elem_of_dom. apply is_fresh. Qed.

(** The loop over the compiler's ids, on a store where [pargs] holds [ys]. *)
Lemma rewrite_loop_known (h : heap) pargs ys o_idx file idx sources src : forall l,
  h !! pargs = Some (OList ys) ->
  (exists id, id ∈ l /\ id ∈ known_preprocessors) ->
  sources !! idx = Some src ->
  rewrite_loop l pargs o_idx file idx sources h =
  if bool_decide ("-E" ∈ ys) then (Raise ValueError, h)
  else (Ok true,
        <[pargs := OList
            (match o_idx with
             | Some o => slice_assign ys o (o + 2) ["-E"; "-o"; PurePath.to_str file]
             | None => slice_assign ys 1 1 ["-E"; "-o"; PurePath.to_str file]
             end ++ [src])]> h).
Proof.
  induction l as [|id l IH]; intros Hp [k [Hin Hk]] Hsrc.
  - inversion Hin.
  - cbn [rewrite_loop]. destruct (bool_decide (id ∈ known_preprocessors)) eqn:E.
    + unfold bind, read_list. rewrite Hp.
      destruct (bool_decide ("-E" ∈ ys)); [reflexivity|].
      unfold write_list. rewrite Hp, Hsrc.
      unfold bind, read_list, write_list, ret.
      rewrite !lookup_insert_eq, insert_insert_eq. reflexivity.
    + apply IH; [exact Hp| |exact Hsrc].
      exists k. split; [|exact Hk].
      apply elem_of_cons in Hin as [->|Hin]; [|exact Hin].
      apply bool_decide_eq_false in E. contradiction.
Qed.

End PreprocessorFacts.

(** C2.  For a command object whose compiler id or family is lcc, gcc or
    clang, [make_preprocessor_command] leaves every object of the store as
    it was (the command it was given in particular) and works on a copy;
    when [-E] is among the arguments it raises [ValueError]; otherwise it
    returns a new command whose arguments are the original ones without the
    discovered sources, with the window at the first [-o] replaced by [-E],
    [-o] and the path of the preprocessed file, or these three inserted
    after the first argument when there is no [-o], and with the selected
    source appended last. *)
Theorem make_preprocessor_command_rewrites
        (h : gmap nat Heap.obj) (c : nat) (cc : CompilerCommand)
        (file : Path) (idx : nat) (src : string) :
  Heap.load h c = Some cc ->
  (exists id, (id ∈ ids (compiler cc)) /\ (id ∈ CompilerMatcher.known_preprocessors)) ->
  CompilerMatcher.get_sources_from_args cc !! idx = Some src ->
  exists r h',
    CompilerMatcher.make_preprocessor_command
      c file idx (CompilerMatcher.get_sources_from_args cc) h = (r, h') /\
    (forall l o, h !! l = Some o -> h' !! l = Some o) /\
    Heap.load h' c = Some cc /\
    ((("-E" ∈ args cc) /\ r = Raise ValueError)
     \/
     (("-E" ∉ args cc) /\
      exists c', r = Ok c' /\ h !! c' = None /\
        Heap.load h' c' =
        Some (mkCommand (cwd cc) (compiler cc) (executable cc)
                (Spec.preprocessor_args
                   (List.filter
                      (fun arg => negb (bool_decide
                         (arg ∈ CompilerMatcher.get_sources_from_args cc)))
                      (args cc))
                   (PurePath.to_str file) src)))).
Proof.
  intros Hload Hknown Hsrc.
  unfold Heap.load in Hload.
  destruct (h !! c) as [[|w i e a]|] eqn:Hc; try discriminate.
  destruct (h !! a) as [[xs|]|] eqn:Ha; try discriminate.
  injection Hload as <-. cbn [cwd compiler executable args] in *.
  set (cc := mkCommand w i e xs) in *.
  set (sources := CompilerMatcher.get_sources_from_args cc) in *.
  set (kept := List.filter (fun arg => negb (bool_decide (arg ∈ sources))) xs).
  (* the three objects the call allocates *)
  set (l1 := fresh (dom h)).
  set (h1 := <[l1 := Heap.OList xs]> h).
  set (l2 := fresh (dom h1)).
  set (h2 := <[l2 := Heap.OCommand w i e l1]> h1).
  set (l3 := fresh (dom h2)).
  set (h3 := <[l2 := Heap.OCommand w i e l3]> (<[l3 := Heap.OList kept]> h2)).
  assert (F1 : h !! l1 = None) by apply PreprocessorFacts.fresh_none.
  assert (F2 : h1 !! l2 = None) by apply PreprocessorFacts.fresh_none.
  assert (F3 : h2 !! l3 = None) by apply PreprocessorFacts.fresh_none.
  assert (N12 : l1 <> l2).
  { intros E. rewrite <- E in F2. unfold h1 in F2. rewrite lookup_insert_eq in F2.
    discriminate. }
  assert (N23 : l2 <> l3).
  { intros E. rewrite <- E in F3. unfold h2 in F3. rewrite lookup_insert_eq in F3.
    discriminate. }
  assert (N13 : l1 <> l3).
  { intros E. rewrite <- E in F3. unfold h2 in F3.
    rewrite lookup_insert_ne in F3 by auto. unfold h1 in F3.
    rewrite lookup_insert_eq in F3. discriminate. }
  assert (F2' : h !! l2 = None).
  { unfold h1 in F2. rewrite lookup_insert_ne in F2 by auto. exact F2. }
  assert (F3' : h !! l3 = None).
  { unfold h2, h1 in F3. rewrite !lookup_insert_ne in F3 by auto. exact F3. }
  assert (P3 : forall l o, h !! l = Some o -> h3 !! l = Some o).
  { intros l o Hl. unfold h3, h2, h1.
    rewrite !lookup_insert_ne by (intros <-; congruence). exact Hl. }
  assert (Hp : h3 !! l3 = Some (Heap.OList kept)).
  { unfold h3. rewrite lookup_insert_ne by auto. apply lookup_insert_eq. }
  assert (Hrun :
    CompilerMatcher.make_preprocessor_command c file idx sources h =
    Heap.bind (CompilerMatcher.rewrite_loop (ids i) l3
                 (CompilerMatcher.list_index "-o" kept) file idx sources)
              (fun known => if known then Heap.ret l2 else Heap.raise AssertionError)
              h3).
  { unfold CompilerMatcher.make_preprocessor_command, Heap.deepcopy.
    unfold Heap.bind at 1 2. unfold Heap.read_command at 1. rewrite Hc.
    unfold Heap.bind at 1. unfold Heap.read_list at 1. rewrite Ha.
    unfold Heap.bind at 1. unfold Heap.alloc at 1. fold l1. fold h1.
    unfold Heap.alloc at 1. fold l2. fold h2.
    unfold Heap.bind at 1. unfold Heap.read_command at 1.
    unfold h2 at 1. rewrite lookup_insert_eq. fold h2.
    unfold Heap.bind at 1. unfold Heap.read_list at 1.
    replace (h2 !! l1) with (Some (Heap.OList xs))
      by (unfold h2, h1; rewrite lookup_insert_ne by auto;
          rewrite lookup_insert_eq; reflexivity).
    unfold Heap.bind at 1. unfold Heap.alloc at 1. fold l3. fold kept.
    unfold Heap.bind at 1. unfold Heap.set_args at 1.
    rewrite lookup_insert_ne by auto.
    unfold h2 at 1. rewrite lookup_insert_eq. fold h2. fold h3.
    unfold Heap.bind at 1. unfold Heap.read_list at 1. rewrite Hp.
    reflexivity. }
  rewrite Hrun. unfold Heap.bind.
  rewrite (PreprocessorFacts.rewrite_loop_known h3 l3 kept _ file idx sources src
             (ids i) Hp Hknown Hsrc).
  destruct (bool_decide ("-E" ∈ kept)) eqn:E.
  - exists (Raise ValueError), h3. split; [reflexivity|]. split; [exact P3|].
    split.
    { unfold Heap.load. rewrite (P3 _ _ Hc), (P3 _ _ Ha). reflexivity. }
    left. split; [|reflexivity].
    apply bool_decide_eq_true in E. apply (PreprocessorFacts.dash_E_kept cc), E.
  - eexists (Ok l2), _. split; [reflexivity|].
    assert (P4 : forall l o, h !! l = Some o ->
                 <[l3 := Heap.OList
                     (match CompilerMatcher.list_index "-o" kept with
                      | Some o0 => CompilerMatcher.slice_assign kept o0 (o0 + 2)
                                     ["-E"; "-o"; PurePath.to_str file]
                      | None => CompilerMatcher.slice_assign kept 1 1
                                     ["-E"; "-o"; PurePath.to_str file]
                      end ++ [src])]> h3 !! l = Some o).
    { intros l o Hl. rewrite lookup_insert_ne by (intros <-; congruence).
      apply P3, Hl. }
    split; [exact P4|]. split.
    { unfold Heap.load. rewrite (P4 _ _ Hc), (P4 _ _ Ha). reflexivity. }
    right. split.
    { apply bool_decide_eq_false in E. intros HE. apply E.
      apply (PreprocessorFacts.dash_E_kept cc), HE. }
    exists l2. split; [reflexivity|]. split; [exact F2'|].
    unfold Heap.load. rewrite lookup_insert_ne by auto.
    unfold h3 at 1. rewrite lookup_insert_eq. rewrite lookup_insert_eq.
    rewrite PreprocessorFacts.rewritten_args. reflexivity.
Qed.

Lemma make_preprocessor_command_rewrites_witness :
  exists r h',
    CompilerMatcher.make_preprocessor_command
      1%nat (PurePath.of_str "/out/p.i") 0
      (CompilerMatcher.get_sources_from_args Examples.gcc_o2) Examples.store_o2 = (r, h') /\
    (forall l o, Examples.store_o2 !! l = Some o -> h' !! l = Some o) /\
    Heap.load h' 1%nat = Some Examples.gcc_o2 /\
    ((("-E" ∈ args Examples.gcc_o2) /\ r = Raise ValueError)
     \/
     (("-E" ∉ args Examples.gcc_o2) /\
      exists c', r = Ok c' /\ Examples.store_o2 !! c' = None /\
        Heap.load h' c' =
        Some (mkCommand (cwd Examples.gcc_o2) (compiler Examples.gcc_o2)
                (executable Examples.gcc_o2)
                (Spec.preprocessor_args
                   (List.filter
                      (fun arg => negb (bool_decide
                         (arg ∈ CompilerMatcher.get_sources_from_args Examples.gcc_o2)))
                      (args Examples.gcc_o2))
                   (PurePath.to_str (PurePath.of_str "/out/p.i")) "a.c")))).
Proof.
  apply (make_preprocessor_command_rewrites Examples.store_o2 1%nat Examples.gcc_o2
           (PurePath.of_str "/out/p.i") 0%nat "a.c").
  - vm_compute. reflexivity.
  - exists "gcc". split; [apply list_elem_of_here|].
    apply list_elem_of_further, list_elem_of_here.
  - reflexivity.
Defined.

(** [gcc -O2 -o a.out a.c] becomes [gcc -O2 -E -o /out/p.i a.c]; the command
    given is still what it was. *)
Example preprocessor_command_o2 :
  let '(r, h') := CompilerMatcher.make_preprocessor_command
                    1%nat (PurePath.of_str "/out/p.i") 0 ["a.c"] Examples.store_o2 in
  (c' ← r; Ok (Heap.load h' c'))
  = Ok (Some (mkCommand Examples.dir_b Examples.gcc_11_5 "/usr/bin/gcc"
                ["gcc"; "-O2"; "-E"; "-o"; "/out/p.i"; "a.c"])) /\
  Heap.load h' 1%nat = Some Examples.gcc_o2.
Proof. vm_compute. split; reflexivity. Qed.

(** ** The prefilter *)

Module PrefilterFacts.
Import RpmbuildTracer Spec.

Lemma counter_get_incr k k' c :
  counter_get k (counter_incr k' c)
  = if decide (k = k') then S (counter_get k c) else counter_get k c.
Proof.
  unfold counter_get. induction c as [|[k0 n] c IH]; simpl.
  - destruct (decide (k = k')); reflexivity.
  - destruct (decide (k' = k0)) as [->|Hne]; simpl.
    + destruct (decide (k = k0)); reflexivity.
    + destruct (decide (k = k0)) as [->|Hne'].
      * destruct (decide (k0 = k')); [congruence|reflexivity].
      * exact IH.
Qed.

(** The counter of a tuple after the first loop is its multiplicity. *)
Lemma counter_get_count k calls : forall c,
  counter_get k (count_calls calls c) = (counter_get k c + multiplicity k calls)%nat.
Proof.
  unfold multiplicity; change canonical_tuple with as_tuple.
  induction calls as [|cc calls IH]; intros c; simpl; [lia|].
  rewrite IH, counter_get_incr.
  destruct (decide (k = as_tuple (CompilerCall.command cc))) as [->|Hne].
  - rewrite bool_decide_eq_true_2 by reflexivity. simpl. lia.
  - rewrite bool_decide_eq_false_2 by congruence. reflexivity.
Qed.

Lemma multiplicity_pos cc calls :
  In cc calls -> (1 <= multiplicity (as_tuple (CompilerCall.command cc)) calls)%nat.
Proof.
  unfold multiplicity; change canonical_tuple with as_tuple. induction calls as [|x calls IH]; simpl; [tauto|].
  intros [->|Hin].
  - rewrite bool_decide_eq_true_2 by reflexivity. simpl. lia.
  - destruct (bool_decide _); simpl; [|auto]. specialize (IH Hin). lia.
Qed.

(** The second loop keeps the calls that pass the three tests. *)
Lemma prefilter_loop_filter counters calls :
  prefilter_loop counters calls
  = List.filter
      (fun cc =>
         bool_decide (CompilerCall.exitcode cc = Some 0)
         && negb (length (CompilerCall.open_files cc) =? 0)%nat
         && negb (1 <? counter_get (as_tuple (CompilerCall.command cc)) counters)%nat)
      calls.
Proof.
  induction calls as [|cc calls IH]; simpl; [reflexivity|]. rewrite IH.
  destruct (bool_decide (CompilerCall.exitcode cc = Some 0)); simpl; [|reflexivity].
  destruct (length (CompilerCall.open_files cc) =? 0)%nat; simpl; [reflexivity|].
  destruct (1 <? counter_get _ counters)%nat; reflexivity.
Qed.

Lemma prefilter_keeps calls :
  compiler_calls_prefilter calls = List.filter (keeps calls) calls.
Proof.
  unfold compiler_calls_prefilter. rewrite prefilter_loop_filter.
  apply filter_ext_in. intros cc Hin. unfold keeps.
  change canonical_tuple with as_tuple.
  rewrite counter_get_count. unfold counter_get at 1. simpl.
  pose proof (multiplicity_pos cc calls Hin) as Hpos.
  f_equal.
  destruct (Nat.ltb_spec 1 (multiplicity (as_tuple (CompilerCall.command cc)) calls)),
           (Nat.eqb_spec (multiplicity (as_tuple (CompilerCall.command cc)) calls) 1);
    simpl; try reflexivity; lia.
Qed.

(** Two positions with the same tuple make its multiplicity at least 2. *)
Lemma multiplicity_two calls : forall i j c1 c2,
  i <> j -> calls !! i = Some c1 -> calls !! j = Some c2 ->
  as_tuple (CompilerCall.command c1) = as_tuple (CompilerCall.command c2) ->
  (2 <= multiplicity (as_tuple (CompilerCall.command c1)) calls)%nat.
Proof.
  unfold multiplicity; change canonical_tuple with as_tuple.
  induction calls as [|x calls IH]; intros i j c1 c2 Hij Hi Hj Heq; [discriminate|].
  simpl. destruct i as [|i], j as [|j]; simpl in Hi, Hj; try congruence.
  - injection Hi as ->. rewrite bool_decide_eq_true_2 by reflexivity. simpl.
    rewrite Heq.
    pose proof (multiplicity_pos c2 calls) as Hp. unfold multiplicity in Hp; change canonical_tuple with as_tuple in Hp.
    assert (In c2 calls) by (apply list_elem_of_In, list_elem_of_lookup; eauto).
    specialize (Hp H). lia.
  - injection Hj as ->. rewrite bool_decide_eq_true_2 by (symmetry; exact Heq). simpl.
    pose proof (multiplicity_pos c1 calls) as Hp. unfold multiplicity in Hp; change canonical_tuple with as_tuple in Hp.
    assert (In c1 calls) by (apply list_elem_of_In, list_elem_of_lookup; eauto).
    specialize (Hp H). lia.
  - assert (Hij' : i <> j) by congruence.
    specialize (IH i j c1 c2 Hij' Hi Hj Heq).
    destruct (bool_decide _); simpl; lia.
Qed.

(** The multiplicity of the canonical tuple of a command counts the calls
    that agree with it on the four fields. *)
Lemma multiplicity_fields (c : CompilerCommand) calls :
  multiplicity (canonical_tuple c) calls
  = length (List.filter
              (fun other =>
                 bool_decide (cwd (CompilerCall.command other) = cwd c)
                 && bool_decide (compiler (CompilerCall.command other) = compiler c)
                 && bool_decide (executable (CompilerCall.command other) = executable c)
                 && bool_decide (args (CompilerCall.command other) = args c))
              calls).
Proof.
  unfold multiplicity. f_equal. apply filter_ext. intros other.
  unfold canonical_tuple.
  destruct (bool_decide_reflect (cwd (CompilerCall.command other) = cwd c)) as [H1|H1];
    [|apply bool_decide_eq_false_2; congruence].
  destruct (bool_decide_reflect (compiler (CompilerCall.command other) = compiler c))
    as [H2|H2]; [|apply bool_decide_eq_false_2; congruence].
  destruct (bool_decide_reflect (executable (CompilerCall.command other) = executable c))
    as [H3|H3]; [|apply bool_decide_eq_false_2; congruence].
  destruct (bool_decide_reflect (args (CompilerCall.command other) = args c))
    as [H4|H4]; [|apply bool_decide_eq_false_2; congruence].
  apply bool_decide_eq_true_2. congruence.
Qed.

End PrefilterFacts.

(** C3.  The prefilter returns, in their order, exactly the calls that
    exited with 0, have a non-empty list of attributed open files, and whose
    canonical tuple (the directory, the compiler, the executable and the
    arguments of the command) occurs once in the whole input; two calls
    that agree on these four are both removed, whatever their exit
    codes. *)
Theorem compiler_calls_prefilter_exact (calls : list CompilerCall.t) :
  RpmbuildTracer.compiler_calls_prefilter calls = List.filter (Spec.keeps calls) calls
  /\
  (forall cc,
     In cc (RpmbuildTracer.compiler_calls_prefilter calls) <->
     In cc calls /\
     CompilerCall.exitcode cc = Some 0 /\
     CompilerCall.open_files cc <> [] /\
     length (List.filter
               (fun other =>
                  bool_decide (cwd (CompilerCall.command other)
                               = cwd (CompilerCall.command cc))
                  && bool_decide (compiler (CompilerCall.command other)
                                  = compiler (CompilerCall.command cc))
                  && bool_decide (executable (CompilerCall.command other)
                                  = executable (CompilerCall.command cc))
                  && bool_decide (args (CompilerCall.command other)
                                  = args (CompilerCall.command cc)))
               calls) = 1%nat)
  /\
  (forall i j c1 c2,
     i <> j -> calls !! i = Some c1 -> calls !! j = Some c2 ->
     cwd (CompilerCall.command c1) = cwd (CompilerCall.command c2) ->
     compiler (CompilerCall.command c1) = compiler (CompilerCall.command c2) ->
     executable (CompilerCall.command c1) = executable (CompilerCall.command c2) ->
     args (CompilerCall.command c1) = args (CompilerCall.command c2) ->
     ~ In c1 (RpmbuildTracer.compiler_calls_prefilter calls) /\
     ~ In c2 (RpmbuildTracer.compiler_calls_prefilter calls)).
Proof.
  assert (Hiff : forall cc,
     In cc (RpmbuildTracer.compiler_calls_prefilter calls) <->
     In cc calls /\
     CompilerCall.exitcode cc = Some 0 /\
     CompilerCall.open_files cc <> [] /\
     Spec.multiplicity (Spec.canonical_tuple (CompilerCall.command cc)) calls = 1%nat).
  { intros cc. rewrite PrefilterFacts.prefilter_keeps, filter_In. unfold Spec.keeps.
    rewrite !andb_true_iff, bool_decide_eq_true, negb_true_iff, Nat.eqb_neq, Nat.eqb_eq.
    destruct (CompilerCall.open_files cc); simpl; split;
      intros H; repeat split; try tauto; try discriminate; try lia;
      try (destruct H as [_ [_ [H _]]]; congruence). }
  split; [apply PrefilterFacts.prefilter_keeps|]. split.
  { intros cc. rewrite Hiff, <- (PrefilterFacts.multiplicity_fields _ calls).
    reflexivity. }
  intros i j c1 c2 Hij Hi Hj Hcwd Hcompiler Hexe Hargs.
  assert (Heq : as_tuple (CompilerCall.command c1) = as_tuple (CompilerCall.command c2)).
  { unfold as_tuple. rewrite Hcwd, Hcompiler, Hexe, Hargs. reflexivity. }
  pose proof (PrefilterFacts.multiplicity_two calls i j c1 c2 Hij Hi Hj Heq) as H2.
  assert (Heq' : Spec.canonical_tuple (CompilerCall.command c1)
                 = Spec.canonical_tuple (CompilerCall.command c2)).
  { unfold Spec.canonical_tuple. rewrite Hcwd, Hcompiler, Hexe, Hargs. reflexivity. }
  split; intros Hin; apply Hiff in Hin as [_ [_ [_ Hm]]].
  - change (Spec.canonical_tuple (CompilerCall.command c1))
      with (as_tuple (CompilerCall.command c1)) in Hm. lia.
  - rewrite <- Heq' in Hm.
    change (Spec.canonical_tuple (CompilerCall.command c1))
      with (as_tuple (CompilerCall.command c1)) in Hm. lia.
Qed.

(** Two identical probes that both exited with 0 are both dropped. *)
Example duplicate_probes_dropped :
  let probe pid :=
    CompilerCall.mk pid (Some 0)
      (mkCommand Examples.dir_b Examples.gcc_11_5 "/usr/bin/gcc" ["gcc"; "conftest.c"])
      [(Examples.dir_b, [PyStr "conftest.c"; PyStr "O_RDONLY"])] in
  RpmbuildTracer.compiler_calls_prefilter [probe 100; probe 101] = [].
Proof. vm_compute. reflexivity. Qed.

(** ** Sorting *)

Section SortFacts.
Context {A K : Type} (key : A -> K) (lt : K -> K -> bool).
Hypothesis lt_irrefl : forall a, lt a a = false.
Hypothesis lt_trans : forall a b c, lt a b = true -> lt b c = true -> lt a c = true.
Hypothesis le_trans : forall a b c, lt b a = false -> lt c b = false -> lt c a = false.

Lemma lt_asym a b : lt a b = true -> lt b a = false.
Proof.
  intros H. destruct (lt b a) eqn:E; [|reflexivity].
  rewrite <- (lt_irrefl a). symmetry. exact (lt_trans a b a H E).
Qed.

Lemma sort_insert_Forall (P : A -> Prop) x l :
  P x -> Forall P l -> Forall P (sort_insert key lt x l).
Proof.
  intros Hx Hl. induction Hl as [|y l Hy Hl IH]; simpl.
  - constructor; [exact Hx|constructor].
  - destruct (lt (key y) (key x)); repeat constructor; auto.
Qed.

Lemma list_sort_Forall (P : A -> Prop) l :
  Forall P l -> Forall P (list_sort key lt l).
Proof.
  intros Hl. induction Hl as [|x l Hx Hl IH]; simpl; [constructor|].
  apply sort_insert_Forall; assumption.
Qed.

Lemma sort_insert_sorted x l :
  StronglySorted (key_le key lt) l -> StronglySorted (key_le key lt) (sort_insert key lt x l).
Proof.
  intros Hl. induction Hl as [|y l Hl IH Hy]; simpl.
  - constructor; constructor.
  - destruct (lt (key y) (key x)) eqn:E.
    + constructor; [exact IH|].
      apply sort_insert_Forall; [|exact Hy].
      unfold key_le. apply lt_asym, E.
    + constructor; [constructor; assumption|].
      constructor; [exact E|].
      eapply Forall_impl; [exact Hy|].
      intros z Hz. unfold key_le in *. exact (le_trans _ _ _ E Hz).
Qed.

Lemma list_sort_sorted l : StronglySorted (key_le key lt) (list_sort key lt l).
Proof.
  induction l as [|x l IH]; simpl; [constructor|].
  apply sort_insert_sorted, IH.
Qed.
End SortFacts.

(** ** The parser *)

Module ParserFacts.
Import StraceParser.

Section Lines.
Context `{R : PyRuntime}.

(** What one line does to the trace. *)
Lemma parse_line_cases proc line proc' :
  parse_line proc line = Ok proc' ->
  (Re.match_ regex_line (PyStr.rstrip line) = None /\ proc' = proc)
  \/
  (exists t,
     Re.match_ regex_line (PyStr.rstrip line) <> None /\
     ProcTrace.ts_start proc' =
       Some (match ProcTrace.ts_start proc with
             | None => float_of_str t
             | Some s => float_min s (float_of_str t)
             end) /\
     ProcTrace.ts_end proc' =
       Some (match ProcTrace.ts_end proc with
             | None => float_of_str t
             | Some e => float_max e (float_of_str t)
             end) /\
     (ProcTrace.syscall proc' = ProcTrace.syscall proc \/
      exists sc, ProcTrace.syscall proc' = ProcTrace.syscall proc ++ [sc] /\
                 0 <= SysCallEntity.returnvalue sc)).
Proof.
  unfold parse_line. cbv zeta.
  destruct (Re.match_ regex_line (PyStr.rstrip line)) as [m|] eqn:Hm.
  2: { intros [= <-]. left. auto. }
  destruct (Re.group m "timestamp") as [t|]; [|discriminate].
  intros H. right. exists t. split; [discriminate|].
  destruct (Re.group m "killedby").
  { injection H as <-. cbn. auto. }
  destruct (Re.group m "exitcode").
  { destruct (PyStr.int s) as [code|]; [|discriminate]. cbn in H.
    injection H as <-. cbn. auto. }
  destruct (Re.group m "syscall") as [v_syscall|].
  2: { injection H as <-. cbn. auto. }
  destruct (int_of (Re.group m "returnvalue")) as [rv|]; [|discriminate].
  cbn [mbind result_bind] in H.
  destruct (decode_xstr (Re.group m "returnfile")) as [rf|]; [|discriminate].
  cbn [mbind result_bind] in H.
  destruct (match Re.group m "args" with
            | Some v_args => parse_args v_syscall (PyStr.strip v_args)
            | None => Ok (None, [])
            end) as [[raw args]|]; [|discriminate].
  cbn [mbind result_bind] in H.
  unfold SysCallFilter.allow in H. cbn [SysCallEntity.returnvalue] in H.
  destruct (Z.ltb_spec rv 0).
  - injection H as <-. cbn. auto.
  - injection H as <-. cbn. split; [reflexivity|]. split; [reflexivity|].
    right. eexists. split; [reflexivity|]. cbn. lia.
Qed.

Context {L : PyRuntimeLaws R}.

Lemma min_le_max s e v :
  float_lt e s = false -> float_lt (float_max e v) (float_min s v) = false.
Proof.
  intros Hse. unfold float_min, float_max.
  destruct (float_lt v s) eqn:E1, (float_lt e v) eqn:E2; auto.
  apply float_lt_irrefl.
Qed.

Lemma parse_line_inv proc line proc' :
  parse_line proc line = Ok proc' ->
  Invariant.ts_ordered proc ->
  Forall (fun sc => 0 <= SysCallEntity.returnvalue sc) (ProcTrace.syscall proc) ->
  Invariant.ts_ordered proc' /\
  Forall (fun sc => 0 <= SysCallEntity.returnvalue sc) (ProcTrace.syscall proc') /\
  (is_Some (ProcTrace.ts_start proc) \/
   Re.match_ regex_line (PyStr.rstrip line) <> None ->
   is_Some (ProcTrace.ts_start proc')).
Proof.
  intros H Hord Hrv.
  destruct (parse_line_cases _ _ _ H) as [[Hm ->]|[t [Hm [Hs [He Hsc]]]]].
  - split; [exact Hord|]. split; [exact Hrv|]. intros [Hsome|Hne]; [exact Hsome|].
    contradiction.
  - split; [|split].
    + unfold Invariant.ts_ordered in *. rewrite Hs, He.
      destruct (ProcTrace.ts_start proc), (ProcTrace.ts_end proc);
        try contradiction.
      * apply min_le_max, Hord.
      * apply float_lt_irrefl.
    + destruct Hsc as [->|[sc [-> Hsc]]]; [exact Hrv|].
      apply Forall_app. split; [exact Hrv|]. constructor; [exact Hsc|constructor].
    + intros _. rewrite Hs. eauto.
Qed.

Lemma parse_lines_inv fd : forall proc proc',
  parse_lines proc fd = Ok proc' ->
  Invariant.ts_ordered proc ->
  Forall (fun sc => 0 <= SysCallEntity.returnvalue sc) (ProcTrace.syscall proc) ->
  Invariant.ts_ordered proc' /\
  Forall (fun sc => 0 <= SysCallEntity.returnvalue sc) (ProcTrace.syscall proc') /\
  (is_Some (ProcTrace.ts_start proc) \/
   (exists line, In line fd /\ Re.match_ regex_line (PyStr.rstrip line) <> None) ->
   is_Some (ProcTrace.ts_start proc')).
Proof.
  induction fd as [|line fd IH]; intros proc proc' H Hord Hrv.
  - injection H as <-. split; [exact Hord|]. split; [exact Hrv|].
    intros [Hs|[line [[] _]]]. exact Hs.
  - cbn [parse_lines] in H.
    destruct (parse_line proc line) as [p1|] eqn:E1; [|discriminate].
    cbn [mbind result_bind] in H.
    destruct (parse_line_inv _ _ _ E1 Hord Hrv) as [Hord1 [Hrv1 Hs1]].
    destruct (IH _ _ H Hord1 Hrv1) as [Hord' [Hrv' Hs']].
    split; [exact Hord'|]. split; [exact Hrv'|].
    intros [Hs|[l [[<-|Hin] Hm]]]; apply Hs'.
    + left. apply Hs1. left. exact Hs.
    + left. apply Hs1. right. exact Hm.
    + right. eauto.
Qed.
End Lines.
End ParserFacts.

(** C7.  In every trace the parser returns, each stored record has a
    return value of at least 0, the records are in non-decreasing order of
    timestamp, and when a line of the file matched the grammar both
    timestamps of the trace are set, the start not after the end. *)
Theorem parse_fd_invariants `{R : PyRuntime} {L : PyRuntimeLaws R}
        (pid : Z) (fd : list string) (proc : ProcTrace.t) :
  StraceParser.parse_fd pid fd = Ok proc ->
  Forall (fun sc => 0 <= SysCallEntity.returnvalue sc) (ProcTrace.syscall proc)
  /\
  StronglySorted
    (fun a b => float_lt (SysCallEntity.ts b) (SysCallEntity.ts a) = false)
    (ProcTrace.syscall proc)
  /\
  ((exists line, In line fd /\
      Re.match_ StraceParser.regex_line (PyStr.rstrip line) <> None) ->
   exists s e, ProcTrace.ts_start proc = Some s /\ ProcTrace.ts_end proc = Some e /\
               float_lt e s = false).
Proof.
  unfold StraceParser.parse_fd. intros H.
  destruct (StraceParser.parse_lines _ fd) as [p|] eqn:E; [|discriminate].
  injection H as <-. cbn [ProcTrace.syscall ProcTrace.ts_start ProcTrace.ts_end].
  destruct (ParserFacts.parse_lines_inv fd _ _ E) as [Hord [Hrv Hs]];
    [exact I|constructor|].
  split; [apply list_sort_Forall; exact Hrv|].
  split.
  - apply (list_sort_sorted SysCallEntity.ts float_lt).
    + apply float_lt_irrefl.
    + apply float_lt_trans.
    + apply float_le_trans.
  - intros Hm. destruct (Hs (or_intror Hm)) as [s Hstart].
    unfold Invariant.ts_ordered in Hord. rewrite Hstart in Hord.
    destruct (ProcTrace.ts_end p) as [e|]; [|contradiction]. eauto.
Qed.

(** The runtime of the examples obeys the laws. *)
Module ExactRuntimeFacts.
Import QArith_base ExactRuntime.

Lemma decimal_lt_iff a b : decimal_lt a b = true <-> Qlt a b.
Proof.
  unfold decimal_lt. rewrite negb_true_iff. split.
  - intros H. apply Qnot_le_lt. intros Hle. apply Qle_bool_iff in Hle. congruence.
  - intros H. destruct (Qle_bool b a) eqn:E; [|reflexivity].
    apply Qle_bool_iff in E. exfalso. exact (Qlt_not_le _ _ H E).
Qed.

Lemma decimal_lt_false_iff a b : decimal_lt a b = false <-> Qle b a.
Proof.
  unfold decimal_lt. rewrite negb_false_iff. apply Qle_bool_iff.
Qed.

#[global] Instance laws : PyRuntimeLaws runtime.
Proof.
  split; cbn.
  - intros a. apply decimal_lt_false_iff, Qle_refl.
  - intros a b c Hab Hbc. apply decimal_lt_iff.
    apply decimal_lt_iff in Hab. apply decimal_lt_iff in Hbc.
    exact (Qlt_trans _ _ _ Hab Hbc).
  - intros a b c Hab Hbc. apply decimal_lt_false_iff.
    apply decimal_lt_false_iff in Hab. apply decimal_lt_false_iff in Hbc.
    exact (Qle_trans _ _ _ Hab Hbc).
Qed.
End ExactRuntimeFacts.

Lemma parse_fd_invariants_witness :
  Forall (fun sc => 0 <= SysCallEntity.returnvalue sc)
         (ProcTrace.syscall Examples.parsed_trace)
  /\
  StronglySorted
    (fun a b => float_lt (SysCallEntity.ts b) (SysCallEntity.ts a) = false)
    (ProcTrace.syscall Examples.parsed_trace)
  /\
  ((exists line, In line Examples.trace_lines /\
      Re.match_ StraceParser.regex_line (PyStr.rstrip line) <> None) ->
   exists s e, ProcTrace.ts_start Examples.parsed_trace = Some s /\
               ProcTrace.ts_end Examples.parsed_trace = Some e /\
               float_lt e s = false).
Proof.
  apply (parse_fd_invariants (L := ExactRuntimeFacts.laws) 100 Examples.trace_lines
           Examples.parsed_trace).
  vm_cast_no_check (eq_refl (Ok Examples.parsed_trace)).
Defined.

(** The example trace keeps the two successful forks, the earlier one
    first, and spans from the first to the last matched line. *)
Example parsed_trace_records :
  (fun sc => (SysCallEntity.name sc, SysCallEntity.returnvalue sc))
    <$> ProcTrace.syscall Examples.parsed_trace
  = [("fork", 102); ("clone", 101)] /\
  ProcTrace.exitcode Examples.parsed_trace = Some 0.
Proof. vm_compute. split; reflexivity. Qed.

(** ** The trace store *)

Module StoreFacts.
Import StraceData.

(** *** Dicts *)

Lemma dict_set_keys {K V} `{EqDecision K} (k : K) (v : V) (d : list (K * V)) :
  forall k', k' ∈ (fst <$> dict_set k v d) <-> k' = k \/ k' ∈ (fst <$> d).
Proof.
  induction d as [|[k0 v0] d IH]; intros k'; simpl.
  - rewrite elem_of_cons. set_solver.
  - destruct (decide (k = k0)) as [->|Hne]; simpl.
    + rewrite !elem_of_cons. tauto.
    + rewrite !elem_of_cons, IH. tauto.
Qed.

Lemma dict_set_NoDup {K V} `{EqDecision K} (k : K) (v : V) (d : list (K * V)) :
  NoDup (fst <$> d) -> NoDup (fst <$> dict_set k v d).
Proof.
  induction d as [|[k0 v0] d IH]; simpl; intros Hnd.
  - constructor; [set_solver|constructor].
  - apply NoDup_cons in Hnd as [Hnotin Hnd].
    destruct (decide (k = k0)) as [->|Hne]; simpl.
    + apply NoDup_cons. auto.
    + apply NoDup_cons. split; [|auto].
      rewrite dict_set_keys. intros [->|Hin]; [congruence|contradiction].
Qed.

Lemma dict_set_Forall {K V} `{EqDecision K} (P : K * V -> Prop)
      (k : K) (v : V) (d : list (K * V)) :
  P (k, v) -> Forall P d -> Forall P (dict_set k v d).
Proof.
  intros Hkv Hd. induction Hd as [|[k0 v0] d H0 Hd IH]; simpl.
  - constructor; [exact Hkv|constructor].
  - destruct (decide (k = k0)) as [->|Hne]; constructor; auto.
Qed.

Lemma dict_get_lookup {K V} `{EqDecision K} (d : list (K * V)) : forall i k v,
  NoDup (fst <$> d) -> d !! i = Some (k, v) -> dict_get k d = Some v.
Proof.
  induction d as [|[k0 v0] d IH]; intros i k v Hnd Hi; [discriminate|].
  simpl in Hnd. apply NoDup_cons in Hnd as [Hnotin Hnd].
  destruct i as [|i]; simpl in Hi |- *.
  - injection Hi as -> ->. rewrite decide_True by reflexivity. reflexivity.
  - destruct (decide (k = k0)) as [->|Hne]; [|exact (IH i k v Hnd Hi)].
    exfalso. apply Hnotin. apply list_elem_of_lookup. exists i.
    rewrite list_lookup_fmap, Hi. reflexivity.
Qed.

(** A new key goes to the end, a known key keeps its place. *)
Lemma dict_set_fst {K V} `{EqDecision K} (k : K) (v : V) (d : list (K * V)) :
  fst <$> dict_set k v d
  = if bool_decide (k ∈ fst <$> d) then fst <$> d else (fst <$> d) ++ [k].
Proof.
  induction d as [|[k0 v0] d IH]; [reflexivity|]. cbn [dict_set].
  destruct (decide (k = k0)) as [->|Hne]; rewrite !fmap_cons; cbn [fst].
  - rewrite bool_decide_eq_true_2 by (apply elem_of_cons; left; reflexivity).
    reflexivity.
  - rewrite IH. destruct (bool_decide_reflect (k ∈ fst <$> d)) as [Hin|Hin].
    + rewrite bool_decide_eq_true_2 by (apply elem_of_cons; right; exact Hin).
      reflexivity.
    + rewrite bool_decide_eq_false_2; [reflexivity|].
      rewrite elem_of_cons. intros [->|H']; [congruence|contradiction].
Qed.

Lemma filter_filter_ext {A} (f g h : A -> bool) (l : list A) :
  (forall x, h x = f x && g x) ->
  List.filter f (List.filter g l) = List.filter h l.
Proof.
  intros Hh. induction l as [|x l IH]; simpl; [reflexivity|].
  rewrite (Hh x). destruct (g x); simpl.
  - rewrite andb_true_r. destruct (f x); rewrite IH; reflexivity.
  - rewrite andb_false_r. exact IH.
Qed.

Section Order.
Context `{R : PyRuntime}.

(** The store lists the PIDs in the order in which they were first
    loaded. *)
Lemma load_order files : forall m m',
  load files m = Ok m' ->
  exists trs,
    Forall2 (fun f tr => do_file f = Ok tr) files trs /\
    fst <$> m'
    = (fst <$> m)
      ++ List.filter (fun q => negb (bool_decide (q ∈ fst <$> m)))
           (Spec.first_occurrences (ProcTrace.pid <$> trs)).
Proof.
  induction files as [|f files IH]; intros m m' H; simpl in H.
  - injection H as <-. exists []. split; [constructor|].
    simpl. rewrite app_nil_r. reflexivity.
  - destruct (do_file f) as [trace|] eqn:Ef; [|discriminate]. cbn in H.
    destruct (IH _ _ H) as [trs [Hall Hkeys]].
    exists (trace :: trs). split; [constructor; assumption|].
    rewrite Hkeys, dict_set_fst. cbn [fmap list_fmap Spec.first_occurrences List.filter].
    change (list_fmap ProcTrace.t Z ProcTrace.pid trs) with (ProcTrace.pid <$> trs).
    set (p := ProcTrace.pid trace). set (l := Spec.first_occurrences _).
    destruct (bool_decide_reflect (p ∈ fst <$> m)) as [Hin|Hin]; cbn [negb].
    + f_equal. symmetry. apply filter_filter_ext. intros x.
      destruct (bool_decide_reflect (x ∈ fst <$> m)) as [Hx|Hx]; [reflexivity|].
      cbn [negb andb]. symmetry. apply negb_true_iff, Z.eqb_neq. congruence.
    + rewrite <- app_assoc. cbn [app]. f_equal. f_equal.
      symmetry. apply filter_filter_ext. intros x.
      destruct (bool_decide_reflect (x ∈ fst <$> m)) as [Hx|Hx].
      * rewrite bool_decide_eq_true_2 by (apply elem_of_app; left; exact Hx).
        reflexivity.
      * cbn [negb andb]. destruct (Z.eqb_spec x p) as [->|Hne]; cbn [negb].
        -- rewrite bool_decide_eq_true_2 by (apply elem_of_app; right; set_solver).
           reflexivity.
        -- rewrite bool_decide_eq_false_2; [reflexivity|].
           rewrite elem_of_app. intros [H1|H1]; [contradiction|].
           apply list_elem_of_singleton in H1. congruence.
Qed.

End Order.

Section Store.
Context `{R : PyRuntime} {L : PyRuntimeLaws R}.

(** *** Loading *)

Lemma load_keyed files : forall m m',
  load files m = Ok m' -> Invariant.keyed m -> Invariant.keyed m'.
Proof.
  induction files as [|f files IH]; intros m m' H Hk; simpl in H.
  - injection H as <-. exact Hk.
  - destruct (do_file f) as [trace|]; [|discriminate]. cbn in H.
    apply (IH _ _ H). destruct Hk as [Hnd Hall]. split.
    + apply dict_set_NoDup, Hnd.
    + apply dict_set_Forall; [reflexivity|exact Hall].
Qed.

(** *** The minimum *)

Lemma key_lt_true a b : key_lt a b = Ok true ->
  exists x y, a = Some x /\ b = Some y /\ float_lt x y = true.
Proof.
  destruct a as [x|], b as [y|]; simpl; try discriminate.
  intros [= H]. eauto.
Qed.

Lemma key_lt_false a b : key_lt a b = Ok false ->
  exists x y, a = Some x /\ b = Some y /\ float_lt x y = false.
Proof.
  destruct a as [x|], b as [y|]; simpl; try discriminate.
  intros [= H]. eauto.
Qed.

Lemma min_by_ts_start_spec rest : forall seen ic cur r,
  Invariant.first_min seen ic cur ->
  min_by_ts_start cur rest = Ok r ->
  exists i, Invariant.first_min (seen ++ rest) i r.
Proof.
  induction rest as [|x rest IH]; intros seen ic cur r Hinv Hmin.
  - injection Hmin as <-. exists ic. rewrite app_nil_r. exact Hinv.
  - cbn [min_by_ts_start] in Hmin.
    destruct (key_lt (ProcTrace.ts_start x) (ProcTrace.ts_start cur)) as [b|] eqn:E;
      [|discriminate].
    cbn [mbind result_bind] in Hmin.
    replace (seen ++ x :: rest) with ((seen ++ [x]) ++ rest)
      by (rewrite <- app_assoc; reflexivity).
    destruct Hinv as [Hcur Hothers].
    pose proof (lookup_lt_Some _ _ _ Hcur) as Hic.
    destruct b.
    + apply (IH (seen ++ [x]) (length seen) x r); [|exact Hmin].
      destruct (key_lt_true _ _ E) as [tx [tc [Hx [Hc Hlt]]]].
      split.
      { rewrite lookup_app_r by lia. rewrite Nat.sub_diag. reflexivity. }
      intros j v Hj. split; [|intros Hgt; apply lookup_lt_Some in Hj;
                               rewrite length_app in Hj; simpl in Hj; lia].
      intros Hlt'. rewrite lookup_app_l in Hj by lia.
      destruct (Hothers j v Hj) as [Hbefore Hafter].
      destruct (lt_eq_lt_dec j ic) as [[Hj1 | ->] | Hj1].
      * destruct (key_lt_true _ _ (Hbefore Hj1)) as [tc' [tv [Hc' [Hv Hcv]]]].
        rewrite Hx, Hv. simpl. f_equal.
        rewrite Hc in Hc'. injection Hc' as <-.
        exact (float_lt_trans _ _ _ Hlt Hcv).
      * rewrite Hcur in Hj. injection Hj as <-. exact E.
      * destruct (key_lt_false _ _ (Hafter Hj1)) as [tv [tc' [Hv [Hc' Hvc]]]].
        rewrite Hx, Hv. simpl. f_equal.
        rewrite Hc in Hc'. injection Hc' as <-.
        destruct (float_lt tx tv) eqn:Exv; [reflexivity|].
        rewrite (float_le_trans _ _ _ Hvc Exv) in Hlt. discriminate.
    + apply (IH (seen ++ [x]) ic cur r); [|exact Hmin].
      split; [rewrite lookup_app_l by lia; exact Hcur|].
      intros j v Hj.
      destruct (Nat.lt_ge_cases j (length seen)) as [Hjl|Hjl].
      * rewrite lookup_app_l in Hj by lia. exact (Hothers j v Hj).
      * rewrite lookup_app_r in Hj by lia.
        destruct (j - length seen)%nat as [|n] eqn:En; simpl in Hj; [|discriminate].
        injection Hj as <-. split; [lia|]. intros _. exact E.
Qed.

Lemma first_min_minimal seen i r : Invariant.first_min seen i r ->
  forall j v, seen !! j = Some v ->
    key_lt (ProcTrace.ts_start v) (ProcTrace.ts_start r) <> Ok true.
Proof.
  intros [Hr Hothers] j v Hj Hlt.
  destruct (Hothers j v Hj) as [Hbefore Hafter].
  destruct (key_lt_true _ _ Hlt) as [tv [tr [Hv [Htr Hvr]]]].
  destruct (lt_eq_lt_dec j i) as [[Hj1 | ->] | Hj1].
  - specialize (Hbefore Hj1). rewrite Hv, Htr in Hbefore. simpl in Hbefore.
    injection Hbefore as Hrv.
    pose proof (float_lt_trans _ _ _ Hvr Hrv) as Hvv.
    rewrite float_lt_irrefl in Hvv. discriminate.
  - rewrite Hr in Hj. injection Hj as <-. rewrite Hv in Htr. injection Htr as <-.
    rewrite float_lt_irrefl in Hvr. discriminate.
  - specialize (Hafter Hj1). congruence.
Qed.
End Store.
End StoreFacts.

(** C8 (as amended).  After a load that succeeds, every file was parsed,
    and the store lists the PIDs of the parsed traces in the order of their
    first occurrence in the list of files.  The root PID is the PID of a
    stored trace, found under that PID in the store, whose start timestamp
    no stored trace is below; among the traces that share this least start
    timestamp it is the one whose PID was loaded first: every trace stored
    before it starts strictly later.  The PIDs play no part in the
    choice. *)
Theorem root_pid_first_minimum `{R : PyRuntime} {L : PyRuntimeLaws R}
        (root_cwd : Path) (files : list StraceData.TraceFile) (store : StraceData.t) :
  StraceData.run root_cwd files = Ok store ->
  exists trs i r,
    Forall2 (fun f tr => StraceData.do_file f = Ok tr) files trs /\
    fst <$> StraceData.proc_map store
    = Spec.first_occurrences (ProcTrace.pid <$> trs) /\
    (fst <$> StraceData.proc_map store) !! i = Some (StraceData.root_pid store) /\
    (snd <$> StraceData.proc_map store) !! i = Some r /\
    StraceData.root_pid store = ProcTrace.pid r /\
    dict_get (StraceData.root_pid store) (StraceData.proc_map store) = Some r /\
    (forall j v,
       (snd <$> StraceData.proc_map store) !! j = Some v ->
       StraceData.key_lt (ProcTrace.ts_start v) (ProcTrace.ts_start r) <> Ok true) /\
    (forall j v,
       (j < i)%nat ->
       (snd <$> StraceData.proc_map store) !! j = Some v ->
       StraceData.key_lt (ProcTrace.ts_start r) (ProcTrace.ts_start v) = Ok true).
Proof.
  unfold StraceData.run. intros H.
  destruct (StraceData.load files []) as [m|] eqn:Hload; [|discriminate].
  cbn [mbind result_bind] in H.
  destruct (length m =? 0)%nat; [discriminate|].
  destruct (StraceData.select_root m) as [root|] eqn:Hroot; [|discriminate].
  cbn [mbind result_bind] in H. injection H as <-.
  cbn [StraceData.proc_map StraceData.root_pid].
  destruct (StoreFacts.load_keyed files [] m Hload) as [Hnd Hkeys].
  { split; [constructor|constructor]. }
  destruct (StoreFacts.load_order files [] m Hload) as [trs [Htrs Horder]].
  cbn [fmap list_fmap app] in Horder.
  rewrite (filter_ext _ (fun _ => true)) in Horder
    by (intros q; rewrite bool_decide_eq_false_2 by apply not_elem_of_nil; reflexivity).
  assert (Hall : forall l : list Z, List.filter (fun _ => true) l = l).
  { induction l as [|x l IHl]; simpl; [reflexivity|]. rewrite IHl. reflexivity. }
  rewrite Hall in Horder. clear Hall.
  unfold StraceData.select_root in Hroot.
  destruct (snd <$> m) as [|v0 rest] eqn:Hvals; [discriminate|].
  destruct (StraceData.min_by_ts_start v0 rest) as [r|] eqn:Hmin; [|discriminate].
  cbn [mbind result_bind] in Hroot. injection Hroot as <-.
  destruct (StoreFacts.min_by_ts_start_spec rest [v0] 0%nat v0 r) as [i Hfm];
    [|exact Hmin|].
  { split; [reflexivity|]. intros j v Hj.
    destruct j as [|j]; [split; lia|discriminate]. }
  cbn [app] in Hfm. exists trs, i, r.
  pose proof Hfm as [Hi Hothers].
  assert (Hmi : m !! i = Some (ProcTrace.pid r, r)).
  { rewrite <- Hvals, list_lookup_fmap in Hi.
    destruct (m !! i) as [[k v]|] eqn:Hmi; [|discriminate].
    injection Hi as ->.
    assert (Hk : k = ProcTrace.pid r).
    { rewrite Forall_forall in Hkeys.
      apply (Hkeys (k, r)). apply list_elem_of_lookup. eauto. }
    subst k. reflexivity. }
  split; [exact Htrs|]. split; [exact Horder|].
  split; [rewrite list_lookup_fmap, Hmi; reflexivity|].
  split; [exact Hi|]. split; [reflexivity|]. split.
  - exact (StoreFacts.dict_get_lookup m i _ r Hnd Hmi).
  - split.
    + exact (StoreFacts.first_min_minimal _ _ _ Hfm).
    + intros j v Hji Hj. exact (proj1 (Hothers j v Hj) Hji).
Qed.

Lemma root_pid_first_minimum_witness :
  exists trs i r,
    Forall2 (fun f tr => StraceData.do_file f = Ok tr) Examples.tie_files trs /\
    fst <$> StraceData.proc_map Examples.tie_store
    = Spec.first_occurrences (ProcTrace.pid <$> trs) /\
    (fst <$> StraceData.proc_map Examples.tie_store) !! i
    = Some (StraceData.root_pid Examples.tie_store) /\
    (snd <$> StraceData.proc_map Examples.tie_store) !! i = Some r /\
    StraceData.root_pid Examples.tie_store = ProcTrace.pid r /\
    dict_get (StraceData.root_pid Examples.tie_store)
             (StraceData.proc_map Examples.tie_store) = Some r /\
    (forall j v,
       (snd <$> StraceData.proc_map Examples.tie_store) !! j = Some v ->
       StraceData.key_lt (ProcTrace.ts_start v) (ProcTrace.ts_start r) <> Ok true) /\
    (forall j v,
       (j < i)%nat ->
       (snd <$> StraceData.proc_map Examples.tie_store) !! j = Some v ->
       StraceData.key_lt (ProcTrace.ts_start r) (ProcTrace.ts_start v) = Ok true).
Proof.
  apply (root_pid_first_minimum (L := ExactRuntimeFacts.laws) Examples.dir_b
           Examples.tie_files Examples.tie_store).
  vm_cast_no_check (eq_refl (Ok Examples.tie_store)).
Defined.

(** C8 as stated fails: the traces of PID 7 and PID 3 start at the same
    timestamp, which is the least one, and the root is PID 7, the first
    loaded, not the smaller PID 3. *)
Lemma root_pid_tie_counterexample :
  StraceData.run Examples.dir_b Examples.tie_files = Ok Examples.tie_store /\
  StraceData.root_pid Examples.tie_store = 7 /\
  (ProcTrace.ts_start <$> dict_get 3 (StraceData.proc_map Examples.tie_store))
  = (ProcTrace.ts_start <$> dict_get 7 (StraceData.proc_map Examples.tie_store)) /\
  is_Some (dict_get 3 (StraceData.proc_map Examples.tie_store)) /\
  3 < 7.
Proof.
  split; [vm_cast_no_check (eq_refl (Ok Examples.tie_store))|].
  split; [reflexivity|]. split; [reflexivity|]. split; [eexists; reflexivity|lia].
Qed.

(** ** The process walker *)

Module WalkerFacts.


End WalkerFacts.



(** ** Strings *)

Module StrFacts.
Import Shape.

Lemma append_cons c s t : String c s +:+ t = String c (s +:+ t).
Proof. reflexivity. Qed.

Lemma append_nil_l s : "" +:+ s = s.
Proof. reflexivity. Qed.

Lemma append_nil_r s : s +:+ "" = s.
Proof. induction s as [|c s IH]; [reflexivity|]. rewrite append_cons, IH. reflexivity. Qed.

Lemma append_assoc s t u : (s +:+ t) +:+ u = s +:+ (t +:+ u).
Proof.
  induction s as [|c s IH]; [reflexivity|]. rewrite !append_cons, IH. reflexivity.
Qed.

Lemma length_append s t :
  String.length (s +:+ t) = (String.length s + String.length t)%nat.
Proof.
  induction s as [|c s IH]; [reflexivity|]. rewrite append_cons. simpl. rewrite IH.
  reflexivity.
Qed.

Lemma occurs_append c s t : occurs c (s +:+ t) = occurs c s || occurs c t.
Proof.
  induction s as [|d s IH]; [reflexivity|]. rewrite append_cons. simpl. rewrite IH.
  apply orb_assoc.
Qed.

Lemma substring_all p : String.substring 0 (String.length p) p = p.
Proof. induction p as [|c p IH]; simpl; [reflexivity|]. f_equal. exact IH. Qed.

Lemma substring_split p : forall n,
  String.substring 0 n p +:+ String.substring n (String.length p - n) p = p.
Proof.
  induction p as [|c p IH]; intros n.
  - destruct n; reflexivity.
  - destruct n as [|n].
    + cbn [String.substring String.append]. rewrite Nat.sub_0_r.
      cbn [String.length String.substring]. rewrite substring_all. reflexivity.
    + cbn [String.substring String.length Nat.sub]. rewrite append_cons.
      f_equal. apply IH.
Qed.

Lemma get_occurs c s k : String.get k s = Some c -> occurs c s = true.
Proof.
  revert k. induction s as [|d s IH]; intros k; simpl; [discriminate|].
  destruct k as [|k].
  - intros [= ->]. rewrite Ascii.eqb_refl. reflexivity.
  - intros H. rewrite (IH _ H). apply orb_true_r.
Qed.

Lemma occurs_get c s : occurs c s = true -> exists k, String.get k s = Some c.
Proof.
  induction s as [|d s IH]; simpl; [discriminate|].
  destruct (Ascii.eqb_spec d c) as [->|Hne]; simpl.
  - intros _. exists 0%nat. reflexivity.
  - intros H. destruct (IH H) as [k Hk]. exists (S k). exact Hk.
Qed.

End StrFacts.

(** ** More on the prefilter *)

Module PrefilterMore.
Import RpmbuildTracer Spec.

Lemma multiplicity_filter k (p : CompilerCall.t -> bool) calls :
  (multiplicity k (List.filter p calls) <= multiplicity k calls)%nat.
Proof.
  unfold multiplicity; change canonical_tuple with as_tuple.
  induction calls as [|x calls IH]; simpl; [lia|].
  destruct (p x); simpl; destruct (bool_decide _); simpl; lia.
Qed.

(** A call that was kept is counted once in the result as well. *)
Lemma kept_once calls cc :
  In cc (compiler_calls_prefilter calls) ->
  keeps calls cc = true /\
  multiplicity (as_tuple (CompilerCall.command cc)) (compiler_calls_prefilter calls)
  = 1%nat.
Proof.
  intros Hin. pose proof (PrefilterFacts.multiplicity_pos _ _ Hin) as Hpos.
  rewrite PrefilterFacts.prefilter_keeps in Hin |- *.
  pose proof Hin as Hin'. apply filter_In in Hin' as [_ Hk]. split; [exact Hk|].
  pose proof (multiplicity_filter (as_tuple (CompilerCall.command cc))
                (keeps calls) calls) as Hle.
  rewrite PrefilterFacts.prefilter_keeps in Hpos.
  unfold keeps in Hk. change canonical_tuple with as_tuple in Hk.
  rewrite !andb_true_iff, Nat.eqb_eq in Hk. lia.
Qed.

End PrefilterMore.

(** X1.  The calls the prefilter returns have pairwise different canonical
    tuples, and the prefilter applied to its own result returns it
    unchanged. *)
Theorem compiler_calls_prefilter_idempotent (calls : list CompilerCall.t) :
  NoDup ((fun cc => as_tuple (CompilerCall.command cc))
           <$> RpmbuildTracer.compiler_calls_prefilter calls)
  /\
  RpmbuildTracer.compiler_calls_prefilter
    (RpmbuildTracer.compiler_calls_prefilter calls)
  = RpmbuildTracer.compiler_calls_prefilter calls.
Proof.
  set (out := RpmbuildTracer.compiler_calls_prefilter calls).
  split.
  - apply NoDup_alt. intros i j k Hi Hj.
    rewrite list_lookup_fmap in Hi, Hj.
    destruct (out !! i) as [c1|] eqn:E1; [|discriminate].
    destruct (out !! j) as [c2|] eqn:E2; [|discriminate].
    injection Hi as Hi. injection Hj as Hj.
    destruct (decide (i = j)) as [|Hne]; [assumption|exfalso].
    assert (Heq : as_tuple (CompilerCall.command c1)
                  = as_tuple (CompilerCall.command c2)) by congruence.
    pose proof (PrefilterFacts.multiplicity_two out i j c1 c2 Hne E1 E2 Heq) as H2.
    assert (Hin : In c1 out) by (apply list_elem_of_In, list_elem_of_lookup; eauto).
    destruct (PrefilterMore.kept_once calls c1 Hin) as [_ H1]. fold out in H1. lia.
  - rewrite (PrefilterFacts.prefilter_keeps out).
    transitivity (List.filter (fun _ => true) out).
    2: { clear. induction out as [|x l IH]; simpl; congruence. }
    apply filter_ext_in. intros cc Hin.
    destruct (PrefilterMore.kept_once calls cc Hin) as [Hk H1]. fold out in H1.
    unfold Spec.keeps in *. change Spec.canonical_tuple with as_tuple in *.
    rewrite H1.
    rewrite !andb_true_iff in Hk. destruct Hk as [[-> ->] _]. reflexivity.
Qed.
(** ** Regular expressions *)

Module ReFacts.
Import Re ReSearch ReSem StrFacts Shape.

Lemma substring_prefix v rest :
  String.substring 0 (String.length (v +:+ rest) - String.length rest) (v +:+ rest) = v.
Proof.
  rewrite length_append. replace (_ + _ - _)%nat with (String.length v) by lia.
  induction v as [|c v IH]; [destruct rest; reflexivity|].
  rewrite append_cons. cbn [String.length String.substring]. f_equal. exact IH.
Qed.

Lemma run_star b r s g k :
  run (RStar b r) s g k = star_loop (run r) b k (S (String.length s)) s g.
Proof. reflexivity. Qed.

Lemma star_loop_S step b k n s g :
  star_loop step b k (S n) s g =
  let more :=
    step s g (fun s' g' =>
      if (String.length s' <? String.length s)%nat
      then star_loop step b k n s' g' else None) in
  if b then match more with Some g' => Some g' | None => k s g end
  else match k s g with Some g' => Some g' | None => more end.
Proof. reflexivity. Qed.

(** The matcher only succeeds on what the pattern matches. *)
Lemma run_sound r : forall s g k gf,
  run r s g k = Some gf ->
  exists v rest gs,
    s = v +:+ rest /\ matches r v rest gs /\ k rest (gs ++ g) = Some gf.
Proof.
  induction r as [p| |r1 IH1 r2 IH2|r1 IH1 r2 IH2|b r1 IH1|n r1 IH1|];
    intros s g k gf H.
  - cbn [run] in H.
    destruct s as [|c s]; [discriminate|]. destruct (p c) eqn:Ep; [|discriminate].
    exists (String c ""), s, []. split; [reflexivity|]. split; [constructor; exact Ep|exact H].
  - cbn [run] in H. exists "", s, []. split; [reflexivity|]. split; [constructor|exact H].
  - cbn [run] in H. apply IH1 in H as [v1 [s1 [g1 [-> [M1 H]]]]].
    apply IH2 in H as [v2 [rest [g2 [-> [M2 H]]]]].
    exists (v1 +:+ v2), rest, (g2 ++ g1). split; [symmetry; apply append_assoc|].
    split; [constructor; assumption|]. rewrite <- app_assoc. exact H.
  - cbn [run] in H. destruct (run r1 s g k) as [g'|] eqn:E1.
    + injection H as ->. apply IH1 in E1 as [v [rest [gs [-> [M H]]]]].
      exists v, rest, gs. split; [reflexivity|]. split; [apply MAltL, M|exact H].
    + apply IH2 in H as [v [rest [gs [-> [M H]]]]].
      exists v, rest, gs. split; [reflexivity|]. split; [apply MAltR, M|exact H].
  - rewrite run_star in H. revert H. generalize (S (String.length s)).
    intros fuel. revert s g.
    induction fuel as [|fuel IHf]; intros s g H.
    + exists "", s, []. split; [reflexivity|]. split; [constructor|exact H].
    + rewrite star_loop_S in H. cbv zeta in H.
      assert (Hstop : k s g = Some gf ->
                exists v rest gs,
                  s = v +:+ rest /\ matches (RStar b r1) v rest gs /\
                  k rest (gs ++ g) = Some gf).
      { intros Hk. exists "", s, []. split; [reflexivity|]. split; [constructor|exact Hk]. }
      assert (Hmore :
                run r1 s g
                  (fun s' g' =>
                     if (String.length s' <? String.length s)%nat
                     then star_loop (run r1) b k fuel s' g' else None) = Some gf ->
                exists v rest gs,
                  s = v +:+ rest /\ matches (RStar b r1) v rest gs /\
                  k rest (gs ++ g) = Some gf).
      { intros Hm.
        apply IH1 in Hm as [v1 [s1 [g1 [-> [M1 Hm]]]]].
        destruct (Nat.ltb_spec (String.length s1) (String.length (v1 +:+ s1)))
          as [Hlt|]; [|discriminate].
        apply IHf in Hm as [v2 [rest [g2 [-> [M2 Hm]]]]].
        exists (v1 +:+ v2), rest, (g2 ++ g1). split; [symmetry; apply append_assoc|].
        split; [|rewrite <- app_assoc; exact Hm].
        apply MStarS; [exact M1| |exact M2].
        intros ->. change ("" +:+ ?x) with x in Hlt. lia. }
      destruct b.
      * destruct (run r1 s g _) as [g'|] eqn:Em.
        -- injection H as ->. exact (Hmore eq_refl).
        -- exact (Hstop H).
      * destruct (k s g) as [g'|] eqn:Ek.
        -- injection H as ->. exact (Hstop eq_refl).
        -- exact (Hmore H).
  - cbn [run] in H. apply IH1 in H as [v [rest [gs [-> [M H]]]]].
    rewrite substring_prefix in H.
    exists v, rest, ((n, v) :: gs). split; [reflexivity|].
    split; [constructor; exact M|exact H].
  - cbn [run] in H. destruct (_ || _) eqn:E; [|discriminate].
    exists "", s, []. split; [reflexivity|]. split; [|exact H].
    constructor. apply orb_true_iff in E as [E|E]; apply String.eqb_eq in E; auto.
Qed.

Lemma match_sound r s gf :
  match_ r s = Some gf -> exists v rest, s = v +:+ rest /\ matches r v rest gf.
Proof.
  unfold match_. intros H. apply run_sound in H as [v [rest [gs [-> [M H]]]]].
  rewrite app_nil_r in H. injection H as <-. eauto.
Qed.

Lemma search_sound r s gf :
  search r s = Some gf ->
  exists pre v rest, s = pre +:+ v +:+ rest /\ matches r v rest gf.
Proof.
  induction s as [|c s IH]; cbn [search].
  - destruct (match_ r "") as [g|] eqn:E; [|discriminate]. intros [= <-].
    apply match_sound in E as [v [rest [-> M]]]. exists "", v, rest. auto.
  - destruct (match_ r (String c s)) as [g|] eqn:E.
    + intros [= <-]. apply match_sound in E as [v [rest [-> M]]].
      exists "", v, rest. auto.
    + intros H. apply IH in H as [pre [v [rest [-> M]]]].
      exists (String c pre), v, rest. auto.
Qed.

(** *** The matcher finds a match when there is one *)

Lemma star_loop_stop step b k n s g :
  (forall g', is_Some (k s g')) -> is_Some (star_loop step b k n s g).
Proof.
  intros Hk. destruct n as [|n]; [apply Hk|]. rewrite star_loop_S. cbv zeta.
  destruct b.
  - destruct (step s g _); [eauto|apply Hk].
  - destruct (Hk g) as [x ->]. eauto.
Qed.

Lemma run_complete_aux r v rest gs :
  matches r v rest gs ->
  (forall k g, (forall g', is_Some (k rest g')) -> is_Some (run r (v +:+ rest) g k)) /\
  (forall b r1, r = RStar b r1 ->
     forall k g n, (forall g', is_Some (k rest g')) -> (String.length v <= n)%nat ->
                   is_Some (star_loop (run r1) b k n (v +:+ rest) g)).
Proof.
  induction 1 as [p c rest Hp|rest|r1 r2 v1 v2 rest g1 g2 M1 IH1 M2 IH2
                 |r1 r2 v rest g0 M IH|r1 r2 v rest g0 M IH
                 |b r rest|b r v1 v2 rest g1 g2 M1 IH1 Hne M2 IH2
                 |n r v rest g0 M IH|rest Hrest].
  - split; [|discriminate]. intros k g Hk.
    change (String c "" +:+ rest) with (String c rest). cbn [run]. rewrite Hp. apply Hk.
  - split; [|discriminate]. intros k g Hk. apply Hk.
  - split; [|discriminate]. intros k g Hk. cbn [run]. rewrite append_assoc.
    apply (proj1 IH1). intros g'. apply (proj1 IH2), Hk.
  - split; [|discriminate]. intros k g Hk. cbn [run].
    destruct (proj1 IH k g Hk) as [x ->]. eauto.
  - split; [|discriminate]. intros k g Hk. cbn [run].
    destruct (run r1 (v +:+ rest) g k); [eauto|]. apply (proj1 IH), Hk.
  - assert (H2 : forall k g n, (forall g', is_Some (k rest g')) ->
                   is_Some (star_loop (run r) b k n ("" +:+ rest) g)).
    { intros k g n Hk. apply star_loop_stop, Hk. }
    split.
    + intros k g Hk. rewrite run_star. apply H2, Hk.
    + intros b' r' [= <- <-] k g n Hk _. apply H2, Hk.
  - assert (H2 : forall k g n, (forall g', is_Some (k rest g')) ->
                   (String.length (v1 +:+ v2) <= n)%nat ->
                   is_Some (star_loop (run r) b k n ((v1 +:+ v2) +:+ rest) g)).
    { intros k g n Hk Hn. rewrite length_append in Hn.
      assert (Hv1 : (0 < String.length v1)%nat).
      { destruct v1; [congruence|simpl; lia]. }
      destruct n as [|n]; [lia|]. rewrite star_loop_S. cbv zeta.
      assert (Hmore : is_Some
                (run r ((v1 +:+ v2) +:+ rest) g
                   (fun s' g' =>
                      if (String.length s' <? String.length ((v1 +:+ v2) +:+ rest))%nat
                      then star_loop (run r) b k n s' g' else None))).
      { rewrite append_assoc. apply (proj1 IH1). intros g'.
        rewrite !length_append.
        destruct (Nat.ltb_spec (String.length v2 + String.length rest)
                    (String.length v1 + (String.length v2 + String.length rest)));
          [|lia].
        apply (proj2 IH2 b r eq_refl); [exact Hk|lia]. }
      destruct Hmore as [x Hx]. rewrite Hx.
      destruct b; [eauto|]. destruct (k _ g); eauto. }
    split.
    + intros k g Hk. rewrite run_star. apply H2; [exact Hk|].
      rewrite !length_append. lia.
    + intros b' r' [= <- <-] k g n Hk Hn. apply H2; assumption.
  - split; [|discriminate]. intros k g Hk. cbn [run].
    apply (proj1 IH). intros g'. apply Hk.
  - split; [|discriminate]. intros k g Hk. cbn [run].
    change ("" +:+ rest) with rest.
    destruct Hrest as [-> | ->]; cbn; apply Hk.
Qed.

Lemma match_complete r v rest gs :
  matches r v rest gs -> is_Some (match_ r (v +:+ rest)).
Proof.
  intros M. unfold match_. apply (proj1 (run_complete_aux _ _ _ _ M)). eauto.
Qed.

Lemma search_at r s : is_Some (match_ r s) -> forall pre, is_Some (search r (pre +:+ s)).
Proof.
  intros Hm pre. induction pre as [|c pre IH].
  - change ("" +:+ s) with s. destruct s; cbn [search]; destruct Hm as [x ->]; eauto.
  - rewrite append_cons. cbn [search].
    destruct (match_ r (String c (pre +:+ s))); [eauto|exact IH].
Qed.

Lemma search_complete r pre v rest gs :
  matches r v rest gs -> is_Some (search r (pre +:+ v +:+ rest)).
Proof. intros M. apply search_at, (match_complete _ _ _ _ M). Qed.

(** *** What some patterns match *)

Lemma matches_lit l v rest gs : matches (lit l) v rest gs <-> v = l /\ gs = [].
Proof.
  revert v rest gs. induction l as [|c l IH]; intros v rest gs; cbn [lit].
  - split.
    + intros M. inversion M; subst. auto.
    + intros [-> ->]. constructor.
  - split.
    + intros M. inversion M as [| |r1 r2 v1 v2 rest' g1 g2 M1 M2| | | | | |]; subst.
      apply IH in M2 as [-> ->].
      inversion M1 as [p c' rest' Hp| | | | | | | |]; subst.
      apply Ascii.eqb_eq in Hp. subst. auto.
    + intros [-> ->]. change (String c l) with (String c "" +:+ l).
      change (@nil (string * string)) with (@nil (string * string) ++ []).
      constructor; [constructor; apply Ascii.eqb_refl|apply IH; auto].
Qed.

Lemma matches_chars b p v rest gs :
  matches (RStar b (RChar p)) v rest gs <-> all_chars p v = true /\ gs = [].
Proof.
  split.
  - intros M. remember (RStar b (RChar p)) as r eqn:Er.
    induction M as [| | | | |b' r' rest|b' r' v1 v2 rest g1 g2 M1 _ Hne M2 IH2| |];
      try discriminate.
    + auto.
    + injection Er as -> ->. destruct (IH2 eq_refl) as [Hall ->].
      inversion M1; subst. cbn. split; [|reflexivity].
      apply andb_true_iff. auto.
  - intros [Hall ->]. revert Hall. induction v as [|c v IH]; [constructor|].
    cbn [all_chars]. intros H. apply andb_true_iff in H as [Hc Hv].
    change (String c v) with (String c "" +:+ v).
    change (@nil (string * string)) with (@nil (string * string) ++ []).
    constructor; [constructor; exact Hc|discriminate|exact (IH Hv)].
Qed.

Lemma matches_plus_chars p v rest gs :
  matches (plus (RChar p)) v rest gs <-> v <> "" /\ all_chars p v = true /\ gs = [].
Proof.
  unfold plus. split.
  - intros M. inversion M as [| |r1 r2 v1 v2 rest' g1 g2 M1 M2| | | | | |]; subst.
    apply matches_chars in M2 as [Hall ->]. inversion M1; subst.
    split; [discriminate|]. split; [|reflexivity].
    cbn. apply andb_true_iff. auto.
  - intros [Hne [Hall ->]]. destruct v as [|c v]; [congruence|].
    cbn in Hall. apply andb_true_iff in Hall as [Hc Hv].
    change (String c v) with (String c "" +:+ v).
    change (@nil (string * string)) with (@nil (string * string) ++ []).
    constructor; [constructor; exact Hc|apply matches_chars; auto].
Qed.

Lemma matches_alt_list rs v rest gs :
  matches (alt rs) v rest gs <-> exists r, In r rs /\ matches r v rest gs.
Proof.
  induction rs as [|r rs IH].
  - cbn. split; [|intros [r [[] _]]]. intros M. inversion M; subst. discriminate.
  - destruct rs as [|r' rs].
    + cbn. split; [eauto|]. intros [r0 [[<-|[]] M]]. exact M.
    + change (alt (r :: r' :: rs)) with (RAlt r (alt (r' :: rs))). split.
      * intros M.
        inversion M as [| | |r1 r2 v0 rest0 g M1|r1 r2 v0 rest0 g M2| | | |]; subst.
        -- exists r. split; [left; reflexivity|assumption].
        -- apply IH in M2 as [r0 [Hin M0]].
           exists r0. split; [right; exact Hin|exact M0].
      * intros [r0 [[<-|Hin] M]]; [apply MAltL, M|].
        apply MAltR, IH. eauto.
Qed.

Lemma matches_eol v rest gs : matches REol v rest gs <-> v = "" /\ gs = [] /\ line_end rest.
Proof.
  split.
  - intros M. inversion M; subst. auto.
  - intros [-> [-> H]]. constructor. exact H.
Qed.

Lemma matches_seq r1 r2 v rest gs :
  matches (RSeq r1 r2) v rest gs <->
  exists v1 v2 g1 g2,
    v = v1 +:+ v2 /\ gs = g2 ++ g1 /\
    matches r1 v1 (v2 +:+ rest) g1 /\ matches r2 v2 rest g2.
Proof.
  split.
  - intros M. inversion M; subst. do 4 eexists. eauto.
  - intros [v1 [v2 [g1 [g2 [-> [-> [M1 M2]]]]]]]. constructor; assumption.
Qed.

Lemma matches_chr c v rest gs :
  matches (chr c) v rest gs <-> v = String c "" /\ gs = [].
Proof.
  split.
  - intros M. inversion M as [p c' rest' Hp| | | | | | | |]; subst.
    apply Ascii.eqb_eq in Hp. subst. auto.
  - intros [-> ->]. constructor. apply Ascii.eqb_refl.
Qed.

(** *** Groups *)

Lemma matches_group_body n x r v rest gs :
  matches r v rest gs -> In (n, x) gs ->
  exists r1 rest1 gs1, In r1 (group_bodies n r) /\ matches r1 x rest1 gs1.
Proof.
  induction 1 as [| |r1 r2 v1 v2 rest g1 g2 M1 IH1 M2 IH2
                 |r1 r2 v rest g0 M IH|r1 r2 v rest g0 M IH
                 | |b r v1 v2 rest g1 g2 M1 IH1 Hne M2 IH2
                 |m r v rest g0 M IH|]; intros Hin; try (destruct Hin; fail).
  - apply in_app_or in Hin as [Hin|Hin].
    + destruct (IH2 Hin) as [r0 [a [b [Hr Hm]]]]. exists r0, a, b.
      split; [cbn; apply in_or_app; auto|exact Hm].
    + destruct (IH1 Hin) as [r0 [a [b [Hr Hm]]]]. exists r0, a, b.
      split; [cbn; apply in_or_app; auto|exact Hm].
  - destruct (IH Hin) as [r0 [a [b [Hr Hm]]]]. exists r0, a, b.
    split; [cbn; apply in_or_app; auto|exact Hm].
  - destruct (IH Hin) as [r0 [a [b [Hr Hm]]]]. exists r0, a, b.
    split; [cbn; apply in_or_app; auto|exact Hm].
  - apply in_app_or in Hin as [Hin|Hin].
    + exact (IH2 Hin).
    + destruct (IH1 Hin) as [r0 [a [b0 [Hr Hm]]]]. exists r0, a, b0.
      split; [exact Hr|exact Hm].
  - destruct Hin as [[= -> ->]|Hin].
    + exists r, rest, g0. split; [|exact M].
      cbn. rewrite String.eqb_refl. left. reflexivity.
    + destruct (IH Hin) as [r0 [a [b [Hr Hm]]]]. exists r0, a, b.
      split; [cbn; apply in_or_app; auto|exact Hm].
Qed.

Lemma dict_get_In {V} n (x : V) (gs : list (string * V)) :
  dict_get n gs = Some x -> In (n, x) gs.
Proof.
  induction gs as [|[m y] gs IH]; cbn; [discriminate|].
  destruct (decide (n = m)) as [->|Hne].
  - intros [= ->]. auto.
  - intros H. right. exact (IH H).
Qed.

Lemma dict_get_app_Some {V} n (g1 g2 : list (string * V)) :
  is_Some (dict_get n g1) \/ is_Some (dict_get n g2) -> is_Some (dict_get n (g1 ++ g2)).
Proof.
  induction g1 as [|[m y] g1 IH]; cbn.
  - intros [[x Hx]|H]; [discriminate|exact H].
  - destruct (decide (n = m)); [eauto|exact IH].
Qed.

Lemma matches_always_binds n r v rest gs :
  matches r v rest gs -> always_binds n r = true -> is_Some (dict_get n gs).
Proof.
  induction 1 as [| |r1 r2 v1 v2 rest g1 g2 M1 IH1 M2 IH2
                 |r1 r2 v rest g0 M IH|r1 r2 v rest g0 M IH
                 | |b r v1 v2 rest g1 g2 M1 IH1 Hne M2 IH2
                 |m r v rest g0 M IH|]; cbn [always_binds]; try discriminate.
  - intros H. apply dict_get_app_Some. apply orb_true_iff in H. tauto.
  - intros H. apply andb_true_iff in H. tauto.
  - intros H. apply andb_true_iff in H. tauto.
  - intros H. cbn [dict_get]. destruct (decide (n = m)); [eauto|].
    apply IH. apply orb_true_iff in H as [H|H]; [|exact H].
    apply String.eqb_eq in H. congruence.
Qed.

(** A group that no part of the pattern names is not bound. *)
Lemma matches_unbound n r v rest gs :
  matches r v rest gs -> group_bodies n r = [] -> dict_get n gs = None.
Proof.
  assert (Happ : forall (g1 g2 : groups),
            dict_get n g1 = None -> dict_get n g2 = None -> dict_get n (g1 ++ g2) = None).
  { induction g1 as [|[m y] g1 IHg]; cbn; [auto|].
    destruct (decide (n = m)); [discriminate|auto]. }
  induction 1 as [| |r1 r2 v1 v2 rest g1 g2 M1 IH1 M2 IH2
                 |r1 r2 v rest g0 M IH|r1 r2 v rest g0 M IH
                 | |b r v1 v2 rest g1 g2 M1 IH1 Hne M2 IH2
                 |m r v rest g0 M IH|]; cbn [group_bodies]; try reflexivity.
  - intros H. apply app_eq_nil in H as [H1 H2]. auto.
  - intros H. apply app_eq_nil in H as [H1 H2]. auto.
  - intros H. apply app_eq_nil in H as [H1 H2]. auto.
  - intros H. apply Happ; [apply IH2|apply IH1]; exact H.
  - intros H. apply app_eq_nil in H as [H1 H2]. cbn [dict_get].
    destruct (String.eqb_spec m n) as [->|Hne]; [discriminate|].
    destruct (decide (n = m)); [congruence|auto].
Qed.

End ReFacts.
(** ** Paths *)

Module PathFacts.
Import PosixPath PurePath Shape StrFacts.

(** *** [rfind] *)

Lemma rfind_from_spec c s : forall i last,
  last < i ->
  let r := rfind_from c s i last in
  (r = last /\ occurs c s = false)
  \/
  (i <= r < i + Z.of_nat (String.length s) /\
   String.get (Z.to_nat (r - i)) s = Some c /\
   forall k, (Z.to_nat (r - i) < k)%nat -> String.get k s <> Some c).
Proof.
  induction s as [|d s IH]; intros i last Hlt; cbn [rfind_from].
  - left. split; reflexivity.
  - destruct (Ascii.eqb_spec d c) as [->|Hne].
    + destruct (IH (i + 1) i ltac:(lia)) as [[Hr Hno]|[Hr [Hget Hafter]]].
      * right. cbv zeta in *. rewrite Hr. rewrite Z.sub_diag. cbn [Z.to_nat].
        split; [cbn [String.length]; lia|]. split; [reflexivity|].
        intros k Hk. destruct k as [|k]; [lia|]. cbn [String.get].
        intros Hg. apply get_occurs in Hg. congruence.
      * right. cbv zeta in *. split; [cbn [String.length]; lia|].
        replace (Z.to_nat (rfind_from c s (i + 1) i - i))
          with (S (Z.to_nat (rfind_from c s (i + 1) i - (i + 1)))) by lia.
        split; [exact Hget|].
        intros k Hk. destruct k as [|k]; [lia|]. cbn [String.get].
        apply Hafter. lia.
    + destruct (IH (i + 1) last ltac:(lia)) as [[Hr Hno]|[Hr [Hget Hafter]]].
      * left. cbv zeta in *. split; [exact Hr|]. cbn [occurs].
        rewrite Hno. destruct (Ascii.eqb_spec d c); [contradiction|reflexivity].
      * right. cbv zeta in *. split; [cbn [String.length]; lia|].
        replace (Z.to_nat (rfind_from c s (i + 1) last - i))
          with (S (Z.to_nat (rfind_from c s (i + 1) last - (i + 1)))) by lia.
        split; [exact Hget|].
        intros k Hk. destruct k as [|k]; [lia|]. cbn [String.get].
        apply Hafter. lia.
Qed.

Lemma rfind_spec c s :
  (rfind c s = -1 /\ occurs c s = false)
  \/
  (0 <= rfind c s < Z.of_nat (String.length s) /\
   String.get (Z.to_nat (rfind c s)) s = Some c /\
   forall k, (Z.to_nat (rfind c s) < k)%nat -> String.get k s <> Some c).
Proof.
  pose proof (rfind_from_spec c s 0 (-1) ltac:(lia)) as H. cbv zeta in H.
  fold (rfind c s) in H. rewrite Z.sub_0_r in H. exact H.
Qed.

(** A character of the part of [s] from index [n] on is a character of
    [s], [n] places further. *)
Lemma substring_suffix_get s n k c :
  String.get k (String.substring n (String.length s - n) s) = Some c ->
  String.get (k + n) s = Some c.
Proof.
  intros H. destruct (Nat.lt_ge_cases k (String.length s - n)) as [Hk|Hk].
  - rewrite <- H. symmetry. apply substring_correct1. exact Hk.
  - rewrite (substring_correct2 s n (String.length s - n) k Hk) in H. discriminate.
Qed.

(** *** [splitext] *)

Lemma splitext_concat p : fst (splitext p) +:+ snd (splitext p) = p.
Proof.
  unfold splitext. destruct (_ && _); cbn [fst snd].
  - apply substring_split.
  - apply append_nil_r.
Qed.

Lemma splitext_ext p :
  snd (splitext p) = ""
  \/ exists r, snd (splitext p) = String "." r /\
               occurs "." r = false /\ occurs "/" r = false.
Proof.
  unfold splitext.
  destruct ((rfind "/" p <? rfind "." p) && _) eqn:E; cbn [snd]; [right|left; reflexivity].
  apply andb_true_iff in E as [Hlt _]. apply Z.ltb_lt in Hlt.
  destruct (rfind_spec "." p) as [[Hd _]|[Hd [Hget Hafter]]].
  { destruct (rfind_spec "/" p) as [[Hs _]|[Hs _]]; lia. }
  set (dot := Z.to_nat (rfind "." p)) in *.
  set (ext := String.substring dot (String.length p - dot) p).
  assert (H0 : String.get 0 ext = Some "."%char).
  { unfold ext. rewrite substring_correct1 by lia. exact Hget. }
  destruct ext as [|c r] eqn:Hext; [discriminate|].
  cbn [String.get] in H0. injection H0 as ->.
  exists r. split; [reflexivity|]. split.
  - destruct (occurs "." r) eqn:Ho; [|reflexivity]. exfalso.
    apply occurs_get in Ho as [k Hk].
    assert (Hk' : String.get (S k) (String.substring dot (String.length p - dot) p)
                  = Some "."%char) by (fold ext; rewrite Hext; exact Hk).
    apply substring_suffix_get in Hk'. apply (Hafter (S k + dot)%nat); [lia|exact Hk'].
  - destruct (occurs "/" r) eqn:Ho; [|reflexivity]. exfalso.
    apply occurs_get in Ho as [k Hk].
    assert (Hk' : String.get (S k) (String.substring dot (String.length p - dot) p)
                  = Some "/"%char) by (fold ext; rewrite Hext; exact Hk).
    apply substring_suffix_get in Hk'.
    destruct (rfind_spec "/" p) as [[_ Hno]|[Hs [_ Hafter']]].
    + apply get_occurs in Hk'. congruence.
    + apply (Hafter' (S k + dot)%nat); [lia|exact Hk'].
Qed.

(** *** [split] *)

Lemma split_no_sep sep x : occurs sep x = false -> PyStr.split sep x = [x].
Proof.
  induction x as [|c x IH]; simpl; [reflexivity|].
  destruct (Ascii.eqb c sep); simpl; [discriminate|].
  intros H. rewrite (IH H). reflexivity.
Qed.

Lemma split_app_sep sep x rest :
  occurs sep x = false ->
  PyStr.split sep (x +:+ String sep rest) = x :: PyStr.split sep rest.
Proof.
  induction x as [|c x IH].
  - intros _. change ("" +:+ String sep rest) with (String sep rest).
    simpl. rewrite Ascii.eqb_refl. reflexivity.
  - rewrite append_cons. simpl.
    destruct (Ascii.eqb c sep); simpl; [discriminate|].
    intros H. rewrite (IH H). reflexivity.
Qed.

Lemma split_parts sep s : Forall (fun x => occurs sep x = false) (PyStr.split sep s).
Proof.
  induction s as [|c s IH]; simpl.
  - constructor; [reflexivity|constructor].
  - destruct (Ascii.eqb c sep) eqn:E.
    + constructor; [reflexivity|exact IH].
    + destruct (PyStr.split sep s) as [|h t]; constructor;
        try (simpl; rewrite E); try constructor.
      * inversion IH; subst. assumption.
      * inversion IH; subst. assumption.
Qed.

(** *** [splitroot] *)

Lemma splitroot_relative s : ~ Shape.starts_slash s -> splitroot s = ("", s).
Proof.
  intros H. destruct s as [|c s]; [reflexivity|].
  destruct (Ascii.eqb_spec c "/") as [->|Hne]; [exfalso; apply H; eexists; reflexivity|].
  destruct c as [[] [] [] [] [] [] [] []]; try reflexivity.
  exfalso. apply Hne. reflexivity.
Qed.

Lemma splitroot_one rel : ~ Shape.starts_slash rel -> splitroot (String "/" rel) = ("/", rel).
Proof.
  intros H. destruct rel as [|c s]; [reflexivity|].
  destruct (Ascii.eqb_spec c "/") as [->|Hne]; [exfalso; apply H; eexists; reflexivity|].
  destruct c as [[] [] [] [] [] [] [] []]; try reflexivity.
  exfalso. apply Hne. reflexivity.
Qed.

Lemma splitroot_two rel :
  ~ Shape.starts_slash rel -> splitroot (String "/" (String "/" rel)) = ("//", rel).
Proof.
  intros H. destruct rel as [|c s]; [reflexivity|].
  destruct (Ascii.eqb_spec c "/") as [->|Hne]; [exfalso; apply H; eexists; reflexivity|].
  destruct c as [[] [] [] [] [] [] [] []]; try reflexivity.
  exfalso. apply Hne. reflexivity.
Qed.

Lemma splitroot_more rel :
  splitroot (String "/" (String "/" (String "/" rel)))
  = ("/", String "/" (String "/" rel)).
Proof.
  unfold splitroot. f_equal.
  cbn [String.length Nat.sub String.substring]. rewrite substring_all.
  reflexivity.
Qed.

Lemma starts_slash_dec s : {Shape.starts_slash s} + {~ Shape.starts_slash s}.
Proof.
  destruct s as [|c s]; [right; intros [r Hr]; discriminate|].
  destruct (Ascii.eqb_spec c "/") as [->|Hne].
  - left. eexists. reflexivity.
  - right. intros [r [= Hc _]]. contradiction.
Qed.

Lemma splitroot_root s :
  fst (splitroot s) = "" \/ fst (splitroot s) = "/" \/ fst (splitroot s) = "//".
Proof.
  destruct (starts_slash_dec s) as [[r ->]|H]; [|rewrite splitroot_relative; auto].
  destruct (starts_slash_dec r) as [[r' ->]|H]; [|rewrite splitroot_one; auto].
  destruct (starts_slash_dec r') as [[r'' ->]|H]; [|rewrite splitroot_two; auto].
  rewrite splitroot_more. auto.
Qed.

(** *** Paths as [pathlib] keeps them *)

Lemma of_str_normal s : normal (of_str s) = true.
Proof.
  unfold of_str, normal. destruct (splitroot s) as [r rel] eqn:E. cbn [root parts].
  apply andb_true_iff. split.
  - apply bool_decide_eq_true. pose proof (splitroot_root s) as H. rewrite E in H.
    cbn [fst] in H. rewrite !elem_of_cons. tauto.
  - apply forallb_forall. intros x Hx. apply filter_In in Hx as [Hin Hk].
    unfold clean_part. rewrite Hk. cbn.
    pose proof (split_parts "/" rel) as Hall. rewrite Forall_forall in Hall.
    rewrite (Hall x); [reflexivity|]. apply list_elem_of_In, Hin.
Qed.

Lemma join_normal a b : normal a = true -> normal b = true -> normal (join a b) = true.
Proof.
  unfold normal, join. rewrite !andb_true_iff. intros [Ha1 Ha2] [Hb1 Hb2].
  destruct (String.eqb (root b) ""); cbn [root parts]; [|auto].
  split; [exact Ha1|]. rewrite forallb_app, Ha2, Hb2. reflexivity.
Qed.

Lemma clean_not_slash x : clean_part x = true -> ~ Shape.starts_slash x.
Proof.
  unfold clean_part. intros H [r ->]. apply andb_true_iff in H as [_ H].
  cbn in H. discriminate.
Qed.

Lemma join_parts_cons x l :
  join_parts (x :: l) = match l with [] => x | _ => x +:+ String "/" (join_parts l) end.
Proof. destruct l; reflexivity. Qed.

Lemma clean_join_not_slash x l : clean_part x = true -> ~ Shape.starts_slash (join_parts (x :: l)).
Proof.
  intros H. rewrite join_parts_cons.
  destruct x as [|c x]; [discriminate|].
  assert (Hc : c <> "/"%char).
  { intros ->. apply (clean_not_slash _ H). eexists. reflexivity. }
  destruct l; [|rewrite append_cons]; intros [r [= Hr _]]; contradiction.
Qed.

Lemma split_join_parts l :
  l <> [] -> forallb clean_part l = true ->
  List.filter keep_part (PyStr.split "/" (join_parts l)) = l.
Proof.
  induction l as [|x l IH]; [congruence|]. intros _ Hall.
  cbn [forallb] in Hall. apply andb_true_iff in Hall as [Hx Hl].
  pose proof Hx as Hx'. unfold clean_part in Hx'.
  apply andb_true_iff in Hx' as [Hk Hs]. apply negb_true_iff in Hs.
  rewrite join_parts_cons. destruct l as [|y l].
  - rewrite split_no_sep by exact Hs. cbn [List.filter]. rewrite Hk. reflexivity.
  - rewrite split_app_sep by exact Hs. cbn [List.filter]. rewrite Hk.
    f_equal. apply IH; [discriminate|exact Hl].
Qed.

Lemma of_str_to_str p : normal p = true -> of_str (to_str p) = p.
Proof.
  destruct p as [r l]. unfold normal. cbn [root parts].
  rewrite andb_true_iff, bool_decide_eq_true, !elem_of_cons.
  intros [[->|[->|[->|Hr]]] Hl]; [| | |inversion Hr].
  - destruct l as [|x l]; [reflexivity|].
    unfold to_str. cbn [root parts]. change ("" +:+ ?s) with s.
    unfold of_str. rewrite splitroot_relative.
    + rewrite split_join_parts; [reflexivity|discriminate|exact Hl].
    + apply clean_join_not_slash. cbn in Hl. apply andb_true_iff in Hl. tauto.
  - unfold to_str. cbn [root parts]. rewrite append_cons. change ("" +:+ ?s) with s.
    unfold of_str. destruct l as [|x l]; [reflexivity|].
    rewrite splitroot_one.
    + rewrite split_join_parts; [reflexivity|discriminate|exact Hl].
    + apply clean_join_not_slash. cbn in Hl. apply andb_true_iff in Hl. tauto.
  - unfold to_str. cbn [root parts]. rewrite !append_cons. change ("" +:+ ?s) with s.
    unfold of_str. destruct l as [|x l]; [reflexivity|].
    rewrite splitroot_two.
    + rewrite split_join_parts; [reflexivity|discriminate|exact Hl].
    + apply clean_join_not_slash. cbn in Hl. apply andb_true_iff in Hl. tauto.
Qed.

(** *** Joining *)

Lemma join_assoc a b c : join (join a b) c = join a (join b c).
Proof.
  unfold join. destruct (String.eqb (root c) "") eqn:Ec.
  - destruct (String.eqb (root b) "") eqn:Eb; cbn [root parts].
    + rewrite Eb. rewrite app_assoc. reflexivity.
    + rewrite Eb. reflexivity.
  - rewrite Ec. reflexivity.
Qed.

Lemma join_empty_r a : join a (mkPath "" []) = a.
Proof. unfold join. cbn. rewrite app_nil_r. destruct a; reflexivity. Qed.

Lemma join_empty_l b : join (mkPath "" []) b = b.
Proof.
  unfold join. destruct (String.eqb_spec (root b) "") as [E|E]; [|reflexivity].
  destruct b as [r l]. cbn in *. subst r. reflexivity.
Qed.

End PathFacts.

(** X2.  [os.path.splitext] cuts its argument in two without losing a
    character, and the extension is empty or a dot followed by characters
    that are neither dots nor slashes. *)
Theorem splitext_splits (p : string) :
  fst (PosixPath.splitext p) +:+ snd (PosixPath.splitext p) = p
  /\
  (snd (PosixPath.splitext p) = ""
   \/ exists r, snd (PosixPath.splitext p) = String "." r /\
                Shape.occurs "." r = false /\ Shape.occurs "/" r = false).
Proof. split; [apply PathFacts.splitext_concat|apply PathFacts.splitext_ext]. Qed.

(** X3.  Every path made from a string is in the form [pathlib] keeps
    (a root of at most two slashes; no empty component, no component that
    is a single dot, no slash inside a component), and writing such a path
    and reading it again gives the same path. *)
Theorem of_str_to_str_round_trip (s : string) :
  Shape.normal (PurePath.of_str s) = true /\
  PurePath.of_str (PurePath.to_str (PurePath.of_str s)) = PurePath.of_str s.
Proof.
  split; [apply PathFacts.of_str_normal|].
  apply PathFacts.of_str_to_str, PathFacts.of_str_normal.
Qed.

(** X4.  Joining paths is associative, and the empty relative path is
    neutral on both sides. *)
Theorem join_monoid (a b c : Path) :
  PurePath.join (PurePath.join a b) c = PurePath.join a (PurePath.join b c) /\
  PurePath.join a (PurePath.of_str "") = a /\
  PurePath.join (PurePath.of_str "") a = a.
Proof.
  split; [apply PathFacts.join_assoc|].
  split; [apply PathFacts.join_empty_r|apply PathFacts.join_empty_l].
Qed.
(** ** Discovered sources *)

Module SourceFacts.
Import Language CompilerMatcher Shape.

(** The extensions of the table whose kind is SOURCE. *)
Lemma source_ext_six ext :
  match dict_get ext source_exts with
  | Some (SOURCE, _) => true
  | _ => false
  end = bool_decide (ext ∈ [".c"; ".C"; ".c++"; ".cc"; ".cpp"; ".cxx"]).
Proof.
  destruct (bool_decide_reflect (ext ∈ [".c"; ".C"; ".c++"; ".cc"; ".cpp"; ".cxx"]))
    as [Hin|Hnin].
  - rewrite !elem_of_cons, elem_of_nil in Hin.
    destruct Hin as [->|[->|[->|[->|[->|[->|[]]]]]]]; reflexivity.
  - unfold source_exts. simpl.
    repeat case_decide; subst; try reflexivity;
      exfalso; apply Hnin; rewrite !elem_of_cons; tauto.
Qed.

Lemma filter_sublist {A} (p : A -> bool) (l : list A) : sublist (List.filter p l) l.
Proof.
  induction l as [|x l IH]; simpl; [constructor|].
  destruct (p x); [apply sublist_skip|apply sublist_cons]; exact IH.
Qed.

End SourceFacts.

(** X5.  The discovered sources are the arguments whose extension is one
    of [.c], [.C], [.c++], [.cc], [.cpp], [.cxx], in their order and each
    as often as it is given; each of them ends with that extension.
    Headers and module files are never taken. *)
Theorem get_sources_from_args_exts (cc : CompilerCommand) :
  CompilerMatcher.get_sources_from_args cc
  = List.filter
      (fun a => bool_decide (snd (PosixPath.splitext a)
                               ∈ [".c"; ".C"; ".c++"; ".cc"; ".cpp"; ".cxx"]))
      (args cc)
  /\
  sublist (CompilerMatcher.get_sources_from_args cc) (args cc)
  /\
  (forall a,
     In a (CompilerMatcher.get_sources_from_args cc) <->
     In a (args cc) /\
     snd (PosixPath.splitext a) ∈ [".c"; ".C"; ".c++"; ".cc"; ".cpp"; ".cxx"])
  /\
  (forall a,
     In a (CompilerMatcher.get_sources_from_args cc) ->
     exists stem ext,
       a = stem +:+ ext /\ ext ∈ [".c"; ".C"; ".c++"; ".cc"; ".cpp"; ".cxx"]).
Proof.
  unfold CompilerMatcher.get_sources_from_args.
  assert (Hiff : forall a,
     In a (List.filter CompilerMatcher.is_source_arg (args cc)) <->
     In a (args cc) /\
     snd (PosixPath.splitext a) ∈ [".c"; ".C"; ".c++"; ".cc"; ".cpp"; ".cxx"]).
  { intros a. rewrite filter_In. unfold CompilerMatcher.is_source_arg.
    rewrite SourceFacts.source_ext_six, bool_decide_eq_true. reflexivity. }
  split.
  { apply filter_ext. intros a. unfold CompilerMatcher.is_source_arg.
    apply SourceFacts.source_ext_six. }
  split; [apply SourceFacts.filter_sublist|]. split; [exact Hiff|].
  intros a Ha. apply Hiff in Ha as [_ Hext].
  exists (fst (PosixPath.splitext a)), (snd (PosixPath.splitext a)).
  split; [symmetry; apply PathFacts.splitext_concat|exact Hext].
Qed.

(** A source given twice is discovered twice. *)
Example get_sources_from_args_repeated :
  CompilerMatcher.get_sources_from_args
    (mkCommand Examples.dir_b Examples.gcc_11_5 "/usr/bin/gcc"
               ["gcc"; "a.c"; "-I."; "a.c"; "a.h"; "b.cpp"])
  = ["a.c"; "a.c"; "b.cpp"].
Proof. vm_compute. reflexivity. Qed.
(** ** More on the preprocessor command *)

Module PreprocessorRun.
Import Language CompilerMatcher Spec Heap.

(** The loop over the ids of a compiler that is not lcc, gcc or clang
    does nothing. *)
Lemma rewrite_loop_unknown (h : heap) pargs o_idx file idx sources : forall l,
  (forall id, id ∈ l -> id ∉ known_preprocessors) ->
  rewrite_loop l pargs o_idx file idx sources h = (Ok false, h).
Proof.
  induction l as [|id l IH]; intros Hl; [reflexivity|].
  cbn [rewrite_loop]. rewrite bool_decide_eq_false_2.
  - apply IH. intros k Hk. apply Hl. apply list_elem_of_further, Hk.
  - apply Hl. apply list_elem_of_here.
Qed.

(** With [-E] among the arguments the loop raises before it reads the
    index of the source. *)
Lemma rewrite_loop_dash_E (h : heap) pargs ys o_idx file idx sources : forall l,
  h !! pargs = Some (OList ys) ->
  (exists id, id ∈ l /\ id ∈ known_preprocessors) ->
  "-E" ∈ ys ->
  rewrite_loop l pargs o_idx file idx sources h = (Raise ValueError, h).
Proof.
  induction l as [|id l IH]; intros Hp [k [Hin Hk]] HE.
  - inversion Hin.
  - cbn [rewrite_loop]. destruct (bool_decide (id ∈ known_preprocessors)) eqn:E.
    + unfold bind, read_list. rewrite Hp.
      rewrite bool_decide_eq_true_2 by exact HE. reflexivity.
    + apply IH; [exact Hp| |exact HE].
      exists k. split; [|exact Hk].
      apply elem_of_cons in Hin as [->|Hin]; [|exact Hin].
      apply bool_decide_eq_false in E. contradiction.
Qed.

(** The objects the call allocates before it enters the loop: the copy of
    the command at [l2], whose arguments are the list at [l3]. *)
Lemma make_preprocessor_command_run (h : heap) c w i e a xs file idx sources :
  h !! c = Some (OCommand w i e a) ->
  h !! a = Some (OList xs) ->
  exists l2 l3 h3,
    h !! l2 = None /\ h !! l3 = None /\ l2 <> l3 /\
    (forall l o, h !! l = Some o -> h3 !! l = Some o) /\
    h3 !! l2 = Some (OCommand w i e l3) /\
    h3 !! l3 = Some (OList (List.filter
                              (fun arg => negb (bool_decide (arg ∈ sources))) xs)) /\
    make_preprocessor_command c file idx sources h =
    bind (rewrite_loop (ids i) l3
            (list_index "-o" (List.filter
                                (fun arg => negb (bool_decide (arg ∈ sources))) xs))
            file idx sources)
         (fun known => if known then ret l2 else raise AssertionError)
         h3.
Proof.
  intros Hc Ha.
  set (kept := List.filter (fun arg => negb (bool_decide (arg ∈ sources))) xs).
  set (l1 := fresh (dom h)).
  set (h1 := <[l1 := OList xs]> h).
  set (l2 := fresh (dom h1)).
  set (h2 := <[l2 := OCommand w i e l1]> h1).
  set (l3 := fresh (dom h2)).
  set (h3 := <[l2 := OCommand w i e l3]> (<[l3 := OList kept]> h2)).
  assert (F1 : h !! l1 = None) by apply PreprocessorFacts.fresh_none.
  assert (F2 : h1 !! l2 = None) by apply PreprocessorFacts.fresh_none.
  assert (F3 : h2 !! l3 = None) by apply PreprocessorFacts.fresh_none.
  assert (N12 : l1 <> l2).
  { intros E. rewrite <- E in F2. unfold h1 in F2. rewrite lookup_insert_eq in F2.
    discriminate. }
  assert (N23 : l2 <> l3).
  { intros E. rewrite <- E in F3. unfold h2 in F3. rewrite lookup_insert_eq in F3.
    discriminate. }
  assert (N13 : l1 <> l3).
  { intros E. rewrite <- E in F3. unfold h2 in F3.
    rewrite lookup_insert_ne in F3 by auto. unfold h1 in F3.
    rewrite lookup_insert_eq in F3. discriminate. }
  assert (F2' : h !! l2 = None).
  { unfold h1 in F2. rewrite lookup_insert_ne in F2 by auto. exact F2. }
  assert (F3' : h !! l3 = None).
  { unfold h2, h1 in F3. rewrite !lookup_insert_ne in F3 by auto. exact F3. }
  assert (Hp : h3 !! l3 = Some (OList kept)).
  { unfold h3. rewrite lookup_insert_ne by auto. apply lookup_insert_eq. }
  exists l2, l3, h3.
  split; [exact F2'|]. split; [exact F3'|]. split; [exact N23|]. split.
  { intros l o Hl. unfold h3, h2, h1.
    rewrite !lookup_insert_ne by (intros <-; congruence). exact Hl. }
  split; [unfold h3; apply lookup_insert_eq|]. split; [exact Hp|].
  unfold make_preprocessor_command, deepcopy.
  unfold bind at 1 2. unfold read_command at 1. rewrite Hc.
  unfold bind at 1. unfold read_list at 1. rewrite Ha.
  unfold bind at 1. unfold alloc at 1. fold l1. fold h1.
  unfold alloc at 1. fold l2. fold h2.
  unfold bind at 1. unfold read_command at 1.
  unfold h2 at 1. rewrite lookup_insert_eq. fold h2.
  unfold bind at 1. unfold read_list at 1.
  replace (h2 !! l1) with (Some (OList xs))
    by (unfold h2, h1; rewrite lookup_insert_ne by auto;
        rewrite lookup_insert_eq; reflexivity).
  unfold bind at 1. unfold alloc at 1. fold l3. fold kept.
  unfold bind at 1. unfold set_args at 1.
  rewrite lookup_insert_ne by auto.
  unfold h2 at 1. rewrite lookup_insert_eq. fold h2. fold h3.
  unfold bind at 1. unfold read_list at 1. rewrite Hp.
  reflexivity.
Qed.

Lemma load_inv (h : heap) c cc :
  load h c = Some cc ->
  exists a, h !! c = Some (OCommand (cwd cc) (compiler cc) (executable cc) a) /\
            h !! a = Some (OList (args cc)).
Proof.
  unfold load. destruct (h !! c) as [[|w i e a]|] eqn:Hc; try discriminate.
  destruct (h !! a) as [[xs|]|] eqn:Ha; try discriminate.
  intros [= <-]. cbn. eauto.
Qed.

Lemma load_preserved (h h' : heap) c cc :
  (forall l o, h !! l = Some o -> h' !! l = Some o) ->
  load h c = Some cc -> load h' c = Some cc.
Proof.
  intros Hp Hl. destruct (load_inv _ _ _ Hl) as [a [Hc Ha]].
  unfold load. rewrite (Hp _ _ Hc), (Hp _ _ Ha). destruct cc; reflexivity.
Qed.

(** What is kept of the arguments holds no discovered source. *)
Lemma kept_no_source cc :
  Forall (fun x => is_source_arg x = false)
    (List.filter (fun arg => negb (bool_decide (arg ∈ get_sources_from_args cc)))
                 (args cc)).
Proof.
  apply Forall_forall. intros x Hx. apply list_elem_of_In, filter_In in Hx as [Hin Hq].
  apply negb_true_iff, bool_decide_eq_false in Hq.
  destruct (is_source_arg x) eqn:E; [|reflexivity]. exfalso. apply Hq.
  unfold get_sources_from_args. apply list_elem_of_In, filter_In. auto.
Qed.

Lemma filter_none {A} (p : A -> bool) l :
  Forall (fun x => p x = false) l -> List.filter p l = [].
Proof.
  induction 1 as [|x l Hx _ IH]; [reflexivity|]. cbn [List.filter]. rewrite Hx. exact IH.
Qed.

Lemma slice_assign_Forall (P : string -> Prop) l i j e :
  Forall P l -> Forall P e -> Forall P (slice_assign l i j e).
Proof.
  intros Hl He. unfold slice_assign. rewrite !Forall_app.
  split; [apply Forall_take, Hl|]. split; [exact He|apply Forall_drop, Hl].
Qed.

Lemma slice_assign_elem x l i j e : x ∈ e -> x ∈ slice_assign l i j e.
Proof. intros H. unfold slice_assign. rewrite !elem_of_app. auto. Qed.

Lemma dash_E_written kept path src : "-E" ∈ preprocessor_args kept path src.
Proof.
  rewrite <- PreprocessorFacts.rewritten_args. apply elem_of_app. left.
  destruct (list_index "-o" kept); apply slice_assign_elem, list_elem_of_here.
Qed.

(** The outcome of a call that succeeds. *)
Lemma make_preprocessor_command_ok (h : heap) c cc file idx src :
  load h c = Some cc ->
  (exists id, (id ∈ ids (compiler cc)) /\ (id ∈ known_preprocessors)) ->
  get_sources_from_args cc !! idx = Some src ->
  "-E" ∉ args cc ->
  exists c' h',
    make_preprocessor_command c file idx (get_sources_from_args cc) h = (Ok c', h') /\
    (forall l o, h !! l = Some o -> h' !! l = Some o) /\
    h !! c' = None /\
    load h' c' =
    Some (mkCommand (cwd cc) (compiler cc) (executable cc)
            (preprocessor_args
               (List.filter
                  (fun arg => negb (bool_decide (arg ∈ get_sources_from_args cc)))
                  (args cc))
               (PurePath.to_str file) src)).
Proof.
  intros Hload Hknown Hsrc HE.
  destruct (load_inv _ _ _ Hload) as [a [Hc Ha]].
  destruct (make_preprocessor_command_run h c _ _ _ a _ file idx
              (get_sources_from_args cc) Hc Ha)
    as [l2 [l3 [h3 [F2 [F3 [N23 [P3 [H2 [H3 Hrun]]]]]]]]].
  rewrite Hrun. unfold bind.
  rewrite (PreprocessorFacts.rewrite_loop_known h3 l3 _ _ file idx _ src
             (ids (compiler cc)) H3 Hknown Hsrc).
  rewrite bool_decide_eq_false_2.
  2: { intros H. apply HE. apply (PreprocessorFacts.dash_E_kept cc), H. }
  eexists l2, _. split; [reflexivity|]. split.
  { intros l o Hl. rewrite lookup_insert_ne by (intros <-; congruence).
    apply P3, Hl. }
  split; [exact F2|].
  unfold load. rewrite lookup_insert_ne by auto. rewrite H2.
  rewrite lookup_insert_eq. rewrite PreprocessorFacts.rewritten_args. reflexivity.
Qed.

End PreprocessorRun.

(** X6.  The command that [make_preprocessor_command] returns has exactly
    one discovered source, the selected one, when the path of the
    preprocessed file does not itself end like a source; it keeps the
    directory, the compiler and the executable of the command given. *)
Theorem preprocessor_command_single_source
        (h : gmap nat Heap.obj) (c : nat) (cc : CompilerCommand)
        (file : Path) (idx : nat) (src : string) :
  Heap.load h c = Some cc ->
  (exists id, (id ∈ ids (compiler cc)) /\ (id ∈ CompilerMatcher.known_preprocessors)) ->
  CompilerMatcher.get_sources_from_args cc !! idx = Some src ->
  "-E" ∉ args cc ->
  CompilerMatcher.is_source_arg (PurePath.to_str file) = false ->
  exists c' h' cc',
    CompilerMatcher.make_preprocessor_command
      c file idx (CompilerMatcher.get_sources_from_args cc) h = (Ok c', h') /\
    Heap.load h' c' = Some cc' /\
    CompilerMatcher.get_sources_from_args cc' = [src] /\
    cwd cc' = cwd cc /\ compiler cc' = compiler cc /\ executable cc' = executable cc.
Proof.
  intros Hload Hknown Hsrc HE Hfile.
  destruct (PreprocessorRun.make_preprocessor_command_ok h c cc file idx src
              Hload Hknown Hsrc HE) as [c' [h' [Hrun [_ [_ Hl]]]]].
  eexists c', h', _. split; [exact Hrun|]. split; [exact Hl|].
  split; [|auto].
  unfold CompilerMatcher.get_sources_from_args at 1. cbn [args].
  rewrite <- PreprocessorFacts.rewritten_args. rewrite List.filter_app.
  assert (Hs : CompilerMatcher.is_source_arg src = true).
  { apply list_elem_of_lookup_2, list_elem_of_In in Hsrc.
    unfold CompilerMatcher.get_sources_from_args in Hsrc.
    apply filter_In in Hsrc. tauto. }
  cbn [List.filter]. rewrite Hs.
  rewrite PreprocessorRun.filter_none; [reflexivity|].
  assert (He : Forall (fun x => CompilerMatcher.is_source_arg x = false)
                 ["-E"; "-o"; PurePath.to_str file]).
  { repeat constructor. exact Hfile. }
  destruct (CompilerMatcher.list_index "-o" _);
    apply PreprocessorRun.slice_assign_Forall;
    solve [apply PreprocessorRun.kept_no_source | exact He].
Qed.

Lemma preprocessor_command_single_source_witness :
  exists c' h' cc',
    CompilerMatcher.make_preprocessor_command
      1%nat (PurePath.of_str "/out/p.i") 0
      (CompilerMatcher.get_sources_from_args Examples.gcc_o2) Examples.store_o2
    = (Ok c', h') /\
    Heap.load h' c' = Some cc' /\
    CompilerMatcher.get_sources_from_args cc' = ["a.c"] /\
    cwd cc' = cwd Examples.gcc_o2 /\ compiler cc' = compiler Examples.gcc_o2 /\
    executable cc' = executable Examples.gcc_o2.
Proof.
  apply (preprocessor_command_single_source Examples.store_o2 1%nat Examples.gcc_o2
           (PurePath.of_str "/out/p.i") 0%nat "a.c").
  - vm_compute. reflexivity.
  - exists "gcc". split; [apply list_elem_of_here|].
    apply list_elem_of_further, list_elem_of_here.
  - reflexivity.
  - cbn. rewrite !elem_of_cons, elem_of_nil. intuition discriminate.
  - vm_compute. reflexivity.
Defined.

(** X7.  A command that [make_preprocessor_command] returned is not
    converted a second time: the call on it raises [ValueError], whatever
    the file and the index given. *)
Theorem preprocessor_command_not_repeated
        (h : gmap nat Heap.obj) (c : nat) (cc : CompilerCommand)
        (file : Path) (idx : nat) (src : string) :
  Heap.load h c = Some cc ->
  (exists id, (id ∈ ids (compiler cc)) /\ (id ∈ CompilerMatcher.known_preprocessors)) ->
  CompilerMatcher.get_sources_from_args cc !! idx = Some src ->
  "-E" ∉ args cc ->
  exists c' h' cc',
    CompilerMatcher.make_preprocessor_command
      c file idx (CompilerMatcher.get_sources_from_args cc) h = (Ok c', h') /\
    Heap.load h' c' = Some cc' /\
    forall file2 idx2, exists h'',
      CompilerMatcher.make_preprocessor_command
        c' file2 idx2 (CompilerMatcher.get_sources_from_args cc') h'
      = (Raise ValueError, h'').
Proof.
  intros Hload Hknown Hsrc HE.
  destruct (PreprocessorRun.make_preprocessor_command_ok h c cc file idx src
              Hload Hknown Hsrc HE) as [c' [h' [Hrun [_ [_ Hl]]]]].
  eexists c', h', _. split; [exact Hrun|]. split; [exact Hl|].
  intros file2 idx2.
  destruct (PreprocessorRun.load_inv _ _ _ Hl) as [a [Hc Ha]]. cbn in Hc, Ha.
  destruct (PreprocessorRun.make_preprocessor_command_run h' c' _ _ _ a _ file2 idx2
              (CompilerMatcher.get_sources_from_args
                 (mkCommand (cwd cc) (compiler cc) (executable cc)
                    (Spec.preprocessor_args
                       (List.filter
                          (fun arg => negb (bool_decide
                             (arg ∈ CompilerMatcher.get_sources_from_args cc)))
                          (args cc))
                       (PurePath.to_str file) src))) Hc Ha)
    as [l2 [l3 [h3 [_ [_ [_ [_ [_ [H3 Hrun2]]]]]]]]].
  rewrite Hrun2. unfold Heap.bind.
  rewrite (PreprocessorRun.rewrite_loop_dash_E h3 l3 _ _ file2 idx2 _
             (ids (compiler cc)) H3 Hknown).
  - eexists. reflexivity.
  - apply list_elem_of_In, filter_In. split.
    + apply list_elem_of_In, PreprocessorRun.dash_E_written.
    + apply negb_true_iff, bool_decide_eq_false.
      unfold CompilerMatcher.get_sources_from_args.
      rewrite list_elem_of_In, filter_In. intros [_ Hs]. vm_compute in Hs. discriminate.
Qed.

Lemma preprocessor_command_not_repeated_witness :
  exists c' h' cc',
    CompilerMatcher.make_preprocessor_command
      1%nat (PurePath.of_str "/out/p.i") 0
      (CompilerMatcher.get_sources_from_args Examples.gcc_o2) Examples.store_o2
    = (Ok c', h') /\
    Heap.load h' c' = Some cc' /\
    forall file2 idx2, exists h'',
      CompilerMatcher.make_preprocessor_command
        c' file2 idx2 (CompilerMatcher.get_sources_from_args cc') h'
      = (Raise ValueError, h'').
Proof.
  apply (preprocessor_command_not_repeated Examples.store_o2 1%nat Examples.gcc_o2
           (PurePath.of_str "/out/p.i") 0%nat "a.c").
  - vm_compute. reflexivity.
  - exists "gcc". split; [apply list_elem_of_here|].
    apply list_elem_of_further, list_elem_of_here.
  - reflexivity.
  - cbn. rewrite !elem_of_cons, elem_of_nil. intuition discriminate.
Defined.

(** X8.  For a compiler whose id and family are none of lcc, gcc and
    clang, [make_preprocessor_command] raises [AssertionError]; the objects
    of the store, the command given among them, are what they were. *)
Theorem make_preprocessor_command_unknown
        (h : gmap nat Heap.obj) (c : nat) (cc : CompilerCommand)
        (file : Path) (idx : nat) (sources : list string) :
  Heap.load h c = Some cc ->
  (forall id, id ∈ ids (compiler cc) -> id ∉ CompilerMatcher.known_preprocessors) ->
  exists h',
    CompilerMatcher.make_preprocessor_command c file idx sources h
    = (Raise AssertionError, h') /\
    (forall l o, h !! l = Some o -> h' !! l = Some o) /\
    Heap.load h' c = Some cc.
Proof.
  intros Hload Hunknown.
  destruct (PreprocessorRun.load_inv _ _ _ Hload) as [a [Hc Ha]].
  destruct (PreprocessorRun.make_preprocessor_command_run h c _ _ _ a _ file idx
              sources Hc Ha)
    as [l2 [l3 [h3 [_ [_ [_ [P3 [_ [_ Hrun]]]]]]]]].
  rewrite Hrun. unfold Heap.bind.
  rewrite PreprocessorRun.rewrite_loop_unknown by exact Hunknown.
  exists h3. split; [reflexivity|]. split; [exact P3|].
  exact (PreprocessorRun.load_preserved h h3 c cc P3 Hload).
Qed.

Lemma make_preprocessor_command_unknown_witness :
  exists h',
    CompilerMatcher.make_preprocessor_command
      1%nat (PurePath.of_str "/out/p.i") 0 ["a.c"] MoreExamples.store_tcc
    = (Raise AssertionError, h') /\
    (forall l o, MoreExamples.store_tcc !! l = Some o -> h' !! l = Some o) /\
    Heap.load h' 1%nat = Some MoreExamples.tcc_command.
Proof.
  apply (make_preprocessor_command_unknown MoreExamples.store_tcc 1%nat
           MoreExamples.tcc_command (PurePath.of_str "/out/p.i") 0%nat ["a.c"]).
  - vm_compute. reflexivity.
  - intros id Hid. cbn in Hid. apply list_elem_of_singleton in Hid as ->.
    unfold CompilerMatcher.known_preprocessors.
    rewrite !elem_of_cons, elem_of_nil. intuition discriminate.
Defined.
(** ** More on the parser *)

Module ParserMore.
Import StraceParser.

Section Lines.
Context `{R : PyRuntime}.

(** What one line does to the trace, with the record it stores. *)
Lemma parse_line_record proc line proc' :
  parse_line proc line = Ok proc' ->
  ProcTrace.pid proc' = ProcTrace.pid proc /\
  ((Re.match_ regex_line (PyStr.rstrip line) = None /\ proc' = proc)
   \/
   (exists t,
      ProcTrace.ts_start proc' =
        Some (match ProcTrace.ts_start proc with
              | None => float_of_str t
              | Some s => float_min s (float_of_str t)
              end) /\
      ProcTrace.ts_end proc' =
        Some (match ProcTrace.ts_end proc with
              | None => float_of_str t
              | Some e => float_max e (float_of_str t)
              end) /\
      (ProcTrace.syscall proc' = ProcTrace.syscall proc \/
       exists sc, ProcTrace.syscall proc' = ProcTrace.syscall proc ++ [sc] /\
                  SysCallEntity.ts sc = float_of_str t))).
Proof.
  unfold parse_line. cbv zeta.
  destruct (Re.match_ regex_line (PyStr.rstrip line)) as [m|] eqn:Hm.
  2: { intros [= <-]. split; [reflexivity|]. left. auto. }
  destruct (Re.group m "timestamp") as [t|]; [|discriminate].
  intros H.
  assert (Hgoal : ProcTrace.pid proc' = ProcTrace.pid proc /\
    (ProcTrace.ts_start proc' =
        Some (match ProcTrace.ts_start proc with
              | None => float_of_str t
              | Some s => float_min s (float_of_str t)
              end) /\
      ProcTrace.ts_end proc' =
        Some (match ProcTrace.ts_end proc with
              | None => float_of_str t
              | Some e => float_max e (float_of_str t)
              end) /\
      (ProcTrace.syscall proc' = ProcTrace.syscall proc \/
       exists sc, ProcTrace.syscall proc' = ProcTrace.syscall proc ++ [sc] /\
                  SysCallEntity.ts sc = float_of_str t))).
  2: { split; [tauto|]. right. exists t. tauto. }
  destruct (Re.group m "killedby").
  { injection H as <-. cbn. auto. }
  destruct (Re.group m "exitcode").
  { destruct (PyStr.int s) as [code|]; [|discriminate]. cbn in H.
    injection H as <-. cbn. auto. }
  destruct (Re.group m "syscall") as [v_syscall|].
  2: { injection H as <-. cbn. auto. }
  destruct (int_of (Re.group m "returnvalue")) as [rv|]; [|discriminate].
  cbn [mbind result_bind] in H.
  destruct (decode_xstr (Re.group m "returnfile")) as [rf|]; [|discriminate].
  cbn [mbind result_bind] in H.
  destruct (match Re.group m "args" with
            | Some v_args => parse_args v_syscall (PyStr.strip v_args)
            | None => Ok (None, [])
            end) as [[raw args]|]; [|discriminate].
  cbn [mbind result_bind] in H.
  destruct (SysCallFilter.allow _).
  - injection H as <-. cbn. split; [reflexivity|]. split; [reflexivity|].
    split; [reflexivity|]. right. eexists. split; reflexivity.
  - injection H as <-. cbn. auto.
Qed.

Lemma parse_lines_app fd1 : forall proc fd2,
  parse_lines proc (fd1 ++ fd2) = (p ← parse_lines proc fd1; parse_lines p fd2).
Proof.
  induction fd1 as [|l fd1 IH]; intros proc fd2; [reflexivity|].
  cbn [app parse_lines]. destruct (parse_line proc l); [|reflexivity].
  cbn [mbind result_bind]. apply IH.
Qed.

Lemma parse_lines_pid fd : forall proc proc',
  parse_lines proc fd = Ok proc' -> ProcTrace.pid proc' = ProcTrace.pid proc.
Proof.
  induction fd as [|l fd IH]; intros proc proc' H; cbn [parse_lines] in H.
  - injection H as <-. reflexivity.
  - destruct (parse_line proc l) as [p|] eqn:E; [|discriminate].
    cbn [mbind result_bind] in H. rewrite (IH _ _ H).
    apply (parse_line_record _ _ _ E).
Qed.

Lemma parse_fd_pid pid fd proc :
  parse_fd pid fd = Ok proc -> ProcTrace.pid proc = pid.
Proof.
  unfold parse_fd. intros H.
  destruct (parse_lines _ fd) as [p|] eqn:E; [|discriminate].
  injection H as <-. cbn. apply (parse_lines_pid _ _ _ E).
Qed.

Context {L : PyRuntimeLaws R}.

(** A bound that moves outwards is still a bound. *)
Lemma within_min s v x :
  float_lt x s = false -> float_lt x (float_min s v) = false.
Proof.
  intros Hx. unfold float_min. destruct (float_lt v s) eqn:E; [|exact Hx].
  apply (float_le_trans v s x); [|exact Hx].
  apply (lt_asym float_lt float_lt_irrefl float_lt_trans), E.
Qed.

Lemma within_max e v x :
  float_lt e x = false -> float_lt (float_max e v) x = false.
Proof.
  intros Hx. unfold float_max. destruct (float_lt e v) eqn:E; [|exact Hx].
  apply (float_le_trans x e v); [exact Hx|].
  apply (lt_asym float_lt float_lt_irrefl float_lt_trans), E.
Qed.

Lemma new_min s v : float_lt v (float_min s v) = false.
Proof.
  unfold float_min. destruct (float_lt v s) eqn:E; [apply float_lt_irrefl|exact E].
Qed.

Lemma new_max e v : float_lt (float_max e v) v = false.
Proof.
  unfold float_max. destruct (float_lt e v) eqn:E; [apply float_lt_irrefl|exact E].
Qed.

Lemma parse_line_within proc line proc' :
  parse_line proc line = Ok proc' ->
  Forall (TraceInv.within proc) (ProcTrace.syscall proc) ->
  Forall (TraceInv.within proc') (ProcTrace.syscall proc').
Proof.
  intros H Hall.
  destruct (parse_line_record _ _ _ H) as [_ [[_ ->]|[t [Hs [He Hsc]]]]];
    [exact Hall|].
  assert (Hold : Forall (TraceInv.within proc') (ProcTrace.syscall proc)).
  { eapply Forall_impl; [exact Hall|]. intros sc [s [e [Es [Ee [H1 H2]]]]].
    unfold TraceInv.within. rewrite Hs, He, Es, Ee.
    do 2 eexists. split; [reflexivity|]. split; [reflexivity|].
    split; [apply within_min, H1|apply within_max, H2]. }
  destruct Hsc as [->|[sc [-> Hts]]]; [exact Hold|].
  apply Forall_app. split; [exact Hold|]. constructor; [|constructor].
  unfold TraceInv.within. rewrite Hs, He, Hts.
  do 2 eexists. split; [reflexivity|]. split; [reflexivity|].
  destruct (ProcTrace.ts_start proc), (ProcTrace.ts_end proc);
    split; first [apply new_min | apply new_max | apply float_lt_irrefl].
Qed.

Lemma parse_lines_within fd : forall proc proc',
  parse_lines proc fd = Ok proc' ->
  Forall (TraceInv.within proc) (ProcTrace.syscall proc) ->
  Forall (TraceInv.within proc') (ProcTrace.syscall proc').
Proof.
  induction fd as [|l fd IH]; intros proc proc' H Hall; cbn [parse_lines] in H.
  - injection H as <-. exact Hall.
  - destruct (parse_line proc l) as [p|] eqn:E; [|discriminate].
    cbn [mbind result_bind] in H.
    exact (IH _ _ H (parse_line_within _ _ _ E Hall)).
Qed.

End Lines.
End ParserMore.

(** X9.  A line that does not match the grammar of trace lines has no
    effect on the result of the parser, wherever it stands in the file. *)
Theorem parse_fd_skips_unmatched `{R : PyRuntime}
        (pid : Z) (fd1 fd2 : list string) (line : string) :
  Re.match_ StraceParser.regex_line (PyStr.rstrip line) = None ->
  StraceParser.parse_fd pid (fd1 ++ line :: fd2) = StraceParser.parse_fd pid (fd1 ++ fd2).
Proof.
  intros Hm. unfold StraceParser.parse_fd.
  rewrite !ParserMore.parse_lines_app.
  destruct (StraceParser.parse_lines _ fd1) as [p|]; [|reflexivity].
  cbn [mbind result_bind StraceParser.parse_lines].
  unfold StraceParser.parse_line at 1. cbv zeta. rewrite Hm. reflexivity.
Qed.

Lemma parse_fd_skips_unmatched_witness :
  @StraceParser.parse_fd ExactRuntime.runtime 100
    (["1700000000.250000000 fork() = 102"]
       ++ "not a trace line" :: ["1700000001.000000000 +++ exited with 0 +++"])
  = @StraceParser.parse_fd ExactRuntime.runtime 100
      (["1700000000.250000000 fork() = 102"]
         ++ ["1700000001.000000000 +++ exited with 0 +++"]).
Proof.
  apply (@parse_fd_skips_unmatched ExactRuntime.runtime 100
           ["1700000000.250000000 fork() = 102"]
           ["1700000001.000000000 +++ exited with 0 +++"] "not a trace line").
  vm_compute. reflexivity.
Defined.

(** X10.  In every trace the parser returns, the timestamp of each stored
    record lies between the start and the end timestamp of the trace. *)
Theorem parse_fd_records_within `{R : PyRuntime} {L : PyRuntimeLaws R}
        (pid : Z) (fd : list string) (proc : ProcTrace.t) :
  StraceParser.parse_fd pid fd = Ok proc ->
  Forall (TraceInv.within proc) (ProcTrace.syscall proc).
Proof.
  unfold StraceParser.parse_fd. intros H.
  destruct (StraceParser.parse_lines _ fd) as [p|] eqn:E; [|discriminate].
  injection H as <-. cbn [ProcTrace.syscall].
  apply list_sort_Forall.
  eapply Forall_impl.
  - apply (ParserMore.parse_lines_within fd _ _ E). constructor.
  - intros sc Hsc. exact Hsc.
Qed.

Lemma parse_fd_records_within_witness :
  Forall (TraceInv.within Examples.parsed_trace)
         (ProcTrace.syscall Examples.parsed_trace).
Proof.
  apply (@parse_fd_records_within ExactRuntime.runtime ExactRuntimeFacts.laws
           100 Examples.trace_lines Examples.parsed_trace).
  vm_cast_no_check (eq_refl (Ok Examples.parsed_trace)).
Defined.
(** ** The records the parser stores *)

Module ShapeFacts.
Import Re ReSem ReFacts StraceParser.

Lemma dict_get_app {V} n (g1 g2 : list (string * V)) :
  dict_get n (g1 ++ g2)
  = match dict_get n g1 with Some x => Some x | None => dict_get n g2 end.
Proof.
  induction g1 as [|[m y] g1 IH]; cbn; [reflexivity|].
  destruct (decide (n = m)); [reflexivity|exact IH].
Qed.

(** A group that every match of the pattern binds. *)
Lemma group_present r raw am n :
  match_ r raw = Some am -> always_binds n r = true -> exists x, group am n = Some x.
Proof.
  intros H Hb. apply match_sound in H as [v [rest [_ M]]].
  exact (matches_always_binds n _ _ _ _ M Hb).
Qed.

Lemma matches_lits names v rest gs :
  matches (alt (lit <$> names)) v rest gs -> v ∈ names.
Proof.
  intros M. apply matches_alt_list in M as [r [Hin M]].
  apply list_elem_of_In, list_elem_of_fmap in Hin as [nm [-> Hnm]].
  apply matches_lit in M as [-> _]. exact Hnm.
Qed.

(** *** The groups of a trace line *)

Lemma line_groups line m v :
  match_ regex_line line = Some m ->
  group m "killedby" = None -> group m "exitcode" = None ->
  group m "syscall" = Some v ->
  (v ∈ syscall_names) /\ exists a, group m "args" = Some a.
Proof.
  intros H Hk He Hs. apply match_sound in H as [v0 [rest [_ M]]].
  unfold regex_line in M. cbn [seq alt] in M.
  apply matches_seq in M as [v1 [v2 [g1 [g2 [-> [-> [M1 M]]]]]]].
  apply matches_seq in M as [v3 [v4 [g3 [g4 [-> [-> [M3 M]]]]]]].
  apply matches_seq in M as [v5 [v6 [g5 [g6 [-> [-> [M5 M6]]]]]]].
  apply matches_eol in M6 as [-> [-> _]].
  inversion M3; subst. cbn [app] in *. rewrite app_nil_r in *.
  unfold group in *. rewrite dict_get_app in Hk, He, Hs |- *.
  rewrite (matches_unbound "killedby" _ _ _ _ M1 eq_refl) in Hk.
  rewrite (matches_unbound "exitcode" _ _ _ _ M1 eq_refl) in He.
  rewrite (matches_unbound "syscall" _ _ _ _ M1 eq_refl) in Hs.
  inversion M5 as [| | |r1 r2 x1 x2 x3 MA|r1 r2 x1 x2 x3 MBC| | | |]; subst.
  { destruct (matches_always_binds "killedby" _ _ _ _ MA eq_refl) as [x Hx].
    rewrite Hx in Hk. discriminate. }
  inversion MBC as [| | |r1 r2 x1 x2 x3 MB|r1 r2 x1 x2 x3 MC| | | |]; subst.
  { destruct (matches_always_binds "exitcode" _ _ _ _ MB eq_refl) as [x Hx].
    rewrite Hx in He. discriminate. }
  destruct (matches_always_binds "args" _ _ _ _ MC eq_refl) as [a Ha].
  split; [|exists a; rewrite Ha; reflexivity].
  destruct (dict_get "syscall" g5) as [w|] eqn:Hw; [|discriminate].
  injection Hs as ->. apply dict_get_In in Hw.
  destruct (matches_group_body _ _ _ _ _ _ MC Hw) as [r1 [rest1 [gs1 [Hin M0]]]].
  match type of MC with
  | matches ?C _ _ _ =>
      assert (Hg : group_bodies "syscall" C = [alt (lit <$> syscall_names)])
        by reflexivity
  end.
  rewrite Hg in Hin. destruct Hin as [<-|[]].
  exact (matches_lits _ _ _ _ M0).
Qed.

(** *** The arguments *)

Section Args.
Context `{R : PyRuntime}.

Lemma decode_xstr_some x o :
  decode_xstr (Some x) = Ok o -> exists s, o = Some s.
Proof.
  cbn [decode_xstr]. destruct (unicode_escape_decode x); cbn; [|discriminate].
  intros [= <-]. eauto.
Qed.

Lemma decode_xstr_opt g o :
  decode_xstr g = Ok o -> exists d, of_opt_str o = of_opt_str d.
Proof. eauto. Qed.

Lemma result_mapM_nonempty {A B} (f : A -> result B) l r :
  l <> [] -> result_mapM f l = Ok r -> r <> [].
Proof.
  destruct l as [|x l]; [congruence|]. intros _. cbn [result_mapM].
  destruct (f x); cbn; [|discriminate].
  destruct (result_mapM f l); cbn; [|discriminate]. intros [= <-]. discriminate.
Qed.

Lemma decode_argv_env_some x o :
  decode_argv_env (Some x) = Ok o -> exists l, o = Some l /\ l <> [].
Proof.
  cbn [decode_argv_env].
  destruct (result_mapM _ (PyStr.split "," x)) as [l|] eqn:E; cbn; [|discriminate].
  intros [= <-]. exists l. split; [reflexivity|].
  apply (result_mapM_nonempty _ _ _ (VersionFacts.split_nonempty "," x) E).
Qed.

(** Reduces the tests on the name of the system call. *)
Ltac eval_name H :=
  unfold parse_args in H;
  repeat match type of H with
         | context [String.eqb ?a ?b] =>
             let v := eval vm_compute in (String.eqb a b) in
             change (String.eqb a b) with v in H
         end;
  cbv beta iota zeta in H.

(** Reads a group that every match binds. *)
Ltac read_group H Em n :=
  let x := fresh "x" in
  let Hx := fresh "Hx" in
  destruct (group_present _ _ _ n Em eq_refl) as [x Hx];
  rewrite Hx in H; cbn [mbind result_bind] in H.

Ltac decode H :=
  match type of H with
  | context [decode_xstr (Some ?x)] =>
      let o := fresh "o" in
      let E := fresh "E" in
      destruct (decode_xstr (Some x)) as [o|] eqn:E; [|discriminate H];
      apply decode_xstr_some in E as [? ->]; cbn [mbind result_bind] in H
  end.

Lemma parse_args_shape name raw raw' args :
  name ∈ syscall_names ->
  parse_args name raw = Ok (raw', args) ->
  TraceInv.shaped name args.
Proof.
  intros Hn H. unfold syscall_names in Hn. rewrite !elem_of_cons, elem_of_nil in Hn.
  unfold TraceInv.shaped, CompilerExtractor.fork_syscall_set.
  destruct Hn as [->|[->|[->|[->|[->|[->|[->|[->|[->|[->|[->|[->|[]]]]]]]]]]]]];
    eval_name H.
  - (* chdir *)
    destruct (match_ regex_syscall_chdir_args raw) as [am|] eqn:Em;
      cbn [group_of mbind result_bind] in H; [|discriminate].
    read_group H Em "path". decode H. injection H as <- <-.
    right. left. eauto.
  - left. rewrite !elem_of_cons. auto.
  - left. rewrite !elem_of_cons. auto.
  - left. rewrite !elem_of_cons. auto.
  - left. rewrite !elem_of_cons. auto 6.
  - left. rewrite !elem_of_cons. auto 6.
  - (* execve *)
    destruct (match_ regex_syscall_execve_args raw) as [am|] eqn:Em;
      cbn [group_of mbind result_bind] in H; [|discriminate].
    read_group H Em "path". decode H.
    read_group H Em "argv".
    match type of H with
    | context [decode_argv_env (Some ?x)] =>
        destruct (decode_argv_env (Some x)) as [o|] eqn:E; [|discriminate H];
        apply decode_argv_env_some in E as [argv [-> Hargv]];
        cbn [mbind result_bind] in H
    end.
    destruct (decode_argv_env (group am "env")) as [env|]; [|discriminate].
    cbn [mbind result_bind] in H. injection H as <- <-.
    do 3 right. left. split; [reflexivity|]. eauto.
  - discriminate.
  - (* fchdir *)
    destruct (match_ regex_syscall_fchdir_args raw) as [am|] eqn:Em;
      cbn [group_of mbind result_bind] in H; [|discriminate].
    read_group H Em "fd". cbn [int_of] in H.
    destruct (PyStr.int _) as [fd|]; [|discriminate]. cbn [mbind result_bind] in H.
    read_group H Em "path". decode H. injection H as <- <-.
    do 2 right. left. eauto.
  - (* open *)
    destruct (match_ regex_syscall_open_args raw) as [am|] eqn:Em;
      cbn [group_of mbind result_bind] in H; [|discriminate].
    read_group H Em "path". decode H.
    read_group H Em "oflag". injection H as <- <-.
    do 4 right. left. split; [reflexivity|]. cbn [of_opt_str app]. eauto.
  - (* openat *)
    destruct (match_ regex_syscall_openat_args raw) as [am|] eqn:Em;
      cbn [group_of mbind result_bind] in H; [|discriminate].
    read_group H Em "cwdfd".
    destruct (decode_xstr (group am "cwd")) as [dir|]; [|discriminate].
    cbn [mbind result_bind] in H.
    read_group H Em "path". decode H.
    read_group H Em "oflag". injection H as <- <-.
    do 5 right. left. split; [reflexivity|]. cbn [of_opt_str app]. eauto 6.
  - (* openat2 *)
    destruct (match_ regex_syscall_openat2_args raw) as [am|] eqn:Em;
      cbn [group_of mbind result_bind] in H; [|discriminate].
    read_group H Em "cwdfd".
    destruct (decode_xstr (group am "cwd")) as [dir|]; [|discriminate].
    cbn [mbind result_bind] in H.
    read_group H Em "path". decode H.
    read_group H Em "how". read_group H Em "size".
    destruct (how_dict _ _) as [how|]; [|discriminate].
    cbn [mbind result_bind] in H. injection H as <- <-.
    do 6 right. split; [reflexivity|]. cbn [of_opt_str]. eauto 6.
Qed.

(** *** The records of a trace *)

Lemma parse_line_readable proc line proc' :
  parse_line proc line = Ok proc' ->
  Forall TraceInv.readable (ProcTrace.syscall proc) ->
  Forall TraceInv.readable (ProcTrace.syscall proc').
Proof.
  unfold parse_line. cbv zeta. intros H Hp.
  destruct (match_ regex_line (PyStr.rstrip line)) as [m|] eqn:Hm.
  2: { injection H as <-. exact Hp. }
  destruct (group m "timestamp") as [t|]; [|discriminate].
  destruct (group m "killedby") eqn:Hk.
  { injection H as <-. exact Hp. }
  destruct (group m "exitcode") eqn:He.
  { destruct (PyStr.int s) as [code|]; [|discriminate]. cbn in H.
    injection H as <-. exact Hp. }
  destruct (group m "syscall") as [v_syscall|] eqn:Hs.
  2: { injection H as <-. exact Hp. }
  destruct (line_groups _ _ _ Hm Hk He Hs) as [Hn [a Ha]].
  rewrite Ha in H.
  destruct (int_of (group m "returnvalue")) as [rv|]; [|discriminate].
  cbn [mbind result_bind] in H.
  destruct (decode_xstr (group m "returnfile")) as [rf|]; [|discriminate].
  cbn [mbind result_bind] in H.
  destruct (parse_args v_syscall (PyStr.strip a)) as [[raw args]|] eqn:Hargs;
    [|discriminate].
  cbn [mbind result_bind] in H.
  destruct (SysCallFilter.allow _).
  - injection H as <-. cbn [ProcTrace.syscall]. apply Forall_app. split; [exact Hp|].
    constructor; [|constructor]. unfold TraceInv.readable. cbn.
    exact (parse_args_shape _ _ _ _ Hn Hargs).
  - injection H as <-. exact Hp.
Qed.

Lemma parse_lines_readable fd : forall proc proc',
  parse_lines proc fd = Ok proc' ->
  Forall TraceInv.readable (ProcTrace.syscall proc) ->
  Forall TraceInv.readable (ProcTrace.syscall proc').
Proof.
  induction fd as [|l fd IH]; intros proc proc' H Hp.
  - injection H as <-. exact Hp.
  - cbn [parse_lines] in H. destruct (parse_line proc l) as [p|] eqn:E; [|discriminate].
    cbn [mbind result_bind] in H.
    exact (IH _ _ H (parse_line_readable _ _ _ E Hp)).
Qed.

End Args.
End ShapeFacts.

(** X11.  Every record of a trace the parser returns has the shape of its
    system call: the fork family apart, [chdir] carries one path, [fchdir]
    a pair of a descriptor and a path, [execve] a path, a list of at least
    one argument and the environment, [open], [openat] and [openat2] a path
    (after the pair of the descriptor and its directory) and what follows. *)
Theorem parse_fd_records_readable `{R : PyRuntime}
        (pid : Z) (fd : list string) (proc : ProcTrace.t) :
  StraceParser.parse_fd pid fd = Ok proc ->
  Forall TraceInv.readable (ProcTrace.syscall proc).
Proof.
  unfold StraceParser.parse_fd. intros H.
  destruct (StraceParser.parse_lines _ fd) as [p|] eqn:E; [|discriminate].
  injection H as <-. cbn [ProcTrace.syscall].
  apply list_sort_Forall.
  apply (ShapeFacts.parse_lines_readable fd _ _ E). constructor.
Qed.

Lemma parse_fd_records_readable_witness :
  Forall TraceInv.readable (ProcTrace.syscall Examples.parsed_trace).
Proof.
  apply (@parse_fd_records_readable ExactRuntime.runtime
           100 Examples.trace_lines Examples.parsed_trace).
  vm_cast_no_check (eq_refl (Ok Examples.parsed_trace)).
Defined.
(** ** More on the trace store *)

Module StoreMore.
Import StraceData Shape StrFacts.

Lemma split1_none sep s : occurs sep s = false -> PyStr.split1 sep s = [s].
Proof.
  induction s as [|c s IH]; simpl; [reflexivity|].
  destruct (Ascii.eqb c sep); simpl; [discriminate|].
  intros H. rewrite (IH H). reflexivity.
Qed.

Lemma split1_first sep stem rest :
  occurs sep stem = false ->
  PyStr.split1 sep (stem +:+ String sep rest) = [stem; rest].
Proof.
  induction stem as [|c stem IH].
  - intros _. change ("" +:+ String sep rest) with (String sep rest).
    simpl. rewrite Ascii.eqb_refl. reflexivity.
  - rewrite append_cons. simpl.
    destruct (Ascii.eqb c sep); simpl; [discriminate|].
    intros H. rewrite (IH H). reflexivity.
Qed.

(** A string without [c], or its part before the first [c] and the rest. *)
Lemma first_occurrence c s :
  occurs c s = false \/
  exists stem rest, s = stem +:+ String c rest /\ occurs c stem = false.
Proof.
  induction s as [|d s IH]; [left; reflexivity|].
  destruct (Ascii.eqb_spec d c) as [->|Hne].
  - right. exists "", s. split; reflexivity.
  - destruct IH as [Hno|[stem [rest [-> Hstem]]]].
    + left. simpl. rewrite Hno.
      destruct (Ascii.eqb_spec d c); [contradiction|reflexivity].
    + right. exists (String d stem), rest. split; [reflexivity|].
      simpl. rewrite Hstem.
      destruct (Ascii.eqb_spec d c); [contradiction|reflexivity].
Qed.

(** *** Dicts *)

Lemma dict_get_set_eq {K V} `{EqDecision K} (k : K) (v : V) (d : list (K * V)) :
  dict_get k (dict_set k v d) = Some v.
Proof.
  induction d as [|[k0 v0] d IH]; simpl.
  - rewrite decide_True by reflexivity. reflexivity.
  - destruct (decide (k = k0)) as [->|Hne]; simpl.
    + rewrite decide_True by reflexivity. reflexivity.
    + rewrite decide_False by exact Hne. exact IH.
Qed.

Lemma dict_get_set_ne {K V} `{EqDecision K} (k k' : K) (v : V) (d : list (K * V)) :
  k' <> k -> dict_get k' (dict_set k v d) = dict_get k' d.
Proof.
  intros Hne. induction d as [|[k0 v0] d IH]; simpl.
  - rewrite decide_False by exact Hne. reflexivity.
  - destruct (decide (k = k0)) as [->|Hne0]; simpl.
    + rewrite !decide_False by exact Hne. reflexivity.
    + destruct (decide (k' = k0)); [reflexivity|exact IH].
Qed.

Section Store.
Context `{R : PyRuntime}.

Lemma do_file_pid f tr :
  do_file f = Ok tr -> pid_from_path (file_name f) = Ok (ProcTrace.pid tr).
Proof.
  unfold do_file. destruct (pid_from_path (file_name f)) as [pid|]; [|discriminate].
  cbn [mbind result_bind]. intros H. rewrite (ParserMore.parse_fd_pid _ _ _ H).
  reflexivity.
Qed.

(** The trace stored under a PID is that of the last file with this PID. *)
Lemma load_get files : forall m m',
  load files m = Ok m' ->
  forall pid tr,
    dict_get pid m' = Some tr <->
    (exists fs1 f fs2,
       files = fs1 ++ f :: fs2 /\ do_file f = Ok tr /\ ProcTrace.pid tr = pid /\
       forall g tr', In g fs2 -> do_file g = Ok tr' -> ProcTrace.pid tr' <> pid)
    \/
    (dict_get pid m = Some tr /\
     forall g tr', In g files -> do_file g = Ok tr' -> ProcTrace.pid tr' <> pid).
Proof.
  induction files as [|f0 rest IH]; intros m m' H pid tr; cbn [load] in H.
  - injection H as <-. split.
    + intros Hg. right. split; [exact Hg|]. intros g tr' [].
    + intros [[fs1 [f [fs2 [Hf _]]]]|[Hg _]]; [|exact Hg].
      destruct fs1; discriminate.
  - destruct (do_file f0) as [t0|] eqn:E0; [|discriminate].
    cbn [mbind result_bind] in H. rewrite (IH _ _ H pid tr). clear IH H. split.
    + intros [[fs1 [f [fs2 [-> [Hf [Hp Hlater]]]]]]|[Hg Hnone]].
      * left. exists (f0 :: fs1), f, fs2. auto.
      * destruct (decide (pid = ProcTrace.pid t0)) as [->|Hne].
        -- rewrite dict_get_set_eq in Hg. injection Hg as <-.
           left. exists [], f0, rest. auto.
        -- rewrite dict_get_set_ne in Hg by exact Hne.
           right. split; [exact Hg|].
           intros g tr' [<-|Hin] Hd; [|exact (Hnone g tr' Hin Hd)].
           rewrite E0 in Hd. injection Hd as <-. congruence.
    + intros [[fs1 [f [fs2 [Hfiles [Hf [Hp Hlater]]]]]]|[Hg Hnone]].
      * destruct fs1 as [|f1 fs1]; cbn [app] in Hfiles; injection Hfiles as <- ->.
        -- right. rewrite E0 in Hf. injection Hf as <-. subst pid.
           rewrite dict_get_set_eq. auto.
        -- left. exists fs1, f, fs2. auto.
      * right. assert (Hne : pid <> ProcTrace.pid t0).
        { intros ->. apply (Hnone f0 t0); [left; reflexivity|exact E0|reflexivity]. }
        rewrite dict_get_set_ne by exact Hne. split; [exact Hg|].
        intros g tr' Hin. apply Hnone. right. exact Hin.
Qed.

Lemma load_all_parsed files : forall m m',
  load files m = Ok m' -> forall f, In f files -> exists tr, do_file f = Ok tr.
Proof.
  induction files as [|f0 rest IH]; intros m m' H f Hin; [destruct Hin|].
  cbn [load] in H. destruct (do_file f0) as [t0|] eqn:E0; [|discriminate].
  cbn [mbind result_bind] in H. destruct Hin as [<-|Hin]; [eauto|].
  exact (IH _ _ H f Hin).
Qed.

End Store.
End StoreMore.

(** X12.  The PID of a trace file is read from what follows the first dot
    of the file name: a name without a dot raises [IndexError], and any
    other name gives what [int] makes of the part after its first dot. *)
Theorem pid_from_path_first_dot (name : string) :
  (Shape.occurs "." name = false /\
   StraceData.pid_from_path name = Raise IndexError)
  \/
  (exists stem rest,
     name = stem +:+ String "." rest /\ Shape.occurs "." stem = false /\
     StraceData.pid_from_path name = PyStr.int rest).
Proof.
  unfold StraceData.pid_from_path.
  destruct (StoreMore.first_occurrence "." name) as [Hno|[stem [rest [-> Hstem]]]].
  - left. split; [exact Hno|]. rewrite StoreMore.split1_none by exact Hno. reflexivity.
  - right. exists stem, rest. split; [reflexivity|]. split; [exact Hstem|].
    rewrite StoreMore.split1_first by exact Hstem. reflexivity.
Qed.

(** X13.  In the store built from a list of trace files every file was
    parsed, no PID is stored twice, and the trace stored under a PID is the
    one parsed from the last file of the list that carries this PID. *)
Theorem store_last_file_wins `{R : PyRuntime}
        (root_cwd : Path) (files : list StraceData.TraceFile) (store : StraceData.t) :
  StraceData.run root_cwd files = Ok store ->
  files <> [] /\
  StraceData.root_cwd store = root_cwd /\
  NoDup (fst <$> StraceData.proc_map store) /\
  (forall f, In f files -> exists tr, StraceData.do_file f = Ok tr) /\
  (forall pid tr,
     dict_get pid (StraceData.proc_map store) = Some tr <->
     exists fs1 f fs2,
       files = fs1 ++ f :: fs2 /\ StraceData.do_file f = Ok tr /\
       ProcTrace.pid tr = pid /\
       forall g tr', In g fs2 -> StraceData.do_file g = Ok tr' ->
                     ProcTrace.pid tr' <> pid).
Proof.
  unfold StraceData.run. intros H.
  destruct (StraceData.load files []) as [m|] eqn:Hload; [|discriminate].
  cbn [mbind result_bind] in H.
  destruct (length m =? 0)%nat eqn:Hlen; [discriminate|].
  destruct (StraceData.select_root m) as [rootp|]; [|discriminate].
  cbn [mbind result_bind] in H. injection H as <-.
  cbn [StraceData.proc_map StraceData.root_cwd].
  split.
  { intros ->. cbn in Hload. injection Hload as <-. discriminate. }
  split; [reflexivity|]. split.
  { apply (StoreFacts.load_keyed files [] m Hload). split; constructor. }
  split; [exact (StoreMore.load_all_parsed files [] m Hload)|].
  intros pid tr. rewrite (StoreMore.load_get files [] m Hload pid tr).
  split; [|auto]. intros [Hl|[Hg _]]; [exact Hl|discriminate].
Qed.

Lemma store_last_file_wins_witness :
  Examples.tie_files <> [] /\
  StraceData.root_cwd Examples.tie_store = Examples.dir_b /\
  NoDup (fst <$> StraceData.proc_map Examples.tie_store) /\
  (forall f, In f Examples.tie_files ->
     exists tr, @StraceData.do_file ExactRuntime.runtime f = Ok tr) /\
  (forall pid tr,
     dict_get pid (StraceData.proc_map Examples.tie_store) = Some tr <->
     exists fs1 f fs2,
       Examples.tie_files = fs1 ++ f :: fs2 /\
       @StraceData.do_file ExactRuntime.runtime f = Ok tr /\
       ProcTrace.pid tr = pid /\
       forall g tr', In g fs2 -> @StraceData.do_file ExactRuntime.runtime g = Ok tr' ->
                     ProcTrace.pid tr' <> pid).
Proof.
  apply (@store_last_file_wins ExactRuntime.runtime Examples.dir_b Examples.tie_files
           Examples.tie_store).
  vm_cast_no_check (eq_refl (Ok Examples.tie_store)).
Defined.
(** ** More on the process walker *)

Module WalkerMore.
Import CompilerExtractor.

Lemma as_str_list_inv v l :
  as_str_list v = Ok l -> v = PyList (PyStr <$> l).
Proof.
  destruct v as [| | |vs| |]; try discriminate. cbn [as_str_list].
  revert l. induction vs as [|x vs IH]; intros l; cbn [result_mapM].
  - intros [= <-]. reflexivity.
  - destruct x; try discriminate. cbn [as_str mbind result_bind].
    destruct (result_mapM as_str vs) as [ys|]; [|discriminate].
    cbn [mbind result_bind]. intros [= <-].
    specialize (IH ys eq_refl). injection IH as ->. reflexivity.
Qed.

Section Walk.
Context `{R : PyRuntime}.
Variable compiler_match : string -> list string -> result (option CompilerId).
Variable proc_map : list (Z * ProcTrace.t).

Abbreviation walker :=
  (Z -> Path -> bool -> list CompilerCall.t ->
   result (list (Path * list pyval) * list CompilerCall.t)).

(** Opens the cases of one step of the loop. *)
Ltac step_cases H :=
  unfold walk_step in H; cbv zeta in H;
  unfold mbind, result_bind, fmap, result_fmap, or_raise in H;
  repeat case_match; try discriminate;
  injection H as <-; cbn [w_cwd is_compiler_internals compiler_call
                          w_open_files compiler_calls] in *.

(** *** Inside a compiler *)

Lemma walk_step_internal (walk : walker) proc st sc st' :
  (forall pid cwd calls r, walk pid cwd true calls = Ok r -> snd r = calls) ->
  is_compiler_internals st = true -> compiler_call st = None ->
  walk_step compiler_match proc_map walk proc st sc = Ok st' ->
  is_compiler_internals st' = true /\ compiler_call st' = None /\
  compiler_calls st' = compiler_calls st.
Proof.
  intros Hwalk Hci Hcc H. destruct st as [w ci cc ofs calls]. cbn in Hci, Hcc.
  subst ci cc. step_cases H; auto.
  match goal with E : walk _ _ true _ = Ok _ |- _ => apply Hwalk in E; cbn in E end.
  auto.
Qed.

Lemma walk_loop_internal (walk : walker) proc scs : forall st st',
  (forall pid cwd calls r, walk pid cwd true calls = Ok r -> snd r = calls) ->
  is_compiler_internals st = true -> compiler_call st = None ->
  walk_loop compiler_match proc_map walk proc st scs = Ok st' ->
  is_compiler_internals st' = true /\ compiler_call st' = None /\
  compiler_calls st' = compiler_calls st.
Proof.
  induction scs as [|sc scs IH]; intros st st' Hwalk Hci Hcc H; cbn [walk_loop] in H.
  - injection H as <-. auto.
  - destruct (walk_step compiler_match proc_map walk proc st sc) as [st1|] eqn:E;
      [|discriminate].
    cbn [mbind result_bind] in H.
    destruct (walk_step_internal _ _ _ _ _ Hwalk Hci Hcc E) as [Hci1 [Hcc1 Hcalls1]].
    destruct (IH _ _ Hwalk Hci1 Hcc1 H) as [Hci' [Hcc' Hcalls']].
    split; [exact Hci'|]. split; [exact Hcc'|]. congruence.
Qed.

Lemma walk_proc_internal depth : forall pid cwd calls r,
  walk_proc compiler_match proc_map depth pid cwd true calls = Ok r -> snd r = calls.
Proof.
  induction depth as [|depth IH]; intros pid cwd calls r H; [discriminate|].
  cbn [walk_proc] in H.
  destruct (dict_get pid proc_map) as [proc|]; [|discriminate].
  cbn [or_raise mbind result_bind] in H.
  destruct (walk_loop _ _ _ proc _ _) as [st|] eqn:E; [|discriminate].
  cbn [mbind result_bind] in H.
  eapply walk_loop_internal in E; [|exact IH|reflexivity|reflexivity].
  destruct E as [_ [Hcc Hcalls]]. cbn in Hcalls.
  rewrite Hcc in H. injection H as <-. exact Hcalls.
Qed.

(** *** Outside a compiler *)

Lemma walk_step_outside (walk : walker) proc st sc st' :
  (forall pid cwd calls r, walk pid cwd false calls = Ok r -> fst r = []) ->
  WalkInv.no_leak st ->
  walk_step compiler_match proc_map walk proc st sc = Ok st' ->
  WalkInv.no_leak st'.
Proof.
  intros Hwalk Hst H. destruct st as [w ci cc ofs calls].
  unfold WalkInv.no_leak in *.
  destruct Hst as [[Hci [Hcc Hof]]|[Hci Hcc]]; cbn in Hci, Hcc; subst ci.
  - cbn in Hof. subst cc ofs. step_cases H;
      try (left; cbn; auto; fail); try (right; cbn; split; [reflexivity|discriminate]).
    match goal with E : walk _ _ false _ = Ok _ |- _ => apply Hwalk in E; cbn in E end.
    subst. left. cbn. auto.
  - step_cases H; right; cbn; auto.
Qed.

Lemma walk_loop_outside (walk : walker) proc scs : forall st st',
  (forall pid cwd calls r, walk pid cwd false calls = Ok r -> fst r = []) ->
  WalkInv.no_leak st ->
  walk_loop compiler_match proc_map walk proc st scs = Ok st' ->
  WalkInv.no_leak st'.
Proof.
  induction scs as [|sc scs IH]; intros st st' Hwalk Hst H; cbn [walk_loop] in H.
  - injection H as <-. exact Hst.
  - destruct (walk_step compiler_match proc_map walk proc st sc) as [st1|] eqn:E;
      [|discriminate].
    cbn [mbind result_bind] in H.
    exact (IH _ _ Hwalk (walk_step_outside _ _ _ _ _ Hwalk Hst E) H).
Qed.

Lemma walk_proc_outside depth : forall pid cwd calls r,
  walk_proc compiler_match proc_map depth pid cwd false calls = Ok r -> fst r = [].
Proof.
  induction depth as [|depth IH]; intros pid cwd calls r H; [discriminate|].
  cbn [walk_proc] in H.
  destruct (dict_get pid proc_map) as [proc|]; [|discriminate].
  cbn [or_raise mbind result_bind] in H.
  destruct (walk_loop _ _ _ proc _ _) as [st|] eqn:E; [|discriminate].
  cbn [mbind result_bind] in H.
  assert (Hst : WalkInv.no_leak st).
  { eapply walk_loop_outside in E; [exact E|exact IH|]. left. cbn. auto. }
  destruct Hst as [[_ [Hcc Hof]]|[_ Hcc]].
  - rewrite Hcc in H. injection H as <-. exact Hof.
  - destruct (compiler_call st); [|congruence]. injection H as <-. reflexivity.
Qed.

(** *** The calls that are reported *)

Abbreviation pending := (WalkInv.pending compiler_match).
Abbreviation grows := (WalkInv.grows compiler_match proc_map).

Lemma grows_refl calls : grows calls calls.
Proof. exists []. rewrite app_nil_r. split; [reflexivity|constructor]. Qed.

Lemma grows_trans a b c : grows a b -> grows b c -> grows a c.
Proof.
  unfold WalkInv.grows. intros [n1 [-> H1]] [n2 [-> H2]]. exists (n1 ++ n2).
  rewrite app_assoc. split; [reflexivity|]. apply Forall_app. auto.
Qed.

Lemma lookup_two {A} (l : list A) a0 a1 :
  l !! 0%nat = Some a0 -> l !! 1%nat = Some a1 -> exists rest, l = a0 :: a1 :: rest.
Proof.
  destruct l as [|x [|y rest]]; try discriminate.
  intros [= <-] [= <-]. eauto.
Qed.

Lemma as_str_inv v s : as_str v = Ok s -> v = PyStr s.
Proof. destruct v; try discriminate. intros [= <-]. reflexivity. Qed.

Lemma walk_step_backed (walk : walker) proc st sc st' :
  (forall pid cwd b calls r, walk pid cwd b calls = Ok r -> grows calls (snd r)) ->
  In sc (ProcTrace.syscall proc) ->
  (forall cc, compiler_call st = Some cc -> pending proc cc) ->
  walk_step compiler_match proc_map walk proc st sc = Ok st' ->
  grows (compiler_calls st) (compiler_calls st') /\
  (forall cc, compiler_call st' = Some cc -> pending proc cc).
Proof.
  intros Hwalk Hin Hcc H. destruct st as [w ci cc0 ofs calls].
  cbn [compiler_call compiler_calls] in *.
  step_cases H; try (split; [apply grows_refl|exact Hcc]).
  - match goal with E : walk _ _ _ _ = Ok _ |- _ => apply Hwalk in E; cbn in E end.
    split; assumption.
  - split; [apply grows_refl|]. intros cc [= <-].
    repeat match goal with
           | E : as_str _ = Ok _ |- _ => apply as_str_inv in E; subst
           | E : as_str_list _ = Ok _ |- _ => apply as_str_list_inv in E; subst
           end.
    match goal with
    | E0 : SysCallEntity.args sc !! 0%nat = Some _,
      E1 : SysCallEntity.args sc !! 1%nat = Some _ |- _ =>
        destruct (lookup_two _ _ _ E0 E1) as [rest Hargs]
    end.
    simplify_eq.
    split; [reflexivity|]. split; [reflexivity|].
    exists sc, rest. cbn [executable args compiler CompilerCall.command].
    split; [exact Hin|]. split; [|split; [exact Hargs|assumption]].
    match goal with E : String.eqb (SysCallEntity.name sc) "execve" = true |- _ =>
      apply String.eqb_eq in E; exact E end.
Qed.

Lemma walk_loop_backed (walk : walker) proc scs : forall st st',
  (forall pid cwd b calls r, walk pid cwd b calls = Ok r -> grows calls (snd r)) ->
  (forall sc, In sc scs -> In sc (ProcTrace.syscall proc)) ->
  (forall cc, compiler_call st = Some cc -> pending proc cc) ->
  walk_loop compiler_match proc_map walk proc st scs = Ok st' ->
  grows (compiler_calls st) (compiler_calls st') /\
  (forall cc, compiler_call st' = Some cc -> pending proc cc).
Proof.
  induction scs as [|sc scs IH]; intros st st' Hwalk Hin Hcc H; cbn [walk_loop] in H.
  - injection H as <-. split; [apply grows_refl|exact Hcc].
  - destruct (walk_step compiler_match proc_map walk proc st sc) as [st1|] eqn:E;
      [|discriminate].
    cbn [mbind result_bind] in H.
    destruct (walk_step_backed _ _ _ _ _ Hwalk (Hin sc (or_introl eq_refl)) Hcc E)
      as [Hg1 Hcc1].
    destruct (IH _ _ Hwalk (fun x Hx => Hin x (or_intror Hx)) Hcc1 H) as [Hg' Hcc'].
    split; [exact (grows_trans _ _ _ Hg1 Hg')|exact Hcc'].
Qed.

Lemma walk_proc_backed depth : forall pid cwd b calls r,
  walk_proc compiler_match proc_map depth pid cwd b calls = Ok r -> grows calls (snd r).
Proof.
  induction depth as [|depth IH]; intros pid cwd b calls r H; [discriminate|].
  cbn [walk_proc] in H.
  destruct (dict_get pid proc_map) as [proc|] eqn:Hproc; [|discriminate].
  cbn [or_raise mbind result_bind] in H.
  destruct (walk_loop _ _ _ proc _ _) as [st|] eqn:E; [|discriminate].
  cbn [mbind result_bind] in H.
  eapply walk_loop_backed in E; [|exact IH|auto|discriminate].
  destruct E as [Hg Hcc]. cbn [compiler_calls] in Hg.
  destruct (compiler_call st) as [cc|]; injection H as <-; cbn [snd]; [|exact Hg].
  apply (grows_trans _ _ _ Hg). eexists. split; [reflexivity|].
  constructor; [|constructor].
  destruct (Hcc cc eq_refl) as [Hp [He Hx]].
  exists pid, proc. cbn. auto.
Qed.

(** *** The bound on the depth *)

Lemma walk_step_mono (walk1 walk2 : walker) proc st sc st' :
  (forall pid cwd b calls r, walk1 pid cwd b calls = Ok r -> walk2 pid cwd b calls = Ok r) ->
  walk_step compiler_match proc_map walk1 proc st sc = Ok st' ->
  walk_step compiler_match proc_map walk2 proc st sc = Ok st'.
Proof.
  intros Hw H. unfold walk_step in *. cbv zeta in *.
  destruct (bool_decide _); [|exact H].
  destruct (dict_get _ proc_map); [|exact H].
  destruct (walk1 _ _ _ _) as [r|] eqn:E; [|discriminate].
  rewrite (Hw _ _ _ _ _ E). exact H.
Qed.

Lemma walk_loop_mono (walk1 walk2 : walker) proc scs : forall st st',
  (forall pid cwd b calls r, walk1 pid cwd b calls = Ok r -> walk2 pid cwd b calls = Ok r) ->
  walk_loop compiler_match proc_map walk1 proc st scs = Ok st' ->
  walk_loop compiler_match proc_map walk2 proc st scs = Ok st'.
Proof.
  induction scs as [|sc scs IH]; intros st st' Hw H; cbn [walk_loop] in *; [exact H|].
  destruct (walk_step compiler_match proc_map walk1 proc st sc) as [st1|] eqn:E;
    [|discriminate].
  rewrite (walk_step_mono _ _ _ _ _ _ Hw E). cbn [mbind result_bind] in *.
  exact (IH _ _ Hw H).
Qed.

Lemma walk_proc_S depth : forall pid cwd b calls r,
  walk_proc compiler_match proc_map depth pid cwd b calls = Ok r ->
  walk_proc compiler_match proc_map (S depth) pid cwd b calls = Ok r.
Proof.
  induction depth as [|depth IH]; intros pid cwd b calls r H; [discriminate|].
  cbn [walk_proc] in H. change (walk_proc compiler_match proc_map (S (S depth))
                                  pid cwd b calls)
    with (proc ← or_raise (dict_get pid proc_map) KeyError;
          st ← walk_loop compiler_match proc_map
                 (walk_proc compiler_match proc_map (S depth)) proc
                 (mkState cwd b None [] calls) (ProcTrace.syscall proc);
          match compiler_call st with
          | Some cc =>
              Ok ([], compiler_calls st ++
                      [CompilerCall.mk (CompilerCall.pid cc) (CompilerCall.exitcode cc)
                         (CompilerCall.command cc) (w_open_files st)])
          | None => Ok (w_open_files st, compiler_calls st)
          end).
  destruct (dict_get pid proc_map) as [proc|]; [|discriminate].
  cbn [or_raise mbind result_bind] in *.
  destruct (walk_loop _ _ _ proc _ _) as [st|] eqn:E; [|discriminate].
  rewrite (walk_loop_mono _ _ _ _ _ _ IH E). exact H.
Qed.

Lemma walk_proc_le d d' : (d <= d')%nat -> forall pid cwd b calls r,
  walk_proc compiler_match proc_map d pid cwd b calls = Ok r ->
  walk_proc compiler_match proc_map d' pid cwd b calls = Ok r.
Proof.
  induction 1 as [|d' _ IH]; intros pid cwd b calls r H; [exact H|].
  apply walk_proc_S, IH, H.
Qed.

(** *** Runs of [chdir] *)

Lemma fold_join l : forall c,
  fold_left PurePath.join l c
  = PurePath.join c (fold_left PurePath.join l (PurePath.of_str "")).
Proof.
  induction l as [|p l IH]; intros c; cbn [fold_left].
  - symmetry. apply PathFacts.join_empty_r.
  - rewrite IH. rewrite (IH (PurePath.join _ p)).
    rewrite PathFacts.join_empty_l. apply PathFacts.join_assoc.
Qed.

Lemma walk_loop_chdirs (walk : walker) proc scs ps :
  Forall2 (fun sc p => SysCallEntity.name sc = "chdir" /\
                       SysCallEntity.args sc = [PyStr p]) scs ps ->
  forall st,
  walk_loop compiler_match proc_map walk proc st scs
  = Ok (mkState (fold_left PurePath.join (PurePath.of_str <$> ps) (w_cwd st))
                (is_compiler_internals st) (compiler_call st)
                (w_open_files st) (compiler_calls st)).
Proof.
  induction 1 as [|sc p scs ps [Hn Ha] HF IH]; intros st.
  - destruct st; reflexivity.
  - cbn [walk_loop].
    assert (Hstep : walk_step compiler_match proc_map walk proc st sc
                    = Ok (mkState (PurePath.join (w_cwd st) (PurePath.of_str p))
                            (is_compiler_internals st) (compiler_call st)
                            (w_open_files st) (compiler_calls st))).
    { unfold walk_step. rewrite Hn, Ha. reflexivity. }
    rewrite Hstep. cbn [mbind result_bind]. rewrite IH. reflexivity.
Qed.

End Walk.
End WalkerMore.


(** X14.  Below a compiler nothing is reported: the walk of a process that
    is entered inside a compiler returns the list of compiler calls it was
    given, whatever the process and its descendants execute. *)
Theorem walk_proc_inside_compiler `{R : PyRuntime}
        (compiler_match : string -> list string -> result (option CompilerId))
        (proc_map : list (Z * ProcTrace.t))
        (depth : nat) (pid : Z) (cwd : Path) (calls : list CompilerCall.t)
        (r : list (Path * list pyval) * list CompilerCall.t) :
  CompilerExtractor.walk_proc compiler_match proc_map depth pid cwd true calls = Ok r ->
  snd r = calls.
Proof. apply WalkerMore.walk_proc_internal. Qed.

(** X15.  Outside a compiler no opened file is passed upwards: the walk of
    a process that is entered outside a compiler returns an empty list of
    opened files. *)
Theorem walk_proc_outside_compiler `{R : PyRuntime}
        (compiler_match : string -> list string -> result (option CompilerId))
        (proc_map : list (Z * ProcTrace.t))
        (depth : nat) (pid : Z) (cwd : Path) (calls : list CompilerCall.t)
        (r : list (Path * list pyval) * list CompilerCall.t) :
  CompilerExtractor.walk_proc compiler_match proc_map depth pid cwd false calls = Ok r ->
  fst r = [].
Proof. apply WalkerMore.walk_proc_outside. Qed.

(** X16.  Every compiler call the extractor reports belongs to a process
    of the store: it carries the PID and the exit code of that process's
    trace, and its executable and arguments are those of an [execve] record
    of that trace which the matcher took for a compiler. *)
Theorem extract_calls_backed `{R : PyRuntime}
        (compiler_match : string -> list string -> result (option CompilerId))
        (depth : nat) (strace_data : StraceData.t) (calls : list CompilerCall.t) :
  CompilerExtractor.extract compiler_match depth strace_data = Ok calls ->
  Forall (WalkInv.backed compiler_match (StraceData.proc_map strace_data)) calls.
Proof.
  unfold CompilerExtractor.extract. intros H.
  destruct (CompilerExtractor.walk_proc _ _ _ _ _ _ _) as [r|] eqn:E; [|discriminate].
  injection H as <-.
  destruct (WalkerMore.walk_proc_backed _ _ _ _ _ _ _ _ E) as [new [-> Hnew]].
  exact Hnew.
Qed.

(** X17.  The bound on the depth of the walk only limits it: a result
    reached within a bound is the result within every larger bound. *)
Theorem walk_proc_depth_monotone `{R : PyRuntime}
        (compiler_match : string -> list string -> result (option CompilerId))
        (proc_map : list (Z * ProcTrace.t))
        (d d' : nat) (pid : Z) (cwd : Path) (b : bool) (calls : list CompilerCall.t)
        (r : list (Path * list pyval) * list CompilerCall.t) :
  (d <= d')%nat ->
  CompilerExtractor.walk_proc compiler_match proc_map d pid cwd b calls = Ok r ->
  CompilerExtractor.walk_proc compiler_match proc_map d' pid cwd b calls = Ok r.
Proof. intros Hle. apply WalkerMore.walk_proc_le, Hle. Qed.

(** X18.  A run of [chdir] records moves the walker to the join of its
    directory with the join of the paths: the records compose, and what
    they do does not depend on the directory they start from. *)
Theorem walk_loop_chdir_run `{R : PyRuntime}
        (compiler_match : string -> list string -> result (option CompilerId))
        (proc_map : list (Z * ProcTrace.t))
        (walk : Z -> Path -> bool -> list CompilerCall.t ->
                result (list (Path * list pyval) * list CompilerCall.t))
        (proc : ProcTrace.t) (st : CompilerExtractor.walk_state)
        (scs : list SysCallEntity.t) (ps : list string) :
  Forall2 (fun sc p => SysCallEntity.name sc = "chdir" /\
                       SysCallEntity.args sc = [PyStr p]) scs ps ->
  CompilerExtractor.walk_loop compiler_match proc_map walk proc st scs
  = Ok (CompilerExtractor.mkState
          (PurePath.join (CompilerExtractor.w_cwd st)
             (fold_left PurePath.join (PurePath.of_str <$> ps) (PurePath.of_str "")))
          (CompilerExtractor.is_compiler_internals st)
          (CompilerExtractor.compiler_call st)
          (CompilerExtractor.w_open_files st)
          (CompilerExtractor.compiler_calls st)).
Proof.
  intros HF. rewrite (WalkerMore.walk_loop_chdirs _ _ _ _ _ _ HF).
  rewrite WalkerMore.fold_join. reflexivity.
Qed.

Lemma walk_proc_inside_compiler_witness :
  CompilerExtractor.walk_proc Examples.match_gcc Examples.walked_procs 10 100
    Examples.dir_b_sub true []
  = Ok ([(mkPath "/" ["b"; "sub"; ".."], [PyStr "a.c"; PyStr "O_RDONLY"])], []) /\
  snd ([(mkPath "/" ["b"; "sub"; ".."], [PyStr "a.c"; PyStr "O_RDONLY"])],
       @nil CompilerCall.t) = [].
Proof.
  assert (H : CompilerExtractor.walk_proc Examples.match_gcc Examples.walked_procs 10 100
                Examples.dir_b_sub true []
              = Ok ([(mkPath "/" ["b"; "sub"; ".."], [PyStr "a.c"; PyStr "O_RDONLY"])], []))
    by (vm_compute; reflexivity).
  split; [exact H|].
  exact (walk_proc_inside_compiler Examples.match_gcc Examples.walked_procs 10 100
           Examples.dir_b_sub [] _ H).
Defined.

Lemma walk_proc_outside_compiler_witness :
  fst (@nil (Path * list pyval),
       [ CompilerCall.mk 100 (Some 0)
           (mkCommand (mkPath "/" ["b"; "sub"; ".."]) Examples.gcc_11_5
                      "/usr/bin/gcc" ["gcc"; "a.c"])
           [ (mkPath "/" ["b"; "sub"; ".."], [PyStr "a.c"; PyStr "O_RDONLY"]) ] ]) = [].
Proof.
  apply (walk_proc_outside_compiler Examples.match_gcc Examples.walked_procs 10 100
           Examples.dir_b_sub []).
  vm_compute. reflexivity.
Defined.

Lemma extract_calls_backed_witness :
  Forall (WalkInv.backed Examples.match_gcc Examples.walked_procs)
    [ CompilerCall.mk 100 (Some 0)
        (mkCommand (mkPath "/" ["b"; "sub"; ".."]) Examples.gcc_11_5
                   "/usr/bin/gcc" ["gcc"; "a.c"])
        [ (mkPath "/" ["b"; "sub"; ".."], [PyStr "a.c"; PyStr "O_RDONLY"]) ] ].
Proof.
  apply (extract_calls_backed Examples.match_gcc 10
           (StraceData.mk _ Examples.dir_b_sub Examples.walked_procs 100)).
  vm_compute. reflexivity.
Defined.

Lemma walk_proc_depth_monotone_witness :
  CompilerExtractor.walk_proc Examples.match_gcc Examples.walked_procs 20 100
    Examples.dir_b_sub true []
  = Ok ([(mkPath "/" ["b"; "sub"; ".."], [PyStr "a.c"; PyStr "O_RDONLY"])], []).
Proof.
  apply (walk_proc_depth_monotone Examples.match_gcc Examples.walked_procs 1 20 100
           Examples.dir_b_sub true []).
  - lia.
  - vm_compute. reflexivity.
Defined.

Lemma walk_loop_chdir_run_witness :
  CompilerExtractor.walk_loop Examples.match_gcc Examples.walked_procs
    (fun _ _ _ calls => Ok ([], calls))
    (ProcTrace.mk _ 100 None None None None None []) Examples.state_in_sub
    [Examples.chdir_up; Examples.chdir_up]
  = Ok (CompilerExtractor.mkState
          (PurePath.join (CompilerExtractor.w_cwd Examples.state_in_sub)
             (fold_left PurePath.join (PurePath.of_str <$> [".."; ".."])
                        (PurePath.of_str "")))
          (CompilerExtractor.is_compiler_internals Examples.state_in_sub)
          (CompilerExtractor.compiler_call Examples.state_in_sub)
          (CompilerExtractor.w_open_files Examples.state_in_sub)
          (CompilerExtractor.compiler_calls Examples.state_in_sub)).
Proof.
  apply (walk_loop_chdir_run Examples.match_gcc Examples.walked_procs
           (fun _ _ _ calls => Ok ([], calls))
           (ProcTrace.mk _ 100 None None None None None []) Examples.state_in_sub
           [Examples.chdir_up; Examples.chdir_up] [".."; ".."]).
  repeat constructor.
Defined.
(** ** What the walk of parsed traces can raise *)

Module WalkerRobust.
Import CompilerExtractor.

Lemma mapM_as_str (l : list string) : result_mapM as_str (PyStr <$> l) = Ok l.
Proof.
  induction l as [|x l IH]; [reflexivity|].
  cbn [fmap list_fmap result_mapM as_str mbind result_bind].
  change (list_fmap string pyval PyStr l) with (PyStr <$> l). rewrite IH. reflexivity.
Qed.

Section Walk.
Context `{R : PyRuntime}.
Variable compiler_match : string -> list string -> result (option CompilerId).
Variable proc_map : list (Z * ProcTrace.t).

(** Reduces the tests on the name of the system call. *)
Ltac eval_tests H :=
  repeat match type of H with
         | context [bool_decide (?a ∈ fork_syscall_set)] =>
             let v := eval vm_compute in (bool_decide (a ∈ fork_syscall_set)) in
             change (bool_decide (a ∈ fork_syscall_set)) with v in H
         | context [String.eqb ?a ?b] =>
             let v := eval vm_compute in (String.eqb a b) in
             change (String.eqb a b) with v in H
         end;
  cbv beta iota zeta in H.

Lemma walk_step_raises
      (walk : Z -> Path -> bool -> list CompilerCall.t ->
              result (list (Path * list pyval) * list CompilerCall.t))
      proc st sc e :
  TraceInv.readable sc ->
  walk_step compiler_match proc_map walk proc st sc = Raise e ->
  (exists pid cwd b calls,
     dict_get pid proc_map <> None /\ walk pid cwd b calls = Raise e)
  \/ (e = KeyError /\ TraceInv.incomplete sc)
  \/ (exists exe argv, argv <> [] /\ compiler_match exe argv = Raise e).
Proof.
  intros Hr H. destruct sc as [ts name rv rf err raw args].
  unfold TraceInv.readable, TraceInv.shaped in Hr. cbn in Hr.
  unfold walk_step in H. cbn [SysCallEntity.name SysCallEntity.args
                              SysCallEntity.returnvalue] in H. cbv zeta in H.
  destruct Hr as [Hf|[Hr|[Hr|[Hr|[Hr|[Hr|Hr]]]]]].
  2: destruct Hr as [-> [p ->]].
  3: destruct Hr as [-> [fd [p ->]]].
  4: destruct Hr as [-> [path [argv [env [Hne ->]]]]].
  5: destruct Hr as [-> [p [fl [rest ->]]]].
  6: destruct Hr as [-> [fd [dir [p [fl [rest ->]]]]]].
  7: destruct Hr as [-> [fd [dir [p [how [size ->]]]]]].
  - rewrite bool_decide_eq_true_2 in H by exact Hf.
    destruct (dict_get rv proc_map) eqn:Hd; [|discriminate].
    destruct (walk rv (w_cwd st) (is_compiler_internals st) (compiler_calls st))
      as [[files calls]|e'] eqn:Hw; [discriminate|].
    cbn in H. injection H as <-. left. exists rv, (w_cwd st),
      (is_compiler_internals st), (compiler_calls st).
    split; [congruence|exact Hw].
  - eval_tests H. discriminate.
  - eval_tests H. discriminate.
  - eval_tests H. destruct (is_compiler_internals st); [discriminate|].
    cbn [lookup list_lookup or_raise mbind result_bind as_str as_str_list] in H.
    rewrite mapM_as_str in H. cbn [mbind result_bind] in H.
    destruct (compiler_match path argv) as [[cid|]|e'] eqn:Hm; try discriminate.
    injection H as <-. right. right. eauto.
  - eval_tests H. destruct (_ && _); discriminate.
  - eval_tests H. destruct (_ && _); [|discriminate].
    cbn [lookup list_lookup or_raise mbind result_bind item] in H.
    destruct dir; cbn in H; discriminate.
  - eval_tests H. destruct (_ && _); [|discriminate].
    cbn [lookup list_lookup or_raise mbind result_bind item] in H.
    assert (Hgoal : (y ← or_raise (dict_get "flags" how) KeyError;
                     z ← or_raise (dict_get "mode" how) KeyError;
                     Ok (y, z)) = Raise e :> result (pyval * pyval)).
    { destruct dir; cbn -[dict_get] in H;
        destruct (dict_get "flags" how), (dict_get "mode" how);
        cbn in H |- *; first [discriminate H | injection H as <-; reflexivity]. }
    clear H. rename Hgoal into H.
    right. left.
    destruct (dict_get "flags" how) eqn:Hfl; cbn [or_raise mbind result_bind] in H.
    + destruct (dict_get "mode" how) eqn:Hmo; cbn [or_raise mbind result_bind] in H;
        [discriminate|].
      injection H as <-. split; [reflexivity|]. split; [reflexivity|].
      exists how. split; [reflexivity|]. right. exact Hmo.
    + injection H as <-. split; [reflexivity|]. split; [reflexivity|].
      exists how. split; [reflexivity|]. left. exact Hfl.
Qed.

Lemma walk_loop_raises
      (walk : Z -> Path -> bool -> list CompilerCall.t ->
              result (list (Path * list pyval) * list CompilerCall.t))
      proc scs : forall st e,
  Forall TraceInv.readable scs ->
  walk_loop compiler_match proc_map walk proc st scs = Raise e ->
  (exists pid cwd b calls,
     dict_get pid proc_map <> None /\ walk pid cwd b calls = Raise e)
  \/ (e = KeyError /\ exists sc, In sc scs /\ TraceInv.incomplete sc)
  \/ (exists exe argv, argv <> [] /\ compiler_match exe argv = Raise e).
Proof.
  induction scs as [|sc scs IH]; intros st e Hr H; [discriminate|].
  apply Forall_cons in Hr as [Hsc Hr]. cbn [walk_loop] in H.
  destruct (walk_step compiler_match proc_map walk proc st sc) as [st'|e'] eqn:E.
  - cbn [mbind result_bind] in H.
    destruct (IH _ _ Hr H) as [Hw|[[-> [sc' [Hin Hinc]]]|Hm]]; [auto| |auto].
    right. left. split; [reflexivity|]. exists sc'. split; [right; exact Hin|exact Hinc].
  - cbn [mbind result_bind] in H. injection H as <-.
    destruct (walk_step_raises _ _ _ _ _ Hsc E) as [Hw|[[-> Hinc]|Hm]]; [auto| |auto].
    right. left. split; [reflexivity|]. exists sc. split; [left; reflexivity|exact Hinc].
Qed.

Hypothesis readable_map : forall key tr,
  dict_get key proc_map = Some tr -> Forall TraceInv.readable (ProcTrace.syscall tr).

Lemma walk_proc_raises depth : forall pid cwd b calls e,
  dict_get pid proc_map <> None ->
  walk_proc compiler_match proc_map depth pid cwd b calls = Raise e ->
  WalkInv.foreseen compiler_match proc_map e.
Proof.
  induction depth as [|depth IH]; intros pid cwd b calls e Hpid H.
  - injection H as <-. left. reflexivity.
  - cbn [walk_proc] in H.
    destruct (dict_get pid proc_map) as [proc|] eqn:Hd; [|congruence].
    cbn [or_raise mbind result_bind] in H.
    destruct (walk_loop _ _ _ proc _ (ProcTrace.syscall proc)) as [st|e'] eqn:E.
    + cbn [mbind result_bind] in H. destruct (compiler_call st); discriminate.
    + cbn [mbind result_bind] in H. injection H as <-.
      destruct (walk_loop_raises _ _ _ _ _ (readable_map _ _ Hd) E)
        as [[pid' [cwd' [b' [calls' [Hin Hw]]]]]|[[-> [sc [Hin Hinc]]]|Hm]].
      * exact (IH _ _ _ _ _ Hin Hw).
      * right. left. split; [reflexivity|]. exists pid, proc, sc. auto.
      * right. right. exact Hm.
Qed.

End Walk.

Section Store.
Context `{R : PyRuntime}.
Import StraceData.

Lemma load_readable files : forall m m',
  load files m = Ok m' ->
  (forall key tr, dict_get key m = Some tr ->
                  Forall TraceInv.readable (ProcTrace.syscall tr)) ->
  forall key tr, dict_get key m' = Some tr ->
                 Forall TraceInv.readable (ProcTrace.syscall tr).
Proof.
  induction files as [|f files IH]; intros m m' H Hm.
  - injection H as <-. exact Hm.
  - cbn [load] in H. destruct (do_file f) as [t0|] eqn:E0; [|discriminate].
    cbn [mbind result_bind] in H. apply (IH _ _ H).
    intros key tr Hget. destruct (decide (key = ProcTrace.pid t0)) as [->|Hne].
    + rewrite StoreMore.dict_get_set_eq in Hget. injection Hget as <-.
      unfold do_file in E0. destruct (pid_from_path _) as [pid|]; [|discriminate].
      cbn [mbind result_bind] in E0. unfold StraceParser.parse_fd in E0.
      destruct (StraceParser.parse_lines _ _) as [p|] eqn:E; [|discriminate].
      cbn [mbind result_bind] in E0. injection E0 as <-. cbn [ProcTrace.syscall].
      apply list_sort_Forall.
      apply (ShapeFacts.parse_lines_readable _ _ _ E). constructor.
    + rewrite StoreMore.dict_get_set_ne in Hget by exact Hne. exact (Hm _ _ Hget).
Qed.

Lemma min_by_ts_start_In rest : forall cur r,
  min_by_ts_start cur rest = Ok r -> r = cur \/ In r rest.
Proof.
  induction rest as [|v rest IH]; intros cur r H.
  - injection H as <-. left. reflexivity.
  - cbn [min_by_ts_start] in H.
    destruct (key_lt _ _) as [b|]; [|discriminate]. cbn [mbind result_bind] in H.
    destruct (IH _ _ H) as [->|Hin]; [|right; right; exact Hin].
    destruct b; [right; left; reflexivity|left; reflexivity].
Qed.

Lemma select_root_present (m : list (Z * ProcTrace.t)) root :
  Invariant.keyed m -> select_root m = Ok root -> dict_get root m <> None.
Proof.
  intros [Hnd Hall] H. unfold select_root in H.
  destruct (snd <$> m) as [|v rest] eqn:Em; [discriminate|].
  destruct (min_by_ts_start v rest) as [r|] eqn:Er; [|discriminate].
  cbn [mbind result_bind] in H. injection H as <-.
  assert (Hin : In r (snd <$> m)).
  { rewrite Em. destruct (min_by_ts_start_In _ _ _ Er) as [->|Hin];
      [left; reflexivity|right; exact Hin]. }
  apply list_elem_of_In, list_elem_of_fmap in Hin as [[k tr] [-> Hkv]].
  cbn [snd]. rewrite Forall_forall in Hall. specialize (Hall _ Hkv). cbn in Hall.
  subst k. apply list_elem_of_lookup in Hkv as [i Hi].
  rewrite (StoreFacts.dict_get_lookup _ _ _ _ Hnd Hi). discriminate.
Qed.

End Store.
End WalkerRobust.

(** X19.  A walk over traces whose records have the shape of their system
    calls, started at a process of the store, raises nothing but the
    recursion limit, the [KeyError] of an [openat2] record of the store that
    lacks its flags or its mode, or what the matcher raised on a command
    line with at least one argument. *)
Theorem walk_proc_foreseen `{R : PyRuntime}
        (compiler_match : string -> list string -> result (option CompilerId))
        (proc_map : list (Z * ProcTrace.t))
        (depth : nat) (pid : Z) (cwd : Path) (b : bool)
        (calls : list CompilerCall.t) (e : exn) :
  (forall key tr, dict_get key proc_map = Some tr ->
                  Forall TraceInv.readable (ProcTrace.syscall tr)) ->
  dict_get pid proc_map <> None ->
  CompilerExtractor.walk_proc compiler_match proc_map depth pid cwd b calls = Raise e ->
  WalkInv.foreseen compiler_match proc_map e.
Proof.
  intros Hmap Hpid H.
  exact (WalkerRobust.walk_proc_raises _ _ Hmap depth _ _ _ _ _ Hpid H).
Qed.

(** X20.  On the store read from trace files, the extraction of the compiler
    calls raises nothing but the recursion limit, the [KeyError] of an
    incomplete [openat2] record, or what the matcher raised: the records the
    parser stores are all the walker needs, and the root process is in the
    store. *)
Theorem extract_foreseen `{R : PyRuntime}
        (compiler_match : string -> list string -> result (option CompilerId))
        (root_cwd : Path) (files : list StraceData.TraceFile)
        (sd : StraceData.t) (depth : nat) (e : exn) :
  StraceData.run root_cwd files = Ok sd ->
  CompilerExtractor.extract compiler_match depth sd = Raise e ->
  WalkInv.foreseen compiler_match (StraceData.proc_map sd) e.
Proof.
  intros Hrun H. unfold StraceData.run in Hrun.
  destruct (StraceData.load files []) as [m|] eqn:Hload; [|discriminate].
  cbn [mbind result_bind] in Hrun.
  destruct (length m =? 0)%nat; [discriminate|].
  destruct (StraceData.select_root m) as [root|] eqn:Hroot; [|discriminate].
  cbn [mbind result_bind] in Hrun. injection Hrun as <-.
  unfold CompilerExtractor.extract in H.
  cbn [StraceData.proc_map StraceData.root_pid StraceData.root_cwd] in *.
  destruct (CompilerExtractor.walk_proc _ _ _ _ _ _ _) as [r|e'] eqn:Hw; [discriminate|].
  cbn [mbind result_bind] in H. injection H as <-.
  refine (WalkerRobust.walk_proc_raises _ _ _ depth _ _ _ _ _ _ Hw).
  - apply (WalkerRobust.load_readable _ _ _ Hload). intros key tr [=].
  - apply WalkerRobust.select_root_present; [|exact Hroot].
    apply (StoreFacts.load_keyed _ _ _ Hload). split; constructor.
Qed.

Lemma walk_proc_foreseen_witness :
  WalkInv.foreseen Examples.match_gcc
    (StraceData.proc_map MoreExamples.openat2_store) KeyError.
Proof.
  apply (@walk_proc_foreseen ExactRuntime.runtime Examples.match_gcc
           (StraceData.proc_map MoreExamples.openat2_store)
           1 7 Examples.dir_b false [] KeyError).
  - intros key tr Hget. cbn in Hget.
    destruct (decide (key = 7)); [|discriminate]. injection Hget as <-.
    cbn [ProcTrace.syscall]. constructor; [|constructor; [|constructor]].
    + do 3 right. left. split; [reflexivity|].
      exists "/usr/bin/gcc", ["gcc"], (PyStr "0x7ffd /* 3 vars */").
      split; [discriminate|reflexivity].
    + do 6 right. split; [reflexivity|].
      exists "AT_FDCWD", (Some "/b"), "a",
        [("flags", PyStr "O_RDONLY"); ("resolve", PyStr "0")], "24".
      reflexivity.
  - unfold MoreExamples.openat2_store. cbn [StraceData.proc_map dict_get].
    destruct (decide (7 = 7)); [discriminate|congruence].
  - vm_cast_no_check (eq_refl (@Raise (list (Path * list pyval) * list CompilerCall.t)
                                 KeyError)).
Defined.

Lemma extract_foreseen_witness :
  WalkInv.foreseen Examples.match_gcc
    (StraceData.proc_map MoreExamples.openat2_store) KeyError.
Proof.
  apply (@extract_foreseen ExactRuntime.runtime Examples.match_gcc
           Examples.dir_b MoreExamples.openat2_files MoreExamples.openat2_store
           5 KeyError).
  - vm_cast_no_check (eq_refl (Ok MoreExamples.openat2_store)).
  - vm_cast_no_check (eq_refl (@Raise (list CompilerCall.t) KeyError)).
Defined.
(** ** The filter of files to copy *)

Module FilterFacts.
Import Re ReSearch ReSem ReFacts StrFacts Shape OpenFilesFilter.

(** An extension at the end. *)
Lemma matches_ext e v rest gs :
  matches (seq [lit e; REol]) v rest gs <-> v = e /\ gs = [] /\ line_end rest.
Proof.
  change (seq [lit e; REol]) with (RSeq (lit e) REol). rewrite matches_seq. split.
  - intros [v1 [v2 [g1 [g2 [-> [-> [M1 M2]]]]]]].
    apply matches_lit in M1 as [-> ->]. apply matches_eol in M2 as [-> [-> H]].
    rewrite append_nil_r. auto.
  - intros [-> [-> H]]. exists e, "", [], []. rewrite append_nil_r.
    split; [reflexivity|]. split; [reflexivity|].
    split; [apply matches_lit; auto|apply matches_eol; auto].
Qed.

(** A directory at the start. *)
Lemma matches_dir d v rest gs :
  matches (seq [lit d; alt [REol; chr "/"]]) v rest gs <->
  gs = [] /\ ((v = d /\ line_end rest) \/ v = d +:+ "/").
Proof.
  change (seq [lit d; alt [REol; chr "/"]]) with (RSeq (lit d) (RAlt REol (chr "/"))).
  rewrite matches_seq. split.
  - intros [v1 [v2 [g1 [g2 [-> [-> [M1 M2]]]]]]].
    apply matches_lit in M1 as [-> ->].
    inversion M2 as [| | |r1 r2 v rest' g M| r1 r2 v rest' g M| | | |]; subst.
    + apply matches_eol in M as [-> [-> H]]. rewrite append_nil_r. auto.
    + inversion M as [p c rest' Hp| | | | | | | |]; subst.
      apply Ascii.eqb_eq in Hp. subst. auto.
  - intros [-> [[-> H]| ->]].
    + exists d, "", [], []. rewrite append_nil_r. split; [reflexivity|].
      split; [reflexivity|]. split; [apply matches_lit; auto|].
      apply MAltL, matches_eol. auto.
    + exists d, "/", [], []. split; [reflexivity|]. split; [reflexivity|].
      split; [apply matches_lit; auto|].
      apply MAltR. constructor. reflexivity.
Qed.

(** Numbers after dots. *)
Lemma matches_number v rest gs :
  matches (seq [chr "."; plus digit]) v rest gs <->
  exists d, number d /\ v = String "." d /\ gs = [].
Proof.
  change (seq [chr "."; plus digit]) with (RSeq (chr ".") (plus digit)).
  rewrite matches_seq. split.
  - intros [v1 [v2 [g1 [g2 [-> [-> [M1 M2]]]]]]].
    apply matches_plus_chars in M2 as [Hne [Hall ->]].
    inversion M1 as [p c rest' Hp| | | | | | | |]; subst.
    apply Ascii.eqb_eq in Hp. subst. exists v2. split; [split; assumption|auto].
  - intros [d [[Hne Hall] [-> ->]]]. exists ".", d, [], [].
    split; [reflexivity|]. split; [reflexivity|].
    split; [constructor; reflexivity|apply matches_plus_chars; auto].
Qed.

Lemma matches_numbers b v rest gs :
  matches (RStar b (seq [chr "."; plus digit])) v rest gs <->
  exists ds, Forall number ds /\ v = dotted ds /\ gs = [].
Proof.
  split.
  - intros M. remember (RStar b (seq [chr "."; plus digit])) as r eqn:Er.
    induction M as [| | | | |b' r' rest|b' r' v1 v2 rest g1 g2 M1 _ Hne M2 IH2| |];
      try discriminate.
    + exists []. auto.
    + injection Er as -> ->. destruct (IH2 eq_refl) as [ds [Hds [-> ->]]].
      apply matches_number in M1 as [d [Hd [-> ->]]].
      exists (d :: ds). split; [constructor; assumption|]. split; reflexivity.
  - intros [ds [Hds [-> ->]]]. induction Hds as [|d ds Hd Hds IH]; [constructor|].
    cbn [dotted]. change (@nil (string * string)) with (@nil (string * string) ++ []).
    constructor; [|discriminate|exact IH].
    apply matches_number. eauto.
Qed.

Lemma matches_versioned v rest gs :
  matches (seq [lit ".so"; plus (seq [chr "."; plus digit]); REol]) v rest gs <->
  exists ds, ds <> [] /\ Forall number ds /\ v = ".so" +:+ dotted ds /\
             gs = [] /\ line_end rest.
Proof.
  change (seq [lit ".so"; plus (seq [chr "."; plus digit]); REol])
    with (RSeq (lit ".so")
            (RSeq (RSeq (seq [chr "."; plus digit])
                        (RStar true (seq [chr "."; plus digit]))) REol)).
  rewrite matches_seq. split.
  - intros [v1 [v2 [g1 [g2 [-> [-> [M1 M2]]]]]]].
    apply matches_lit in M1 as [-> ->].
    apply matches_seq in M2 as [v3 [v4 [g3 [g4 [-> [-> [M3 M4]]]]]]].
    apply matches_eol in M4 as [-> [-> H]].
    apply matches_seq in M3 as [v5 [v6 [g5 [g6 [-> [-> [M5 M6]]]]]]].
    apply matches_number in M5 as [d [Hd [-> ->]]].
    apply matches_numbers in M6 as [ds [Hds [-> ->]]].
    exists (d :: ds). split; [discriminate|]. split; [constructor; assumption|].
    rewrite append_nil_r. auto.
  - intros [ds [Hne [Hds [-> [-> H]]]]].
    destruct Hds as [|d ds Hd Hds]; [congruence|].
    exists ".so", (dotted (d :: ds)), [], []. split; [reflexivity|].
    split; [reflexivity|]. split; [apply matches_lit; auto|].
    apply matches_seq. exists (dotted (d :: ds)), "", [], [].
    rewrite append_nil_r. split; [reflexivity|]. split; [reflexivity|].
    split; [|apply matches_eol; auto].
    apply matches_seq. exists (String "." d), (dotted ds), [], [].
    split; [reflexivity|]. split; [reflexivity|].
    split; [apply matches_number; eauto|apply matches_numbers; eauto].
Qed.

(** What the search with the patterns of the extensions finds. *)
Lemma floating_search s :
  is_Some (search (alt floating) s) <->
  versioned_so s \/ exists e, e ∈ ignore_ext_list /\ ends_with e s.
Proof.
  split.
  - intros [gf H]. apply search_sound in H as [pre [v [rest [-> M]]]].
    apply matches_alt_list in M as [r [Hin M]].
    unfold floating in Hin. apply in_app_or in Hin as [Hin|Hin].
    + destruct Hin as [<-|[]]. apply matches_versioned in M as [ds [Hne [Hds [-> [_ H]]]]].
      left. exists pre, ds, rest. rewrite append_assoc. auto.
    + apply list_elem_of_In, list_elem_of_fmap in Hin as [e [-> He]].
      apply matches_ext in M as [-> [_ H]].
      right. exists e. split; [exact He|]. exists pre, rest. auto.
  - intros [[stem [ds [nl [Hne [Hds [Hnl ->]]]]]]|[e [He [stem [nl [Hnl ->]]]]]].
    + rewrite <- (append_assoc ".so" (dotted ds) nl).
      apply (search_complete _ stem (".so" +:+ dotted ds) nl []).
      apply matches_alt_list. eexists. split; [left; reflexivity|].
      apply matches_versioned. exists ds. auto.
    + apply (search_complete _ stem e nl []).
      apply matches_alt_list. exists (seq [lit e; REol]). split.
      * unfold floating. apply in_or_app. right.
        apply list_elem_of_In, list_elem_of_fmap. eauto.
      * apply matches_ext. auto.
Qed.

(** What the match with the patterns of the directories finds. *)
Lemma anchored_match s :
  is_Some (match_ (alt anchored) s) <-> exists d, d ∈ ignore_dir_list /\ under d s.
Proof.
  split.
  - intros [gf H]. apply match_sound in H as [v [rest [-> M]]].
    apply matches_alt_list in M as [r [Hin M]].
    apply list_elem_of_In, list_elem_of_fmap in Hin as [d [-> Hd]].
    apply matches_dir in M as [_ [[-> H]| ->]].
    + exists d. split; [exact Hd|]. left. eauto.
    + exists d. split; [exact Hd|]. right. exists rest.
      rewrite append_assoc. reflexivity.
  - intros [d [Hd [[nl [Hnl ->]]|[rest ->]]]].
    + apply (match_complete _ d nl []). apply matches_alt_list.
      exists (seq [lit d; alt [REol; chr "/"]]). split.
      * apply list_elem_of_In, list_elem_of_fmap. eauto.
      * apply matches_dir. auto.
    + change (d +:+ String "/" rest) with (d +:+ ("/" +:+ rest)).
      rewrite <- append_assoc.
      apply (match_complete _ (d +:+ "/") rest []). apply matches_alt_list.
      exists (seq [lit d; alt [REol; chr "/"]]). split.
      * apply list_elem_of_In, list_elem_of_fmap. eauto.
      * apply matches_dir. auto.
Qed.

End FilterFacts.

(** X21.  The filter of files to copy refuses a path exactly when its
    string is one of the two listed files, or names one of the listed
    directories or something below it, or ends with one of the extensions
    [.a], [.o], [.s], [.so], or ends like a shared library with a version
    ([.so] followed by one or more numbers, each after a dot); "ends" allows
    for one last newline, as the dollar of the patterns does. *)
Theorem allow_exact (path : Path) :
  OpenFilesFilter.allow path = false <->
  PurePath.to_str path ∈ OpenFilesFilter.ignore_file_list
  \/ (exists d, (d ∈ OpenFilesFilter.ignore_dir_list) /\
                Shape.under d (PurePath.to_str path))
  \/ (exists e, (e ∈ OpenFilesFilter.ignore_ext_list) /\
                Shape.ends_with e (PurePath.to_str path))
  \/ Shape.versioned_so (PurePath.to_str path).
Proof.
  unfold OpenFilesFilter.allow. cbv zeta.
  set (s := PurePath.to_str path).
  pose proof (FilterFacts.floating_search s) as Hf.
  pose proof (FilterFacts.anchored_match s) as Ha.
  unfold OpenFilesFilter.ignore_regex_search.
  destruct (bool_decide_reflect (s ∈ OpenFilesFilter.ignore_file_list)) as [Hin|Hnin];
    [tauto|].
  destruct (ReSearch.search _ s) as [g1|].
  - split; [intros _|reflexivity]. destruct (proj1 Hf) as [H|H]; eauto.
  - destruct (Re.match_ _ s) as [g2|].
    + split; [intros _|reflexivity]. right. left. apply Ha. eauto.
    + split; [discriminate|].
      intros [H|[H|[H|H]]]; [contradiction| | |].
      * apply Ha in H as [x Hx]. discriminate.
      * destruct (proj2 Hf (or_intror H)) as [x Hx]. discriminate.
      * destruct (proj2 Hf (or_introl H)) as [x Hx]. discriminate.
Qed.

(** The headers under [/usr/include] pass, object files and what is below
    [/proc] do not; neither does a directory whose name only begins like a
    listed one stop a file. *)
Example allow_examples :
  OpenFilesFilter.allow (PurePath.of_str "/usr/include/stdio.h") = true /\
  OpenFilesFilter.allow (PurePath.of_str "/b/a.c") = true /\
  OpenFilesFilter.allow (PurePath.of_str "/b/a.o") = false /\
  OpenFilesFilter.allow (PurePath.of_str "/usr/lib64/libc.so.6") = false /\
  OpenFilesFilter.allow (PurePath.of_str "/proc/self/maps") = false /\
  OpenFilesFilter.allow (PurePath.of_str "/etc") = false /\
  OpenFilesFilter.allow (PurePath.of_str "/devel/a.c") = true.
Proof. vm_compute. repeat split. Qed.
(** ** Recognising a compiler *)

(** The patterns of the matcher on some paths and version lines. *)
Example matcher_patterns_agree :
  let passes p :=
    (fun r => bool_decide (is_Some (ReSearch.search r p)))
      <$> CompilerMatch.prefilter_by_path_regex in
  let version l :=
    cid_version <$> CompilerMatch.id_version CompilerMatch.id_version_regex l in
  passes "/usr/bin/gcc" = [false; false; true] /\
  passes "gcc" = [false; false; false] /\
  passes "/usr/bin/x86_64-linux-gnu-g++-12.3" = [false; false; true] /\
  passes "/usr/bin/gcc-12/3" = [false; false; true] /\
  passes "/usr/bin/clang++" = [false; true; false] /\
  passes "/usr/bin/gcc:-12" = [false; false; true] /\
  passes "/usr/bin/cc1" = [false; false; false] /\
  passes "/opt/a/b-c/cc" = [false; false; true] /\
  passes "/usr/bin/gcc-12:x3" = [false; false; true] /\
  passes "/usr/bin/-cc" = [false; false; false] /\
  passes "/usr/bin/ccache" = [false; false; false] /\
  version "lcc:1.27.14:Jan-31-2024:e2k-v5-linux" = Some "1.27.14" /\
  version "Ubuntu clang version 20.1.2 (0ubuntu1)" = Some "20.1.2" /\
  version "g++-15 (Ubuntu 15-20250404-0ubuntu1) 15.0.1 20250404 (experimental)"
    = Some "15.0.1" /\
  version "gcc (GCC) 11.5.0 20240719 (Red Hat 11.5.0-5)" = Some "11.5.0" /\
  version "cc (GCC) 11.5.0" = None /\
  version "gcc (GCC) 11.5" = None /\
  version "gcc (a) (b) 1.2.3" = Some "1.2.3" /\
  version "gcc () 1.2.3" = None.
Proof. vm_compute. repeat split. Qed.

Module MatchFacts.
Import Re ReSearch ReSem ReFacts StrFacts Shape CompilerMatch.

Lemma matches_version3 v rest gs :
  matches version3 v rest gs -> version_of_three v.
Proof.
  change version3
    with (RSeq (plus digit) (RSeq (chr ".") (RSeq (plus digit)
            (RSeq (chr ".") (plus digit))))).
  intros M.
  apply matches_seq in M as [a [v1 [ga [g1 [-> [-> [Ma M]]]]]]].
  apply matches_seq in M as [d1 [v2 [gd1 [g2 [-> [-> [Md1 M]]]]]]].
  apply matches_seq in M as [b [v3 [gb [g3 [-> [-> [Mb M]]]]]]].
  apply matches_seq in M as [d2 [c [gd2 [gc [-> [-> [Md2 Mc]]]]]]].
  apply matches_plus_chars in Ma as [Ha1 [Ha2 _]].
  apply matches_plus_chars in Mb as [Hb1 [Hb2 _]].
  apply matches_plus_chars in Mc as [Hc1 [Hc2 _]].
  apply matches_chr in Md1 as [-> _]. apply matches_chr in Md2 as [-> _].
  exists a, b, c. repeat split; assumption.
Qed.

(** The group [version] of a match of a pattern that always binds it to
    three numbers. *)
Lemma group_version anchored r line m :
  search_with anchored r line = Some m ->
  always_binds "version" r = true ->
  group_bodies "version" r = [version3] ->
  version_of_three (default "" (group m "version")).
Proof.
  intros Hs Hb Hg.
  assert (M : exists v rest, matches r v rest m).
  { destruct anchored; cbn [search_with] in Hs.
    - apply match_sound in Hs as [v [rest [_ M]]]. eauto.
    - apply search_sound in Hs as [_ [v [rest [_ M]]]]. eauto. }
  destruct M as [v [rest M]].
  destruct (matches_always_binds "version" _ _ _ _ M Hb) as [x Hx].
  unfold group. rewrite Hx. cbn [default].
  apply dict_get_In in Hx.
  destruct (matches_group_body _ _ _ _ _ _ M Hx) as [r1 [rest1 [gs1 [Hin M1]]]].
  rewrite Hg in Hin. destruct Hin as [<-|[]].
  exact (matches_version3 _ _ _ M1).
Qed.

Lemma id_version_recognised line cid :
  id_version id_version_regex line = Some cid -> recognised cid.
Proof.
  unfold id_version_regex. cbn [id_version].
  repeat match goal with
         | |- context [match search_with ?a ?r line with _ => _ end] =>
             let E := fresh "E" in
             destruct (search_with a r line) eqn:E;
             [intros [= <-]; split; [|auto]; cbn [cid_version];
              exact (group_version _ _ _ _ E eq_refl eq_refl)|]
         end.
  intros [=].
Qed.

(** *** Numbers and versions *)

Lemma all_chars_occurs p c s :
  all_chars p s = true -> p c = false -> occurs c s = false.
Proof.
  intros Hall Hc. induction s as [|d s IH]; [reflexivity|].
  cbn in Hall |- *. apply andb_true_iff in Hall as [Hd Hs].
  rewrite (IH Hs). destruct (Ascii.eqb_spec d c); [congruence|reflexivity].
Qed.

Lemma all_digits_chars s : Spec.all_digits_from s = all_chars PyStr.is_digit s.
Proof. induction s as [|c s IH]; [reflexivity|]. cbn. rewrite IH. reflexivity. Qed.

Lemma number_integer d : number d -> Spec.is_integer d = true.
Proof.
  intros [Hne Hall]. unfold Spec.is_integer. rewrite all_digits_chars, Hall.
  destruct (String.eqb_spec d ""); [contradiction|reflexivity].
Qed.

Lemma number_no_dot d : number d -> occurs "." d = false.
Proof. intros [_ Hall]. apply (all_chars_occurs _ _ _ Hall). reflexivity. Qed.

Lemma version_of_three_dotted v :
  version_of_three v -> Spec.is_dotted_integers v = true.
Proof.
  intros [a [b [c [Ha [Hb [Hc ->]]]]]]. unfold Spec.is_dotted_integers.
  rewrite PathFacts.split_app_sep by exact (number_no_dot _ Ha).
  rewrite PathFacts.split_app_sep by exact (number_no_dot _ Hb).
  rewrite PathFacts.split_no_sep by exact (number_no_dot _ Hc).
  cbn [forallb]. rewrite !number_integer by assumption. reflexivity.
Qed.

(** *** The search for a slash *)

Lemma search_slash r path :
  is_Some (search (RSeq (chr "/") r) path) -> occurs "/" path = true.
Proof.
  intros [m H]. apply search_sound in H as [pre [v [rest [-> M]]]].
  apply matches_seq in M as [v1 [v2 [g1 [g2 [-> [_ [M1 _]]]]]]].
  apply matches_chr in M1 as [-> _].
  rewrite occurs_append, append_assoc, occurs_append.
  cbn. apply orb_true_r.
Qed.

Lemma prefilter_slash path :
  existsb (fun r => bool_decide (is_Some (search r path))) prefilter_by_path_regex = true ->
  occurs "/" path = true.
Proof.
  unfold prefilter_by_path_regex. cbn [existsb].
  rewrite !orb_true_iff, !bool_decide_eq_true.
  intros [H|[H|[H|H]]]; [| | |discriminate]; exact (search_slash _ _ H).
Qed.

(** *** The caches *)

Lemma match_negative answer path args arg0 c :
  args !! 0%nat = Some arg0 ->
  (path, arg0) ∈ id_version_ncache c ->
  match_ answer path args c = (Ok None, c).
Proof.
  intros Ha Hn. unfold match_. cbv zeta. rewrite Ha.
  rewrite bool_decide_eq_true_2 by exact Hn. reflexivity.
Qed.

Lemma match_positive answer path args arg0 c cid :
  args !! 0%nat = Some arg0 ->
  (path, arg0) ∉ id_version_ncache c ->
  id_version_cache c !! (path, arg0) = Some cid ->
  match_ answer path args c = (Ok (Some cid), c).
Proof.
  intros Ha Hn Hc. unfold match_. cbv zeta. rewrite Ha.
  rewrite bool_decide_eq_false_2 by exact Hn. rewrite Hc. reflexivity.
Qed.

(** *** Answers are kept *)

Lemma match_answers answer path args arg0 c r c' :
  args !! 0%nat = Some arg0 ->
  match_ answer path args c = (Ok r, c') ->
  answered c' (path, arg0) r.
Proof.
  intros Ha H. unfold match_ in H. cbv zeta in H. rewrite Ha in H.
  destruct (bool_decide_reflect ((path, arg0) ∈ id_version_ncache c)) as [Hn|Hn].
  { injection H as <- <-. left. auto. }
  destruct (id_version_cache c !! (path, arg0)) as [cid0|] eqn:Ecache.
  { injection H as <- <-. right. eauto. }
  assert (Hneg :
            (Ok None,
             mkCaches ({[(path, arg0)]} ∪ id_version_ncache c) (id_version_cache c))
            = (Ok r, c') -> answered c' (path, arg0) r).
  { intros [= <- <-]. left. cbn [id_version_ncache]. split; [set_solver|reflexivity]. }
  destruct (negb (existsb _ _)); [exact (Hneg H)|].
  destruct answer as [[returncode stdout]|]; [|exact (Hneg H)].
  destruct (negb (returncode =? 0)); [exact (Hneg H)|].
  destruct (first_line stdout) as [line|]; [|discriminate].
  destruct (id_version _ line) as [cid1|]; [|exact (Hneg H)].
  injection H as <- <-. right. cbn [id_version_ncache id_version_cache].
  split; [exact Hn|]. exists cid1. split; [apply lookup_insert_eq|reflexivity].
Qed.

(** No call forgets an answer: the caches only grow, and a key that has
    an answer is never written again. *)
Lemma match_keeps answer path args c k r :
  answered c k r -> answered (snd (match_ answer path args c)) k r.
Proof.
  intros Hk. unfold match_. cbv zeta.
  destruct (args !! 0%nat) as [arg0|]; [|exact Hk].
  destruct (bool_decide_reflect ((path, arg0) ∈ id_version_ncache c)) as [Hn|Hn];
    [exact Hk|].
  destruct (id_version_cache c !! (path, arg0)) as [cid0|] eqn:Ecache; [exact Hk|].
  assert (Hne : k <> (path, arg0)).
  { intros ->. destruct Hk as [[Hin _]|[_ [cid [Hc _]]]]; [contradiction|congruence]. }
  assert (Hneg : answered
                   (mkCaches ({[(path, arg0)]} ∪ id_version_ncache c)
                             (id_version_cache c)) k r).
  { destruct Hk as [[Hin ->]|[Hnin [cid [Hc ->]]]].
    - left. cbn [id_version_ncache]. split; [set_solver|reflexivity].
    - right. cbn [id_version_ncache id_version_cache]. split; [|eauto].
      rewrite elem_of_union, elem_of_singleton. intros [Hk|Hk]; [congruence|contradiction]. }
  destruct (negb (existsb _ _)); [exact Hneg|].
  destruct answer as [[returncode stdout]|]; [|exact Hneg].
  destruct (negb (returncode =? 0)); [exact Hneg|].
  destruct (first_line stdout) as [line|]; [|exact Hk].
  destruct (id_version _ line) as [cid1|]; [|exact Hneg].
  cbn [snd]. destruct Hk as [[Hin ->]|[Hnin [cid [Hc ->]]]].
  - left. cbn [id_version_ncache]. auto.
  - right. cbn [id_version_ncache id_version_cache]. split; [exact Hnin|].
    exists cid. split; [|reflexivity].
    rewrite lookup_insert_ne by congruence. exact Hc.
Qed.

Lemma match_all_keeps calls : forall c k r,
  answered c k r -> answered (match_all calls c) k r.
Proof.
  induction calls as [|[[answer path] args] calls IH]; intros c k r Hk; [exact Hk|].
  cbn [match_all]. apply IH, match_keeps, Hk.
Qed.

Lemma match_answered answer path args arg0 c r :
  args !! 0%nat = Some arg0 ->
  answered c (path, arg0) r ->
  match_ answer path args c = (Ok r, c).
Proof.
  intros Ha [[Hin ->]|[Hnin [cid [Hc ->]]]].
  - exact (match_negative _ _ _ _ _ Ha Hin).
  - exact (match_positive _ _ _ _ _ _ Ha Hnin Hc).
Qed.

End MatchFacts.

(** X22.  Whatever the executable answers, a compiler that the matcher
    returns is lcc of the gcc family, clang or gcc, with a version made of
    three numbers separated by dots; so is every compiler it keeps in its
    cache. *)
Theorem match_recognised
        (answer : option (Z * string)) (path : string) (args : list string)
        (c c' : CompilerMatch.caches) (r : result (option CompilerId)) :
  Shape.sound_caches c ->
  CompilerMatch.match_ answer path args c = (r, c') ->
  Shape.sound_caches c' /\
  forall cid, r = Ok (Some cid) -> Shape.recognised cid.
Proof.
  intros Hc. unfold CompilerMatch.match_. cbv zeta.
  destruct (args !! 0%nat) as [arg0|]; [|intros [= <- <-]; split; [exact Hc|discriminate]].
  destruct (bool_decide _); [intros [= <- <-]; split; [exact Hc|discriminate]|].
  destruct (CompilerMatch.id_version_cache c !! (path, arg0)) as [cid0|] eqn:Ecache.
  { intros [= <- <-]. split; [exact Hc|]. intros cid [= <-].
    exact (Hc _ _ Ecache). }
  assert (Hneg : forall r0 c0,
            (Ok None,
             CompilerMatch.mkCaches ({[(path, arg0)]} ∪ CompilerMatch.id_version_ncache c)
                                    (CompilerMatch.id_version_cache c)) = (r0, c0) ->
            Shape.sound_caches c0 /\ forall cid, r0 = Ok (Some cid) -> Shape.recognised cid).
  { intros r0 c0 [= <- <-]. split; [exact Hc|discriminate]. }
  destruct (negb (existsb _ _)); [apply Hneg|].
  destruct answer as [[returncode stdout]|]; [|apply Hneg].
  destruct (negb (returncode =? 0)); [apply Hneg|].
  destruct (CompilerMatch.first_line stdout) as [line|];
    [|intros [= <- <-]; split; [exact Hc|discriminate]].
  destruct (CompilerMatch.id_version _ line) as [cid1|] eqn:Eid; [|apply Hneg].
  intros [= <- <-]. pose proof (MatchFacts.id_version_recognised _ _ Eid) as Hrec.
  split.
  - unfold Shape.sound_caches. cbn [CompilerMatch.id_version_cache].
    apply map_Forall_insert_2; [exact Hrec|exact Hc].
  - intros cid [= <-]. exact Hrec.
Qed.

Lemma match_recognised_witness :
  Shape.sound_caches
    (snd (CompilerMatch.match_ MoreExamples.gcc_answer "/usr/bin/gcc" ["gcc"; "a.c"]
            MoreExamples.no_caches)) /\
  forall cid,
    fst (CompilerMatch.match_ MoreExamples.gcc_answer "/usr/bin/gcc" ["gcc"; "a.c"]
           MoreExamples.no_caches) = Ok (Some cid) ->
    Shape.recognised cid.
Proof.
  apply (match_recognised MoreExamples.gcc_answer "/usr/bin/gcc" ["gcc"; "a.c"]
           MoreExamples.no_caches).
  - apply map_Forall_empty.
  - apply surjective_pairing.
Defined.

(** The first line of what gcc answers gives its version. *)
Example match_gcc_11_5 :
  fst (CompilerMatch.match_ MoreExamples.gcc_answer "/usr/bin/gcc" ["gcc"; "a.c"]
         MoreExamples.no_caches) = Ok (Some Examples.gcc_11_5).
Proof. vm_compute. reflexivity. Qed.

(** X23.  What the matcher recognises, the tables serve: for such a
    compiler the default standard of either language is found, the table
    of [-ansi] standards has a row, its version compares with any other
    version of dotted numbers, and the preprocessor rewrite knows one of
    its ids. *)
Theorem recognised_compiler_served (cid : CompilerId) (lang : Language.ID) :
  Shape.recognised cid ->
  (exists s, CompilerMatcher.get_default_std cid lang = Ok s) /\
  (exists o, CompilerMatcher.get_ansi_std cid lang = Ok o) /\
  (exists id, (id ∈ ids cid) /\ (id ∈ CompilerMatcher.known_preprocessors)) /\
  Spec.is_dotted_integers (cid_version cid) = true.
Proof.
  intros [Hv Hid].
  pose proof (MatchFacts.version_of_three_dotted _ Hv) as Hd.
  destruct (VersionFacts.versiontuple_ok _ Hd) as [tv Htv].
  assert (Hdata : exists data,
            dict_get (cid_id cid) CompilerMatcher.std_default = Some data).
  { destruct Hid as [[-> _]|[[-> _]|[-> _]]]; eexists; reflexivity. }
  destruct Hdata as [data Hdata].
  split.
  { destruct (DefaultStdFacts.get_default_std_ok cid lang data tv Hdata Htv)
      as [row [s [Hs _]]]. eauto. }
  split; [exact (MetadataFacts.get_ansi_std_ok cid lang data Hdata)|].
  split; [|exact Hd].
  unfold ids, CompilerMatcher.known_preprocessors.
  destruct Hid as [[-> ->]|[[-> ->]|[-> ->]]]; eexists;
    (split; [apply list_elem_of_here|]); rewrite !elem_of_cons; auto.
Qed.

Lemma recognised_compiler_served_witness :
  (exists s, CompilerMatcher.get_default_std Examples.gcc_11_5 Language.C = Ok s) /\
  (exists o, CompilerMatcher.get_ansi_std Examples.gcc_11_5 Language.C = Ok o) /\
  (exists id, (id ∈ ids Examples.gcc_11_5) /\
              (id ∈ CompilerMatcher.known_preprocessors)) /\
  Spec.is_dotted_integers (cid_version Examples.gcc_11_5) = true.
Proof.
  apply (recognised_compiler_served Examples.gcc_11_5 Language.C).
  split; [|right; right; split; reflexivity].
  exists "11", "5", "0". unfold Shape.number.
  repeat split; try discriminate; reflexivity.
Defined.

(** X24.  The matcher remembers its answers: once it has answered for an
    executable and a first argument, every later call for them, after any
    calls made in between for these or other executables, gives the same
    answer whatever the executable would answer now, and leaves the caches
    as they are. *)
Theorem match_remembers
        (answer answer' : option (Z * string)) (path : string) (args args' : list string)
        (between : list (option (Z * string) * string * list string))
        (c c' : CompilerMatch.caches) (r : option CompilerId) :
  CompilerMatch.match_ answer path args c = (Ok r, c') ->
  args' !! 0%nat = args !! 0%nat ->
  CompilerMatch.match_ answer' path args' (CompilerMatch.match_all between c')
  = (Ok r, CompilerMatch.match_all between c').
Proof.
  intros H Ha.
  destruct (args !! 0%nat) as [arg0|] eqn:Harg0.
  - apply (MatchFacts.match_answered _ _ _ arg0); [exact Ha|].
    apply MatchFacts.match_all_keeps.
    exact (MatchFacts.match_answers _ _ _ _ _ _ _ Harg0 H).
  - unfold CompilerMatch.match_ in H. rewrite Harg0 in H. discriminate.
Qed.

Lemma match_remembers_witness :
  let c' := snd (CompilerMatch.match_ MoreExamples.gcc_answer "/usr/bin/gcc"
                   ["gcc"; "a.c"] MoreExamples.no_caches) in
  let between := [ (None, "/usr/bin/clang", ["clang"; "x.c"]);
                   (Some (1, ""), "/usr/bin/gcc", ["cc"; "y.c"]);
                   (None, "/usr/bin/gcc", ["gcc"; "z.c"]) ] in
  CompilerMatch.match_ None "/usr/bin/gcc" ["gcc"; "b.c"]
    (CompilerMatch.match_all between c')
  = (Ok (Some Examples.gcc_11_5), CompilerMatch.match_all between c').
Proof.
  cbv zeta.
  apply (match_remembers MoreExamples.gcc_answer None "/usr/bin/gcc"
           ["gcc"; "a.c"] ["gcc"; "b.c"] _ MoreExamples.no_caches).
  - rewrite (surjective_pairing (CompilerMatch.match_ _ _ _ _)) at 1.
    f_equal; vm_compute; reflexivity.
  - reflexivity.
Defined.

(** X25.  An executable whose path holds no slash is never taken for a
    compiler, and is not asked for its version: unless the caches already
    hold an answer, the matcher returns [None] whatever the answer would
    be. *)
Theorem match_needs_slash
        (answer : option (Z * string)) (path arg0 : string) (args : list string)
        (c : CompilerMatch.caches) :
  Shape.occurs "/" path = false ->
  args !! 0%nat = Some arg0 ->
  CompilerMatch.id_version_cache c !! (path, arg0) = None ->
  exists c', CompilerMatch.match_ answer path args c = (Ok None, c').
Proof.
  intros Hs Ha Hc. unfold CompilerMatch.match_. cbv zeta. rewrite Ha, Hc.
  destruct (bool_decide _); [eauto|].
  destruct (existsb _ _) eqn:E; [|cbn; eauto].
  apply MatchFacts.prefilter_slash in E. congruence.
Qed.

Lemma match_needs_slash_witness :
  exists c',
    CompilerMatch.match_ MoreExamples.gcc_answer "gcc" ["gcc"; "a.c"]
      MoreExamples.no_caches = (Ok None, c').
Proof.
  apply (match_needs_slash MoreExamples.gcc_answer "gcc" "gcc" ["gcc"; "a.c"]
           MoreExamples.no_caches).
  - reflexivity.
  - reflexivity.
  - apply lookup_empty.
Defined.
(** ** Running rpmbuild under the tracer *)

Module RpmbuildFacts.
Import Rpmbuild.

Lemma noclean_not_clean x : noclean x <> "--clean".
Proof.
  unfold noclean. destruct (String.eqb_spec "--clean" x); [discriminate|congruence].
Qed.

Lemma noclean_absent (l : list string) : "--clean" ∉ noclean <$> l.
Proof.
  intros H. apply list_elem_of_fmap in H as [x [Hx _]].
  symmetry in Hx. exact (noclean_not_clean x Hx).
Qed.

Lemma noclean_present (l : list string) : "--clean" ∈ l -> "--noclean" ∈ noclean <$> l.
Proof. intros H. apply list_elem_of_fmap. exists "--clean". auto. Qed.

(** The other arguments are what they were. *)
Lemma noclean_others (l : list string) :
  List.filter (fun x => negb (String.eqb x "--noclean")) (noclean <$> l)
  = List.filter (fun x => negb (String.eqb x "--clean") && negb (String.eqb x "--noclean")) l.
Proof.
  induction l as [|x l IH]; [reflexivity|]. cbn [fmap list_fmap List.filter].
  change (list_fmap _ _ noclean l) with (noclean <$> l). rewrite IH.
  unfold noclean at 1 2.
  destruct (String.eqb_spec "--clean" x) as [<-|Hne]; [reflexivity|].
  destruct (String.eqb_spec x "--clean") as [->|_]; [congruence|]. reflexivity.
Qed.

Lemma no_clean_others (l : list string) :
  "--clean" ∉ l ->
  List.filter (fun x => negb (String.eqb x "--noclean")) l
  = List.filter (fun x => negb (String.eqb x "--clean") && negb (String.eqb x "--noclean")) l.
Proof.
  intros H. apply filter_ext_in. intros x Hx.
  destruct (String.eqb_spec x "--clean") as [->|_]; [|reflexivity].
  exfalso. apply H, list_elem_of_In, Hx.
Qed.

End RpmbuildFacts.

(** X26.  The arguments given to rpmbuild under the tracer never hold
    [--clean] and always hold [--noclean]; but for these two options they
    are the arguments of the user, in their order; and computing them from
    themselves changes nothing. *)
Theorem rpmbuild_args_strace_noclean (rpmbuild_args : list string) :
  ("--clean" ∉ Rpmbuild.rpmbuild_args_strace rpmbuild_args)
  /\
  ("--noclean" ∈ Rpmbuild.rpmbuild_args_strace rpmbuild_args)
  /\
  List.filter (fun x => negb (String.eqb x "--noclean"))
              (Rpmbuild.rpmbuild_args_strace rpmbuild_args)
  = List.filter (fun x => negb (String.eqb x "--clean") && negb (String.eqb x "--noclean"))
                rpmbuild_args
  /\
  Rpmbuild.rpmbuild_args_strace (Rpmbuild.rpmbuild_args_strace rpmbuild_args)
  = Rpmbuild.rpmbuild_args_strace rpmbuild_args.
Proof.
  assert (Hfix : forall l, "--clean" ∉ l -> "--noclean" ∈ l ->
                           Rpmbuild.rpmbuild_args_strace l = l).
  { intros l H1 H2. unfold Rpmbuild.rpmbuild_args_strace. cbv zeta.
    rewrite (bool_decide_eq_false_2 _ H1), (bool_decide_eq_true_2 _ H2). reflexivity. }
  assert (H : ("--clean" ∉ Rpmbuild.rpmbuild_args_strace rpmbuild_args) /\
              ("--noclean" ∈ Rpmbuild.rpmbuild_args_strace rpmbuild_args) /\
              List.filter (fun x => negb (String.eqb x "--noclean"))
                          (Rpmbuild.rpmbuild_args_strace rpmbuild_args)
              = List.filter
                  (fun x => negb (String.eqb x "--clean") && negb (String.eqb x "--noclean"))
                  rpmbuild_args).
  { unfold Rpmbuild.rpmbuild_args_strace. cbv zeta.
    destruct (bool_decide_reflect ("--clean" ∈ rpmbuild_args)) as [Hc|Hc].
    - rewrite (bool_decide_eq_true_2 _ (RpmbuildFacts.noclean_present _ Hc)).
      split; [apply RpmbuildFacts.noclean_absent|].
      split; [apply RpmbuildFacts.noclean_present, Hc|apply RpmbuildFacts.noclean_others].
    - destruct (bool_decide_reflect ("--noclean" ∈ rpmbuild_args)) as [Hn|Hn].
      + split; [exact Hc|]. split; [exact Hn|apply RpmbuildFacts.no_clean_others, Hc].
      + split; [rewrite elem_of_cons; intros [?|?]; [discriminate|contradiction]|].
        split; [apply list_elem_of_here|].
        cbn [List.filter String.eqb Ascii.eqb Bool.eqb negb].
        apply RpmbuildFacts.no_clean_others, Hc. }
  destruct H as [H1 [H2 H3]]. split; [exact H1|]. split; [exact H2|].
  split; [exact H3|exact (Hfix _ H1 H2)].
Qed.
(** ** Preprocessing a compiler call *)

Module PreprocessFacts.
Import Preprocess Shape StrFacts.

(** *** The encoding *)

Lemma code_bound c : (PyStr.code c < 256)%nat.
Proof. apply nat_ascii_bounded. Qed.

Lemma code_of_nat n : (n < 256)%nat -> PyStr.code (ascii_of_nat n) = n.
Proof. apply nat_ascii_embedding. Qed.

Lemma code_inj c d : PyStr.code c = PyStr.code d -> c = d.
Proof.
  unfold PyStr.code. intros H.
  rewrite <- (ascii_nat_embedding c), <- (ascii_nat_embedding d), H. reflexivity.
Qed.

Lemma encode_cons c s : encode (String c s) = encode_char c +:+ encode s.
Proof. reflexivity. Qed.

Lemma string_cons_inj a b s t : String a s = String b t -> a = b /\ s = t.
Proof. intros [= -> ->]. auto. Qed.

(** The first byte of a character tells how many bytes follow, and the
    bytes give the character back. *)
Lemma encode_char_inj c d s t :
  encode_char c +:+ s = encode_char d +:+ t -> c = d /\ s = t.
Proof.
  unfold encode_char. cbv zeta.
  pose proof (code_bound c) as Hc. pose proof (code_bound d) as Hd.
  assert (Hc1 : (PyStr.code c / 64 < 4)%nat) by (apply Nat.Div0.div_lt_upper_bound; lia).
  assert (Hd1 : (PyStr.code d / 64 < 4)%nat) by (apply Nat.Div0.div_lt_upper_bound; lia).
  assert (Hc2 : (PyStr.code c mod 64 < 64)%nat) by (apply Nat.mod_upper_bound; lia).
  assert (Hd2 : (PyStr.code d mod 64 < 64)%nat) by (apply Nat.mod_upper_bound; lia).
  destruct (Nat.ltb_spec (PyStr.code c) 128), (Nat.ltb_spec (PyStr.code d) 128);
    rewrite ?append_cons; change ("" +:+ ?x) with x; intros E.
  - injection E as -> ->. auto.
  - apply string_cons_inj in E as [E1 _]. apply (f_equal PyStr.code) in E1.
    rewrite code_of_nat in E1 by lia. lia.
  - apply string_cons_inj in E as [E1 _]. apply (f_equal PyStr.code) in E1.
    rewrite code_of_nat in E1 by lia. lia.
  - apply string_cons_inj in E as [E1 E]. apply string_cons_inj in E as [E2 ->].
    split; [|reflexivity].
    apply (f_equal PyStr.code) in E1, E2.
    rewrite !code_of_nat in E1, E2 by lia.
    apply code_inj.
    rewrite (Nat.div_mod_eq (PyStr.code c) 64), (Nat.div_mod_eq (PyStr.code d) 64). lia.
Qed.

Lemma encode_inj s : forall t, encode s = encode t -> s = t.
Proof.
  induction s as [|c s IH]; intros [|d t]; rewrite ?encode_cons.
  - reflexivity.
  - unfold encode_char. cbv zeta. destruct (_ <? _)%nat; discriminate.
  - unfold encode_char. cbv zeta. destruct (_ <? _)%nat; discriminate.
  - intros E. apply encode_char_inj in E as [-> E]. f_equal. apply IH, E.
Qed.

Lemma encode_nul_free s : nul_free s -> nul_free (encode s).
Proof.
  unfold nul_free. induction s as [|c s IH]; [reflexivity|].
  cbn [occurs]. rewrite encode_cons, occurs_append. intros H.
  apply orb_false_iff in H as [Hc Hs]. rewrite (IH Hs), orb_false_r.
  unfold encode_char. cbv zeta. pose proof (code_bound c) as Hb.
  assert (Hc1 : (PyStr.code c / 64 < 4)%nat) by (apply Nat.Div0.div_lt_upper_bound; lia).
  assert (Hc2 : (PyStr.code c mod 64 < 64)%nat) by (apply Nat.mod_upper_bound; lia).
  assert (Hz : forall n, (0 < n < 256)%nat -> Ascii.eqb (ascii_of_nat n) "000" = false).
  { intros n Hn. destruct (Ascii.eqb_spec (ascii_of_nat n) "000") as [E|]; [|reflexivity].
    apply (f_equal PyStr.code) in E. rewrite code_of_nat in E by lia.
    change (PyStr.code "000") with 0%nat in E. lia. }
  destruct (_ <? _)%nat; cbn [occurs]; [rewrite Hc; reflexivity|].
  rewrite !Hz by lia. reflexivity.
Qed.

(** *** Fields *)

Lemma field_inj x : forall y r r',
  nul_free x -> nul_free y ->
  x +:+ nul +:+ r = y +:+ nul +:+ r' -> x = y /\ r = r'.
Proof.
  unfold nul_free, nul.
  induction x as [|c x IH]; intros [|d y] r r' Hx Hy; rewrite ?append_cons;
    change ("" +:+ ?s) with s; rewrite ?append_cons; change ("" +:+ ?s) with s;
    cbn [occurs] in Hx, Hy; intros E.
  - injection E as ->. auto.
  - injection E as <- _. rewrite Ascii.eqb_refl in Hy. discriminate.
  - injection E as -> _. rewrite Ascii.eqb_refl in Hx. discriminate.
  - injection E as -> E. apply orb_false_iff in Hx as [_ Hx], Hy as [_ Hy].
    destruct (IH y r r' Hx Hy E) as [-> ->]. auto.
Qed.

Lemma fields_inj l : forall l',
  Forall nul_free l -> Forall nul_free l' -> fields l = fields l' -> l = l'.
Proof.
  induction l as [|x l IH]; intros [|y l'] Hl Hl'; cbn [fields].
  - reflexivity.
  - destruct y; unfold nul; rewrite ?append_cons; discriminate.
  - destruct x; unfold nul; rewrite ?append_cons; discriminate.
  - intros E. apply Forall_cons in Hl as [Hx Hl], Hl' as [Hy Hl'].
    apply field_inj in E as [-> E]; [|assumption|assumption].
    f_equal. apply IH; assumption.
Qed.

Lemma hash_args_fields l : hash_args l = fields (encode <$> l).
Proof.
  induction l as [|a l IH]; [reflexivity|].
  cbn [hash_args fmap list_fmap fields]. rewrite IH. reflexivity.
Qed.

Lemma fields_app l1 l2 : fields (l1 ++ l2) = fields l1 +:+ fields l2.
Proof.
  induction l1 as [|a l1 IH]; [reflexivity|]. cbn [app fields].
  rewrite IH, !append_assoc. reflexivity.
Qed.

(** What the hash is fed with, as a list of fields. *)
Lemma hash_input_fields command source :
  hash_input command source
  = fields ([ encode (PurePath.to_str (cwd command));
              encode (cid_id (compiler command));
              encode (default "" (cid_like (compiler command)));
              encode (executable command) ]
            ++ (encode <$> args command)
            ++ [""; ""; encode source; ""]).
Proof.
  assert (Hl : match cid_like (compiler command) with
               | Some like => if String.eqb like "" then "" else encode like
               | None => ""
               end = encode (default "" (cid_like (compiler command)))).
  { destruct (cid_like (compiler command)) as [l|]; [|reflexivity].
    destruct (String.eqb_spec l "") as [->|]; reflexivity. }
  unfold hash_input. rewrite Hl, hash_args_fields.
  cbn [app fields]. rewrite fields_app. cbn [fields].
  rewrite !append_nil_l, append_nil_r. reflexivity.
Qed.

Lemma Forall_encode (l : list string) : Forall nul_free l -> Forall nul_free (encode <$> l).
Proof.
  intros H. apply Forall_fmap. eapply Forall_impl; [exact H|].
  intros x Hx. apply encode_nul_free, Hx.
Qed.

Lemma fmap_encode_inj (l : list string) : forall l', encode <$> l = encode <$> l' -> l = l'.
Proof.
  induction l as [|x l IH]; intros [|y l']; cbn; try discriminate; [reflexivity|].
  intros [= E1 E2]. f_equal; [apply encode_inj, E1|apply IH, E2].
Qed.

End PreprocessFacts.

(** X27.  The bytes given to the hash that names a preprocessed file
    tell apart any two pairs of a command and a source: when they are
    equal, the two commands have the same directory, compiler id, family,
    executable and arguments, and the sources are the same.  (The strings
    hold no zero character; the version of the compiler is not hashed, and
    no family counts as an empty one.) *)
Theorem hash_input_injective
        (c1 c2 : CompilerCommand) (s1 s2 : string) :
  Shape.hashable c1 s1 -> Shape.hashable c2 s2 ->
  Preprocess.hash_input c1 s1 = Preprocess.hash_input c2 s2 ->
  cwd c1 = cwd c2 /\
  cid_id (compiler c1) = cid_id (compiler c2) /\
  default "" (cid_like (compiler c1)) = default "" (cid_like (compiler c2)) /\
  executable c1 = executable c2 /\
  args c1 = args c2 /\
  s1 = s2.
Proof.
  intros [N1 [Hw1 [Hi1 [Hl1 [He1 [Ha1 Hs1]]]]]] [N2 [Hw2 [Hi2 [Hl2 [He2 [Ha2 Hs2]]]]]] E.
  rewrite !PreprocessFacts.hash_input_fields in E.
  apply PreprocessFacts.fields_inj in E.
  - cbn [app] in E. injection E as Ew Ei El Ee Er.
    apply app_inj_2 in Er as [Ea Es]; [|reflexivity].
    injection Es as Es.
    apply PreprocessFacts.encode_inj in Ew, Ei, El, Ee, Es.
    apply PreprocessFacts.fmap_encode_inj in Ea.
    split; [|auto].
    rewrite <- (PathFacts.of_str_to_str _ N1), <- (PathFacts.of_str_to_str _ N2), Ew.
    reflexivity.
  - repeat (apply Forall_cons; split; [apply PreprocessFacts.encode_nul_free; assumption|]).
    apply Forall_app. split; [apply PreprocessFacts.Forall_encode, Ha1|].
    repeat (apply Forall_cons; split;
            [first [reflexivity|apply PreprocessFacts.encode_nul_free; assumption]|]).
    constructor.
  - repeat (apply Forall_cons; split; [apply PreprocessFacts.encode_nul_free; assumption|]).
    apply Forall_app. split; [apply PreprocessFacts.Forall_encode, Ha2|].
    repeat (apply Forall_cons; split;
            [first [reflexivity|apply PreprocessFacts.encode_nul_free; assumption]|]).
    constructor.
Qed.

Lemma hash_input_injective_witness :
  cwd Examples.gcc_o2 = cwd Examples.gcc_o2 /\
  cid_id (compiler Examples.gcc_o2) = cid_id (compiler Examples.gcc_o2) /\
  default "" (cid_like (compiler Examples.gcc_o2))
  = default "" (cid_like (compiler Examples.gcc_o2)) /\
  executable Examples.gcc_o2 = executable Examples.gcc_o2 /\
  args Examples.gcc_o2 = args Examples.gcc_o2 /\
  "a.c" = "a.c".
Proof.
  assert (H : Shape.hashable Examples.gcc_o2 "a.c").
  { unfold Shape.hashable, Shape.nul_free. cbn [args Examples.gcc_o2].
    repeat split; try (vm_compute; reflexivity).
    repeat (constructor; [vm_compute; reflexivity|]). constructor. }
  exact (hash_input_injective Examples.gcc_o2 Examples.gcc_o2 "a.c" "a.c" H H eq_refl).
Defined.

Module StagingFacts.
Import Preprocess Shape StrFacts PurePath.

Lemma of_str_clean x : clean_part x = true -> of_str x = mkPath "" [x].
Proof.
  intros Hx.
  assert (Hn : normal (mkPath "" [x]) = true).
  { unfold normal. cbn [root parts forallb]. rewrite Hx. reflexivity. }
  rewrite <- (PathFacts.of_str_to_str _ Hn) at 1. reflexivity.
Qed.

Lemma fold_join_clean l : forall acc,
  forallb clean_part l = true ->
  fold_left join (of_str <$> l) (mkPath "" acc) = mkPath "" (acc ++ l).
Proof.
  induction l as [|x l IH]; intros acc Hl.
  - cbn. rewrite app_nil_r. reflexivity.
  - cbn [forallb] in Hl. apply andb_true_iff in Hl as [Hx Hl].
    cbn [fmap list_fmap fold_left]. rewrite (of_str_clean _ Hx).
    unfold join at 2. cbn [root parts String.eqb].
    change (list_fmap _ _ of_str l) with (of_str <$> l).
    rewrite (IH _ Hl), <- app_assoc. reflexivity.
Qed.

Lemma of_segments_clean l :
  forallb clean_part l = true -> of_segments l = mkPath "" l.
Proof. intros Hl. unfold of_segments. exact (fold_join_clean l [] Hl). Qed.

(** *** Names that end with [.i] *)

Lemma append_inj_r x1 : forall x2 y1 y2,
  x1 +:+ y1 = x2 +:+ y2 -> String.length y1 = String.length y2 -> y1 = y2.
Proof.
  induction x1 as [|c x1 IH]; intros [|d x2] y1 y2 E Hl;
    rewrite ?append_cons, ?append_nil_l in E.
  - exact E.
  - apply (f_equal String.length) in E. cbn [String.length] in E.
    rewrite length_append in E. lia.
  - apply (f_equal String.length) in E. cbn [String.length] in E.
    rewrite length_append in E. lia.
  - injection E as _ E. exact (IH _ _ _ E Hl).
Qed.

Lemma dot_i_not_source q : CompilerMatcher.is_source_arg (q +:+ ".i") = false.
Proof.
  destruct (CompilerMatcher.is_source_arg (q +:+ ".i")) eqn:E; [|reflexivity].
  unfold CompilerMatcher.is_source_arg in E.
  rewrite SourceFacts.source_ext_six in E. apply bool_decide_eq_true in E.
  pose proof (PathFacts.splitext_concat (q +:+ ".i")) as Hc.
  set (stem := fst (PosixPath.splitext (q +:+ ".i"))) in *.
  set (ext := snd (PosixPath.splitext (q +:+ ".i"))) in *.
  assert (Hs : forall a b, ext = a +:+ b -> String.length b = 2%nat -> b = ".i").
  { intros a b -> Hb. rewrite <- append_assoc in Hc.
    exact (append_inj_r _ _ _ _ Hc Hb). }
  rewrite !elem_of_cons, elem_of_nil in E.
  destruct E as [E|[E|[E|[E|[E|[E|[]]]]]]].
  - specialize (Hs "" ".c" E eq_refl). discriminate.
  - specialize (Hs "" ".C" E eq_refl). discriminate.
  - specialize (Hs ".c" "++" E eq_refl). discriminate.
  - specialize (Hs "." "cc" E eq_refl). discriminate.
  - specialize (Hs ".c" "pp" E eq_refl). discriminate.
  - specialize (Hs ".c" "xx" E eq_refl). discriminate.
Qed.

Lemma join_parts_snoc l x :
  exists q, join_parts (l ++ [x]) = q +:+ x.
Proof.
  induction l as [|y l [q IH]].
  - exists "". reflexivity.
  - cbn [app]. rewrite PathFacts.join_parts_cons.
    destruct (l ++ [x]) as [|z l'] eqn:E; [destruct l; discriminate|].
    rewrite IH. exists (y +:+ String "/" q).
    rewrite append_assoc, append_cons. reflexivity.
Qed.

Lemma to_str_snoc r l x : exists q, to_str (mkPath r (l ++ [x])) = q +:+ x.
Proof.
  destruct (join_parts_snoc l x) as [q Hq].
  unfold to_str. cbn [root parts]. exists (r +:+ q).
  destruct r; [destruct (l ++ [x]) eqn:E; [destruct l; discriminate|]|];
    rewrite Hq, append_assoc; reflexivity.
Qed.

End StagingFacts.

(** X28.  A file that a compiler opened is copied below the directory
    [root] of the output directory, under the components of its own path:
    all of them when the path has a root, all but the first one when it has
    none. *)
Theorem copy_dst_mirrors (output_dir src : Path) :
  Shape.normal src = true ->
  Preprocess.copy_dst output_dir src
  = mkPath (root output_dir)
           (parts output_dir ++ "root" ::
              (if String.eqb (root src) "" then drop 1 (parts src) else parts src)).
Proof.
  intros Hn. unfold Preprocess.copy_dst, Preprocess.path_parts.
  assert (Hparts : forallb Shape.clean_part (parts src) = true).
  { unfold Shape.normal in Hn. apply andb_true_iff in Hn. tauto. }
  assert (Hseg : forall l, forallb Shape.clean_part l = true ->
            PurePath.join (PurePath.join output_dir (PurePath.of_str "root"))
                          (Preprocess.of_segments l)
            = mkPath (root output_dir) (parts output_dir ++ "root" :: l)).
  { intros l Hl. rewrite (StagingFacts.of_segments_clean _ Hl).
    change (PurePath.of_str "root") with (mkPath "" ["root"]).
    unfold PurePath.join. cbn [root parts String.eqb].
    rewrite <- app_assoc. reflexivity. }
  destruct (String.eqb (root src) "").
  - apply Hseg. destruct (parts src) as [|x l]; [reflexivity|].
    cbn [drop]. cbn [forallb] in Hparts. apply andb_true_iff in Hparts. tauto.
  - cbn [drop]. apply Hseg, Hparts.
Qed.

Lemma copy_dst_mirrors_witness :
  Preprocess.copy_dst (PurePath.of_str "/out") (PurePath.of_str "/b/sub/a.c")
  = mkPath (root (PurePath.of_str "/out"))
           (parts (PurePath.of_str "/out") ++ "root" ::
              (if String.eqb (root (PurePath.of_str "/b/sub/a.c")) ""
               then drop 1 (parts (PurePath.of_str "/b/sub/a.c"))
               else parts (PurePath.of_str "/b/sub/a.c"))).
Proof.
  apply (copy_dst_mirrors (PurePath.of_str "/out") (PurePath.of_str "/b/sub/a.c")).
  vm_compute. reflexivity.
Defined.

(** X29.  The file a source is preprocessed into is never itself taken
    for a source: whatever the output directory and the digest, its path
    ends with [.i]. *)
Theorem preprocessed_file_not_source (output_dir : Path) (cc_hash : string) :
  Shape.all_chars Shape.is_hex_digit cc_hash = true ->
  CompilerMatcher.is_source_arg
    (PurePath.to_str
       (PurePath.join output_dir (Preprocess.preprocessed_result_file cc_hash)))
  = false.
Proof.
  intros Hh.
  assert (Hclean : Shape.clean_part (cc_hash +:+ ".i") = true).
  { unfold Shape.clean_part, PurePath.keep_part.
    rewrite StrFacts.occurs_append.
    rewrite (MatchFacts.all_chars_occurs _ "/"%char _ Hh) by reflexivity.
    assert (Hlen : (2 <= String.length (cc_hash +:+ ".i"))%nat).
    { rewrite StrFacts.length_append. cbn. lia. }
    destruct (String.eqb_spec (cc_hash +:+ ".i") "") as [E|_];
      [rewrite E in Hlen; cbn in Hlen; lia|].
    destruct (String.eqb_spec (cc_hash +:+ ".i") ".") as [E|_];
      [rewrite E in Hlen; cbn in Hlen; lia|].
    reflexivity. }
  unfold Preprocess.preprocessed_result_file.
  rewrite (StagingFacts.of_str_clean _ Hclean).
  set (dir := PurePath.join (PurePath.join (PurePath.of_str "preprocessed") _) _).
  assert (Hend : exists r l,
            PurePath.join output_dir (PurePath.join dir (mkPath "" [cc_hash +:+ ".i"]))
            = mkPath r (l ++ [cc_hash +:+ ".i"])).
  { unfold PurePath.join at 2. cbn [root parts String.eqb].
    unfold PurePath.join. cbn [root parts].
    destruct (String.eqb (root dir) "").
    - exists (root output_dir), (parts output_dir ++ parts dir).
      rewrite <- app_assoc. reflexivity.
    - exists (root dir), (parts dir). reflexivity. }
  destruct Hend as [r [l ->]].
  destruct (StagingFacts.to_str_snoc r l (cc_hash +:+ ".i")) as [q ->].
  rewrite <- StrFacts.append_assoc. apply StagingFacts.dot_i_not_source.
Qed.

Lemma preprocessed_file_not_source_witness :
  CompilerMatcher.is_source_arg
    (PurePath.to_str
       (PurePath.join (PurePath.of_str "/out")
          (Preprocess.preprocessed_result_file "0a1b2c3d")))
  = false.
Proof.
  apply (preprocessed_file_not_source (PurePath.of_str "/out") "0a1b2c3d").
  vm_compute. reflexivity.
Defined.
